(** * iSCSI target-topology engine (middlewared/plugins/iscsi.py)

    A shallow embedding of the iSCSI plugin: the relational tables the
    plugin declares, the collaborators it talks to (datastore, service
    notifier, session list, file system) and the six CRUD services plus
    the filesystem attachment delegate, followed by the properties of
    the identity allocators, the child-collection reconcilers, the
    validators and the orchestrators.

    Python values are modelled as follows: [int] is [Z], [str] is
    [string] (characters are code points 0..255), a nullable column is an
    [option], a dict with a fixed set of keys is a [Record], a list of
    rows is a [list] in primary-key order.  Every coroutine becomes a
    computation in the monad [M], which threads the [World] and may
    raise an exception. *)

From Stdlib Require Import ZArith List String Ascii Bool Lia Arith.
From Stdlib Require Import DecimalString Strings.Byte Sorting.Sorted.
Import ListNotations.

Open Scope string_scope.
Open Scope Z_scope.
Open Scope list_scope.

Notation "a ^^ b" := (String.append a b) (at level 60, right associativity).

(* ================================================================== *)
(** * Part I. The model *)
(* ================================================================== *)

(** ** Python built-ins used by the plugin *)

(** [str(n)] for an int. *)
Definition str_of_Z (z : Z) : string := NilZero.string_of_int (Z.to_int z).

(** [float(n)] for an int: the nearest double, ties to the even
    significand; [None] stands for the [OverflowError] of an int too
    large to convert.  The double of an int is an integer again, so it
    is given as one. *)
Definition float_of_int (n : Z) : option Z :=
  let a := Z.abs n in
  if a <? 2 ^ 53 then Some n
  else
    let e := Z.log2 a - 52 in
    let q := a / 2 ^ e in
    let r := a mod 2 ^ e in
    let half := 2 ^ (e - 1) in
    let q' :=
      if r <? half then q
      else if half <? r then q + 1
      else if Z.even q then q else q + 1 in
    let v := q' * 2 ^ e in
    if 2 ^ 1024 <=? v then None else Some (Z.sgn n * v).

(** The double-quote character, [chr(34)]. *)
Definition dquote : ascii := ascii_of_nat 34.
Definition dq : string := String dquote EmptyString.

(** The line feed used by [compress], [chr(10)]. *)
Definition LF : string := String (ascii_of_nat 10) EmptyString.

(** [c in s] for a one-character needle. *)
Fixpoint str_contains (c : ascii) (s : string) : bool :=
  match s with
  | EmptyString => false
  | String c' s' => Ascii.eqb c c' || str_contains c s'
  end.

(** [s.startswith(p)]. *)
Definition startswith (s p : string) : bool := String.prefix p s.

(** [s[:n]]. *)
Definition slice_to (n : nat) (s : string) : string := String.substring 0 n s.

(** [len(s)] as an int. *)
Definition len (s : string) : Z := Z.of_nat (String.length s).

(** [sep.join(l)]. *)
Definition join (sep : string) (l : list string) : string := String.concat sep l.

(** [ch.isspace()] on the code points 0..255: the ASCII white space
    9..13, 28..31 and 32, then U+0085 and U+00A0. *)
Definition isspace (c : ascii) : bool :=
  let n := nat_of_ascii c in
  ((9 <=? n) && (n <=? 13) || (28 <=? n) && (n <=? 32)
   || (n =? 133) || (n =? 160))%nat.

(** The word collected so far, emitted when a separator or the end of
    the string is met; nothing is emitted for an empty run. *)
Definition flush (cur : string) : list string :=
  match cur with EmptyString => [] | _ => [cur] end.

(** [s.split()] with no argument: maximal runs of non-space characters.
    [cur] is the run being scanned. *)
Fixpoint split_from (cur s : string) : list string :=
  match s with
  | EmptyString => flush cur
  | String c s' =>
      if isspace c then flush cur ++ split_from EmptyString s'
      else split_from (cur ^^ String c EmptyString) s'
  end.

Definition split (s : string) : list string := split_from EmptyString s.

(** Truth value of a nullable int, of a str, of a list. *)
Definition truthy (o : option Z) : bool :=
  match o with Some z => negb (z =? 0) | None => false end.

Definition nonempty_str (s : string) : bool :=
  match s with EmptyString => false | _ => true end.

Definition opt_Z_eqb (a b : option Z) : bool :=
  match a, b with
  | Some x, Some y => x =? y
  | None, None => true
  | _, _ => false
  end.

Definition opt_str_eqb (a b : option string) : bool :=
  match a, b with
  | Some x, Some y => String.eqb x y
  | None, None => true
  | _, _ => false
  end.

Definition mem_Z (x : Z) (l : list Z) : bool := existsb (Z.eqb x) l.
Definition mem_str (x : string) (l : list string) : bool := existsb (String.eqb x) l.

(** [range(a, b)]. *)
Definition py_range (a b : Z) : list Z :=
  map (fun i => a + Z.of_nat i) (seq 0 (Z.to_nat (b - a))).

(** [max(l)] on a non-empty list. *)
Definition py_max (l : list Z) : Z := fold_left Z.max (tl l) (hd 0 l).

(** [l[-1]] on a non-empty list. *)
Definition py_last (l : list Z) : Z := last l 0.

(** A Python [set] built from a list: its distinct elements.  The
    iteration order of a set is unspecified; the model enumerates the
    elements in order of first occurrence, and no property below
    depends on that choice. *)
Fixpoint py_set {A} (eqb : A -> A -> bool) (l : list A) : list A :=
  match l with
  | [] => []
  | x :: l' => x :: filter (fun y => negb (eqb x y)) (py_set eqb l')
  end.

(** [a - b] and [a.difference(b)] on sets. *)
Definition set_diff {A} (eqb : A -> A -> bool) (a b : list A) : list A :=
  filter (fun x => negb (existsb (eqb x) b)) a.

(** [sorted(l, key=key)]: a stable insertion sort. *)
Fixpoint insert_by {A} (key : A -> Z) (x : A) (l : list A) : list A :=
  match l with
  | [] => [x]
  | y :: l' => if key y <=? key x then y :: insert_by key x l' else x :: l
  end.

Definition sorted_by {A} (key : A -> Z) (l : list A) : list A :=
  fold_left (fun acc x => insert_by key x acc) l [].

Definition py_sorted (l : list Z) : list Z := sorted_by (fun x => x) l.

(** [enumerate(l)], counting from [i]. *)
Fixpoint enumerate_from {A} (i : Z) (l : list A) : list (Z * A) :=
  match l with
  | [] => []
  | x :: l' => (i, x) :: enumerate_from (i + 1) l'
  end.

Definition enumerate {A} (l : list A) : list (Z * A) := enumerate_from 0 l.

(** Lower-case hexadecimal, as [binascii.hexlify] prints a byte. *)
Definition hexdigit (n : N) : ascii :=
  if (n <? 10)%N then ascii_of_N (48 + n) else ascii_of_N (87 + n).

Definition hex_of_byte (b : byte) : string :=
  let n := Byte.to_N b in
  String (hexdigit (n / 16)%N) (String (hexdigit (n mod 16)%N) EmptyString).

Fixpoint hexlify (bs : list byte) : string :=
  match bs with
  | [] => EmptyString
  | b :: bs' => hex_of_byte b ^^ hexlify bs'
  end.

Definition is_hexdigit (c : ascii) : bool :=
  let n := nat_of_ascii c in
  ((48 <=? n) && (n <=? 57) || (97 <=? n) && (n <=? 102))%nat.

Fixpoint all_hex (s : string) : bool :=
  match s with
  | EmptyString => true
  | String c s' => is_hexdigit c && all_hex s'
  end.

(** [AUTHMETHOD_LEGACY_MAP], a bidict from the stored spelling to the
    API spelling, with [.get] and [.inv.get(_, default)]. *)
Definition AUTHMETHOD_LEGACY_MAP : list (string * string) :=
  [("None", "NONE"); ("CHAP", "CHAP"); ("CHAP Mutual", "CHAP_MUTUAL")].

Definition legacy_get (k : string) : option string :=
  option_map snd (find (fun kv => String.eqb (fst kv) k) AUTHMETHOD_LEGACY_MAP).

Definition legacy_inv_get (v : string) (default : string) : string :=
  match find (fun kv => String.eqb (snd kv) v) AUTHMETHOD_LEGACY_MAP with
  | Some kv => fst kv
  | None => default
  end.

(** [RE_TARGET_NAME = ^[-a-z0-9\.:]+$]; with [re.search] the [$] also
    matches just before one final line feed. *)
Definition target_name_char (c : ascii) : bool :=
  let n := nat_of_ascii c in
  ((97 <=? n) && (n <=? 122) || (48 <=? n) && (n <=? 58)
   || (n =? 45) || (n =? 46))%nat.

Fixpoint target_name_tail (s : string) : bool :=
  match s with
  | EmptyString => true
  | String c EmptyString => target_name_char c || (nat_of_ascii c =? 10)%nat
  | String c s' => target_name_char c && target_name_tail s'
  end.

Definition RE_TARGET_NAME_search (s : string) : bool :=
  match s with
  | EmptyString => false
  | String c s' => target_name_char c && target_name_tail s'
  end.

(** ** The relational tables

    One record per [sa.Model]; the column prefix of each table is
    dropped.  Foreign keys hold the primary key of the row referred to. *)

(** [services_iscsitargetportal]. *)
Record PortalRow := {
  p_id : Z;
  p_tag : Z;
  p_comment : string;
  p_discoveryauthmethod : string;
  p_discoveryauthgroup : option Z }.

(** [services_iscsitargetportalip]. *)
Record PortalIpRow := {
  pip_id : Z;
  pip_portal : Z;
  pip_ip : string;
  pip_port : Z }.

(** [services_iscsitargetauthcredential]. *)
Record AuthRow := {
  a_id : Z;
  a_tag : Z;
  a_user : string;
  a_secret : string;
  a_peeruser : string;
  a_peersecret : string }.

(** [services_iscsitargetauthorizedinitiator]. *)
Record InitiatorRow := {
  i_id : Z;
  i_initiators : string;
  i_auth_network : string;
  i_comment : string }.

(** [services_iscsitarget]. *)
Record TargetRow := {
  t_id : Z;
  t_name : string;
  t_alias : option string;
  t_mode : string }.

(** [services_iscsitargetgroups]; the [initialdigest] column keeps its
    default and is dropped by [extend], it is not carried. *)
Record GroupRow := {
  g_id : Z;
  g_target : Z;
  g_portalgroup : Z;
  g_initiatorgroup : option Z;
  g_authtype : string;
  g_authgroup : option Z }.

(** The extent columns no check of the plugin reads. *)
Record ExtentMisc := {
  x_pblocksize : bool;
  x_avail_threshold : option Z;
  x_comment : string;
  x_insecure_tpc : bool;
  x_xen : bool;
  x_rpm : string;
  x_ro : bool;
  x_enabled : bool }.

(** [services_iscsitargetextent].  [filesize] is carried as the int the
    API writes. *)
Record ExtentRow := {
  e_id : Z;
  e_name : string;
  e_serial : option string;
  e_type : string;
  e_path : option string;
  e_filesize : Z;
  e_blocksize : Z;
  e_naa : string;
  e_vendor : option string;
  e_misc : ExtentMisc }.

(** [services_iscsitargettoextent]. *)
Record TargetExtentRow := {
  te_id : Z;
  te_extent : Z;
  te_target : Z;
  te_lunid : Z }.

Inductive Table :=
| services_iscsitargetportal
| services_iscsitargetportalip
| services_iscsitargetauthcredential
| services_iscsitargetauthorizedinitiator
| services_iscsitarget
| services_iscsitargetgroups
| services_iscsitargetextent
| services_iscsitargettoextent.

(** ** Collaborators *)

(** What the plugin reads from collaborators outside the engine and
    never writes. *)
Record Env := {
  (** [iscsi.global.config]: the [alua] flag and the [basename]. *)
  alua : bool;
  basename : string;
  (** Virtual addresses of interfaces and aliases ([network.Interfaces],
      [network.Alias]) and the addresses [interface.query] reports. *)
  int_vips : list string;
  alias_vips : list string;
  interface_addresses : list string;
  (** [iscsi.global.sessions]: the target name of each live session. *)
  sessions : list string;
  (** [service.started('iscsitarget')]. *)
  service_started : bool;
  (** [system.feature_enabled('FIBRECHANNEL')]. *)
  fibrechannel : bool;
  (** [zvol_path_to_name], [pool.dataset.query] by id, and
      [check_path_resides_within_volume]. *)
  zvol_path_to_name : string -> string;
  dataset_exists : string -> bool;
  resides_within_volume : string -> bool;
  (** Exit status of the [scstadmin] call. *)
  scstadmin_returncode : Z;
  (** [hashlib.sha256(str(uuid).encode()).hexdigest()] of the uuid made
      from sixteen random bytes. *)
  uuid_sha256_hexdigest : list byte -> string }.

(** What an operation does to the outside, in the order it happens.
    Reads are not recorded. *)
Inductive Event :=
| EvInsert (t : Table) (id : Z)
| EvUpdate (t : Table) (id : Z)
| EvDelete (t : Table) (id : Z)
| EvDeleteWhere (t : Table)
| EvNotify (service verb : string)
| EvRun (argv : list string)
| EvLogWarning (msg : string)
| EvLogError (msg : string)
| EvMkdir (path : string)
| EvUnlink (path : string).

Record World := {
  portals : list PortalRow;
  portalips : list PortalIpRow;
  auths : list AuthRow;
  initiators : list InitiatorRow;
  targets : list TargetRow;
  groups : list GroupRow;
  extents : list ExtentRow;
  targetextents : list TargetExtentRow;
  (** The file system as the plugin sees it: regular files, and other
      paths that exist (directories, device nodes). *)
  fs_files : list string;
  fs_others : list string;
  (** Events so far, oldest first. *)
  log : list Event;
  (** Fault schedule of the datastore: one entry is consumed by each
      write, [true] makes that write raise; an exhausted schedule means
      no further fault. *)
  faults : list bool;
  (** The operating system's random bytes and how many were drawn. *)
  entropy : nat -> byte;
  entropy_pos : nat;
  env : Env }.

Definition set_portals (v : list PortalRow) (w : World) : World :=
  {| portals := v; portalips := portalips w; auths := auths w;
     initiators := initiators w; targets := targets w; groups := groups w;
     extents := extents w; targetextents := targetextents w;
     fs_files := fs_files w; fs_others := fs_others w; log := log w;
     faults := faults w; entropy := entropy w;
     entropy_pos := entropy_pos w; env := env w |}.

Definition set_portalips (v : list PortalIpRow) (w : World) : World :=
  {| portals := portals w; portalips := v; auths := auths w;
     initiators := initiators w; targets := targets w; groups := groups w;
     extents := extents w; targetextents := targetextents w;
     fs_files := fs_files w; fs_others := fs_others w; log := log w;
     faults := faults w; entropy := entropy w;
     entropy_pos := entropy_pos w; env := env w |}.

Definition set_auths (v : list AuthRow) (w : World) : World :=
  {| portals := portals w; portalips := portalips w; auths := v;
     initiators := initiators w; targets := targets w; groups := groups w;
     extents := extents w; targetextents := targetextents w;
     fs_files := fs_files w; fs_others := fs_others w; log := log w;
     faults := faults w; entropy := entropy w;
     entropy_pos := entropy_pos w; env := env w |}.

Definition set_initiators (v : list InitiatorRow) (w : World) : World :=
  {| portals := portals w; portalips := portalips w; auths := auths w;
     initiators := v; targets := targets w; groups := groups w;
     extents := extents w; targetextents := targetextents w;
     fs_files := fs_files w; fs_others := fs_others w; log := log w;
     faults := faults w; entropy := entropy w;
     entropy_pos := entropy_pos w; env := env w |}.

Definition set_targets (v : list TargetRow) (w : World) : World :=
  {| portals := portals w; portalips := portalips w; auths := auths w;
     initiators := initiators w; targets := v; groups := groups w;
     extents := extents w; targetextents := targetextents w;
     fs_files := fs_files w; fs_others := fs_others w; log := log w;
     faults := faults w; entropy := entropy w;
     entropy_pos := entropy_pos w; env := env w |}.

Definition set_groups (v : list GroupRow) (w : World) : World :=
  {| portals := portals w; portalips := portalips w; auths := auths w;
     initiators := initiators w; targets := targets w; groups := v;
     extents := extents w; targetextents := targetextents w;
     fs_files := fs_files w; fs_others := fs_others w; log := log w;
     faults := faults w; entropy := entropy w;
     entropy_pos := entropy_pos w; env := env w |}.

Definition set_extents (v : list ExtentRow) (w : World) : World :=
  {| portals := portals w; portalips := portalips w; auths := auths w;
     initiators := initiators w; targets := targets w; groups := groups w;
     extents := v; targetextents := targetextents w;
     fs_files := fs_files w; fs_others := fs_others w; log := log w;
     faults := faults w; entropy := entropy w;
     entropy_pos := entropy_pos w; env := env w |}.

Definition set_targetextents (v : list TargetExtentRow) (w : World) : World :=
  {| portals := portals w; portalips := portalips w; auths := auths w;
     initiators := initiators w; targets := targets w; groups := groups w;
     extents := extents w; targetextents := v;
     fs_files := fs_files w; fs_others := fs_others w; log := log w;
     faults := faults w; entropy := entropy w;
     entropy_pos := entropy_pos w; env := env w |}.

Definition set_fs (files others : list string) (w : World) : World :=
  {| portals := portals w; portalips := portalips w; auths := auths w;
     initiators := initiators w; targets := targets w; groups := groups w;
     extents := extents w; targetextents := targetextents w;
     fs_files := files; fs_others := others; log := log w;
     faults := faults w; entropy := entropy w;
     entropy_pos := entropy_pos w; env := env w |}.

Definition set_log (v : list Event) (w : World) : World :=
  {| portals := portals w; portalips := portalips w; auths := auths w;
     initiators := initiators w; targets := targets w; groups := groups w;
     extents := extents w; targetextents := targetextents w;
     fs_files := fs_files w; fs_others := fs_others w; log := v;
     faults := faults w; entropy := entropy w;
     entropy_pos := entropy_pos w; env := env w |}.

Definition set_faults (v : list bool) (w : World) : World :=
  {| portals := portals w; portalips := portalips w; auths := auths w;
     initiators := initiators w; targets := targets w; groups := groups w;
     extents := extents w; targetextents := targetextents w;
     fs_files := fs_files w; fs_others := fs_others w; log := log w;
     faults := v; entropy := entropy w;
     entropy_pos := entropy_pos w; env := env w |}.

Definition set_entropy_pos (v : nat) (w : World) : World :=
  {| portals := portals w; portalips := portalips w; auths := auths w;
     initiators := initiators w; targets := targets w; groups := groups w;
     extents := extents w; targetextents := targetextents w;
     fs_files := fs_files w; fs_others := fs_others w; log := log w;
     faults := faults w; entropy := entropy w;
     entropy_pos := v; env := env w |}.

(** ** Exceptions and the monad of coroutines *)

(** One entry of a [ValidationErrors]: attribute, message, errno. *)
Record VError := { ve_attribute : string; ve_errmsg : string; ve_errno : Z }.

Definition EINVAL : Z := 22.
Definition ENOENT : Z := 2.

Definition verr (attribute errmsg : string) : VError :=
  {| ve_attribute := attribute; ve_errmsg := errmsg; ve_errno := EINVAL |}.

Inductive Exn :=
| ValidationErrors (errors : list VError)
| CallError (errmsg : string)
| InstanceNotFound (t : Table) (id : Z)
| TypeError (msg : string)
| OverflowError
| ZeroDivisionError
| DatastoreError (t : Table).

Inductive Result (A : Type) :=
| Ok (a : A)
| Raise (e : Exn).
Arguments Ok {A} a.
Arguments Raise {A} e.

Definition M (A : Type) : Type := World -> Result A * World.

Definition ret {A} (a : A) : M A := fun w => (Ok a, w).

Definition raise {A} (e : Exn) : M A := fun w => (Raise e, w).

Definition bind {A B} (c : M A) (k : A -> M B) : M B :=
  fun w =>
    match c w with
    | (Ok a, w') => k a w'
    | (Raise e, w') => (Raise e, w')
    end.

Notation "x <- c ;; k" := (bind c (fun x => k))
  (at level 61, c at next level, right associativity).
Notation "c ;;; k" := (bind c (fun _ => k))
  (at level 61, right associativity).

(** [try: c  except Exception as e: h e]. *)
Definition try_except {A} (c : M A) (h : Exn -> M A) : M A :=
  fun w =>
    match c w with
    | (Ok a, w') => (Ok a, w')
    | (Raise e, w') => h e w'
    end.

(** [try: return c  finally: f]. *)
Definition try_finally {A} (c : M A) (f : M unit) : M A :=
  fun w =>
    match c w with
    | (r, w') =>
        match f w' with
        | (Ok _, w'') => (r, w'')
        | (Raise e, w'') => (Raise e, w'')
        end
    end.

(** [for x in l: body x]. *)
Fixpoint for_each {A} (l : list A) (body : A -> M unit) : M unit :=
  match l with
  | [] => ret tt
  | x :: l' => body x ;;; for_each l' body
  end.

Definition get_world : M World := fun w => (Ok w, w).

Definition emit (e : Event) : M unit :=
  fun w => (Ok tt, set_log (log w ++ [e]) w).

(** [if verrors: raise verrors] and [verrors.check()]. *)
Definition check (verrors : list VError) : M unit :=
  match verrors with
  | [] => ret tt
  | _ => raise (ValidationErrors verrors)
  end.

(** ** The storage collaborator

    [query], [insert], [update] and [delete] of the datastore.  A table
    is a list of rows in primary-key order; a new row gets a primary key
    larger than every key in the table.  Every write first consults the
    fault schedule and raises without touching the table when a fault is
    due (integrity errors and connection failures alike). *)

Record TableOps (R : Type) := {
  tbl : Table;
  rows : World -> list R;
  set_rows : list R -> World -> World;
  row_id : R -> Z;
  with_id : Z -> R -> R }.
Arguments tbl {R} _.
Arguments rows {R} _ _.
Arguments set_rows {R} _ _ _.
Arguments row_id {R} _ _.
Arguments with_id {R} _ _ _.

Definition PortalT : TableOps PortalRow :=
  {| tbl := services_iscsitargetportal; rows := portals; set_rows := set_portals;
     row_id := p_id;
     with_id := fun k r =>
       {| p_id := k; p_tag := p_tag r; p_comment := p_comment r;
          p_discoveryauthmethod := p_discoveryauthmethod r;
          p_discoveryauthgroup := p_discoveryauthgroup r |} |}.

Definition PortalIpT : TableOps PortalIpRow :=
  {| tbl := services_iscsitargetportalip; rows := portalips;
     set_rows := set_portalips; row_id := pip_id;
     with_id := fun k r =>
       {| pip_id := k; pip_portal := pip_portal r; pip_ip := pip_ip r;
          pip_port := pip_port r |} |}.

Definition AuthT : TableOps AuthRow :=
  {| tbl := services_iscsitargetauthcredential; rows := auths;
     set_rows := set_auths; row_id := a_id;
     with_id := fun k r =>
       {| a_id := k; a_tag := a_tag r; a_user := a_user r;
          a_secret := a_secret r; a_peeruser := a_peeruser r;
          a_peersecret := a_peersecret r |} |}.

Definition InitiatorT : TableOps InitiatorRow :=
  {| tbl := services_iscsitargetauthorizedinitiator; rows := initiators;
     set_rows := set_initiators; row_id := i_id;
     with_id := fun k r =>
       {| i_id := k; i_initiators := i_initiators r;
          i_auth_network := i_auth_network r; i_comment := i_comment r |} |}.

Definition TargetT : TableOps TargetRow :=
  {| tbl := services_iscsitarget; rows := targets; set_rows := set_targets;
     row_id := t_id;
     with_id := fun k r =>
       {| t_id := k; t_name := t_name r; t_alias := t_alias r;
          t_mode := t_mode r |} |}.

Definition GroupT : TableOps GroupRow :=
  {| tbl := services_iscsitargetgroups; rows := groups; set_rows := set_groups;
     row_id := g_id;
     with_id := fun k r =>
       {| g_id := k; g_target := g_target r; g_portalgroup := g_portalgroup r;
          g_initiatorgroup := g_initiatorgroup r; g_authtype := g_authtype r;
          g_authgroup := g_authgroup r |} |}.

Definition ExtentT : TableOps ExtentRow :=
  {| tbl := services_iscsitargetextent; rows := extents;
     set_rows := set_extents; row_id := e_id;
     with_id := fun k r =>
       {| e_id := k; e_name := e_name r; e_serial := e_serial r;
          e_type := e_type r; e_path := e_path r; e_filesize := e_filesize r;
          e_blocksize := e_blocksize r; e_naa := e_naa r;
          e_vendor := e_vendor r; e_misc := e_misc r |} |}.

Definition TargetExtentT : TableOps TargetExtentRow :=
  {| tbl := services_iscsitargettoextent; rows := targetextents;
     set_rows := set_targetextents; row_id := te_id;
     with_id := fun k r =>
       {| te_id := k; te_extent := te_extent r; te_target := te_target r;
          te_lunid := te_lunid r |} |}.

Definition fresh_id (ids : list Z) : Z := 1 + fold_right Z.max 0 ids.

Definition take_fault : M bool :=
  fun w => (Ok (hd false (faults w)), set_faults (tl (faults w)) w).

Definition datastore_write {A} (t : Table) (op : M A) : M A :=
  b <- take_fault ;; if b then raise (DatastoreError t) else op.

(** [datastore.query(table, filters)]: a read. *)
Definition datastore_query {R} (T : TableOps R) (filters : R -> bool)
  (w : World) : list R :=
  filter filters (rows T w).

(** [datastore.insert(table, record)], returning the new primary key. *)
Definition datastore_insert {R} (T : TableOps R) (r : R) : M Z :=
  datastore_write (tbl T)
    (fun w =>
       let pk := fresh_id (map (row_id T) (rows T w)) in
       (Ok pk,
        set_log (log w ++ [EvInsert (tbl T) pk])
          (set_rows T (rows T w ++ [with_id T pk r]) w))).

(** [datastore.update(table, id, changes)]. *)
Definition datastore_update {R} (T : TableOps R) (id : Z) (f : R -> R) : M unit :=
  datastore_write (tbl T)
    (fun w =>
       (Ok tt,
        set_log (log w ++ [EvUpdate (tbl T) id])
          (set_rows T
             (map (fun r => if row_id T r =? id then f r else r) (rows T w)) w))).

(** [datastore.delete(table, id)]. *)
Definition datastore_delete {R} (T : TableOps R) (id : Z) : M bool :=
  datastore_write (tbl T)
    (fun w =>
       (Ok true,
        set_log (log w ++ [EvDelete (tbl T) id])
          (set_rows T (filter (fun r => negb (row_id T r =? id)) (rows T w)) w))).

(** [datastore.delete(table, filters)]. *)
Definition datastore_delete_where {R} (T : TableOps R) (filters : R -> bool)
  : M bool :=
  datastore_write (tbl T)
    (fun w =>
       (Ok true,
        set_log (log w ++ [EvDeleteWhere (tbl T)])
          (set_rows T (filter (fun r => negb (filters r)) (rows T w)) w))).

Definition nonempty {A} (l : list A) : bool :=
  match l with [] => false | _ => true end.

(** ** The service notifier

    Modelled from the spec: [_service_change(service, verb)] of
    [ServiceChangeMixin], the fire-and-forget
    [notify(service_name, action)] of the service notifier
    collaborator. *)
Definition _service_change (service verb : string) : M unit :=
  emit (EvNotify service verb).

(** ** ISCSIPortalService *)

(** One element of [listen]. *)
Record Listen := { ip : string; port : Z }.

Definition listen_eqb (a b : Listen) : bool :=
  String.eqb (ip a) (ip b) && (port a =? port b).

(** Argument of [iscsi.portal.create]. *)
Record PortalCreate := {
  pc_comment : string;
  pc_discovery_authmethod : string;
  pc_discovery_authgroup : option Z;
  pc_listen : list Listen }.

(** Argument of [iscsi.portal.update]: every key is optional. *)
Record PortalUpdate := {
  pu_comment : option string;
  pu_discovery_authmethod : option string;
  pu_discovery_authgroup : option (option Z);
  pu_listen : option (list Listen) }.

(** A portal as [config_extend] returns it; [portal_id] and
    [portal_tag] are absent from the dict of a create. *)
Record Portal := {
  portal_id : option Z;
  portal_tag : option Z;
  portal_comment : string;
  listen : list Listen;
  discovery_authmethod : option string;
  discovery_authgroup : option Z }.

Definition portal_config_extend (w : World) (r : PortalRow) : Portal :=
  {| portal_id := Some (p_id r);
     portal_tag := Some (p_tag r);
     portal_comment := p_comment r;
     listen :=
       map (fun x => {| ip := pip_ip x; port := pip_port x |})
         (datastore_query PortalIpT (fun x => pip_portal x =? p_id r) w);
     discovery_authmethod := legacy_get (p_discoveryauthmethod r);
     discovery_authgroup := p_discoveryauthgroup r |}.

(** [iscsi.portal.query(filters)]: rows are extended, then filtered. *)
Definition portal_query (filters : Portal -> bool) (w : World) : list Portal :=
  filter filters (map (portal_config_extend w) (portals w)).

(** [iscsi.portal.query([], {'order_by': ['tag']})]. *)
Definition portal_query_order_by_tag (w : World) : list Portal :=
  sorted_by (fun p => match portal_tag p with Some t => t | None => 0 end)
    (portal_query (fun _ => true) w).

(** [get_instance(id)] comes with [CRUDService], from which every
    service of the plugin inherits it: the first element of the query
    by primary key.  What it does when there is none is taken to be the
    error [InstanceNotFound] of that table and key; the plugin itself
    never handles it. *)
Definition portal_get_instance (id : Z) : M Portal :=
  fun w =>
    match portal_query (fun p => opt_Z_eqb (portal_id p) (Some id)) w with
    | p :: _ => (Ok p, w)
    | [] => (Raise (InstanceNotFound services_iscsitargetportal id), w)
    end.

(** The keys of the dict [listen_ip_choices] returns. *)
Definition listen_ip_choices (w : World) : list string :=
  ["0.0.0.0"; "::"] ++
  (if alua (env w) then int_vips (env w) ++ alias_vips (env w)
   else interface_addresses (env w)).

Definition portal_validate_listen (w : World) (schema : string) (data : Portal)
  (system_ips new_ips : list string) (i : Listen) : list VError :=
  (if nonempty
        (datastore_query PortalIpT
           (fun r =>
              String.eqb (pip_ip r) (ip i) && (pip_port r =? port i)
              && (if String.eqb schema "iscsiportal_update"
                  then negb (opt_Z_eqb (Some (pip_portal r)) (portal_id data))
                  else true)) w)
   then [verr (schema ^^ ".listen")
           (ip i ^^ ":" ^^ str_of_Z (port i) ^^ " already in use.")]
   else []) ++
  (if (mem_str (ip i) new_ips || negb (nonempty new_ips))
      && negb (mem_str (ip i) system_ips)
   then [verr (schema ^^ ".listen")
           ("IP " ^^ ip i ^^ " not configured on this system.")]
   else []).

(** [__validate(verrors, data, schema, old)]: the errors it adds. *)
Definition portal_validate (w : World) (data : Portal) (schema : string)
  (old : option Portal) : list VError :=
  (match listen data with
   | [] => [verr (schema ^^ ".listen") "At least one listen entry is required."]
   | _ =>
       let system_ips := listen_ip_choices w in
       let new_ips :=
         match old with
         | Some o =>
             set_diff String.eqb (py_set String.eqb (map ip (listen data)))
               (py_set String.eqb (map ip (listen o)))
         | None => []
         end in
       flat_map (portal_validate_listen w schema data system_ips new_ips)
         (listen data)
   end) ++
  (if truthy (discovery_authgroup data)
   then
     if nonempty
          (datastore_query AuthT
             (fun a => opt_Z_eqb (Some (a_tag a)) (discovery_authgroup data)) w)
     then []
     else [{| ve_attribute := schema ^^ ".discovery_authgroup";
              ve_errmsg :=
                "Auth Group " ^^ dq
                ^^ match discovery_authgroup data with
                   | Some g => str_of_Z g
                   | None => "None"
                   end
                ^^ dq ^^ " not found.";
              ve_errno := ENOENT |}]
   else
     match discovery_authmethod data with
     | Some m =>
         if String.eqb m "CHAP" || String.eqb m "CHAP_MUTUAL"
         then [verr (schema ^^ ".discovery_authgroup")
                 "This field is required if discovery method is set to CHAP or CHAP Mutual."]
         else []
     | None => []
     end).

(** [__save_listen(pk, new, old)]: first the inserts of [new - old],
    then the deletes of [old - new]. *)
Definition portal_save_listen (pk : Z) (new : list Listen)
  (old : option (list Listen)) : M unit :=
  let new_listen_set := py_set listen_eqb new in
  let old_listen_set :=
    match old with
    | Some (x :: o) => py_set listen_eqb (x :: o)
    | _ => []
    end in
  for_each (set_diff listen_eqb new_listen_set old_listen_set)
    (fun i =>
       _ <- datastore_insert PortalIpT
              {| pip_id := 0; pip_portal := pk; pip_ip := ip i; pip_port := port i |} ;;
       ret tt) ;;;
  for_each (set_diff listen_eqb old_listen_set new_listen_set)
    (fun i =>
       w <- get_world ;;
       match datastore_query PortalIpT
               (fun r => (pip_portal r =? pk) && String.eqb (pip_ip r) (ip i)
                         && (pip_port r =? port i)) w with
       | portalip :: _ =>
           _ <- datastore_delete PortalIpT (pip_id portalip) ;; ret tt
       | [] => ret tt
       end).

(** The dict a create validates. *)
Definition portal_of_create (data : PortalCreate) : Portal :=
  {| portal_id := None; portal_tag := None;
     portal_comment := pc_comment data; listen := pc_listen data;
     discovery_authmethod := Some (pc_discovery_authmethod data);
     discovery_authgroup := pc_discovery_authgroup data |}.

(** [datastore.query(table, [], {'count': True})]. *)
Definition portal_count (w : World) : Z :=
  Z.of_nat (List.length (datastore_query PortalT (fun _ => true) w)).

(** The row a create inserts once [tag] is set and [listen] popped. *)
Definition portal_row_of_create (tag : Z) (data : PortalCreate) : PortalRow :=
  {| p_id := 0; p_tag := tag; p_comment := pc_comment data;
     p_discoveryauthmethod :=
       legacy_inv_get (pc_discovery_authmethod data) "None";
     p_discoveryauthgroup := pc_discovery_authgroup data |}.

Definition portal_do_create (data : PortalCreate) : M Portal :=
  w <- get_world ;;
  check (portal_validate w (portal_of_create data) "iscsiportal_create" None) ;;;
  (* tag attribute increments sequentially *)
  let tag := portal_count w + 1 in
  let listen := pc_listen data in
  pk <- datastore_insert PortalT (portal_row_of_create tag data) ;;
  try_except (portal_save_listen pk listen None)
    (fun e => _ <- datastore_delete PortalT pk ;; raise e) ;;;
  _service_change "iscsitarget" "reload" ;;;
  portal_get_instance pk.

(** [new = old.copy(); new.update(data)]. *)
Definition portal_merge (old : Portal) (data : PortalUpdate) : Portal :=
  {| portal_id := portal_id old;
     portal_tag := portal_tag old;
     portal_comment :=
       match pu_comment data with Some c => c | None => portal_comment old end;
     listen :=
       match pu_listen data with Some l => l | None => listen old end;
     discovery_authmethod :=
       match pu_discovery_authmethod data with
       | Some m => Some m
       | None => discovery_authmethod old
       end;
     discovery_authgroup :=
       match pu_discovery_authgroup data with
       | Some g => g
       | None => discovery_authgroup old
       end |}.

Definition portal_method_inv (m : option string) : string :=
  match m with
  | Some m => legacy_inv_get m "None"
  | None => "None"
  end.

Definition portal_do_update (pk : Z) (data : PortalUpdate) : M Portal :=
  old <- portal_get_instance pk ;;
  let new := portal_merge old data in
  w <- get_world ;;
  check (portal_validate w new "iscsiportal_update" (Some old)) ;;;
  portal_save_listen pk (listen new) (Some (listen old)) ;;;
  datastore_update PortalT pk
    (fun r =>
       {| p_id := p_id r;
          p_tag := match portal_tag new with Some t => t | None => p_tag r end;
          p_comment := portal_comment new;
          p_discoveryauthmethod := portal_method_inv (discovery_authmethod new);
          p_discoveryauthgroup := discovery_authgroup new |}) ;;;
  _service_change "iscsitarget" "reload" ;;;
  portal_get_instance pk.

Definition portal_do_delete (id : Z) : M bool :=
  _ <- portal_get_instance id ;;
  _ <- datastore_delete_where GroupT (fun g => g_portalgroup g =? id) ;;
  _ <- datastore_delete_where PortalIpT (fun r => pip_portal r =? id) ;;
  result <- datastore_delete PortalT id ;;
  w <- get_world ;;
  for_each (enumerate (portal_query_order_by_tag w))
    (fun ip =>
       match portal_id (snd ip) with
       | Some pid =>
           datastore_update PortalT pid
             (fun r =>
                {| p_id := p_id r; p_tag := fst ip + 1; p_comment := p_comment r;
                   p_discoveryauthmethod := p_discoveryauthmethod r;
                   p_discoveryauthgroup := p_discoveryauthgroup r |})
       | None => ret tt
       end) ;;;
  _service_change "iscsitarget" "reload" ;;;
  ret result.

(** ** iSCSITargetAuthCredentialService *)

(** Argument of [iscsi.auth.create]. *)
Record AuthCreate := {
  ac_tag : Z;
  ac_user : string;
  ac_secret : string;
  ac_peeruser : string;
  ac_peersecret : string }.

(** Argument of [iscsi.auth.update]. *)
Record AuthUpdate := {
  au_tag : option Z;
  au_user : option string;
  au_secret : option string;
  au_peeruser : option string;
  au_peersecret : option string }.

Definition auth_row_of (id : Z) (data : AuthCreate) : AuthRow :=
  {| a_id := id; a_tag := ac_tag data; a_user := ac_user data;
     a_secret := ac_secret data; a_peeruser := ac_peeruser data;
     a_peersecret := ac_peersecret data |}.

(** [iscsi.auth.query(filters)]; the service has no [extend]. *)
Definition auth_query (filters : AuthRow -> bool) (w : World) : list AuthRow :=
  datastore_query AuthT filters w.

(** [get_instance(id)], as for a portal. *)
Definition auth_get_instance (id : Z) : M AuthRow :=
  fun w =>
    match auth_query (fun a => a_id a =? id) w with
    | a :: _ => (Ok a, w)
    | [] => (Raise (InstanceNotFound services_iscsitargetauthcredential id), w)
    end.

(** [validate(data, schema_name, verrors)]: the errors it adds. *)
Definition auth_validate (data : AuthRow) (schema_name : string) : list VError :=
  let secret := a_secret data in
  let peer_secret := a_peersecret data in
  let peer_user := a_peeruser data in
  (if negb (nonempty_str peer_user) && nonempty_str peer_secret
   then [verr (schema_name ^^ ".peersecret")
           "The peer user is required if you set a peer secret."]
   else []) ++
  (if (len secret <? 12) || (len secret >? 16)
   then [verr (schema_name ^^ ".secret")
           "Secret must be between 12 and 16 characters."]
   else []) ++
  (if negb (nonempty_str peer_user) then []
   else if negb (nonempty_str peer_secret)
   then [verr (schema_name ^^ ".peersecret")
           "The peer secret is required if you set a peer user."]
   else if String.eqb peer_secret secret
   then [verr (schema_name ^^ ".peersecret")
           "The peer secret cannot be the same as user secret."]
   else if (len peer_secret <? 12) || (len peer_secret >? 16)
   then [verr (schema_name ^^ ".peersecret")
           "Peer Secret must be between 12 and 16 characters."]
   else []).

Definition auth_do_create (data : AuthCreate) : M AuthRow :=
  check (auth_validate (auth_row_of 0 data) "iscsi_auth_create") ;;;
  id <- datastore_insert AuthT (auth_row_of 0 data) ;;
  _service_change "iscsitarget" "reload" ;;;
  auth_get_instance id.

(** The dict [is_in_use_by_portals_targets] returns. *)
Record Usages := { in_use : bool; usages : string }.

(** [is_in_use_by_portals_targets(id)].  The portal branch joins the
    portals' integer ids with [", ".join], which raises [TypeError] as
    soon as one portal refers to the tag; the group branch converts its
    ids with [str] first. *)
Definition auth_is_in_use_by_portals_targets (id : Z) : M Usages :=
  config <- auth_get_instance id ;;
  w <- get_world ;;
  let portals :=
    portal_query
      (fun p => opt_Z_eqb (discovery_authgroup p) (Some (a_tag config))) w in
  usages1 <-
    (match portals with
     | [] => ret []
     | _ => raise (TypeError "sequence item 0: expected str instance, int found")
     end) ;;
  let groups :=
    datastore_query GroupT
      (fun g => opt_Z_eqb (g_authgroup g) (Some (a_tag config))) w in
  let usages2 :=
    match groups with
    | [] => usages1
    | _ =>
        usages1 ++
        ["Authorized access of " ^^ str_of_Z id
         ^^ " is being used by following target(s): "
         ^^ join ", " (map (fun g => str_of_Z (g_target g)) groups)]
    end in
  ret {| in_use := nonempty usages2; usages := join LF usages2 |}.

Definition auth_merge (old : AuthRow) (data : AuthUpdate) : AuthRow :=
  {| a_id := a_id old;
     a_tag := match au_tag data with Some v => v | None => a_tag old end;
     a_user := match au_user data with Some v => v | None => a_user old end;
     a_secret :=
       match au_secret data with Some v => v | None => a_secret old end;
     a_peeruser :=
       match au_peeruser data with Some v => v | None => a_peeruser old end;
     a_peersecret :=
       match au_peersecret data with Some v => v | None => a_peersecret old end |}.

Definition auth_do_update (id : Z) (data : AuthUpdate) : M AuthRow :=
  old <- auth_get_instance id ;;
  let new := auth_merge old data in
  let verrors := auth_validate new "iscsi_auth_update" in
  w <- get_world ;;
  verrors <-
    (if negb (a_tag new =? a_tag old)
        && negb (nonempty
                   (auth_query
                      (fun a => (a_tag a =? a_tag old) && negb (a_id a =? id)) w))
     then
       u <- auth_is_in_use_by_portals_targets id ;;
       if in_use u
       then ret (verrors ++ [verr "iscsi_auth_update.tag" (usages u)])
       else ret verrors
     else ret verrors) ;;
  check verrors ;;;
  datastore_update AuthT id (fun _ => new) ;;;
  _service_change "iscsitarget" "reload" ;;;
  auth_get_instance id.

Definition auth_do_delete (id : Z) : M bool :=
  config <- auth_get_instance id ;;
  w <- get_world ;;
  (if negb (nonempty
              (auth_query
                 (fun a => (a_tag a =? a_tag config) && negb (a_id a =? id)) w))
   then
     u <- auth_is_in_use_by_portals_targets id ;;
     if in_use u then raise (CallError (usages u)) else ret tt
   else ret tt) ;;;
  datastore_delete AuthT id.

(** ** iSCSITargetAuthorizedInitiator *)

(** An initiator as the API handles it, argument of
    [iscsi.initiator.create] and result of [extend]. *)
Record Initiator := {
  initiator_id : option Z;
  initiators_ : list string;
  auth_network : list string;
  initiator_comment : string }.

(** Argument of [iscsi.initiator.update]. *)
Record InitiatorUpdate := {
  iu_initiators : option (list string);
  iu_auth_network : option (list string);
  iu_comment : option string }.

(** The same dict once [compress] has replaced both lists by strings;
    it is the row that is stored. *)
Definition initiator_compress (data : Initiator) : InitiatorRow :=
  {| i_id := match initiator_id data with Some k => k | None => 0 end;
     i_initiators :=
       match initiators_ data with
       | [] => "ALL"
       | l => join LF l
       end;
     i_auth_network :=
       match auth_network data with
       | [] => "ALL"
       | l => join LF l
       end;
     i_comment := initiator_comment data |}.

Definition initiator_extend (data : InitiatorRow) : Initiator :=
  {| initiator_id := Some (i_id data);
     initiators_ :=
       if String.eqb (i_initiators data) "ALL" then []
       else split (i_initiators data);
     auth_network :=
       if String.eqb (i_auth_network data) "ALL" then []
       else split (i_auth_network data);
     initiator_comment := i_comment data |}.

Definition initiator_query (filters : Initiator -> bool) (w : World)
  : list Initiator :=
  filter filters (map initiator_extend (initiators w)).

(** [get_instance(id)], as for a portal. *)
Definition initiator_get_instance (id : Z) : M Initiator :=
  fun w =>
    match initiator_query (fun i => opt_Z_eqb (initiator_id i) (Some id)) w with
    | i :: _ => (Ok i, w)
    | [] =>
        (Raise (InstanceNotFound services_iscsitargetauthorizedinitiator id), w)
    end.

Definition initiator_do_create (data : Initiator) : M Initiator :=
  let data := initiator_compress data in
  id <- datastore_insert InitiatorT data ;;
  _service_change "iscsitarget" "reload" ;;;
  initiator_get_instance id.

Definition initiator_merge (old : Initiator) (data : InitiatorUpdate) : Initiator :=
  {| initiator_id := initiator_id old;
     initiators_ :=
       match iu_initiators data with Some v => v | None => initiators_ old end;
     auth_network :=
       match iu_auth_network data with Some v => v | None => auth_network old end;
     initiator_comment :=
       match iu_comment data with Some v => v | None => initiator_comment old end |}.

Definition initiator_do_update (id : Z) (data : InitiatorUpdate) : M Initiator :=
  old <- initiator_get_instance id ;;
  let new := initiator_compress (initiator_merge old data) in
  datastore_update InitiatorT id (fun _ => new) ;;;
  _service_change "iscsitarget" "reload" ;;;
  initiator_get_instance id.

Definition initiator_do_delete (id : Z) : M bool :=
  _ <- initiator_get_instance id ;;
  result <- datastore_delete InitiatorT id ;;
  _service_change "iscsitarget" "reload" ;;;
  ret result.

(** ** iSCSITargetService, first part *)

(** One element of [groups] as the API handles it. *)
Record Group := {
  portal : Z;
  initiator : option Z;
  authmethod : option string;
  auth : option Z }.

(** The same dict once [compress] has replaced [authmethod] by the
    stored spelling. *)
Record GroupC := {
  gc_portal : Z;
  gc_initiator : option Z;
  gc_auth : option Z;
  gc_authmethod : string }.

Definition groupc_eqb (a b : GroupC) : bool :=
  (gc_portal a =? gc_portal b)
  && opt_Z_eqb (gc_initiator a) (gc_initiator b)
  && opt_Z_eqb (gc_auth a) (gc_auth b)
  && String.eqb (gc_authmethod a) (gc_authmethod b).

(** A target as [extend] returns it; [target_id] is absent from the dict
    of a create. *)
Record Target := {
  target_id : option Z;
  target_name : string;
  target_alias : option string;
  target_mode : string;
  target_groups : list Group }.

(** Argument of [iscsi.target.update]. *)
Record TargetUpdate := {
  tu_name : option string;
  tu_alias : option (option string);
  tu_mode : option string;
  tu_groups : option (list Group) }.

Definition upper_char (c : ascii) : ascii :=
  let n := nat_of_ascii c in
  if ((97 <=? n) && (n <=? 122))%nat then ascii_of_nat (n - 32) else c.

Definition lower_char (c : ascii) : ascii :=
  let n := nat_of_ascii c in
  if ((65 <=? n) && (n <=? 90))%nat then ascii_of_nat (n + 32) else c.

Fixpoint str_map (f : ascii -> ascii) (s : string) : string :=
  match s with
  | EmptyString => EmptyString
  | String c s' => String (f c) (str_map f s')
  end.

(** [s.upper()] and [s.lower()] on the ASCII letters of a mode. *)
Definition upper (s : string) : string := str_map upper_char s.
Definition lower (s : string) : string := str_map lower_char s.

Definition target_extend (w : World) (r : TargetRow) : Target :=
  {| target_id := Some (t_id r);
     target_name := t_name r;
     target_alias := t_alias r;
     target_mode := upper (t_mode r);
     target_groups :=
       map (fun g =>
              {| portal := g_portalgroup g;
                 initiator := g_initiatorgroup g;
                 authmethod := legacy_get (g_authtype g);
                 auth := g_authgroup g |})
         (datastore_query GroupT (fun g => g_target g =? t_id r) w) |}.

(** [iscsi.target.query(filters, {'force_sql_filters': True})]: the
    filters select rows, which are then extended. *)
Definition target_query_sql (filters : TargetRow -> bool) (w : World)
  : list Target :=
  map (target_extend w) (datastore_query TargetT filters w).

(** [get_instance(id)], as for a portal. *)
Definition target_get_instance (id : Z) : M Target :=
  fun w =>
    match target_query_sql (fun t => t_id t =? id) w with
    | t :: _ => (Ok t, w)
    | [] => (Raise (InstanceNotFound services_iscsitarget id), w)
    end.

(** [compress] on one group. *)
Definition group_compress (g : Group) : GroupC :=
  {| gc_portal := portal g;
     gc_initiator := initiator g;
     gc_auth := auth g;
     gc_authmethod :=
       match authmethod g with
       | Some m => legacy_inv_get m "NONE"
       | None => "NONE"
       end |}.

Definition is_chap (m : option string) : bool :=
  match m with
  | Some m => String.eqb m "CHAP" || String.eqb m "CHAP_MUTUAL"
  | None => false
  end.

Definition is_chap_mutual (m : option string) : bool :=
  match m with
  | Some m => String.eqb m "CHAP_MUTUAL"
  | None => false
  end.

(** One pass of the loop over [enumerate(data['groups'])] holds three
    [if] statements; these are the errors each adds for group [i].
    [portals] are the portals accepted so far. *)
Definition target_validate_group_portal (schema_name : string)
  (db_portals portals : list Z) (i : Z) (group : Group) : list VError :=
  if mem_Z (portal group) portals
  then [verr (schema_name ^^ ".groups." ^^ str_of_Z i ^^ ".portal")
          ("Portal " ^^ str_of_Z (portal group)
           ^^ " cannot be duplicated on a target")]
  else if negb (mem_Z (portal group) db_portals)
  then [verr (schema_name ^^ ".groups." ^^ str_of_Z i ^^ ".portal")
          (str_of_Z (portal group) ^^ " Portal not found in database")]
  else [].

Definition target_validate_group_initiator (schema_name : string)
  (db_initiators : list Z) (i : Z) (group : Group) : list VError :=
  match initiator group with
  | Some ini =>
      if negb (ini =? 0) && negb (mem_Z ini db_initiators)
      then [verr (schema_name ^^ ".groups." ^^ str_of_Z i ^^ ".initiator")
              (str_of_Z ini ^^ " Initiator not found in database")]
      else []
  | None => []
  end.

Definition target_validate_group_auth (w : World) (schema_name : string)
  (i : Z) (group : Group) : list VError :=
  if negb (truthy (auth group)) && is_chap (authmethod group)
  then [verr (schema_name ^^ ".groups." ^^ str_of_Z i ^^ ".auth")
          "Authentication group is required for CHAP and CHAP Mutual"]
  else if truthy (auth group) && is_chap_mutual (authmethod group)
  then
    match auth_query (fun a => opt_Z_eqb (Some (a_tag a)) (auth group)) w with
    | [] =>
        [{| ve_attribute := schema_name ^^ ".groups." ^^ str_of_Z i ^^ ".auth";
            ve_errmsg := "Authentication group not found";
            ve_errno := ENOENT |}]
    | a :: _ =>
        if negb (nonempty_str (a_peeruser a))
        then [verr (schema_name ^^ ".groups." ^^ str_of_Z i ^^ ".auth")
                ("Authentication group "
                 ^^ match auth group with
                    | Some g => str_of_Z g
                    | None => "None"
                    end
                 ^^ " does not support CHAP Mutual")]
        else []
    end
  else [].

Definition target_validate_group (w : World) (schema_name : string)
  (db_portals db_initiators portals : list Z) (i : Z) (group : Group)
  : list VError :=
  target_validate_group_portal schema_name db_portals portals i group
  ++ target_validate_group_initiator schema_name db_initiators i group
  ++ target_validate_group_auth w schema_name i group.

(** The list [portals] after the pass for [group]. *)
Definition target_accept_portal (db_portals portals : list Z) (group : Group)
  : list Z :=
  if mem_Z (portal group) portals then portals
  else if negb (mem_Z (portal group) db_portals) then portals
  else portals ++ [portal group].

Fixpoint target_validate_groups (w : World) (schema_name : string)
  (db_portals db_initiators portals : list Z) (l : list (Z * Group))
  : list VError :=
  match l with
  | [] => []
  | (i, group) :: l' =>
      target_validate_group w schema_name db_portals db_initiators portals i group
      ++ target_validate_groups w schema_name db_portals db_initiators
           (target_accept_portal db_portals portals group) l'
  end.

(** [__validate(verrors, data, schema_name, old)]: the errors it adds. *)
Definition target_validate (w : World) (data : Target) (schema_name : string)
  (old : option Target) : list VError :=
  let not_old (r : TargetRow) :=
    match old with
    | Some o => negb (opt_Z_eqb (Some (t_id r)) (target_id o))
    | None => true
    end in
  (if negb (RE_TARGET_NAME_search (target_name data))
   then [verr (schema_name ^^ ".name")
           "Lowercase alphanumeric characters plus dot (.), dash (-), and colon (:) are allowed."]
   else if nonempty
             (target_query_sql
                (fun r => String.eqb (t_name r) (target_name data) && not_old r) w)
   then [verr (schema_name ^^ ".name") "Target name already exists"]
   else []) ++
  (match target_alias data with
   | Some alias_ =>
       if str_contains dquote alias_
       then [verr (schema_name ^^ ".alias") "Double quotes are not allowed"]
       else if String.eqb alias_ "target"
       then [verr (schema_name ^^ ".alias") "target is a reserved word"]
       else if nonempty
                 (target_query_sql
                    (fun r => opt_str_eqb (t_alias r) (Some alias_) && not_old r) w)
       then [verr (schema_name ^^ ".alias") "Alias already exists"]
       else []
   | None => []
   end) ++
  (if negb (String.eqb (target_mode data) "ISCSI") && negb (fibrechannel (env w))
   then [verr (schema_name ^^ ".mode") "Fibre Channel not enabled"]
   else []) ++
  (let db_portals :=
     map p_id
       (datastore_query PortalT
          (fun p => mem_Z (p_id p) (map portal (target_groups data))) w) in
   let db_initiators :=
     map i_id
       (datastore_query InitiatorT
          (fun r =>
             existsb (opt_Z_eqb (Some (i_id r)))
               (map initiator (target_groups data))) w) in
   target_validate_groups w schema_name db_portals db_initiators []
     (enumerate (target_groups data))).

(** [__save_groups(pk, new, old)]: first the deletes of [old - new],
    then the inserts of [new - old]. *)
Definition target_save_groups (pk : Z) (new : list GroupC)
  (old : option (list GroupC)) : M unit :=
  let new_set := py_set groupc_eqb new in
  let old_set :=
    match old with
    | Some (x :: o) => py_set groupc_eqb (x :: o)
    | _ => []
    end in
  for_each (set_diff groupc_eqb old_set new_set)
    (fun i =>
       w <- get_world ;;
       match datastore_query GroupT
               (fun g => (g_target g =? pk) && (g_portalgroup g =? gc_portal i)
                         && opt_Z_eqb (g_initiatorgroup g) (gc_initiator i)
                         && String.eqb (g_authtype g) (gc_authmethod i)
                         && opt_Z_eqb (g_authgroup g) (gc_auth i)) w with
       | targetgroup :: _ =>
           _ <- datastore_delete GroupT (g_id targetgroup) ;; ret tt
       | [] => ret tt
       end) ;;;
  for_each (set_diff groupc_eqb new_set old_set)
    (fun i =>
       _ <- datastore_insert GroupT
              {| g_id := 0; g_target := pk; g_portalgroup := gc_portal i;
                 g_initiatorgroup := gc_initiator i;
                 g_authtype := gc_authmethod i; g_authgroup := gc_auth i |} ;;
       ret tt).

(** The row a create inserts once [compress] has run and [groups] is
    popped. *)
Definition target_row_of (data : Target) : TargetRow :=
  {| t_id := 0; t_name := target_name data; t_alias := target_alias data;
     t_mode := lower (target_mode data) |}.

Definition target_do_create (data : Target) : M Target :=
  w <- get_world ;;
  check (target_validate w data "iscsi_target_create" None) ;;;
  let groups := map group_compress (target_groups data) in
  pk <- datastore_insert TargetT (target_row_of data) ;;
  try_except (target_save_groups pk groups None)
    (fun e => _ <- datastore_delete TargetT pk ;; raise e) ;;;
  _service_change "iscsitarget" "reload" ;;;
  target_get_instance pk.

Definition target_merge (old : Target) (data : TargetUpdate) : Target :=
  {| target_id := target_id old;
     target_name :=
       match tu_name data with Some v => v | None => target_name old end;
     target_alias :=
       match tu_alias data with Some v => v | None => target_alias old end;
     target_mode :=
       match tu_mode data with Some v => v | None => target_mode old end;
     target_groups :=
       match tu_groups data with Some v => v | None => target_groups old end |}.

(** [do_update].  When the caller sends no [groups], [new] and [old]
    share one list of group dicts and [compress] runs twice over it;
    both sides of the reconciliation are then the same set, as they are
    here. *)
Definition target_do_update (id : Z) (data : TargetUpdate) : M Target :=
  old <- target_get_instance id ;;
  let new := target_merge old data in
  w <- get_world ;;
  check (target_validate w new "iscsi_target_create" (Some old)) ;;;
  let groups := map group_compress (target_groups new) in
  let oldgroups := map group_compress (target_groups old) in
  datastore_update TargetT id
    (fun r =>
       {| t_id := t_id r; t_name := target_name new;
          t_alias := target_alias new; t_mode := lower (target_mode new) |}) ;;;
  target_save_groups id groups (Some oldgroups) ;;;
  _service_change "iscsitarget" "reload" ;;;
  target_get_instance id.

(** [active_sessions_for_targets(target_id_list)]. *)
Definition target_active_sessions_for_targets (target_id_list : list Z)
  (w : World) : list string :=
  let targets := target_query_sql (fun t => mem_Z (t_id t) target_id_list) w in
  let global_basename := basename (env w) in
  let check_targets :=
    map (fun t =>
           let name := target_name t in
           if startswith name "iqn." || startswith name "naa."
              || startswith name "eui."
           then name
           else global_basename ^^ ":" ^^ name) targets in
  filter (fun s => mem_str s check_targets) (sessions (env w)).

(** ** iSCSITargetToExtentService *)

(** An association as the API handles it; [lunid] may be null in the
    argument of a create, [te_id_] is absent from it. *)
Record TargetExtent := {
  te_id_ : option Z;
  target : Z;
  lunid : option Z;
  extent : Z }.

(** Argument of [iscsi.targetextent.update]; [lunid] is not nullable
    there. *)
Record TargetExtentUpdate := {
  teu_target : option Z;
  teu_lunid : option Z;
  teu_extent : option Z }.

Definition targetextent_extend (r : TargetExtentRow) : TargetExtent :=
  {| te_id_ := Some (te_id r); target := te_target r;
     lunid := Some (te_lunid r); extent := te_extent r |}.

(** [iscsi.targetextent.query(filters)]; with or without
    [force_sql_filters] the filters of this plugin read columns that
    [extend] leaves as they are. *)
Definition targetextent_query (filters : TargetExtentRow -> bool) (w : World)
  : list TargetExtent :=
  map targetextent_extend (datastore_query TargetExtentT filters w).

(** [get_instance(id)], as for a portal. *)
Definition targetextent_get_instance (id : Z) : M TargetExtent :=
  fun w =>
    match targetextent_query (fun r => te_id r =? id) w with
    | t :: _ => (Ok t, w)
    | [] => (Raise (InstanceNotFound services_iscsitargettoextent id), w)
    end.

(** The LUN [validate] picks when [data] carries none, from the LUNs of
    the target in ascending order. *)
Definition allocate_lunid (lunids : list Z) : Z :=
  match lunids with
  | [] => 0
  | _ =>
      let diff :=
        py_sorted
          (set_diff Z.eqb (py_set Z.eqb (py_range 0 (py_last lunids + 1))) lunids) in
      match diff with
      | d :: _ => d
      | [] => py_max lunids + 1
      end
  end.

(** The list [lunids] of [validate]: the query ordered by [lunid]. *)
Definition target_lunids (target : Z) (w : World) : list Z :=
  map te_lunid
    (sorted_by te_lunid
       (datastore_query TargetExtentT (fun r => te_target r =? target) w)).

Definition lun_map_size : Z := 16383.

(** [validate(data, schema_name, verrors, old)]: the LUN left in
    [data['lunid']] and the errors added. *)
Definition targetextent_validate (w : World) (data : TargetExtent)
  (schema_name : string) (old : option TargetExtent) : Z * list VError :=
  let old_lunid := match old with Some o => lunid o | None => None end in
  let old_target := match old with Some o => Some (target o) | None => None end in
  let target := target data in
  let extent := extent data in
  let lunid :=
    match lunid data with
    | None => allocate_lunid (target_lunids target w)
    | Some l => l
    end in
  (lunid,
   (if (lunid <? 0) || (lunid >? lun_map_size - 1)
    then [verr (schema_name ^^ ".lunid")
            ("LUN ID must be a positive integer and lower than "
             ^^ str_of_Z (lun_map_size - 1))]
    else []) ++
   (if negb (opt_Z_eqb old_lunid (Some lunid))
       && nonempty
            (targetextent_query
               (fun r => (te_lunid r =? lunid) && (te_target r =? target)) w)
    then [verr (schema_name ^^ ".lunid")
            "LUN ID is already being used for this target."]
    else []) ++
   (if negb (opt_Z_eqb old_target (Some target))
       && nonempty
            (targetextent_query
               (fun r => (te_target r =? target) && (te_extent r =? extent)) w)
    then [verr (schema_name ^^ ".target") "Extent is already in this target."]
    else [])).

Definition targetextent_do_create (data : TargetExtent) : M TargetExtent :=
  w <- get_world ;;
  let (lunid, verrors) :=
    targetextent_validate w data "iscsi_targetextent_create" None in
  check verrors ;;;
  id <- datastore_insert TargetExtentT
          {| te_id := 0; te_extent := extent data; te_target := target data;
             te_lunid := lunid |} ;;
  _service_change "iscsitarget" "reload" ;;;
  targetextent_get_instance id.

Definition targetextent_merge (old : TargetExtent) (data : TargetExtentUpdate)
  : TargetExtent :=
  {| te_id_ := te_id_ old;
     target := match teu_target data with Some v => v | None => target old end;
     lunid := match teu_lunid data with Some v => Some v | None => lunid old end;
     extent := match teu_extent data with Some v => v | None => extent old end |}.

Definition targetextent_do_update (id : Z) (data : TargetExtentUpdate)
  : M TargetExtent :=
  old <- targetextent_get_instance id ;;
  let new := targetextent_merge old data in
  w <- get_world ;;
  let (lunid, verrors) :=
    targetextent_validate w new "iscsi_targetextent_update" (Some old) in
  check verrors ;;;
  datastore_update TargetExtentT id
    (fun r =>
       {| te_id := te_id r; te_extent := extent new; te_target := target new;
          te_lunid := lunid |}) ;;;
  _service_change "iscsitarget" "reload" ;;;
  targetextent_get_instance id.

Definition targetextent_do_delete (id : Z) (force : bool) : M bool :=
  associated_target <- targetextent_get_instance id ;;
  w <- get_world ;;
  let active_sessions :=
    target_active_sessions_for_targets [target associated_target] w in
  (match active_sessions with
   | s :: _ =>
       if force
       then emit (EvLogWarning ("Associated target " ^^ s ^^ " is in use."))
       else raise (CallError ("Associated target " ^^ s ^^ " is in use."))
   | [] => ret tt
   end) ;;;
  result <- datastore_delete TargetExtentT id ;;
  _service_change "iscsitarget" "reload" ;;;
  ret result.

(** ** iSCSITargetService, second part *)

Definition target_do_delete (id : Z) (force : bool) : M bool :=
  target <- target_get_instance id ;;
  w <- get_world ;;
  (if nonempty
        (target_active_sessions_for_targets
           (match target_id target with Some k => [k] | None => [] end) w)
   then
     if force
     then emit (EvLogWarning ("Target " ^^ target_name target ^^ " is in use."))
     else raise (CallError ("Target " ^^ target_name target ^^ " is in use."))
   else ret tt) ;;;
  w <- get_world ;;
  for_each (targetextent_query (fun r => te_target r =? id) w)
    (fun target_to_extent =>
       match te_id_ target_to_extent with
       | Some k => _ <- targetextent_do_delete k force ;; ret tt
       | None => ret tt
       end) ;;;
  _ <- datastore_delete_where GroupT (fun g => g_target g =? id) ;;
  rv <- datastore_delete TargetT id ;;
  w <- get_world ;;
  (if service_started (env w)
   then
     (* scst does not accept these changes with a reload *)
     emit (EvRun ["scstadmin"; "-force"; "-noprompt"; "-rem_target";
                  basename (env w) ^^ ":" ^^ target_name target;
                  "-driver"; "iscsi"]) ;;;
     if negb (scstadmin_returncode (env w) =? 0)
     then emit (EvLogError ("Failed to remove " ^^ target_name target ^^ " target"))
     else ret tt
   else ret tt) ;;;
  _service_change "iscsitarget" "reload" ;;;
  ret rv.

(** ** iSCSITargetExtentService *)

(** Argument of [iscsi.extent.create]. *)
Record ExtentCreate := {
  ec_name : string;
  ec_type : string;
  ec_disk : option string;
  ec_serial : option string;
  ec_path : option string;
  ec_filesize : Z;
  ec_blocksize : Z;
  ec_misc : ExtentMisc }.

(** Argument of [iscsi.extent.update]; the columns of [ExtentMisc] are
    replaced together. *)
Record ExtentUpdate := {
  eu_name : option string;
  eu_type : option string;
  eu_disk : option (option string);
  eu_serial : option (option string);
  eu_path : option (option string);
  eu_filesize : option Z;
  eu_blocksize : option Z;
  eu_misc : option ExtentMisc }.

(** An extent as the service handles it. *)
Record Extent := {
  extent_id : option Z;
  extent_name : string;
  extent_type : string;
  disk : option string;
  serial : option string;
  path : option string;
  filesize : Z;
  blocksize : Z;
  naa : option string;
  vendor : option string;
  misc : ExtentMisc }.

(** The stored serial is nullable like its column. *)
Definition extent_extend (r : ExtentRow) : Extent :=
  {| extent_id := Some (e_id r);
     extent_name := e_name r;
     extent_type := e_type r;
     disk := if String.eqb (e_type r) "DISK" then e_path r else None;
     serial := e_serial r;
     path := e_path r;
     filesize := e_filesize r;
     blocksize := e_blocksize r;
     naa := Some (e_naa r);
     vendor := e_vendor r;
     misc := e_misc r |}.

Definition extent_query (filters : Extent -> bool) (w : World) : list Extent :=
  filter filters (map extent_extend (extents w)).

(** [get_instance(id)], as for a portal. *)
Definition extent_get_instance (id : Z) : M Extent :=
  fun w =>
    match extent_query (fun e => opt_Z_eqb (extent_id e) (Some id)) w with
    | e :: _ => (Ok e, w)
    | [] => (Raise (InstanceNotFound services_iscsitargetextent id), w)
    end.

(** [secrets.token_bytes(n)]: the next [n] bytes of the random source. *)
Definition token_bytes (n : nat) : M (list byte) :=
  fun w =>
    (Ok (map (entropy w) (seq (entropy_pos w) n)),
     set_entropy_pos (entropy_pos w + n)%nat w).

(** [secrets.token_hex()]: thirty-two random bytes in hexadecimal. *)
Definition token_hex : M string :=
  b <- token_bytes 32 ;; ret (hexlify b).

Definition tries : Z := 5.

(** The loop [for i in range(tries)] of [extent_serial]; [serial] is the
    variable of that name, [l] the values of [i] still to come. *)
Fixpoint extent_serial_for (used_serials : list (option string))
  (serial : option string) (l : list Z) : M (option string) :=
  match l with
  | [] => ret serial
  | i :: l' =>
      t <- token_hex ;;
      let serial := slice_to 15 t in
      if negb (existsb (opt_str_eqb (Some serial)) used_serials)
      then ret (Some serial)
      else if i <? tries - 1
      then extent_serial_for used_serials (Some serial) l'
      else raise (CallError "Failed to generate a random extent serial")
  end.

Definition extent_serial (s : option string) : M (option string) :=
  match s with
  | None =>
      w <- get_world ;;
      let used_serials := map serial (extent_query (fun _ => true) w) in
      extent_serial_for used_serials None (py_range 0 tries)
  | Some s => ret (Some s)
  end.

Definition extent_naa (naa : option string) : M string :=
  match naa with
  | None =>
      b <- token_bytes 16 ;;
      w <- get_world ;;
      ret ("0x6589cfc000000" ^^ slice_to 19 (uuid_sha256_hexdigest (env w) b))
  | Some n => ret n
  end.

Definition with_serial_naa (data : Extent) (s : option string) (n : string)
  : Extent :=
  {| extent_id := extent_id data; extent_name := extent_name data;
     extent_type := extent_type data; disk := disk data; serial := s;
     path := path data; filesize := filesize data;
     blocksize := blocksize data; naa := Some n; vendor := vendor data;
     misc := misc data |}.

(** [validate(data)]. *)
Definition extent_validate (data : Extent) : M Extent :=
  s <- extent_serial (serial data) ;;
  n <- extent_naa (naa data) ;;
  ret (with_serial_naa data s n).

Definition path_exists (w : World) (p : string) : bool :=
  mem_str p (fs_files w) || mem_str p (fs_others w).

Definition path_isfile (w : World) (p : string) : bool := mem_str p (fs_files w).

Definition max_serial_len : Z := 20.

(** [clean_name]: the errors after it, given those before. *)
Definition extent_clean_name (data : Extent) (schema_name : string)
  (verrors : list VError) (old : option Extent) : M (list VError) :=
  let name := extent_name data in
  let old := match old with Some o => Some (extent_name o) | None => None end in
  match serial data with
  | None => raise (TypeError "argument of type 'NoneType' is not iterable")
  | Some serial =>
      w <- get_world ;;
      ret (verrors ++
           (if str_contains dquote name
            then [verr (schema_name ^^ ".name") "Double quotes are not allowed"]
            else []) ++
           (if str_contains dquote serial
            then [verr (schema_name ^^ ".serial") "Double quotes are not allowed"]
            else []) ++
           (if len serial >? max_serial_len
            then [verr (schema_name ^^ ".serial")
                    ("Extent serial can not exceed " ^^ str_of_Z max_serial_len
                     ^^ " characters")]
            else []) ++
           (if negb (opt_str_eqb (Some name) old)
            then
              if nonempty
                   (datastore_query ExtentT (fun r => String.eqb (e_name r) name) w)
              then [verr (schema_name ^^ ".name") "Extent name must be unique"]
              else []
            else []))
  end.

Fixpoint last_char (s : string) : option ascii :=
  match s with
  | EmptyString => None
  | String c EmptyString => Some c
  | String _ s' => last_char s'
  end.

Definition slash : ascii := ascii_of_nat 47.

(** [repr(s)] of a str without quotes in it. *)
Definition repr (s : string) : string := "'" ^^ s ^^ "'".

(** [clean_type_and_path]; it raises at once when the field the rest
    depends on is missing. *)
Definition extent_clean_type_and_path (data : Extent) (schema_name : string)
  (verrors : list VError) : M (list VError) :=
  w <- get_world ;;
  if String.eqb (extent_type data) "DISK" then
    match disk data with
    | None | Some EmptyString =>
        raise (ValidationErrors
                 (verrors ++ [verr (schema_name ^^ ".disk") "This field is required"]))
    | Some disk =>
        if negb (startswith disk "zvol/")
        then raise (ValidationErrors
                      (verrors ++
                       [verr (schema_name ^^ ".disk")
                          ("Disk name must start with " ^^ dq ^^ "zvol/" ^^ dq)]))
        else
          let device := "/dev/" ^^ disk in
          let zvol_name := zvol_path_to_name (env w) device in
          ret (verrors ++
               (if negb (dataset_exists (env w) zvol_name)
                then [verr (schema_name ^^ ".disk")
                        ("Volume " ^^ repr zvol_name ^^ " does not exist")]
                else []) ++
               (if negb (path_exists w device)
                then [verr (schema_name ^^ ".disk")
                        ("Device " ^^ repr device ^^ " for volume "
                         ^^ repr zvol_name ^^ " does not exist")]
                else []))
    end
  else if String.eqb (extent_type data) "FILE" then
    match path data with
    | None | Some EmptyString =>
        raise (ValidationErrors
                 (verrors ++ [verr (schema_name ^^ ".path") "This field is required"]))
    | Some path =>
        ret (verrors ++
             (if path_exists w path
                 && (negb (path_isfile w path)
                     || match last_char path with
                        | Some c => Ascii.eqb c slash
                        | None => false
                        end)
              then [verr (schema_name ^^ ".path")
                      "You need to specify a filepath not a directory"]
              else []) ++
             (* check_path_resides_within_volume *)
             (if negb (resides_within_volume (env w) path)
              then [verr (schema_name ^^ ".path")
                      "The path must reside within a volume mount point"]
              else []))
    end
  else ret verrors.

(** [clean_size]; the test [float(size) % blocksize] converts the size
    first and divides afterwards, and either step may raise. *)
Definition extent_clean_size (data : Extent) (schema_name : string)
  (verrors : list VError) : M (list VError) :=
  w <- get_world ;;
  if negb (String.eqb (extent_type data) "FILE") then ret verrors
  else
    let size := filesize data in
    let blocksize := blocksize data in
    match path data with
    | None | Some EmptyString =>
        ret (verrors ++ [verr (schema_name ^^ ".path") "This field is required"])
    | Some path =>
        if size =? 0 then
          if negb (path_exists w path) || negb (path_isfile w path)
          then ret (verrors ++
                    [verr (schema_name ^^ ".path")
                       "The file must exist if the extent size is set to auto (0)"])
          else ret verrors
        else
          match float_of_int size with
          | None => raise OverflowError
          | Some f =>
              if blocksize =? 0 then raise ZeroDivisionError
              else if negb (f mod blocksize =? 0)
              then ret (verrors ++
                        [verr (schema_name ^^ ".filesize")
                           ("File size (" ^^ str_of_Z size
                            ^^ ") must be a multiple of block size ("
                            ^^ str_of_Z blocksize ^^ ")")])
              else ret verrors
          end
    end.

(** [clean(data, schema_name, verrors, old)]. *)
Definition extent_clean (data : Extent) (schema_name : string)
  (verrors : list VError) (old : option Extent) : M (list VError) :=
  v1 <- extent_clean_name data schema_name verrors old ;;
  v2 <- extent_clean_type_and_path data schema_name v1 ;;
  extent_clean_size data schema_name v2.

(** ['/'.join(path.split('/')[:-1])]: [None] while no slash was met. *)
Fixpoint dirs_of (s : string) : option string :=
  match s with
  | EmptyString => None
  | String c s' =>
      match dirs_of s' with
      | Some d => Some (String c d)
      | None => if Ascii.eqb c slash then Some EmptyString else None
      end
  end.

(** [save(data, schema_name, verrors)]: the value left under
    [data['path']]; the key [disk] is gone afterwards. *)
Definition extent_save (data : Extent) : M (option string) :=
  if String.eqb (extent_type data) "FILE" then
    match path data with
    | None => raise (TypeError "'NoneType' object has no attribute 'split'")
    | Some path =>
        let dirs := match dirs_of path with Some d => d | None => EmptyString end in
        w <- get_world ;;
        (* create extent directories *)
        (if path_isfile w dirs
         then raise (CallError ("Failed to create " ^^ dirs
                                ^^ " with error: [Errno 17] File exists: "
                                ^^ repr dirs))
         else
           fun w =>
             (Ok tt,
              set_log (log w ++ [EvMkdir dirs])
                (set_fs (fs_files w)
                   (if mem_str dirs (fs_others w) then fs_others w
                    else fs_others w ++ [dirs]) w))) ;;;
        (* create the extent *)
        w <- get_world ;;
        (if negb (path_exists w path)
         then
           fun w =>
             (Ok tt,
              set_log (log w ++ [EvRun ["truncate"; "-s";
                                        str_of_Z (filesize data); path]])
                (set_fs (fs_files w ++ [path]) (fs_others w) w))
         else ret tt) ;;;
        ret (Some path)
    end
  else ret (disk data).

Definition extent_row_of (data : Extent) (path : option string) : ExtentRow :=
  {| e_id := match extent_id data with Some k => k | None => 0 end;
     e_name := extent_name data;
     e_serial := serial data;
     e_type := extent_type data;
     e_path := path;
     e_filesize := filesize data;
     e_blocksize := blocksize data;
     e_naa := match naa data with Some n => n | None => EmptyString end;
     e_vendor := vendor data;
     e_misc := misc data |}.

Definition extent_of_create (data : ExtentCreate) : Extent :=
  {| extent_id := None; extent_name := ec_name data;
     extent_type := ec_type data; disk := ec_disk data;
     serial := ec_serial data; path := ec_path data;
     filesize := ec_filesize data; blocksize := ec_blocksize data;
     naa := None; vendor := None; misc := ec_misc data |}.

Definition with_vendor (data : Extent) (v : option string) : Extent :=
  {| extent_id := extent_id data; extent_name := extent_name data;
     extent_type := extent_type data; disk := disk data;
     serial := serial data; path := path data; filesize := filesize data;
     blocksize := blocksize data; naa := naa data; vendor := v;
     misc := misc data |}.

Definition extent_do_create (data : ExtentCreate) : M Extent :=
  data <- extent_validate (extent_of_create data) ;;
  verrors <- extent_clean data "iscsi_extent_create" [] None ;;
  check verrors ;;;
  path <- extent_save data ;;
  id <- datastore_insert ExtentT
          (extent_row_of (with_vendor data (Some "TrueNAS")) path) ;;
  extent_get_instance id.

Definition extent_merge (old : Extent) (data : ExtentUpdate) : Extent :=
  {| extent_id := extent_id old;
     extent_name := match eu_name data with Some v => v | None => extent_name old end;
     extent_type := match eu_type data with Some v => v | None => extent_type old end;
     disk := match eu_disk data with Some v => v | None => disk old end;
     serial := match eu_serial data with Some v => v | None => serial old end;
     path := match eu_path data with Some v => v | None => path old end;
     filesize := match eu_filesize data with Some v => v | None => filesize old end;
     blocksize := match eu_blocksize data with Some v => v | None => blocksize old end;
     naa := naa old;
     vendor := vendor old;
     misc := match eu_misc data with Some v => v | None => misc old end |}.

Definition extent_do_update (id : Z) (data : ExtentUpdate) : M Extent :=
  old <- extent_get_instance id ;;
  let new := extent_merge old data in
  new <- extent_validate new ;;
  verrors <- extent_clean new "iscsi_extent_update" [] (Some old) ;;
  check verrors ;;;
  path <- extent_save new ;;
  datastore_update ExtentT id (fun _ => extent_row_of new path) ;;;
  _service_change "iscsitarget" "reload" ;;;
  extent_get_instance id.

(** [remove_extent_file(data)]: [true] stands for [True], [false] for
    the exception [os.unlink] raised. *)
Definition extent_remove_extent_file (data : Extent) : M bool :=
  if String.eqb (extent_type data) "FILE" then
    fun w =>
      match path data with
      | Some p =>
          if path_isfile w p
          then (Ok true,
                set_log (log w ++ [EvUnlink p])
                  (set_fs (filter (fun q => negb (String.eqb q p)) (fs_files w))
                     (fs_others w) w))
          else (Ok false, w)
      | None => (Ok false, w)
      end
  else ret true.

Definition extent_do_delete (id : Z) (remove force : bool) : M bool :=
  data <- extent_get_instance id ;;
  w <- get_world ;;
  let target_to_extents := targetextent_query (fun r => te_extent r =? id) w in
  let active_sessions :=
    target_active_sessions_for_targets (map target target_to_extents) w in
  (match active_sessions with
   | [] => ret tt
   | _ =>
       let sessions_str :=
         "Associated target(s) " ^^ join "," active_sessions ^^ " "
         ^^ (if (List.length active_sessions =? 1)%nat then "is" else "are")
         ^^ " in use." in
       if force
       then emit (EvLogWarning (sessions_str ^^ ". Forcing deletion of extent."))
       else raise (CallError sessions_str)
   end) ;;;
  (if remove
   then
     delete <- extent_remove_extent_file data ;;
     if negb delete then raise (CallError "Failed to remove extent file")
     else ret tt
   else ret tt) ;;;
  for_each target_to_extents
    (fun target_to_extent =>
       match te_id_ target_to_extent with
       | Some k => _ <- targetextent_do_delete k force ;; ret tt
       | None => ret tt
       end) ;;;
  try_finally (datastore_delete ExtentT id)
    (_service_change "iscsitarget" "reload").

(** ** ISCSIFSAttachmentDelegate *)

(** [s.add(x)] on a set. *)
Definition set_add (x : Z) (s : list Z) : list Z :=
  if mem_Z x s then s else s ++ [x].

(** [for x in l: s = body x s]. *)
Fixpoint for_fold {A S} (l : list A) (s : S) (body : A -> S -> M S) : M S :=
  match l with
  | [] => ret s
  | x :: l' => s' <- body x s ;; for_fold l' s' body
  end.

(** The first loop of [delete(attachments)], returning
    [orphan_targets_ids]; [remove_alert] belongs to the alert system and
    leaves the tables alone. *)
Definition attachment_delete_loop (attachments : list Extent) : M (list Z) :=
  for_fold attachments []
    (fun attachment orphan_targets_ids =>
       match extent_id attachment with
       | None => ret orphan_targets_ids
       | Some aid =>
           w <- get_world ;;
           orphan_targets_ids <-
             for_fold (targetextent_query (fun r => te_extent r =? aid) w)
               orphan_targets_ids
               (fun te orphan_targets_ids =>
                  match te_id_ te with
                  | Some k =>
                      _ <- datastore_delete TargetExtentT k ;;
                      ret (set_add (target te) orphan_targets_ids)
                  | None => ret (set_add (target te) orphan_targets_ids)
                  end) ;;
           _ <- datastore_delete ExtentT aid ;;
           ret orphan_targets_ids
       end).

Definition attachment_delete (attachments : list Extent) : M unit :=
  orphan_targets_ids <- attachment_delete_loop attachments ;;
  w <- get_world ;;
  let still_used :=
    map target
      (targetextent_query (fun r => mem_Z (te_target r) orphan_targets_ids) w) in
  let orphan_targets_ids := set_diff Z.eqb orphan_targets_ids still_used in
  for_each orphan_targets_ids
    (fun target_id => _ <- target_do_delete target_id true ;; ret tt) ;;;
  _service_change "iscsitarget" "reload".

(** ** ISCSIPortalListenDelegate *)

(** [get_listen_state(ips)]: the listen rows whose address is one of
    [ips]. *)
Definition get_listen_state (ips : list string) (w : World) : list PortalIpRow :=
  datastore_query PortalIpT (fun r => mem_str (pip_ip r) ips) w.

(** The change [{'ip': ip}] applied to a row. *)
Definition with_ip (ip : string) (r : PortalIpRow) : PortalIpRow :=
  {| pip_id := pip_id r; pip_portal := pip_portal r; pip_ip := ip;
     pip_port := pip_port r |}.

(** [datastore.update] on the listen table.  [ISCSIPortalIPModel]
    declares a unique index on address and port, so the update of the
    row [id] is refused when another row already has the address and
    port the row would get; the refusal is the datastore's error.  The
    inserts of [__save_listen] follow a validation that refuses an
    address and port in use and so keep the index by themselves; the
    updates of the delegate are not validated. *)
Definition listen_taken (id : Z) (r' : PortalIpRow) (l : list PortalIpRow)
  : bool :=
  existsb
    (fun x => negb (pip_id x =? id) && String.eqb (pip_ip x) (pip_ip r')
              && (pip_port x =? pip_port r')) l.

Definition index_refuses (id : Z) (g : PortalIpRow -> PortalIpRow)
  (l : list PortalIpRow) : bool :=
  existsb (fun r => (pip_id r =? id) && listen_taken id (g r) l) l.

Definition portalip_update (id : Z) (g : PortalIpRow -> PortalIpRow) : M unit :=
  w <- get_world ;;
  if index_refuses id g (portalips w)
  then raise (DatastoreError services_iscsitargetportalip)
  else datastore_update PortalIpT id g.

(** [set_listen_state(state)]. *)
Definition set_listen_state (state : list PortalIpRow) : M unit :=
  for_each state
    (fun row => portalip_update (pip_id row) (with_ip (pip_ip row))) ;;;
  _service_change "iscsitarget" "reload".

(** [listens_on(state, ip)]. *)
Definition listens_on (state : list PortalIpRow) (ip : string) : bool :=
  existsb (fun row => String.eqb (pip_ip row) ip) state.

(** [reset_listens(state)]. *)
Definition reset_listens (state : list PortalIpRow) : M unit :=
  for_each state
    (fun row => portalip_update (pip_id row) (with_ip "0.0.0.0")) ;;;
  _service_change "iscsitarget" "reload".

(** ** Observations about a run *)

(** The events an operation added to the log. *)
Definition new_events {A} (c : M A) (w : World) : list Event :=
  skipn (List.length (log w)) (log (snd (c w))).

Definition is_insert (e : Event) : bool :=
  match e with EvInsert _ _ => true | _ => false end.

Definition is_delete (e : Event) : bool :=
  match e with EvDelete _ _ => true | _ => false end.

Definition is_notify (e : Event) : bool :=
  match e with EvNotify _ _ => true | _ => false end.

(** No insert is followed by a delete. *)
Fixpoint deletes_first (evs : list Event) : bool :=
  match evs with
  | [] => true
  | e :: evs' =>
      if is_insert e then forallb (fun x => negb (is_delete x)) evs'
      else deletes_first evs'
  end.

(** No delete is followed by an insert. *)
Fixpoint inserts_first (evs : list Event) : bool :=
  match evs with
  | [] => true
  | e :: evs' =>
      if is_delete e then forallb (fun x => negb (is_insert x)) evs'
      else inserts_first evs'
  end.

Definition reload : Event := EvNotify "iscsitarget" "reload".

(** The run added events and the last of them is the reload signal. *)
Definition ends_with_reload (w w' : World) : Prop :=
  exists evs, log w' = log w ++ evs ++ [reload].

(** [l] is the smallest non-negative integer outside [used]. *)
Definition least_unused (used : list Z) (l : Z) : Prop :=
  0 <= l /\ ~ In l used /\ forall k, 0 <= k < l -> In k used.

(** The LUNs a target uses. *)
Definition used_lunids (t : Z) (w : World) : list Z :=
  map te_lunid (filter (fun r => te_target r =? t) (targetextents w)).

(** Tables, file system and log agree: nothing visible happened. *)
Definition same_state (w w' : World) : Prop :=
  portals w = portals w' /\ portalips w = portalips w' /\ auths w = auths w'
  /\ initiators w = initiators w' /\ targets w = targets w'
  /\ groups w = groups w' /\ extents w = extents w'
  /\ targetextents w = targetextents w'
  /\ fs_files w = fs_files w' /\ fs_others w = fs_others w' /\ log w = log w'.

(** The next write to the datastore is carried out. *)
Definition next_write_ok (w : World) : bool :=
  match faults w with
  | true :: _ => false
  | _ => true
  end.

(** The mutations of the six entities. *)
Inductive Mutation :=
| portal_create (data : PortalCreate)
| portal_update (id : Z) (data : PortalUpdate)
| portal_delete (id : Z)
| auth_create (data : AuthCreate)
| auth_update (id : Z) (data : AuthUpdate)
| auth_delete (id : Z)
| initiator_create (data : Initiator)
| initiator_update (id : Z) (data : InitiatorUpdate)
| initiator_delete (id : Z)
| target_create (data : Target)
| target_update (id : Z) (data : TargetUpdate)
| target_delete (id : Z) (force : bool)
| extent_create (data : ExtentCreate)
| extent_update (id : Z) (data : ExtentUpdate)
| extent_delete (id : Z) (remove force : bool)
| targetextent_create (data : TargetExtent)
| targetextent_update (id : Z) (data : TargetExtentUpdate)
| targetextent_delete (id : Z) (force : bool).

Definition void {A} (c : M A) : M unit := _ <- c ;; ret tt.

Definition run_mutation (m : Mutation) : M unit :=
  match m with
  | portal_create data => void (portal_do_create data)
  | portal_update id data => void (portal_do_update id data)
  | portal_delete id => void (portal_do_delete id)
  | auth_create data => void (auth_do_create data)
  | auth_update id data => void (auth_do_update id data)
  | auth_delete id => void (auth_do_delete id)
  | initiator_create data => void (initiator_do_create data)
  | initiator_update id data => void (initiator_do_update id data)
  | initiator_delete id => void (initiator_do_delete id)
  | target_create data => void (target_do_create data)
  | target_update id data => void (target_do_update id data)
  | target_delete id force => void (target_do_delete id force)
  | extent_create data => void (extent_do_create data)
  | extent_update id data => void (extent_do_update id data)
  | extent_delete id remove force => void (extent_do_delete id remove force)
  | targetextent_create data => void (targetextent_do_create data)
  | targetextent_update id data => void (targetextent_do_update id data)
  | targetextent_delete id force => void (targetextent_do_delete id force)
  end.

(** The mutations whose code calls [_service_change] on its way out. *)
Definition calls_service_change (m : Mutation) : bool :=
  match m with
  | extent_create _ | auth_delete _ => false
  | _ => true
  end.

(** Portal creates and deletes, for runs over the portal table. *)
Inductive PortalOp :=
| OpCreate (data : PortalCreate)
| OpDelete (id : Z).

Definition portal_op (op : PortalOp) : M unit :=
  match op with
  | OpCreate data => void (portal_do_create data)
  | OpDelete id => void (portal_do_delete id)
  end.

(** The world after a sequence of operations, whatever each returned. *)
Definition run_ops (ops : list PortalOp) (w : World) : World :=
  fold_left (fun w op => snd (portal_op op w)) ops w.

(** Order of two rows by their sort key. *)
Definition key_le {A} (key : A -> Z) (a b : A) : Prop := key a <= key b.

(** No character of [s] is white space. *)
Fixpoint no_space (s : string) : bool :=
  match s with
  | EmptyString => true
  | String c s' => negb (isspace c) && no_space s'
  end.

(** A name [split] gives back whole: not empty, no white space. *)
Definition plain_name (s : string) : Prop :=
  s <> EmptyString /\ no_space s = true.

(** The tags [1, 2, ..., n]. *)
Definition dense (n : nat) : list Z := map Z.of_nat (seq 1 n).

(** Every event [c] adds to the log satisfies [P]; earlier events stay. *)
Definition emits {A} (P : Event -> bool) (c : M A) : Prop :=
  forall w, exists evs, log (snd (c w)) = log w ++ evs /\ forallb P evs = true.

(** Whenever [c] returns, the reload signal is the last thing it did. *)
Definition ends {A} (c : M A) : Prop :=
  forall w r w', c w = (Ok r, w') -> ends_with_reload w w'.

Definition any_event (e : Event) : bool := true.
Definition no_event (e : Event) : bool := false.

Definition not_notify (e : Event) : bool := negb (is_notify e).

(** The serial made from the thirty-two random bytes at position [p]. *)
Definition serial_at (f : nat -> byte) (p : nat) : string :=
  slice_to 15 (hexlify (map f (seq p 32))).

(** The serial the [k]-th attempt draws when the loop starts in [w],
    counting from 0. *)
Definition candidate_serial (w : World) (k : nat) : string :=
  serial_at (entropy w) (entropy_pos w + 32 * k).

(** [s not in used_serials], negated. *)
Definition serial_taken (used_serials : list (option string)) (s : string)
  : bool :=
  existsb (opt_str_eqb (Some s)) used_serials.

(** [s] is the serial of some extent. *)
Definition serial_in_use (w : World) (s : string) : bool :=
  serial_taken (map serial (extent_query (fun _ => true) w)) s.

Definition serial_exhausted : Exn :=
  CallError "Failed to generate a random extent serial".

(** The attribute under which the errors on [auth] of group [i] are
    filed. *)
Definition group_auth_attribute (schema_name : string) (i : Z) : string :=
  schema_name ^^ ".groups." ^^ str_of_Z i ^^ ".auth".

(** The credential a group refers to by tag [a], the first with that
    tag, exists and carries a peer user. *)
Definition credential_with_peeruser (w : World) (a : Z) : bool :=
  match auth_query (fun c => a_tag c =? a) w with
  | c :: _ => nonempty_str (a_peeruser c)
  | [] => false
  end.

(** Some error is filed under [attribute]. *)
Definition has_error_on (attribute : string) (errors : list VError) : Prop :=
  exists e, In e errors /\ ve_attribute e = attribute.

(** Another credential than [id] carries [tag]. *)
Definition tag_shared (w : World) (id tag : Z) : bool :=
  nonempty (auth_query (fun a => (a_tag a =? tag) && negb (a_id a =? id)) w).

(** The portals whose discovery auth group is [tag], and the target
    groups whose auth group is [tag]. *)
Definition portals_using (w : World) (tag : Z) : list Portal :=
  portal_query (fun p => opt_Z_eqb (discovery_authgroup p) (Some tag)) w.

Definition groups_using (w : World) (tag : Z) : list GroupRow :=
  datastore_query GroupT (fun g => opt_Z_eqb (g_authgroup g) (Some tag)) w.

Definition tag_referenced (w : World) (tag : Z) : bool :=
  nonempty (portals_using w tag) || nonempty (groups_using w tag).

(** The message listing the targets that use credential [id]. *)
Definition used_by_targets (id : Z) (groups : list GroupRow) : string :=
  "Authorized access of " ^^ str_of_Z id
  ^^ " is being used by following target(s): "
  ^^ join ", " (map (fun g => str_of_Z (g_target g)) groups).

Definition only_tag (t : Z) : AuthUpdate :=
  {| au_tag := Some t; au_user := None; au_secret := None;
     au_peeruser := None; au_peersecret := None |}.

(** Running [c] leaves the observation [f] of the world as it was. *)
Definition preserves {A X} (f : World -> X) (c : M A) : Prop :=
  forall w, f (snd (c w)) = f w.

(** Running [c] adds no row to the table [f]. *)
Definition shrinks {A R} (f : World -> list R) (c : M A) : Prop :=
  forall w r, In r (f (snd (c w))) -> In r (f w).

(** Among [evs], [e1] comes at some point and [e2] at a later one. *)
Definition happens_before (e1 e2 : Event) (evs : list Event) : Prop :=
  exists l1 l2 l3, evs = l1 ++ e1 :: l2 ++ e2 :: l3.

(** [e] is the only extent bound to target [t]: the associations of
    [t] are the single row [a], which binds [e]. *)
Definition sole_backing_store (w : World) (e t : Z) (a : TargetExtentRow)
  : Prop :=
  filter (fun r => te_target r =? t) (targetextents w) = [a]
  /\ te_extent a = e
  /\ (exists r, In r (targets w) /\ t_id r = t)
  /\ (exists x, In x (extents w) /\ e_id x = e).

(** The datastore will raise no error from here on. *)
Definition no_faults (w : World) : Prop := faults w = [].

(** Running [c] keeps the property [I] of the world. *)
Definition maintains {A} (I : World -> Prop) (c : M A) : Prop :=
  forall w, I w -> I (snd (c w)).

(** The rows [l] with the tags [i + 1], [i + 2], ... in this order:
    what the loop over [enumerate] writes. *)
Fixpoint renumbered (i : Z) (l : list PortalRow) : list PortalRow :=
  match l with
  | [] => []
  | r :: l' =>
      {| p_id := p_id r; p_tag := i + 1; p_comment := p_comment r;
         p_discoveryauthmethod := p_discoveryauthmethod r;
         p_discoveryauthgroup := p_discoveryauthgroup r |}
      :: renumbered (i + 1) l'
  end.

(** The portal table as creates and deletes leave it: distinct primary
    keys, and the tags 1..N in the order of the rows. *)
Definition portal_table_ok (w : World) : Prop :=
  no_faults w
  /\ NoDup (map p_id (portals w))
  /\ map p_tag (portals w) = dense (List.length (portals w)).

(** Every stored LUN is one [validate] lets through. *)
Definition luns_in_range (w : World) : Prop :=
  Forall (fun r => 0 <= te_lunid r <= lun_map_size - 1) (targetextents w).

(** The operations of the seven services together: a mutation of one of
    the six entities, or the delete of the attachment delegate. *)
Inductive Operation :=
| OpMutation (m : Mutation)
| OpDetach (attachments : list Extent).

Definition run_operation (o : Operation) : M unit :=
  match o with
  | OpMutation m => run_mutation m
  | OpDetach attachments => attachment_delete attachments
  end.

(** Running [c] only takes rows out of the table [f]: what is left is
    the old table filtered. *)
Definition thins {A R} (f : World -> list R) (c : M A) : Prop :=
  forall w, exists p, f (snd (c w)) = filter p (f w).

(** Running [c] changes no table, no file and adds no event. *)
Definition reads_only {A} (c : M A) : Prop :=
  forall w, same_state w (snd (c w)).

Definition is_verrors (e : Exn) : bool :=
  match e with ValidationErrors _ => true | _ => false end.

(** Whatever [c] raises, it is not a [ValidationErrors]. *)
Definition never_rejects {A} (c : M A) : Prop :=
  forall w e w', c w = (Raise e, w') -> is_verrors e = false.

(** When [c] raises a [ValidationErrors], nothing visible had happened. *)
Definition rejects_cleanly {A} (c : M A) : Prop :=
  forall w v w', c w = (Raise (ValidationErrors v), w') -> same_state w w'.

(** A credential as [validate] lets it through: a secret of 12 to 16
    characters; without a peer user no peer secret; with a peer user a
    peer secret of 12 to 16 characters that is not the secret. *)
Definition credential_ok (r : AuthRow) : Prop :=
  12 <= len (a_secret r) <= 16
  /\ (a_peeruser r = EmptyString -> a_peersecret r = EmptyString)
  /\ (a_peeruser r <> EmptyString ->
      a_peersecret r <> EmptyString
      /\ a_peersecret r <> a_secret r
      /\ 12 <= len (a_peersecret r) <= 16).

Definition credentials_ok (w : World) : Prop := Forall credential_ok (auths w).

(** What [clean_name] lets through: a name without double quote, and a
    serial without double quote of at most twenty characters. *)
Definition extent_row_ok (r : ExtentRow) : Prop :=
  str_contains dquote (e_name r) = false
  /\ exists s, e_serial r = Some s
               /\ str_contains dquote s = false
               /\ len s <= max_serial_len.

(** The extent table as the service keeps it: distinct primary keys,
    distinct names, rows that passed [clean_name]. *)
Definition extents_ok (w : World) : Prop :=
  NoDup (map e_id (extents w))
  /\ NoDup (map e_name (extents w))
  /\ Forall extent_row_ok (extents w).

(** The values of a nullable column that are not null. *)
Definition somes {R K} (f : R -> option K) (l : list R) : list K :=
  flat_map (fun r => match f r with Some a => [a] | None => [] end) l.

(** What [__validate] lets through: a name that [RE_TARGET_NAME]
    matches, and an alias, when there is one, without double quote and
    other than the reserved word. *)
Definition target_row_ok (r : TargetRow) : Prop :=
  RE_TARGET_NAME_search (t_name r) = true
  /\ match t_alias r with
     | Some a => str_contains dquote a = false /\ a <> "target"
     | None => True
     end.

(** The target table as the service keeps it: distinct primary keys,
    distinct names, distinct aliases among the rows that have one, rows
    that passed [__validate]. *)
Definition targets_ok (w : World) : Prop :=
  NoDup (map t_id (targets w))
  /\ NoDup (map t_name (targets w))
  /\ NoDup (somes t_alias (targets w))
  /\ Forall target_row_ok (targets w).

(** The row [r] is the one being updated. *)
Definition updated_row (old : option Target) (r : TargetRow) : Prop :=
  match old with
  | Some o => target_id o = Some (t_id r)
  | None => False
  end.

(** The pairs the association table is to keep distinct. *)
Definition target_lun (r : TargetExtentRow) : Z * Z := (te_target r, te_lunid r).
Definition target_extent (r : TargetExtentRow) : Z * Z := (te_target r, te_extent r).

(** The association table with distinct primary keys, no LUN used twice
    by a target and no extent bound twice to a target. *)
Definition associations_ok (w : World) : Prop :=
  NoDup (map te_id (targetextents w))
  /\ NoDup (map target_lun (targetextents w))
  /\ NoDup (map target_extent (targetextents w)).

(** An association update that sends neither [target] nor [extent]; any
    other operation. *)
Definition keeps_binding (o : Operation) : bool :=
  match o with
  | OpMutation (targetextent_update _ data) =>
      match teu_target data, teu_extent data with
      | None, None => true
      | _, _ => false
      end
  | _ => true
  end.

(** The update that moves an association to the target [t]. *)
Definition move_to (t : Z) : TargetExtentUpdate :=
  {| teu_target := Some t; teu_lunid := None; teu_extent := None |}.

(** The listen table after the updates of a loop over [state], each of
    which replaces the rows of one primary key. *)
Definition rows_updated (g : PortalIpRow -> PortalIpRow -> PortalIpRow)
  (state l : list PortalIpRow) : list PortalIpRow :=
  fold_left
    (fun l row => map (fun r => if pip_id r =? pip_id row then g row r else r) l)
    state l.






(** The one operation that is asked to remove a file: an extent delete
    with [remove] set. *)
Definition unlinks (o : Operation) : bool :=
  match o with
  | OpMutation (extent_delete _ remove _) => remove
  | _ => false
  end.

(** Running [c] removes no regular file. *)
Definition keeps_files {A} (c : M A) : Prop :=
  forall w, incl (fs_files w) (fs_files (snd (c w))).

(** The name under which the sessions of a target are listed: the name
    itself when it starts with [iqn.], [naa.] or [eui.], else the global
    base name, a colon and the name. *)
Definition qualified_name (e : Env) (name : string) : string :=
  if startswith name "iqn." || startswith name "naa." || startswith name "eui."
  then name
  else basename e ^^ ":" ^^ name.

(** A session is open on the target row [r]. *)
Definition in_use_by_session (w : World) (r : TargetRow) : Prop :=
  In (qualified_name (env w) (t_name r)) (sessions (env w)).

(** The address and port of a listen row, and of an element of
    [listen]. *)
Definition listen_pair (r : PortalIpRow) : string * Z := (pip_ip r, pip_port r).
Definition pair_of (i : Listen) : string * Z := (ip i, port i).

(** The listen table with distinct primary keys and no address and port
    listed twice: what the unique index of the table asks for. *)
Definition listens_ok (w : World) : Prop :=
  NoDup (map pip_id (portalips w))
  /\ NoDup (map listen_pair (portalips w)).

(** The row [__save_listen] inserts for the element [i]. *)
Definition listen_row (pk : Z) (i : Listen) : PortalIpRow :=
  {| pip_id := 0; pip_portal := pk; pip_ip := ip i; pip_port := port i |}.

(** The element of [listen] that [config_extend] makes of a listen
    row, and the listen rows of the portal [pk]. *)
Definition to_listen (r : PortalIpRow) : Listen :=
  {| ip := pip_ip r; port := pip_port r |}.

Definition listen_rows (pk : Z) (w : World) : list PortalIpRow :=
  datastore_query PortalIpT (fun x => pip_portal x =? pk) w.

(** Every listen row belongs to a stored portal. *)
Definition listens_have_portals (w : World) : Prop :=
  forall r, In r (portalips w) -> In (pip_portal r) (map p_id (portals w)).

(** The group rows of the target [pk], the columns of a group row that
    [__save_groups] compares, and the element of [groups] that [extend]
    makes of them. *)
Definition group_rows (pk : Z) (w : World) : list GroupRow :=
  datastore_query GroupT (fun g => g_target g =? pk) w.

Definition groupc_of_row (g : GroupRow) : GroupC :=
  {| gc_portal := g_portalgroup g; gc_initiator := g_initiatorgroup g;
     gc_auth := g_authgroup g; gc_authmethod := g_authtype g |}.

Definition group_extend (c : GroupC) : Group :=
  {| portal := gc_portal c; initiator := gc_initiator c;
     authmethod := legacy_get (gc_authmethod c); auth := gc_auth c |}.

(** The row [__save_groups] inserts for the element [i]. *)
Definition group_row (pk : Z) (i : GroupC) : GroupRow :=
  {| g_id := 0; g_target := pk; g_portalgroup := gc_portal i;
     g_initiatorgroup := gc_initiator i;
     g_authtype := gc_authmethod i; g_authgroup := gc_auth i |}.

(** The spellings of the auth method: the three the API's enum admits
    and the three the table stores for them. *)
Definition api_spelling (g : Group) : Prop :=
  exists m, authmethod g = Some m /\ In m ["NONE"; "CHAP"; "CHAP_MUTUAL"].

Definition stored_spelling (s : string) : Prop :=
  In s ["None"; "CHAP"; "CHAP Mutual"].

(** The group table with distinct primary keys, no portal twice on a
    target (the unique index of the table) and every auth type in a
    stored spelling. *)
Definition groups_ok (w : World) : Prop :=
  NoDup (map g_id (groups w))
  /\ NoDup (map (fun g => (g_target g, g_portalgroup g)) (groups w))
  /\ Forall (fun g => stored_spelling (g_authtype g)) (groups w).

(** Every group row belongs to a stored target. *)
Definition groups_have_targets (w : World) : Prop :=
  forall g, In g (groups w) -> In (g_target g) (map t_id (targets w)).

(** What [clean_size] lets through: the size zero, or a size whose
    double is a multiple of a block size other than zero. *)
Definition size_fits (size blocksize : Z) : Prop :=
  size = 0
  \/ (blocksize <> 0
      /\ exists f, float_of_int size = Some f /\ f mod blocksize = 0).

(** What [clean_type_and_path] and [clean_size] ask of an extent, read
    on the stored row: a DISK extent names a zvol of an existing volume,
    a FILE extent a path within a volume with a size that fits its
    block size. *)
Definition extent_backing_ok (e : Env) (r : ExtentRow) : Prop :=
  (e_type r = "DISK" ->
   exists d, e_path r = Some d /\ startswith d "zvol/" = true
             /\ dataset_exists e (zvol_path_to_name e ("/dev/" ^^ d)) = true)
  /\ (e_type r = "FILE" ->
      exists p, e_path r = Some p /\ p <> ""
                /\ resides_within_volume e p = true
                /\ size_fits (e_filesize r) (e_blocksize r)).

Definition extents_backed (w : World) : Prop :=
  Forall (extent_backing_ok (env w)) (extents w).

(** Every group row names a stored portal. *)
Definition groups_have_portals (w : World) : Prop :=
  forall g, In g (groups w) -> In (g_portalgroup g) (map p_id (portals w)).

(** The references the plugin itself looks after: a listen row to its
    portal, a group row to its target and to its portal. *)
Definition refs_ok (w : World) : Prop :=
  listens_have_portals w /\ groups_have_targets w /\ groups_have_portals w.

(** Running [c] adds to the table [f] only rows that satisfy [P]. *)
Definition adds {A R} (f : World -> list R) (P : R -> Prop) (c : M A) : Prop :=
  forall w r, In r (f (snd (c w))) -> In r (f w) \/ P r.

(** The target and the portal of a group row: the columns of the unique
    index of the group table. *)
Definition target_portal (g : GroupRow) : Z * Z := (g_target g, g_portalgroup g).

(** The groups an operation sends have their auth method within the
    enum of the schema. *)
Definition within_enums (o : Operation) : Prop :=
  match o with
  | OpMutation (target_create data) =>
      forall g, In g (target_groups data) -> api_spelling g
  | OpMutation (target_update _ data) =>
      forall l, tu_groups data = Some l -> forall g, In g l -> api_spelling g
  | _ => True
  end.

(** The rows a reset over [ips] leaves on 0.0.0.0: those that listen on
    one of [ips] and those that are there already. *)
Definition reset_to_any (ips : list string) (r : PortalIpRow) : bool :=
  mem_str (pip_ip r) ips || String.eqb (pip_ip r) "0.0.0.0".

(** No two of these rows have the same port, so the reset does not run
    into the unique index. *)
Definition reset_is_free (ips : list string) (w : World) : Prop :=
  NoDup (map pip_port (filter (reset_to_any ips) (portalips w))).

(** Whatever [c] raises, it is not the exhaustion error of the serial
    allocation. *)
Definition never_exhausts {A} (c : M A) : Prop :=
  forall w e w', c w = (Raise e, w') -> e <> serial_exhausted.

(** The events of the deletes and of the inserts of the rows [l] of a
    table, in the order of [l]. *)
Definition delete_events {R} (T : TableOps R) (l : list R) : list Event :=
  map (fun r => EvDelete (tbl T) (row_id T r)) l.

Definition insert_events {R} (T : TableOps R) (l : list R) : list Event :=
  map (fun r => EvInsert (tbl T) (row_id T r)) l.

(** The table [l] without the rows that have the key of one of
    [gone]. *)
Definition without {R} (T : TableOps R) (gone l : list R) : list R :=
  filter (fun r => negb (mem_Z (row_id T r) (map (row_id T) gone))) l.

(** [set(old) if old else set()], as a list of elements. *)
Definition old_or_empty {A} (old : option (list A)) : list A :=
  match old with
  | Some l => l
  | None => []
  end.

(** [l] holds the elements of [a - b], each once. *)
Definition is_difference {A} (l a b : list A) : Prop :=
  NoDup l /\ forall x, In x l <-> In x a /\ ~ In x b.

(** The parent [pk] has a row for the element. *)
Definition group_stored (pk : Z) (w : World) (c : GroupC) : Prop :=
  exists r, In r (groups w) /\ g_target r = pk /\ groupc_of_row r = c.

Definition listen_stored (pk : Z) (w : World) (i : Listen) : Prop :=
  exists r, In r (portalips w) /\ pip_portal r = pk /\ to_listen r = i.

(** ** Example configurations *)

Definition example_env : Env :=
  {| alua := false;
     basename := "iqn.2005-10.org.freenas.ctl";
     int_vips := [];
     alias_vips := [];
     interface_addresses := ["10.0.0.1"; "10.0.0.2"];
     sessions := [];
     service_started := false;
     fibrechannel := false;
     zvol_path_to_name := fun s => String.substring 10 (String.length s) s;
     dataset_exists := fun s => String.eqb s "tank/vol1";
     resides_within_volume := fun p => startswith p "/mnt/tank/";
     scstadmin_returncode := 0;
     uuid_sha256_hexdigest := fun b => hexlify (b ++ b) |}.

Definition empty_world : World :=
  {| portals := []; portalips := []; auths := []; initiators := [];
     targets := []; groups := []; extents := []; targetextents := [];
     fs_files := []; fs_others := ["/dev/zvol/tank/vol1"; "/mnt/tank"];
     log := []; faults := []; entropy := fun _ => x00; entropy_pos := 0%nat;
     env := example_env |}.

Definition default_misc : ExtentMisc :=
  {| x_pblocksize := false; x_avail_threshold := None; x_comment := "";
     x_insecure_tpc := true; x_xen := false; x_rpm := "SSD"; x_ro := false;
     x_enabled := true |}.

Definition example_listen (p : Z) : Listen := {| ip := "0.0.0.0"; port := p |}.

Definition example_portal_create (p : Z) : PortalCreate :=
  {| pc_comment := ""; pc_discovery_authmethod := "NONE";
     pc_discovery_authgroup := None; pc_listen := [example_listen p] |}.

Definition example_extent_create : ExtentCreate :=
  {| ec_name := "vol1"; ec_type := "DISK"; ec_disk := Some "zvol/tank/vol1";
     ec_serial := None; ec_path := None; ec_filesize := 0;
     ec_blocksize := 512; ec_misc := default_misc |}.

Definition example_extent_row (id : Z) (name : string) (s : string) : ExtentRow :=
  {| e_id := id; e_name := name; e_serial := Some s; e_type := "DISK";
     e_path := Some "zvol/tank/vol1"; e_filesize := 0; e_blocksize := 512;
     e_naa := "0x6589cfc000000" ^^ str_of_Z id; e_vendor := Some "TrueNAS";
     e_misc := default_misc |}.

(** A target with LUNs 0, 1 and 3 in use. *)
Definition world_luns_013 : World :=
  set_targetextents
    [ {| te_id := 1; te_extent := 1; te_target := 1; te_lunid := 0 |};
      {| te_id := 2; te_extent := 2; te_target := 1; te_lunid := 1 |};
      {| te_id := 3; te_extent := 3; te_target := 1; te_lunid := 3 |} ]
    empty_world.

(** A portal listening on one address. *)
Definition world_one_portal : World :=
  set_portalips
    [ {| pip_id := 1; pip_portal := 1; pip_ip := "10.0.0.1"; pip_port := 3260 |} ]
    (set_portals
       [ {| p_id := 1; p_tag := 1; p_comment := "";
            p_discoveryauthmethod := "None"; p_discoveryauthgroup := None |} ]
       empty_world).

(** One target whose only association binds the only extent. *)
Definition world_sole_extent : World :=
  set_targetextents
    [ {| te_id := 1; te_extent := 1; te_target := 1; te_lunid := 0 |} ]
    (set_extents [example_extent_row 1 "vol1" "10000000000face"]
       (set_targets
          [ {| t_id := 1; t_name := "t1"; t_alias := None; t_mode := "iscsi" |} ]
          empty_world)).

(** Every random serial is fifteen zeros, and that serial is taken. *)
Definition world_serial_taken : World :=
  set_extents [example_extent_row 1 "old" "000000000000000"] empty_world.

(** The same, but the fifth draw of random bytes differs. *)
Definition world_fifth_serial_free : World :=
  {| portals := []; portalips := []; auths := []; initiators := [];
     targets := []; groups := [];
     extents := [example_extent_row 1 "old" "000000000000000"];
     targetextents := [];
     fs_files := []; fs_others := ["/dev/zvol/tank/vol1"; "/mnt/tank"];
     log := []; faults := [];
     entropy := fun n => if (n <? 128)%nat then x00 else x01;
     entropy_pos := 0%nat; env := example_env |}.

(** The update that sends no key at all. *)
Definition example_extent_update_nothing : ExtentUpdate :=
  {| eu_name := None; eu_type := None; eu_disk := None; eu_serial := None;
     eu_path := None; eu_filesize := None; eu_blocksize := None;
     eu_misc := None |}.

Definition example_auth (id tag : Z) : AuthRow :=
  {| a_id := id; a_tag := tag; a_user := "user";
     a_secret := "secretsecret1"; a_peeruser := ""; a_peersecret := "" |}.

Definition example_group_row (authgroup : option Z) : GroupRow :=
  {| g_id := 1; g_target := 1; g_portalgroup := 1; g_initiatorgroup := None;
     g_authtype := "CHAP"; g_authgroup := authgroup |}.

Definition world_one_target : World :=
  set_targets
    [ {| t_id := 1; t_name := "t1"; t_alias := None; t_mode := "iscsi" |} ]
    world_one_portal.

(** One credential with tag 1, referred to by a target group. *)
Definition world_auth_alone : World :=
  set_groups [example_group_row (Some 1)]
    (set_auths [example_auth 1 1] world_one_target).

(** Two credentials share tag 1, referred to by a target group. *)
Definition world_auth_shared : World :=
  set_groups [example_group_row (Some 1)]
    (set_auths [example_auth 1 1; example_auth 2 1] world_one_target).

(** One credential with tag 1, which the discovery of a portal uses. *)
Definition world_auth_portal : World :=
  set_auths [example_auth 1 1]
    (set_portals
       [ {| p_id := 1; p_tag := 1; p_comment := "";
            p_discoveryauthmethod := "CHAP"; p_discoveryauthgroup := Some 1 |} ]
       world_one_portal).

(** One credential with tag 1, one portal, no target. *)
Definition world_auth_unused : World :=
  set_auths [example_auth 1 1] world_one_portal.

(** The datastore accepts one write and fails the next. *)
Definition world_second_write_fails : World :=
  set_faults [false; true] world_one_portal.

Definition example_target (g : list Group) : Target :=
  {| target_id := None; target_name := "t1"; target_alias := None;
     target_mode := "ISCSI"; target_groups := g |}.

Definition example_group (m : string) (a : option Z) : Group :=
  {| portal := 1; initiator := None; authmethod := Some m; auth := a |}.

Definition example_initiator : Initiator :=
  {| initiator_id := None; initiators_ := ["iqn.1991-05.com.a"; "iqn.1991-05.com.b"];
     auth_network := ["10.0.0.0/24"]; initiator_comment := "" |}.

(** Target 1 uses LUN 0 for extent 1, target 2 uses LUN 0 for extent 2. *)
Definition world_two_targets_lun_0 : World :=
  set_targetextents
    [ {| te_id := 1; te_extent := 1; te_target := 1; te_lunid := 0 |};
      {| te_id := 2; te_extent := 2; te_target := 2; te_lunid := 0 |} ]
    empty_world.

(** Two portals: one listens on 10.0.0.1 and 10.0.0.2, the other on
    10.0.0.1 at another port. *)
Definition world_three_listens : World :=
  set_portalips
    [ {| pip_id := 1; pip_portal := 1; pip_ip := "10.0.0.1"; pip_port := 3260 |};
      {| pip_id := 2; pip_portal := 1; pip_ip := "10.0.0.2"; pip_port := 3260 |};
      {| pip_id := 3; pip_portal := 2; pip_ip := "10.0.0.1"; pip_port := 3261 |} ]
    (set_portals
       [ {| p_id := 1; p_tag := 1; p_comment := "";
            p_discoveryauthmethod := "None"; p_discoveryauthgroup := None |};
         {| p_id := 2; p_tag := 2; p_comment := "";
            p_discoveryauthmethod := "None"; p_discoveryauthgroup := None |} ]
       empty_world).

(** A file extent whose backing file exists. *)
Definition world_file_extent : World :=
  set_fs ["/mnt/tank/iscsi/disk0"; "/mnt/tank/notes"] ["/mnt/tank"; "/mnt/tank/iscsi"]
    (set_extents
       [ {| e_id := 1; e_name := "disk0"; e_serial := Some "10000000000face";
            e_type := "FILE"; e_path := Some "/mnt/tank/iscsi/disk0";
            e_filesize := 0; e_blocksize := 512; e_naa := "0x6589cfc0000001";
            e_vendor := Some "TrueNAS"; e_misc := default_misc |} ]
       empty_world).

(** The only target has an open session. *)
Definition world_session_open : World :=
  {| portals := portals world_sole_extent;
     portalips := portalips world_sole_extent;
     auths := auths world_sole_extent;
     initiators := initiators world_sole_extent;
     targets := targets world_sole_extent;
     groups := groups world_sole_extent;
     extents := extents world_sole_extent;
     targetextents := targetextents world_sole_extent;
     fs_files := fs_files world_sole_extent;
     fs_others := fs_others world_sole_extent;
     log := log world_sole_extent;
     faults := faults world_sole_extent;
     entropy := entropy world_sole_extent;
     entropy_pos := entropy_pos world_sole_extent;
     env :=
       {| alua := false;
          basename := "iqn.2005-10.org.freenas.ctl";
          int_vips := []; alias_vips := [];
          interface_addresses := ["10.0.0.1"; "10.0.0.2"];
          sessions := ["iqn.2005-10.org.freenas.ctl:t1"];
          service_started := true; fibrechannel := false;
          zvol_path_to_name := zvol_path_to_name example_env;
          dataset_exists := dataset_exists example_env;
          resides_within_volume := resides_within_volume example_env;
          scstadmin_returncode := 0;
          uuid_sha256_hexdigest := uuid_sha256_hexdigest example_env |} |}.

(** Target 1 with two groups, on portals 1 and 2. *)
Definition world_two_groups : World :=
  set_groups
    [ {| g_id := 1; g_target := 1; g_portalgroup := 1; g_initiatorgroup := None;
         g_authtype := "None"; g_authgroup := None |};
      {| g_id := 2; g_target := 1; g_portalgroup := 2; g_initiatorgroup := None;
         g_authtype := "None"; g_authgroup := None |} ]
    world_one_target.

Definition example_groupc (p : Z) : GroupC :=
  {| gc_portal := p; gc_initiator := None; gc_auth := None;
     gc_authmethod := "None" |}.

(* ================================================================== *)
(** * Part II. Properties *)
(* ================================================================== *)

(** ** Lists, sets and sorting *)

Lemma mem_Z_In x l : mem_Z x l = true <-> In x l.
Proof.
  unfold mem_Z. rewrite existsb_exists. split.
  - intros [y [Hy E]]. apply Z.eqb_eq in E. now subst.
  - intros H. exists x. split; [assumption | apply Z.eqb_refl].
Qed.

Lemma mem_str_In x l : mem_str x l = true <-> In x l.
Proof.
  unfold mem_str. rewrite existsb_exists. split.
  - intros [y [Hy E]]. apply String.eqb_eq in E. now subst.
  - intros H. exists x. split; [assumption | apply String.eqb_refl].
Qed.

Lemma py_range_In a b k : In k (py_range a b) <-> a <= k < b.
Proof.
  unfold py_range. rewrite in_map_iff. split.
  - intros [i [E Hi]]. apply in_seq in Hi. lia.
  - intros H. exists (Z.to_nat (k - a)). split; [lia |].
    apply in_seq. lia.
Qed.

Section SetFacts.
Context {A : Type} (eqb : A -> A -> bool).
Hypothesis eqb_spec : forall x y, eqb x y = true <-> x = y.

Lemma eqb_false_iff x y : eqb x y = false <-> x <> y.
Proof.
  split.
  - intros E H. apply eqb_spec in H. congruence.
  - intros H. destruct (eqb x y) eqn:E; [| reflexivity].
    apply eqb_spec in E. contradiction.
Qed.

Lemma py_set_In x l : In x (py_set eqb l) <-> In x l.
Proof.
  induction l as [| y l IH]; simpl; [tauto |].
  rewrite filter_In, IH, negb_true_iff, eqb_false_iff.
  split.
  - intros [H | [H _]]; auto.
  - intros [H | H]; auto.
    destruct (eqb y x) eqn:E.
    + left. now apply eqb_spec.
    + right. split; [assumption |]. now apply eqb_false_iff.
Qed.

Lemma existsb_eqb_In x l : existsb (eqb x) l = true <-> In x l.
Proof.
  rewrite existsb_exists. split.
  - intros [y [Hy E]]. apply eqb_spec in E. now subst.
  - intros H. exists x. split; [assumption | now apply eqb_spec].
Qed.

Lemma set_diff_In x a b : In x (set_diff eqb a b) <-> In x a /\ ~ In x b.
Proof.
  unfold set_diff. rewrite filter_In, negb_true_iff.
  rewrite <- (existsb_eqb_In x b).
  destruct (existsb (eqb x) b); split; intros [Ha Hb]; split;
    try assumption; try discriminate; try reflexivity.
  now elim Hb.
Qed.
End SetFacts.

Section Sorting.
Context {A : Type} (key : A -> Z).

Lemma insert_by_In x y l : In y (insert_by key x l) <-> y = x \/ In y l.
Proof.
  induction l as [| z l IH]; simpl.
  - intuition.
  - destruct (key z <=? key x); simpl; rewrite ?IH; intuition.
Qed.

Lemma insert_by_sorted x l :
  StronglySorted (key_le key) l ->
  StronglySorted (key_le key) (insert_by key x l).
Proof.
  induction 1 as [| z l Hs IH Hz]; simpl.
  - constructor; constructor.
  - destruct (key z <=? key x) eqn:E.
    + constructor; [assumption |].
      apply Forall_forall. intros y Hy. apply insert_by_In in Hy.
      destruct Hy as [-> | Hy].
      * unfold key_le. lia.
      * rewrite Forall_forall in Hz. now apply Hz.
    + apply Z.leb_gt in E.
      constructor; [constructor; assumption |].
      constructor; [unfold key_le; lia |].
      rewrite Forall_forall in *. intros y Hy. specialize (Hz y Hy).
      unfold key_le in *. lia.
Qed.

Lemma fold_insert_In y l acc :
  In y (fold_left (fun acc x => insert_by key x acc) l acc)
  <-> In y l \/ In y acc.
Proof.
  revert acc. induction l as [| x l IH]; intros acc; simpl.
  - tauto.
  - rewrite IH, insert_by_In. intuition.
Qed.

Lemma fold_insert_sorted l acc :
  StronglySorted (key_le key) acc ->
  StronglySorted (key_le key)
    (fold_left (fun acc x => insert_by key x acc) l acc).
Proof.
  revert acc. induction l as [| x l IH]; intros acc H; simpl.
  - assumption.
  - apply IH. now apply insert_by_sorted.
Qed.

Lemma sorted_by_In y l : In y (sorted_by key l) <-> In y l.
Proof. unfold sorted_by. rewrite fold_insert_In. simpl. tauto. Qed.

Lemma sorted_by_sorted l : StronglySorted (key_le key) (sorted_by key l).
Proof. apply fold_insert_sorted. constructor. Qed.

(** Inserting a key that is not below any present key appends. *)
Lemma insert_by_last x l :
  Forall (fun y => key y <= key x) l -> insert_by key x l = l ++ [x].
Proof.
  induction 1 as [| y l Hy _ IH]; simpl; [reflexivity |].
  destruct (key y <=? key x) eqn:E; [now rewrite IH |].
  apply Z.leb_gt in E. lia.
Qed.

Lemma fold_insert_ascending l acc :
  StronglySorted (key_le key) (acc ++ l) ->
  fold_left (fun acc x => insert_by key x acc) l acc = acc ++ l.
Proof.
  revert acc. induction l as [| x l IH]; intros acc H; simpl.
  - now rewrite app_nil_r.
  - rewrite insert_by_last.
    + rewrite IH; rewrite <- app_assoc; [reflexivity | exact H].
    + clear IH. induction acc as [| a acc IHa]; [constructor |].
      simpl in H. inversion H as [| ? ? Hs Hf]; subst.
      constructor.
      * rewrite Forall_forall in Hf. apply Hf. apply in_or_app. right. now left.
      * now apply IHa.
Qed.

(** Sorting a list that is already in ascending order changes nothing. *)
Lemma sorted_by_ascending l :
  StronglySorted (key_le key) l -> sorted_by key l = l.
Proof. intros H. unfold sorted_by. now rewrite fold_insert_ascending. Qed.
End Sorting.

(** ** LUN allocation *)

Lemma py_last_In (l : list Z) : l <> [] -> In (py_last l) l.
Proof.
  unfold py_last. induction l as [| a l IH]; [congruence |].
  intros _. destruct l as [| b l]; [now left |].
  right. apply IH. discriminate.
Qed.

Lemma py_last_upper (l : list Z) :
  StronglySorted Z.le l -> forall x, In x l -> x <= py_last l.
Proof.
  unfold py_last. induction 1 as [| a l Hs IH Ha]; intros x Hx; [contradiction |].
  destruct l as [| b l].
  - destruct Hx as [-> | []]. simpl. lia.
  - change (last (a :: b :: l) 0) with (last (b :: l) 0).
    destruct Hx as [-> | Hx]; [| now apply IH].
    rewrite Forall_forall in Ha. apply Ha.
    apply (py_last_In (b :: l)). discriminate.
Qed.

Lemma fold_max_ge (l : list Z) (a : Z) :
  a <= fold_left Z.max l a /\ forall x, In x l -> x <= fold_left Z.max l a.
Proof.
  revert a. induction l as [| b l IH]; intros a; simpl.
  - split; [lia | contradiction].
  - destruct (IH (Z.max a b)) as [H1 H2]. split; [lia |].
    intros x [-> | Hx]; [lia | now apply H2].
Qed.

Lemma fold_max_In (l : list Z) (a : Z) :
  fold_left Z.max l a = a \/ In (fold_left Z.max l a) l.
Proof.
  revert a. induction l as [| b l IH]; intros a; simpl; [now left |].
  destruct (IH (Z.max a b)) as [H | H]; [| now right; right].
  rewrite H. destruct (Z.max_spec a b) as [[_ E] | [_ E]]; rewrite E; auto.
Qed.

Lemma py_max_upper (l : list Z) x : In x l -> x <= py_max l.
Proof.
  unfold py_max. destruct l as [| a l]; [contradiction |]. simpl.
  destruct (fold_max_ge l a) as [H1 H2].
  intros [-> | Hx]; [assumption | now apply H2].
Qed.

Lemma py_max_In (l : list Z) : l <> [] -> In (py_max l) l.
Proof.
  unfold py_max. destruct l as [| a l]; [congruence |]. intros _. simpl.
  destruct (fold_max_In l a) as [H | H]; [left; now rewrite H | now right].
Qed.

Lemma least_unused_ext (l1 l2 : list Z) r :
  (forall x, In x l1 <-> In x l2) -> least_unused l1 r -> least_unused l2 r.
Proof.
  intros E (H0 & H1 & H2). repeat split; try assumption.
  - now rewrite <- E.
  - intros k Hk. apply E. now apply H2.
Qed.

Lemma least_unused_unique (l : list Z) a b :
  least_unused l a -> least_unused l b -> a = b.
Proof.
  intros (A0 & A1 & A2) (B0 & B1 & B2).
  destruct (Z.lt_trichotomy a b) as [H | [H | H]]; [| assumption |].
  - elim A1. apply B2. lia.
  - elim B1. apply A2. lia.
Qed.

(** On the LUNs of a target in ascending order, none of them negative,
    [allocate_lunid] returns the smallest non-negative integer that is
    not among them. *)
Lemma allocate_lunid_least (lunids : list Z) :
  StronglySorted Z.le lunids ->
  Forall (fun x => 0 <= x) lunids ->
  least_unused lunids (allocate_lunid lunids).
Proof.
  intros Hs Hpos. unfold allocate_lunid.
  destruct lunids as [| x0 l0] eqn:El.
  - repeat split; [lia | tauto | intros; lia].
  - rewrite <- El in *. assert (Hne : lunids <> []) by (subst; discriminate).
    clear El x0 l0.
    set (diff := py_sorted _).
    assert (Hdiff : forall k, In k diff <-> 0 <= k <= py_last lunids /\ ~ In k lunids).
    { intros k. unfold diff, py_sorted.
      rewrite sorted_by_In, (set_diff_In Z.eqb Z.eqb_eq),
        (py_set_In Z.eqb Z.eqb_eq), py_range_In. intuition lia. }
    assert (Hsorted : StronglySorted Z.le diff).
    { unfold diff, py_sorted.
      exact (sorted_by_sorted (fun x : Z => x) _). }
    rewrite Forall_forall in Hpos.
    destruct diff as [| d rest].
    + pose proof (py_max_In lunids Hne) as Hin.
      pose proof (py_last_upper lunids Hs _ Hin) as Hle.
      repeat split.
      * specialize (Hpos _ Hin). lia.
      * intros H. apply py_max_upper in H. lia.
      * intros k Hk. destruct (in_dec Z.eq_dec k lunids) as [H | H]; [assumption |].
        exfalso. apply (proj2 (Hdiff k)). split; [lia | assumption].
    + destruct (proj1 (Hdiff d) (or_introl eq_refl)) as [Hd Hnd].
      repeat split; [lia | assumption |].
      intros k Hk. destruct (in_dec Z.eq_dec k lunids) as [H | H]; [assumption |].
      exfalso.
      assert (Hkd : In k (d :: rest)) by (apply Hdiff; split; [lia | assumption]).
      inversion Hsorted as [| ? ? _ Hall]; subst.
      rewrite Forall_forall in Hall.
      destruct Hkd as [E | Hk']; [lia |]. specialize (Hall _ Hk'). lia.
Qed.

Lemma map_key_sorted {A} (key : A -> Z) (l : list A) :
  StronglySorted (key_le key) l -> StronglySorted Z.le (map key l).
Proof.
  induction 1 as [| a l Hs IH Ha]; simpl; constructor; [assumption |].
  rewrite Forall_forall in *. intros x Hx. apply in_map_iff in Hx.
  destruct Hx as [y [<- Hy]]. now apply Ha.
Qed.

Lemma target_lunids_sorted t w : StronglySorted Z.le (target_lunids t w).
Proof. unfold target_lunids. apply map_key_sorted, sorted_by_sorted. Qed.

Lemma target_lunids_In t w x : In x (target_lunids t w) <-> In x (used_lunids t w).
Proof.
  unfold target_lunids, used_lunids, datastore_query. simpl.
  rewrite !in_map_iff. split; intros [r [E Hr]]; exists r; split; try assumption.
  - now apply sorted_by_In in Hr.
  - now apply sorted_by_In.
Qed.

(** ** Runs in the monad *)

Lemma bind_Ok {A B} (c : M A) (k : A -> M B) w r w' :
  bind c k w = (Ok r, w') ->
  exists a w1, c w = (Ok a, w1) /\ k a w1 = (Ok r, w').
Proof.
  unfold bind. destruct (c w) as [[a | e] w1]; intros H.
  - now exists a, w1.
  - discriminate.
Qed.

Lemma bind_Raise {A B} (c : M A) (k : A -> M B) w e w' :
  bind c k w = (Raise e, w') ->
  c w = (Raise e, w') \/ exists a w1, c w = (Ok a, w1) /\ k a w1 = (Raise e, w').
Proof.
  unfold bind. destruct (c w) as [[a | e0] w1]; intros H.
  - right. now exists a, w1.
  - left. inversion H; subst. reflexivity.
Qed.

Lemma bind_step {A B} (c : M A) (k : A -> M B) w a w1 :
  c w = (Ok a, w1) -> bind c k w = k a w1.
Proof. unfold bind. now intros ->. Qed.

Lemma bind_fail {A B} (c : M A) (k : A -> M B) w e w1 :
  c w = (Raise e, w1) -> bind c k w = (Raise e, w1).
Proof. unfold bind. now intros ->. Qed.

Lemma check_Ok v w r w' : check v w = (Ok r, w') -> v = [] /\ w' = w.
Proof.
  destruct v; simpl; unfold ret, raise; intros H; inversion H; auto.
Qed.

Lemma write_Ok {A} t (op : M A) w r w' :
  datastore_write t op w = (Ok r, w') ->
  hd false (faults w) = false /\ op (set_faults (tl (faults w)) w) = (Ok r, w').
Proof.
  unfold datastore_write, bind, take_fault.
  destruct (hd false (faults w)); [discriminate | auto].
Qed.

Lemma write_run {A} t (op : M A) w :
  next_write_ok w = true ->
  datastore_write t op w = op (set_faults (tl (faults w)) w).
Proof.
  unfold next_write_ok, datastore_write, bind, take_fault.
  destruct (faults w) as [| [|] fs]; simpl; intros H; congruence.
Qed.

(** Decompose a hypothesis saying that a sequence of steps returned. *)
Ltac inv_ok H :=
  let a := fresh "a" in
  let w1 := fresh "w" in
  let H1 := fresh "Hstep" in
  apply bind_Ok in H; destruct H as (a & w1 & H1 & H).

(** ** Events *)

Lemma new_events_app {A} (c : M A) w evs :
  log (snd (c w)) = log w ++ evs -> new_events c w = evs.
Proof.
  unfold new_events. intros ->.
  rewrite skipn_app, skipn_all, Nat.sub_diag. reflexivity.
Qed.

Lemma emits_weaken {A} (P Q : Event -> bool) (c : M A) :
  (forall e, P e = true -> Q e = true) -> emits P c -> emits Q c.
Proof.
  intros HPQ H w. destruct (H w) as [evs [E F]]. exists evs. split; [assumption |].
  rewrite forallb_forall in *. auto.
Qed.

Lemma emits_ret {A} P (a : A) : emits P (ret a).
Proof. intros w. exists []. simpl. now rewrite app_nil_r. Qed.

Lemma emits_raise {A} P e : emits P (@raise A e).
Proof. intros w. exists []. simpl. now rewrite app_nil_r. Qed.

Lemma emits_get_world P : emits P get_world.
Proof. intros w. exists []. simpl. now rewrite app_nil_r. Qed.


Lemma emits_emit (P : Event -> bool) e : P e = true -> emits P (emit e).
Proof. intros H w. exists [e]. simpl. now rewrite H. Qed.

Lemma emits_bind_split {A B} P Q (c : M A) (k : A -> M B) :
  emits P c -> (forall a, emits Q (k a)) ->
  forall w, exists e1 e2,
    log (snd (bind c k w)) = log w ++ e1 ++ e2
    /\ forallb P e1 = true /\ forallb Q e2 = true.
Proof.
  intros Hc Hk w. unfold bind.
  destruct (Hc w) as [e1 [E1 F1]].
  destruct (c w) as [[a | e] w1]; simpl in *.
  - destruct (Hk a w1) as [e2 [E2 F2]]. exists e1, e2.
    rewrite E2, E1, app_assoc. auto.
  - exists e1, []. rewrite app_nil_r. auto.
Qed.

Lemma emits_bind {A B} P (c : M A) (k : A -> M B) :
  emits P c -> (forall a, emits P (k a)) -> emits P (bind c k).
Proof.
  intros Hc Hk w. destruct (emits_bind_split P P c k Hc Hk w) as (e1 & e2 & E & F1 & F2).
  exists (e1 ++ e2). split; [assumption |]. rewrite forallb_app, F1, F2. reflexivity.
Qed.

Lemma emits_try_except {A} P (c : M A) h :
  emits P c -> (forall e, emits P (h e)) -> emits P (try_except c h).
Proof.
  intros Hc Hh w. unfold try_except.
  destruct (Hc w) as [e1 [E1 F1]].
  destruct (c w) as [[a | e] w1]; simpl in *.
  - now exists e1.
  - destruct (Hh e w1) as [e2 [E2 F2]]. exists (e1 ++ e2).
    rewrite E2, E1, app_assoc, forallb_app, F1, F2. auto.
Qed.

Lemma emits_try_finally {A} P (c : M A) f :
  emits P c -> emits P f -> emits P (try_finally c f).
Proof.
  intros Hc Hf w. unfold try_finally.
  destruct (Hc w) as [e1 [E1 F1]].
  destruct (c w) as [r w1]; simpl in *.
  destruct (Hf w1) as [e2 [E2 F2]].
  exists (e1 ++ e2).
  destruct (f w1) as [[u | e] w2]; simpl in *;
    rewrite E2, E1, app_assoc, forallb_app, F1, F2; auto.
Qed.

Lemma emits_for_each {A} P (l : list A) body :
  (forall x, emits P (body x)) -> emits P (for_each l body).
Proof.
  intros H. induction l as [| x l IH]; simpl.
  - apply emits_ret.
  - apply emits_bind; [apply H | intros _; exact IH].
Qed.

Lemma emits_for_fold {A S} P (l : list A) (s : S) body :
  (forall x s, emits P (body x s)) -> emits P (for_fold l s body).
Proof.
  intros H. revert s. induction l as [| x l IH]; intros s; simpl.
  - apply emits_ret.
  - apply emits_bind; [apply H | intros s'; apply IH].
Qed.

Lemma emits_write {A} P t (op : M A) : emits P op -> emits P (datastore_write t op).
Proof.
  intros H w. unfold datastore_write, bind, take_fault.
  destruct (hd false (faults w)).
  - exists []. simpl. now rewrite app_nil_r.
  - destruct (H (set_faults (tl (faults w)) w)) as [evs [E F]]. now exists evs.
Qed.

Section TableEvents.
Context {R : Type} (T : TableOps R) (P : Event -> bool).

Lemma emits_insert r :
  (forall id, P (EvInsert (tbl T) id) = true) -> emits P (datastore_insert T r).
Proof.
  intros HP. apply emits_write. intros w. eexists. simpl. split; [reflexivity |].
  simpl. now rewrite HP.
Qed.

Lemma emits_update id f :
  P (EvUpdate (tbl T) id) = true -> emits P (datastore_update T id f).
Proof.
  intros HP. apply emits_write. intros w. eexists. simpl. split; [reflexivity |].
  simpl. now rewrite HP.
Qed.

Lemma emits_delete id :
  P (EvDelete (tbl T) id) = true -> emits P (datastore_delete T id).
Proof.
  intros HP. apply emits_write. intros w. eexists. simpl. split; [reflexivity |].
  simpl. now rewrite HP.
Qed.

Lemma emits_delete_where flt :
  P (EvDeleteWhere (tbl T)) = true -> emits P (datastore_delete_where T flt).
Proof.
  intros HP. apply emits_write. intros w. eexists. simpl. split; [reflexivity |].
  simpl. now rewrite HP.
Qed.
End TableEvents.

(** ** What each operation adds to the log *)

Lemma emits_check P v : emits P (check v).
Proof. destruct v; [apply emits_ret | apply emits_raise]. Qed.

(** A computation that only reads leaves the log alone. *)
Ltac emits_reader :=
  let w := fresh "w" in
  intros w; exists []; rewrite app_nil_r; split; [| reflexivity];
  repeat match goal with
         | |- context [match ?x with _ => _ end] => destruct x
         end; reflexivity.

Lemma emits_portal_get_instance P id : emits P (portal_get_instance id).
Proof. unfold portal_get_instance. emits_reader. Qed.

Lemma emits_auth_get_instance P id : emits P (auth_get_instance id).
Proof. unfold auth_get_instance. emits_reader. Qed.

Lemma emits_initiator_get_instance P id : emits P (initiator_get_instance id).
Proof. unfold initiator_get_instance. emits_reader. Qed.

Lemma emits_target_get_instance P id : emits P (target_get_instance id).
Proof. unfold target_get_instance. emits_reader. Qed.

Lemma emits_targetextent_get_instance P id : emits P (targetextent_get_instance id).
Proof. unfold targetextent_get_instance. emits_reader. Qed.

Lemma emits_extent_get_instance P id : emits P (extent_get_instance id).
Proof. unfold extent_get_instance. emits_reader. Qed.

Lemma emits_token_bytes P n : emits P (token_bytes n).
Proof. intros w. exists []. simpl. now rewrite app_nil_r. Qed.

Lemma emits_service_change (P : Event -> bool) s v :
  P (EvNotify s v) = true -> emits P (_service_change s v).
Proof. apply emits_emit. Qed.

Create HintDb emits.
#[export] Hint Resolve emits_check emits_portal_get_instance
  emits_auth_get_instance emits_initiator_get_instance
  emits_target_get_instance emits_targetextent_get_instance
  emits_extent_get_instance emits_token_bytes : emits.

(** Walk through an operation, one construct at a time. *)
Ltac emits_step :=
  first
    [ apply emits_ret
    | apply emits_raise
    | apply emits_get_world
    | solve [auto with emits]
    | apply emits_service_change; reflexivity
    | apply emits_emit; reflexivity
    | apply emits_insert; intros; reflexivity
    | apply emits_update; reflexivity
    | apply emits_delete; reflexivity
    | apply emits_delete_where; reflexivity
    | apply emits_for_each; intros
    | apply emits_for_fold; intros
    | apply emits_try_except; [| intros]
    | apply emits_try_finally
    | match goal with
      | |- emits _ (if ?b then _ else _) => destruct b
      | |- emits _ (match ?x with _ => _ end) => destruct x
      end
    | apply emits_bind; [| intros] ].

Ltac emits_tac := repeat emits_step.

Lemma emits_portal_save_listen pk new old :
  emits any_event (portal_save_listen pk new old).
Proof. unfold portal_save_listen. emits_tac. Qed.

Lemma emits_portal_do_create data : emits any_event (portal_do_create data).
Proof.
  unfold portal_do_create. pose proof emits_portal_save_listen. emits_tac.
Qed.

Lemma emits_portal_do_update pk data : emits any_event (portal_do_update pk data).
Proof.
  unfold portal_do_update. pose proof emits_portal_save_listen. emits_tac.
Qed.

Lemma emits_portal_do_delete id : emits any_event (portal_do_delete id).
Proof. unfold portal_do_delete. emits_tac. Qed.

Lemma emits_auth_is_in_use P id : emits P (auth_is_in_use_by_portals_targets id).
Proof. unfold auth_is_in_use_by_portals_targets. emits_tac. Qed.

Lemma emits_target_save_groups pk new old :
  emits any_event (target_save_groups pk new old).
Proof. unfold target_save_groups. emits_tac. Qed.

Lemma emits_targetextent_do_delete id force :
  emits any_event (targetextent_do_delete id force).
Proof. unfold targetextent_do_delete. emits_tac. Qed.

Lemma emits_extent_serial_for P used s l : emits P (extent_serial_for used s l).
Proof.
  revert s. induction l as [| i l IH]; intros s; simpl.
  - apply emits_ret.
  - unfold token_hex. emits_tac.
Qed.

Lemma emits_extent_validate P data : emits P (extent_validate data).
Proof.
  unfold extent_validate, extent_serial, extent_naa.
  pose proof (emits_extent_serial_for P). emits_tac.
Qed.

Lemma emits_extent_clean P data schema v old :
  emits P (extent_clean data schema v old).
Proof.
  unfold extent_clean, extent_clean_name, extent_clean_type_and_path,
    extent_clean_size.
  emits_tac.
Qed.

Lemma emits_extent_save (P : Event -> bool) data :
  (forall p, P (EvMkdir p) = true) -> (forall a, P (EvRun a) = true) ->
  emits P (extent_save data).
Proof.
  intros Hm Hr. unfold extent_save.
  destruct (String.eqb (extent_type data) "FILE"); [| apply emits_ret].
  destruct (path data) as [p |]; [| apply emits_raise].
  apply emits_bind; [apply emits_get_world | intros w0].
  apply emits_bind.
  - destruct (path_isfile w0 _); [apply emits_raise |].
    intros w. eexists. simpl. split; [reflexivity |]. simpl. now rewrite Hm.
  - intros _. apply emits_bind; [apply emits_get_world | intros w1].
    apply emits_bind; [| intros; apply emits_ret].
    destruct (negb (path_exists w1 p)); [| apply emits_ret].
    intros w. eexists. simpl. split; [reflexivity |]. simpl. now rewrite Hr.
Qed.

Lemma emits_extent_remove_extent_file data :
  emits any_event (extent_remove_extent_file data).
Proof.
  unfold extent_remove_extent_file.
  destruct (String.eqb (extent_type data) "FILE"); [| apply emits_ret].
  intros w. destruct (path data) as [p |].
  - destruct (path_isfile w p).
    + eexists. simpl. split; reflexivity.
    + exists []. simpl. now rewrite app_nil_r.
  - exists []. simpl. now rewrite app_nil_r.
Qed.

#[export] Hint Resolve emits_portal_save_listen emits_auth_is_in_use
  emits_target_save_groups emits_targetextent_do_delete
  emits_extent_validate emits_extent_clean emits_extent_remove_extent_file : emits.

(** An extent create never signals the service. *)
Lemma emits_extent_do_create data : emits not_notify (extent_do_create data).
Proof.
  unfold extent_do_create.
  pose proof (emits_extent_save not_notify) as Hs.
  emits_tac; try (apply Hs; reflexivity).
Qed.

(** Nor does the delete of a credential. *)
Lemma emits_auth_do_delete id : emits not_notify (auth_do_delete id).
Proof. unfold auth_do_delete. emits_tac. Qed.

(** ** Operations that end with the reload signal *)

Lemma forallb_no_event evs : forallb no_event evs = true -> evs = [].
Proof. destruct evs; [reflexivity | discriminate]. Qed.

Lemma emits_nothing {A} (c : M A) w : emits no_event c -> log (snd (c w)) = log w.
Proof.
  intros H. destruct (H w) as [evs [E F]]. apply forallb_no_event in F. subst.
  now rewrite app_nil_r in E.
Qed.

Lemma ends_bind {A B} (c : M A) (k : A -> M B) :
  emits any_event c -> (forall a, ends (k a)) -> ends (bind c k).
Proof.
  intros Hc Hk w r w' H. inv_ok H.
  destruct (Hc w) as [e1 [E1 _]]. rewrite Hstep in E1. simpl in E1.
  destruct (Hk _ _ _ _ H) as [evs E]. exists (e1 ++ evs).
  rewrite E, E1, !app_assoc. reflexivity.
Qed.

Lemma ends_reload_then {A} (tail : M A) :
  emits no_event tail ->
  ends (bind (_service_change "iscsitarget" "reload") (fun _ => tail)).
Proof.
  intros Ht w r w' H. inv_ok H.
  unfold _service_change, emit in Hstep. inversion Hstep; subst. clear Hstep.
  pose proof (emits_nothing tail
                (set_log (log w ++ [EvNotify "iscsitarget" "reload"]) w) Ht) as E.
  rewrite H in E. simpl in E.
  exists []. exact E.
Qed.

Lemma ends_try_finally {A} (c : M A) :
  emits any_event c ->
  ends (try_finally c (_service_change "iscsitarget" "reload")).
Proof.
  intros Hc w r w' H. unfold try_finally in H.
  destruct (Hc w) as [e1 [E1 _]].
  destruct (c w) as [r1 w1]. simpl in *. inversion H; subst.
  exists e1. simpl. rewrite E1. now rewrite app_assoc.
Qed.

Lemma ends_void {A} (c : M A) : ends c -> ends (void c).
Proof.
  intros Hc w r w' H. unfold void in H. inv_ok H.
  unfold ret in H. inversion H; subst. eapply Hc. eassumption.
Qed.

Ltac ends_step :=
  first
    [ apply ends_reload_then; solve [emits_tac]
    | apply ends_try_finally; solve [emits_tac]
    | match goal with
      | |- ends (if ?b then _ else _) => destruct b
      | |- ends (match ?x with _ => _ end) => destruct x
      end
    | apply ends_bind; [solve [emits_tac] | intros] ].

Ltac ends_tac := repeat ends_step.

Lemma ends_portal_do_create data : ends (portal_do_create data).
Proof. unfold portal_do_create. ends_tac. Qed.

Lemma ends_portal_do_update pk data : ends (portal_do_update pk data).
Proof. unfold portal_do_update. ends_tac. Qed.

Lemma ends_portal_do_delete id : ends (portal_do_delete id).
Proof. unfold portal_do_delete. ends_tac. Qed.

Lemma ends_auth_do_create data : ends (auth_do_create data).
Proof. unfold auth_do_create. ends_tac. Qed.

Lemma ends_auth_do_update id data : ends (auth_do_update id data).
Proof. unfold auth_do_update. ends_tac. Qed.

Lemma ends_initiator_do_create data : ends (initiator_do_create data).
Proof. unfold initiator_do_create. ends_tac. Qed.

Lemma ends_initiator_do_update id data : ends (initiator_do_update id data).
Proof. unfold initiator_do_update. ends_tac. Qed.

Lemma ends_initiator_do_delete id : ends (initiator_do_delete id).
Proof. unfold initiator_do_delete. ends_tac. Qed.

Lemma ends_target_do_create data : ends (target_do_create data).
Proof. unfold target_do_create. ends_tac. Qed.

Lemma ends_target_do_update id data : ends (target_do_update id data).
Proof. unfold target_do_update. ends_tac. Qed.

Lemma ends_target_do_delete id force : ends (target_do_delete id force).
Proof. unfold target_do_delete. ends_tac. Qed.

Lemma ends_extent_do_update id data : ends (extent_do_update id data).
Proof.
  unfold extent_do_update.
  pose proof (emits_extent_save any_event) as Hs.
  assert (Hsave : forall d, emits any_event (extent_save d))
    by (intros; apply Hs; reflexivity).
  ends_tac.
Qed.

Lemma ends_extent_do_delete id remove force : ends (extent_do_delete id remove force).
Proof. unfold extent_do_delete. ends_tac. Qed.

Lemma ends_targetextent_do_create data : ends (targetextent_do_create data).
Proof. unfold targetextent_do_create. ends_tac. Qed.

Lemma ends_targetextent_do_update id data : ends (targetextent_do_update id data).
Proof. unfold targetextent_do_update. ends_tac. Qed.

Lemma ends_targetextent_do_delete id force : ends (targetextent_do_delete id force).
Proof. unfold targetextent_do_delete. ends_tac. Qed.

(** The mutations that call [_service_change] have the reload signal
    to the service as their last effect whenever they return. *)
Lemma signalling_mutations_end_with_reload m w w' :
  calls_service_change m = true ->
  run_mutation m w = (Ok tt, w') ->
  ends_with_reload w w'.
Proof.
  intros Hm H.
  destruct m; try discriminate Hm; simpl in H;
    (eapply ends_void; [| exact H]).
  - apply ends_portal_do_create.
  - apply ends_portal_do_update.
  - apply ends_portal_do_delete.
  - apply ends_auth_do_create.
  - apply ends_auth_do_update.
  - apply ends_initiator_do_create.
  - apply ends_initiator_do_update.
  - apply ends_initiator_do_delete.
  - apply ends_target_do_create.
  - apply ends_target_do_update.
  - apply ends_target_do_delete.
  - apply ends_extent_do_update.
  - apply ends_extent_do_delete.
  - apply ends_targetextent_do_create.
  - apply ends_targetextent_do_update.
  - apply ends_targetextent_do_delete.
Qed.

(** An extent create sends no signal to the service, however it
    ends. *)
Lemma extent_create_never_signals data w :
  forallb not_notify (new_events (extent_do_create data) w) = true.
Proof.
  destruct (emits_extent_do_create data w) as [evs [E F]].
  now rewrite (new_events_app _ _ _ E).
Qed.

(** C4 at the failing input: the create of a DISK extent in the empty
    configuration returns, its only effect on the log is the insert of
    the row, and the reload signal that every other create, and the
    update and delete of an extent, end with is not sent. *)
Lemma C4_extent_create_does_not_reload :
  fst (run_mutation (extent_create example_extent_create) empty_world) = Ok tt
  /\ log (snd (run_mutation (extent_create example_extent_create) empty_world))
     = [EvInsert services_iscsitargetextent 1]
  /\ ~ ends_with_reload empty_world
         (snd (run_mutation (extent_create example_extent_create) empty_world)).
Proof.
  split; [vm_compute; reflexivity |]. split; [vm_compute; reflexivity |].
  intros [evs E].
  assert (L : log (snd (run_mutation (extent_create example_extent_create) empty_world))
              = [EvInsert services_iscsitargetextent 1]) by (vm_compute; reflexivity).
  rewrite L in E. simpl in E.
  destruct evs as [| e [| e' evs]]; simpl in E; discriminate.
Qed.

(** ** Order of the writes of a reconciliation *)

Lemma inserts_have_no_delete evs :
  forallb is_insert evs = true ->
  forallb (fun x => negb (is_delete x)) evs = true.
Proof.
  induction evs as [| e evs IH]; simpl; [reflexivity |].
  intros H. apply andb_prop in H. destruct H as [He H].
  rewrite (IH H). destruct e; try discriminate. reflexivity.
Qed.

Lemma deletes_have_no_insert evs :
  forallb is_delete evs = true ->
  forallb (fun x => negb (is_insert x)) evs = true.
Proof.
  induction evs as [| e evs IH]; simpl; [reflexivity |].
  intros H. apply andb_prop in H. destruct H as [He H].
  rewrite (IH H). destruct e; try discriminate. reflexivity.
Qed.

Lemma deletes_then_inserts e1 e2 :
  forallb is_delete e1 = true -> forallb is_insert e2 = true ->
  deletes_first (e1 ++ e2) = true.
Proof.
  intros H1 H2. induction e1 as [| e e1 IH]; simpl.
  - destruct e2 as [| e e2]; [reflexivity |]. simpl in *.
    apply andb_prop in H2. destruct H2 as [He H2]. rewrite He.
    now apply inserts_have_no_delete.
  - simpl in H1. apply andb_prop in H1. destruct H1 as [He H1].
    destruct e; try discriminate. simpl. now apply IH.
Qed.

Lemma inserts_then_deletes e1 e2 :
  forallb is_insert e1 = true -> forallb is_delete e2 = true ->
  inserts_first (e1 ++ e2) = true.
Proof.
  intros H1 H2. induction e1 as [| e e1 IH]; simpl.
  - destruct e2 as [| e e2]; [reflexivity |]. simpl in *.
    apply andb_prop in H2. destruct H2 as [He H2]. rewrite He.
    now apply deletes_have_no_insert.
  - simpl in H1. apply andb_prop in H1. destruct H1 as [He H1].
    destruct e; try discriminate. simpl. now apply IH.
Qed.

(** Whatever the tables hold and however the run ends, the
    reconciliation of the groups of a target writes no delete after an
    insert, and that of the listen pairs of a portal no insert after a
    delete. *)
Lemma reconciliation_writes_in_order :
  forall w pk,
    (forall new old,
        deletes_first (new_events (target_save_groups pk new old) w) = true)
    /\ (forall new old,
           inserts_first (new_events (portal_save_listen pk new old) w) = true).
Proof.
  intros w pk. split; intros new old.
  - unfold target_save_groups.
    match goal with
    | |- context [new_events (bind ?c ?k) w] =>
        destruct (emits_bind_split is_delete is_insert c k) with (w := w)
          as (e1 & e2 & E & F1 & F2); [solve [emits_tac] | intros; solve [emits_tac] |]
    end.
    rewrite (new_events_app _ _ _ E). now apply deletes_then_inserts.
  - unfold portal_save_listen.
    match goal with
    | |- context [new_events (bind ?c ?k) w] =>
        destruct (emits_bind_split is_insert is_delete c k) with (w := w)
          as (e1 & e2 & E & F1 & F2); [solve [emits_tac] | intros; solve [emits_tac] |]
    end.
    rewrite (new_events_app _ _ _ E). now apply inserts_then_deletes.
Qed.

(** C2 as stated fails for a portal: replacing its one listen pair
    inserts the new pair first and deletes the old pair afterwards. *)
Lemma C2_portal_inserts_before_deletes :
  new_events
    (portal_save_listen 1 [ {| ip := "10.0.0.2"; port := 3260 |} ]
       (Some [ {| ip := "10.0.0.1"; port := 3260 |} ]))
    world_one_portal
  = [EvInsert services_iscsitargetportalip 2;
     EvDelete services_iscsitargetportalip 1]
  /\ deletes_first
       (new_events
          (portal_save_listen 1 [ {| ip := "10.0.0.2"; port := 3260 |} ]
             (Some [ {| ip := "10.0.0.1"; port := 3260 |} ]))
          world_one_portal)
     = false.
Proof. split; vm_compute; reflexivity. Qed.

(** ** Primary keys *)

Lemma fresh_id_gt ids x : In x ids -> x < fresh_id ids.
Proof.
  unfold fresh_id. induction ids as [| y ids IH]; [contradiction |].
  cbn [fold_right]. intros [-> | H]; [lia |]. specialize (IH H). lia.
Qed.

Lemma filter_fresh {R} (T : TableOps R) (l : list R) :
  filter (fun r => row_id T r =? fresh_id (map (row_id T) l)) l = [].
Proof.
  assert (H : forall r, In r l -> row_id T r < fresh_id (map (row_id T) l)).
  { intros r Hr. apply fresh_id_gt. now apply in_map. }
  revert H. generalize (fresh_id (map (row_id T) l)). intros k.
  induction l as [| r l IH]; intros H; simpl; [reflexivity |].
  destruct (Z.eqb_spec (row_id T r) k) as [E | _].
  - specialize (H r (or_introl eq_refl)). lia.
  - apply IH. intros r' Hr'. apply H. now right.
Qed.

Lemma filter_not_fresh {R} (T : TableOps R) (l : list R) :
  filter (fun r => negb (row_id T r =? fresh_id (map (row_id T) l))) l = l.
Proof.
  assert (H : forall r, In r l -> row_id T r < fresh_id (map (row_id T) l)).
  { intros r Hr. apply fresh_id_gt. now apply in_map. }
  revert H. generalize (fresh_id (map (row_id T) l)). intros k.
  induction l as [| r l IH]; intros H; simpl; [reflexivity |].
  destruct (Z.eqb_spec (row_id T r) k) as [E | _]; simpl.
  - specialize (H r (or_introl eq_refl)). lia.
  - f_equal. apply IH. intros r' Hr'. apply H. now right.
Qed.

(** ** LUN allocation by the association service *)

Lemma validate_allocates w data schema old :
  lunid data = None ->
  fst (targetextent_validate w data schema old)
  = allocate_lunid (target_lunids (target data) w).
Proof. unfold targetextent_validate. now intros ->. Qed.

(** C1: when a create carries no LUN and the LUNs already stored for
    the target are non-negative, the LUN [validate] leaves in the data is
    the smallest non-negative integer the target does not use, and a
    create that returns has stored and returns that LUN; used LUNs
    0, 1, 3 give 2 and used LUNs 0, 1, 2 give 3. *)
Theorem C1_lun_allocation :
  forall w data,
    lunid data = None ->
    Forall (fun l => 0 <= l) (used_lunids (target data) w) ->
    least_unused (used_lunids (target data) w)
      (fst (targetextent_validate w data "iscsi_targetextent_create" None))
    /\ (forall v w',
           targetextent_do_create data w = (Ok v, w') ->
           exists id l,
             te_id_ v = Some id /\ lunid v = Some l
             /\ least_unused (used_lunids (target data) w) l
             /\ targetextents w'
                = targetextents w
                  ++ [ {| te_id := id; te_extent := extent data;
                          te_target := target data; te_lunid := l |} ])
    /\ allocate_lunid [0; 1; 3] = 2
    /\ allocate_lunid [0; 1; 2] = 3.
Proof.
  intros w data Hnone Hpos.
  assert (Hleast : least_unused (used_lunids (target data) w)
                     (fst (targetextent_validate w data "iscsi_targetextent_create" None))).
  { rewrite validate_allocates by assumption.
    apply least_unused_ext with (l1 := target_lunids (target data) w).
    - apply target_lunids_In.
    - apply allocate_lunid_least; [apply target_lunids_sorted |].
      rewrite Forall_forall in *. intros x Hx. apply Hpos.
      now apply target_lunids_In. }
  split; [exact Hleast |]. split; [| split; reflexivity].
  intros v w' H. unfold targetextent_do_create in H.
  inv_ok H. unfold get_world in Hstep. inversion Hstep; subst; clear Hstep.
  destruct (targetextent_validate w0 data "iscsi_targetextent_create" None)
    as [l verrors] eqn:V.
  simpl in Hleast.
  inv_ok H. apply check_Ok in Hstep. destruct Hstep as [-> ->].
  inv_ok H. unfold datastore_insert in Hstep. apply write_Ok in Hstep.
  destruct Hstep as [_ Hstep]. inversion Hstep; subst; clear Hstep.
  inv_ok H. unfold _service_change, emit in Hstep. inversion Hstep; subst; clear Hstep.
  unfold targetextent_get_instance, targetextent_query, datastore_query in H.
  simpl in H. rewrite filter_app in H.
  rewrite (filter_fresh TargetExtentT) in H. simpl in H.
  rewrite Z.eqb_refl in H. simpl in H. inversion H; subst; clear H.
  eexists. exists l. simpl.
  split; [reflexivity |]. split; [reflexivity |]. split; [exact Hleast | reflexivity].
Qed.

(** C1 on a target holding LUNs 0, 1 and 3: a create without a LUN
    stores and returns LUN 2. *)
Lemma C1_create_on_luns_013 :
  Forall (fun l => 0 <= l) (used_lunids 1 world_luns_013)
  /\ fst (targetextent_do_create
            {| te_id_ := None; target := 1; lunid := None; extent := 4 |}
            world_luns_013)
     = Ok {| te_id_ := Some 4; target := 1; lunid := Some 2; extent := 4 |}
  /\ least_unused (used_lunids 1 world_luns_013) 2.
Proof.
  split; [repeat constructor; discriminate |].
  split; [vm_compute; reflexivity |].
  exact (proj1 (C1_lun_allocation world_luns_013
                  {| te_id_ := None; target := 1; lunid := None; extent := 4 |}
                  eq_refl
                  ltac:(repeat constructor; discriminate))).
Defined.

(** ** Strings: [join] and [split] *)

Lemma append_nil_r s : s ^^ EmptyString = s.
Proof. induction s as [| c s IH]; simpl; [reflexivity | now rewrite IH]. Qed.

Lemma append_assoc s1 s2 s3 : (s1 ^^ s2) ^^ s3 = s1 ^^ (s2 ^^ s3).
Proof. induction s1 as [| c s1 IH]; simpl; [reflexivity | now rewrite IH]. Qed.

(** A run of non-space characters is scanned into the current word. *)
Lemma split_from_word w cur s :
  no_space w = true -> split_from cur (w ^^ s) = split_from (cur ^^ w) s.
Proof.
  revert cur. induction w as [| c w IH]; intros cur H; simpl.
  - now rewrite append_nil_r.
  - simpl in H. apply andb_prop in H. destruct H as [Hc Hw].
    apply negb_true_iff in Hc. rewrite Hc.
    rewrite IH by assumption. rewrite append_assoc. reflexivity.
Qed.

Lemma flush_plain w : w <> EmptyString -> flush w = [w].
Proof. destruct w; [congruence | reflexivity]. Qed.

Lemma join_cons sep w x l :
  join sep (w :: x :: l) = w ^^ sep ^^ join sep (x :: l).
Proof. reflexivity. Qed.

Lemma split_join l : Forall plain_name l -> split (join LF l) = l.
Proof.
  unfold split. induction 1 as [| w l [Hne Hns] Hl IH]; [reflexivity |].
  destruct l as [| x l].
  - simpl. rewrite <- (append_nil_r w) at 1.
    rewrite split_from_word by assumption. simpl. now apply flush_plain.
  - rewrite join_cons, split_from_word by assumption.
    simpl String.append at 1. unfold LF at 1.
    cbn [String.append split_from]. 
    change (isspace (ascii_of_nat 10)) with true. cbn iota.
    rewrite flush_plain by assumption. simpl. f_equal. exact IH.
Qed.

(** Only the one-element list ['ALL'] is stored as the sentinel. *)
Lemma join_not_sentinel l :
  Forall plain_name l -> l <> ["ALL"] -> join LF l <> "ALL".
Proof.
  intros Hl Hne E. apply Hne. rewrite <- (split_join l Hl), E. reflexivity.
Qed.

Lemma compress_extend_field l :
  Forall plain_name l -> l <> ["ALL"] ->
  (let s := match l with [] => "ALL" | x :: r => join LF (x :: r) end in
   if String.eqb s "ALL" then [] else split s) = l.
Proof.
  intros Hl Hne. destruct l as [| w l]; [reflexivity |].
  cbv zeta. destruct (String.eqb_spec (join LF (w :: l)) "ALL") as [E | _].
  - now apply join_not_sentinel in E.
  - now apply split_join.
Qed.

(** C10: reading back what [compress] stored returns the two lists
    unchanged whenever each is a list of non-empty names without white
    space other than ['ALL']; empty lists are stored as 'ALL' and read
    back empty; ['ALL'], a name with a space in it and an empty name
    are not read back as they were written. *)
Theorem C10_initiator_round_trip :
  (forall d,
      Forall plain_name (initiators_ d) -> initiators_ d <> ["ALL"] ->
      Forall plain_name (auth_network d) -> auth_network d <> ["ALL"] ->
      initiators_ (initiator_extend (initiator_compress d)) = initiators_ d
      /\ auth_network (initiator_extend (initiator_compress d)) = auth_network d
      /\ initiator_comment (initiator_extend (initiator_compress d))
         = initiator_comment d)
  /\ (forall d,
         initiators_ d = [] -> auth_network d = [] ->
         i_initiators (initiator_compress d) = "ALL"
         /\ i_auth_network (initiator_compress d) = "ALL"
         /\ initiators_ (initiator_extend (initiator_compress d)) = []
         /\ auth_network (initiator_extend (initiator_compress d)) = [])
  /\ (forall id c,
         let d l := {| initiator_id := id; initiators_ := l; auth_network := [];
                       initiator_comment := c |} in
         initiators_ (initiator_extend (initiator_compress (d ["ALL"]))) = []
         /\ initiators_ (initiator_extend (initiator_compress (d ["a b"])))
            = ["a"; "b"]
         /\ initiators_ (initiator_extend (initiator_compress (d [""]))) = []).
Proof.
  split; [| split].
  - intros d Hi Hin Ha Han. unfold initiator_extend, initiator_compress.
    cbn [initiators_ auth_network initiator_comment
         i_initiators i_auth_network i_comment].
    split; [| split; [| reflexivity]].
    + exact (compress_extend_field _ Hi Hin).
    + exact (compress_extend_field _ Ha Han).
  - intros d Hi Ha. unfold initiator_extend, initiator_compress. simpl.
    rewrite Hi, Ha. repeat split.
  - intros id c d. repeat split.
Qed.

(** C10 on an initiator with two names and two networks. *)
Lemma C10_example_round_trip :
  Forall plain_name (initiators_ example_initiator)
  /\ Forall plain_name (auth_network example_initiator)
  /\ initiators_ (initiator_extend (initiator_compress example_initiator))
     = ["iqn.1991-05.com.a"; "iqn.1991-05.com.b"]
  /\ auth_network (initiator_extend (initiator_compress example_initiator))
     = ["10.0.0.0/24"].
Proof.
  assert (Hi : Forall plain_name (initiators_ example_initiator))
    by (repeat constructor; discriminate).
  assert (Ha : Forall plain_name (auth_network example_initiator))
    by (repeat constructor; discriminate).
  split; [exact Hi |]. split; [exact Ha |].
  destruct (proj1 C10_initiator_round_trip example_initiator Hi
              ltac:(discriminate) Ha ltac:(discriminate)) as (E1 & E2 & _).
  split; [exact E1 | exact E2].
Defined.

(** ** Extent serials *)

Lemma hexlify_length bs : String.length (hexlify bs) = (2 * List.length bs)%nat.
Proof.
  induction bs as [| b bs IH]; [reflexivity |].
  cbn [hexlify hex_of_byte String.append String.length List.length].
  rewrite IH. lia.
Qed.

Lemma hex_of_byte_hex b : all_hex (hex_of_byte b) = true.
Proof. destruct b; reflexivity. Qed.

Lemma hexlify_hex bs : all_hex (hexlify bs) = true.
Proof.
  induction bs as [| b bs IH]; [reflexivity |].
  pose proof (hex_of_byte_hex b) as H. unfold hex_of_byte in *.
  cbn [hexlify hex_of_byte String.append all_hex] in *.
  apply andb_prop in H. destruct H as [H1 H2].
  apply andb_prop in H2. destruct H2 as [H2 _].
  now rewrite H1, H2, IH.
Qed.

Lemma slice_to_length n s :
  (n <= String.length s)%nat -> String.length (slice_to n s) = n.
Proof.
  unfold slice_to. revert s. induction n as [| n IH]; intros s H.
  - destruct s; reflexivity.
  - destruct s as [| c s]; simpl in *; [lia |]. rewrite IH; [reflexivity | lia].
Qed.

Lemma slice_to_hex n s : all_hex s = true -> all_hex (slice_to n s) = true.
Proof.
  unfold slice_to. revert s. induction n as [| n IH]; intros s H.
  - destruct s; reflexivity.
  - destruct s as [| c s]; simpl in *; [reflexivity |].
    apply andb_prop in H. destruct H as [H1 H2]. now rewrite H1, IH.
Qed.

Lemma serial_at_shape f p :
  String.length (serial_at f p) = 15%nat /\ all_hex (serial_at f p) = true.
Proof.
  unfold serial_at. split.
  - apply slice_to_length. rewrite hexlify_length, length_map, length_seq. lia.
  - apply slice_to_hex, hexlify_hex.
Qed.

Lemma same_state_refl w : same_state w w.
Proof. unfold same_state. repeat split. Qed.

Lemma same_state_trans w1 w2 w3 :
  same_state w1 w2 -> same_state w2 w3 -> same_state w1 w3.
Proof. unfold same_state. intuition congruence. Qed.

(** Drawing random bytes moves the cursor and nothing else. *)
Lemma token_hex_run w :
  token_hex w
  = (Ok (hexlify (map (entropy w) (seq (entropy_pos w) 32))),
     set_entropy_pos (entropy_pos w + 32) w).
Proof. reflexivity. Qed.

Section SerialLoop.
Variable used : list (option string).

(** The first free candidate is returned. *)
Lemma serial_for_hit :
  forall j a n w s0,
    (j < n)%nat -> (a + n = 5)%nat ->
    (forall k, (k < j)%nat -> serial_taken used (candidate_serial w k) = true) ->
    serial_taken used (candidate_serial w j) = false ->
    exists w',
      extent_serial_for used s0 (map Z.of_nat (seq a n)) w
      = (Ok (Some (candidate_serial w j)), w')
      /\ same_state w w'
      /\ entropy_pos w' = (entropy_pos w + 32 * (j + 1))%nat.
Proof.
  induction j as [| j IH]; intros a n w s0 Hj Han Hbefore Hfree;
    (destruct n as [| n]; [lia |]); cbn [seq map extent_serial_for];
    rewrite (bind_step _ _ _ _ _ (token_hex_run w)).
  - unfold candidate_serial, serial_at in Hfree.
    rewrite Nat.mul_0_r, Nat.add_0_r in Hfree. fold (serial_taken used (slice_to 15
      (hexlify (map (entropy w) (seq (entropy_pos w) 32))))).
    rewrite Hfree. cbn [negb]. eexists. split; [| split].
    + unfold ret, candidate_serial, serial_at.
      rewrite Nat.mul_0_r, Nat.add_0_r. reflexivity.
    + unfold same_state. cbn. repeat split.
    + cbn. lia.
  - pose proof (Hbefore 0%nat ltac:(lia)) as H0.
    unfold candidate_serial, serial_at in H0.
    rewrite Nat.mul_0_r, Nat.add_0_r in H0. fold (serial_taken used (slice_to 15
      (hexlify (map (entropy w) (seq (entropy_pos w) 32))))).
    rewrite H0. cbn [negb].
    replace (Z.of_nat a <? tries - 1) with true
      by (symmetry; apply Z.ltb_lt; unfold tries; lia).
    set (w1 := set_entropy_pos (entropy_pos w + 32) w).
    assert (Hshift : forall k, candidate_serial w1 k = candidate_serial w (S k)).
    { intros k. unfold candidate_serial, w1.
      cbn [entropy entropy_pos set_entropy_pos]. f_equal. lia. }
    destruct (IH (S a) n w1 (Some (slice_to 15
                (hexlify (map (entropy w) (seq (entropy_pos w) 32))))))
      as (w' & E & Hs & Hp).
    + lia.
    + lia.
    + intros k Hk. rewrite Hshift. apply Hbefore. lia.
    + now rewrite Hshift.
    + exists w'. rewrite E, Hshift. split; [reflexivity |]. split.
      * eapply same_state_trans; [| exact Hs]. unfold same_state, w1. cbn.
        repeat split.
      * rewrite Hp. unfold w1. cbn. lia.
Qed.

(** When every candidate is taken, the last attempt raises. *)
Lemma serial_for_miss :
  forall n a w s0,
    (0 < n)%nat -> (a + n = 5)%nat ->
    (forall k, (k < n)%nat -> serial_taken used (candidate_serial w k) = true) ->
    exists w',
      extent_serial_for used s0 (map Z.of_nat (seq a n)) w
      = (Raise serial_exhausted, w')
      /\ same_state w w'
      /\ entropy_pos w' = (entropy_pos w + 32 * n)%nat.
Proof.
  induction n as [| n IH]; intros a w s0 Hn Han Hall; [lia |].
  cbn [seq map extent_serial_for].
  rewrite (bind_step _ _ _ _ _ (token_hex_run w)).
  pose proof (Hall 0%nat ltac:(lia)) as H0.
  unfold candidate_serial, serial_at in H0.
  rewrite Nat.mul_0_r, Nat.add_0_r in H0. fold (serial_taken used (slice_to 15
    (hexlify (map (entropy w) (seq (entropy_pos w) 32))))).
  rewrite H0. cbn [negb].
  set (w1 := set_entropy_pos (entropy_pos w + 32) w).
  destruct n as [| n].
  - replace (Z.of_nat a <? tries - 1) with false
      by (symmetry; apply Z.ltb_ge; unfold tries; lia).
    exists w1. split; [reflexivity |]. split.
    + unfold same_state, w1. cbn. repeat split.
    + unfold w1. cbn. lia.
  - replace (Z.of_nat a <? tries - 1) with true
      by (symmetry; apply Z.ltb_lt; unfold tries; lia).
    assert (Hshift : forall k, candidate_serial w1 k = candidate_serial w (S k)).
    { intros k. unfold candidate_serial, w1.
      cbn [entropy entropy_pos set_entropy_pos]. f_equal. lia. }
    destruct (IH (S a) w1 (Some (slice_to 15
                (hexlify (map (entropy w) (seq (entropy_pos w) 32))))))
      as (w' & E & Hs & Hp).
    + lia.
    + lia.
    + intros k Hk. rewrite Hshift. apply Hall. lia.
    + exists w'. rewrite E. split; [reflexivity |]. split.
      * eapply same_state_trans; [| exact Hs]. unfold same_state, w1. cbn.
        repeat split.
      * rewrite Hp. unfold w1. cbn. lia.
Qed.
End SerialLoop.

Lemma serial_for_bound used l :
  forall w s0,
    (entropy_pos (snd (extent_serial_for used s0 l w))
     <= entropy_pos w + 32 * List.length l)%nat.
Proof.
  induction l as [| i l IH]; intros w s0; cbn [extent_serial_for List.length].
  - simpl. lia.
  - rewrite (bind_step _ _ _ _ _ (token_hex_run w)).
    destruct (negb _); [simpl; lia |].
    destruct (i <? tries - 1); [| simpl; lia].
    specialize (IH (set_entropy_pos (entropy_pos w + 32) w)
                  (Some (slice_to 15
                     (hexlify (map (entropy w) (seq (entropy_pos w) 32)))))).
    cbn [entropy_pos set_entropy_pos] in IH. lia.
Qed.

Lemma extent_serial_none w :
  extent_serial None w
  = extent_serial_for (map serial (extent_query (fun _ => true) w)) None
      (map Z.of_nat (seq 0 5)) w.
Proof. reflexivity. Qed.


(** The allocation of a serial where there is none: each attempt draws
    a string of fifteen hexadecimal digits; the first of the first five
    draws that no extent uses is returned; when all five are in use the
    allocation raises the exhaustion error, and so do a create without
    a serial and an update whose merged dict has none, with tables,
    files and log as they were; no more than five draws are made. *)
Lemma serial_allocation_draws :
  forall w,
    (forall k,
        String.length (candidate_serial w k) = 15%nat
        /\ all_hex (candidate_serial w k) = true)
    /\ (forall j,
           (j < 5)%nat ->
           (forall k, (k < j)%nat -> serial_in_use w (candidate_serial w k) = true) ->
           serial_in_use w (candidate_serial w j) = false ->
           fst (extent_serial None w) = Ok (Some (candidate_serial w j))
           /\ same_state w (snd (extent_serial None w)))
    /\ ((forall k, (k < 5)%nat -> serial_in_use w (candidate_serial w k) = true) ->
        fst (extent_serial None w) = Raise serial_exhausted
        /\ (forall data,
               ec_serial data = None ->
               fst (extent_do_create data w) = Raise serial_exhausted
               /\ same_state w (snd (extent_do_create data w)))
        /\ (forall id data old,
               fst (extent_get_instance id w) = Ok old ->
               serial (extent_merge old data) = None ->
               fst (extent_do_update id data w) = Raise serial_exhausted
               /\ same_state w (snd (extent_do_update id data w))))
    /\ (entropy_pos (snd (extent_serial None w)) <= entropy_pos w + 5 * 32)%nat.
Proof.
  intros w. split; [| split; [| split]].
  - intros k. apply serial_at_shape.
  - intros j Hj Hbefore Hfree. rewrite extent_serial_none.
    destruct (serial_for_hit _ j 0%nat 5%nat w None Hj eq_refl Hbefore Hfree)
      as (w' & E & Hs & _).
    rewrite E. split; [reflexivity | exact Hs].
  - intros Hall.
    destruct (serial_for_miss _ 5%nat 0%nat w None ltac:(lia) eq_refl Hall)
      as (w' & E & Hs & _).
    rewrite <- extent_serial_none in E.
    split; [now rewrite E |]. split.
    + intros data Hd. unfold extent_do_create, extent_validate.
      cbn [extent_of_create serial]. rewrite Hd.
      rewrite (bind_fail _ _ _ _ _ (bind_fail _ _ _ _ _ E)).
      split; [reflexivity | exact Hs].
    + intros id data old Hold Hnone. unfold extent_do_update.
      assert (Eget : extent_get_instance id w = (Ok old, w)).
      { unfold extent_get_instance in *.
        destruct (extent_query _ w); simpl in *; congruence. }
      rewrite (bind_step _ _ _ _ _ Eget). unfold extent_validate. rewrite Hnone.
      rewrite (bind_fail _ _ _ _ _ (bind_fail _ _ _ _ _ E)).
      split; [reflexivity | exact Hs].
  - rewrite extent_serial_none.
    etransitivity; [apply serial_for_bound |].
    rewrite length_map, length_seq. lia.
Qed.

(** ** Validation of the groups of a target *)

Lemma validate_groups_auth w schema_name db_portals db_initiators :
  forall l portals i0 k group e,
    nth_error l k = Some group ->
    In e (target_validate_group_auth w schema_name (i0 + Z.of_nat k) group) ->
    In e (target_validate_groups w schema_name db_portals db_initiators portals
            (enumerate_from i0 l)).
Proof.
  induction l as [| g l IH]; intros portals i0 k group e Hk He.
  - destruct k; discriminate.
  - cbn [enumerate_from target_validate_groups]. apply in_or_app.
    destruct k as [| k].
    + left. inversion Hk; subst. unfold target_validate_group.
      apply in_or_app. right. apply in_or_app. right.
      now rewrite Z.add_0_r in He.
    + right. apply IH with (k := k) (group := group); [exact Hk |].
      replace (i0 + 1 + Z.of_nat k) with (i0 + Z.of_nat (S k)) by lia.
      exact He.
Qed.

Lemma validate_auth w data schema_name old k group e :
  nth_error (target_groups data) k = Some group ->
  In e (target_validate_group_auth w schema_name (Z.of_nat k) group) ->
  In e (target_validate w data schema_name old).
Proof.
  intros Hk He. unfold target_validate.
  apply in_or_app. right. apply in_or_app. right. apply in_or_app. right.
  unfold enumerate. eapply validate_groups_auth; [exact Hk | exact He].
Qed.

Lemma target_create_rejected w data :
  target_validate w data "iscsi_target_create" None <> [] ->
  target_do_create data w
  = (Raise (ValidationErrors (target_validate w data "iscsi_target_create" None)), w).
Proof.
  intros H. unfold target_do_create, bind, get_world.
  destruct (target_validate w data "iscsi_target_create" None); [congruence |].
  reflexivity.
Qed.

Lemma target_update_rejected w id data old :
  fst (target_get_instance id w) = Ok old ->
  target_validate w (target_merge old data) "iscsi_target_create" (Some old) <> [] ->
  target_do_update id data w
  = (Raise (ValidationErrors
              (target_validate w (target_merge old data) "iscsi_target_create"
                 (Some old))), w).
Proof.
  intros Hold H. unfold target_do_update.
  assert (Eget : target_get_instance id w = (Ok old, w)).
  { unfold target_get_instance in *.
    destruct (target_query_sql _ w); simpl in *; congruence. }
  rewrite (bind_step _ _ _ _ _ Eget). unfold bind, get_world.
  destruct (target_validate w (target_merge old data) "iscsi_target_create" (Some old));
    [congruence |].
  reflexivity.
Qed.

(** C9: in the validation of a target, a group with method CHAP or
    CHAP_MUTUAL and a null credential gets the error 'Authentication
    group is required' on its [auth] field, and a group with method
    CHAP_MUTUAL and a credential tag gets an error on its [auth] field
    unless the credential with that tag exists and carries a peer user;
    a create or an update whose validation found errors raises them and
    writes nothing. *)
Theorem C9_chap_requires_credential :
  forall w data schema_name old k group,
    nth_error (target_groups data) k = Some group ->
    (is_chap (authmethod group) = true -> auth group = None ->
     In (verr (group_auth_attribute schema_name (Z.of_nat k))
           "Authentication group is required for CHAP and CHAP Mutual")
        (target_validate w data schema_name old))
    /\ (forall a,
           authmethod group = Some "CHAP_MUTUAL" -> auth group = Some a ->
           credential_with_peeruser w a = false ->
           has_error_on (group_auth_attribute schema_name (Z.of_nat k))
             (target_validate w data schema_name old))
    /\ (has_error_on (group_auth_attribute schema_name (Z.of_nat k))
          (target_validate w data schema_name old) ->
        (schema_name = "iscsi_target_create" -> old = None ->
         target_do_create data w
         = (Raise (ValidationErrors (target_validate w data schema_name old)), w))
        /\ (forall id upd o,
               schema_name = "iscsi_target_create" -> old = Some o ->
               fst (target_get_instance id w) = Ok o ->
               data = target_merge o upd ->
               target_do_update id upd w
               = (Raise (ValidationErrors (target_validate w data schema_name old)),
                  w))).
Proof.
  intros w data schema_name old k group Hk. split; [| split].
  - intros Hm Ha. eapply validate_auth; [exact Hk |].
    unfold target_validate_group_auth. rewrite Ha, Hm. simpl. now left.
  - intros a Hm Ha Hc.
    assert (Hin : exists e,
               In e (target_validate_group_auth w schema_name (Z.of_nat k) group)
               /\ ve_attribute e = group_auth_attribute schema_name (Z.of_nat k)).
    { unfold target_validate_group_auth. rewrite Ha, Hm.
      unfold credential_with_peeruser in Hc. cbn [is_chap is_chap_mutual].
      change (String.eqb "CHAP_MUTUAL" "CHAP_MUTUAL") with true.
      change (String.eqb "CHAP_MUTUAL" "CHAP") with false.
      cbn [orb andb truthy opt_Z_eqb].
      destruct (a =? 0); cbn [negb andb].
      - eexists. split; [now left | reflexivity].
      - replace (auth_query (fun a0 => a_tag a0 =? a) w)
          with (auth_query (fun c => a_tag c =? a) w) by reflexivity.
        destruct (auth_query (fun c => a_tag c =? a) w) as [| c cs].
        + eexists. split; [now left | reflexivity].
        + rewrite Hc. cbn [negb]. eexists. split; [now left | reflexivity]. }
    destruct Hin as (e & He & Hattr). exists e. split; [| exact Hattr].
    eapply validate_auth; [exact Hk | exact He].
  - intros (e & He & _).
    assert (Hne : target_validate w data schema_name old <> [])
      by (intros E; rewrite E in He; contradiction).
    split.
    + intros -> ->. now apply target_create_rejected.
    + intros id upd o -> -> Hget ->. now apply target_update_rejected.
Qed.

(** C9 on a target create whose group asks for CHAP and names no
    credential. *)
Lemma C9_chap_without_credential_rejected :
  fst (target_do_create (example_target [example_group "CHAP" None]) world_one_portal)
  = Raise (ValidationErrors
             [verr "iscsi_target_create.groups.0.auth"
                "Authentication group is required for CHAP and CHAP Mutual"])
  /\ In (verr (group_auth_attribute "iscsi_target_create" 0)
           "Authentication group is required for CHAP and CHAP Mutual")
        (target_validate world_one_portal
           (example_target [example_group "CHAP" None]) "iscsi_target_create" None).
Proof.
  split; [vm_compute; reflexivity |].
  exact (proj1 (C9_chap_requires_credential world_one_portal
                  (example_target [example_group "CHAP" None])
                  "iscsi_target_create" None 0%nat
                  (example_group "CHAP" None) eq_refl)
           eq_refl eq_refl).
Defined.

(** ** The usage guard of credentials *)

Lemma get_instance_auth w id config :
  fst (auth_get_instance id w) = Ok config ->
  auth_get_instance id w = (Ok config, w) /\ a_id config = id /\ In config (auths w).
Proof.
  unfold auth_get_instance, auth_query, datastore_query. simpl.
  destruct (filter (fun a => a_id a =? id) (auths w)) as [| c cs] eqn:E; simpl;
    intros H; inversion H; subst.
  assert (Hin : In config (filter (fun a => a_id a =? id) (auths w)))
    by (rewrite E; now left).
  apply filter_In in Hin. destruct Hin as [Hin Hid]. apply Z.eqb_eq in Hid. auto.
Qed.

Lemma is_in_use_run w id config :
  fst (auth_get_instance id w) = Ok config ->
  auth_is_in_use_by_portals_targets id w
  = match portals_using w (a_tag config) with
    | [] =>
        match groups_using w (a_tag config) with
        | [] => (Ok {| in_use := false; usages := "" |}, w)
        | g :: gs =>
            (Ok {| in_use := true; usages := used_by_targets id (g :: gs) |}, w)
        end
    | _ =>
        (Raise (TypeError "sequence item 0: expected str instance, int found"), w)
    end.
Proof.
  intros H. apply get_instance_auth in H. destruct H as (H & _ & _).
  unfold auth_is_in_use_by_portals_targets.
  rewrite (bind_step _ _ _ _ _ H). unfold bind at 1. unfold get_world.
  fold (portals_using w (a_tag config)). fold (groups_using w (a_tag config)).
  destruct (portals_using w (a_tag config)); [| reflexivity].
  unfold bind, ret. destruct (groups_using w (a_tag config)); reflexivity.
Qed.

Lemma updated_rows (l : list AuthRow) id new :
  a_id new = id ->
  filter (fun a => a_id a =? id)
    (map (fun r => if a_id r =? id then new else r) l)
  = repeat new (List.length (filter (fun a => a_id a =? id) l)).
Proof.
  intros Hnew. induction l as [| r l IH]; simpl; [reflexivity |].
  destruct (Z.eqb_spec (a_id r) id) as [E | E]; simpl.
  - rewrite Hnew, Z.eqb_refl. simpl. now rewrite IH.
  - destruct (Z.eqb_spec (a_id r) id); [contradiction |]. exact IH.
Qed.

Lemma auth_delete_run w id config :
  fst (auth_get_instance id w) = Ok config ->
  auth_do_delete id w
  = if negb (tag_shared w id (a_tag config))
    then
      match auth_is_in_use_by_portals_targets id w with
      | (Ok u, _) =>
          if in_use u then (Raise (CallError (usages u)), w)
          else datastore_delete AuthT id w
      | (Raise e, _) => (Raise e, w)
      end
    else datastore_delete AuthT id w.
Proof.
  intros H. pose proof (is_in_use_run w id config H) as Hu.
  apply get_instance_auth in H. destruct H as (H & _ & _).
  unfold auth_do_delete. rewrite (bind_step _ _ _ _ _ H).
  unfold bind at 1. unfold get_world. fold (tag_shared w id (a_tag config)).
  destruct (tag_shared w id (a_tag config)); cbn [negb]; [reflexivity |].
  unfold bind at 1. unfold bind at 1. rewrite Hu.
  destruct (portals_using w (a_tag config)); [| reflexivity].
  destruct (groups_using w (a_tag config)); reflexivity.
Qed.

Lemma auth_update_run w id config data :
  fst (auth_get_instance id w) = Ok config ->
  let new := auth_merge config data in
  let verrors := auth_validate new "iscsi_auth_update" in
  let finish v :=
    (check v ;;;
     datastore_update AuthT id (fun _ => new) ;;;
     _service_change "iscsitarget" "reload" ;;;
     auth_get_instance id) w in
  auth_do_update id data w
  = if negb (a_tag new =? a_tag config) && negb (tag_shared w id (a_tag config))
    then
      match auth_is_in_use_by_portals_targets id w with
      | (Ok u, _) =>
          if in_use u
          then finish (verrors ++ [verr "iscsi_auth_update.tag" (usages u)])
          else finish verrors
      | (Raise e, _) => (Raise e, w)
      end
    else finish verrors.
Proof.
  intros H new verrors finish. pose proof (is_in_use_run w id config H) as Hu.
  apply get_instance_auth in H. destruct H as (H & _ & _).
  unfold auth_do_update. rewrite (bind_step _ _ _ _ _ H).
  unfold bind at 1. unfold get_world. fold new. fold verrors.
  fold (tag_shared w id (a_tag config)).
  destruct (negb (a_tag new =? a_tag config) && negb (tag_shared w id (a_tag config)));
    [| reflexivity].
  unfold bind at 1. unfold bind at 1. rewrite Hu.
  destruct (portals_using w (a_tag config)); [| reflexivity].
  destruct (groups_using w (a_tag config)); reflexivity.
Qed.

Lemma referenced_cases w tag :
  tag_referenced w tag = false ->
  portals_using w tag = [] /\ groups_using w tag = [].
Proof.
  unfold tag_referenced. intros H. apply orb_false_elim in H. destruct H as [H1 H2].
  destruct (portals_using w tag); [| discriminate].
  destruct (groups_using w tag); [auto | discriminate].
Qed.

Lemma auth_delete_proceeds w id :
  next_write_ok w = true ->
  fst (datastore_delete AuthT id w) = Ok true
  /\ auths (snd (datastore_delete AuthT id w))
     = filter (fun a => negb (a_id a =? id)) (auths w).
Proof.
  intros H. unfold datastore_delete. rewrite write_run by assumption.
  split; reflexivity.
Qed.

Lemma auth_update_proceeds w id config data :
  fst (auth_get_instance id w) = Ok config ->
  next_write_ok w = true ->
  let new := auth_merge config data in
  let r :=
    (check [] ;;;
     datastore_update AuthT id (fun _ => new) ;;;
     _service_change "iscsitarget" "reload" ;;;
     auth_get_instance id) w in
  fst r = Ok new /\ In new (auths (snd r)).
Proof.
  intros H Hw new r. apply get_instance_auth in H. destruct H as (_ & Hid & Hin).
  unfold r. unfold bind, check, ret, datastore_update.
  rewrite write_run by assumption.
  unfold _service_change, emit, auth_get_instance, auth_query, datastore_query.
  cbn [rows set_rows row_id tbl AuthT auths set_log set_auths set_faults].
  rewrite (updated_rows (auths w) id new) by exact Hid.
  assert (Hf : In config (filter (fun a => a_id a =? id) (auths w))).
  { apply filter_In. split; [exact Hin | now apply Z.eqb_eq]. }
  destruct (filter (fun a => a_id a =? id) (auths w)) as [| c cs]; [contradiction |].
  cbn [List.length repeat fst snd auths set_log set_auths].
  split; [reflexivity |].
  apply in_map_iff. exists config. split; [| exact Hin].
  rewrite Hid, Z.eqb_refl. reflexivity.
Qed.

(** C8 (as the code has it): the delete of a credential, and an update
    that changes its tag, are blocked when portals or target groups
    still refer to the tag and no other credential carries it, with
    the in-use error when target groups are what refers to it; when
    another credential carries the tag, or nothing refers to it, the
    guard lets the delete and the update through. *)
Theorem C8_credential_usage_guard :
  forall w id config,
    fst (auth_get_instance id w) = Ok config ->
    (tag_shared w id (a_tag config) = false ->
     tag_referenced w (a_tag config) = true ->
     (exists e, auth_do_delete id w = (Raise e, w))
     /\ (forall data t,
            au_tag data = Some t -> t <> a_tag config ->
            exists e, auth_do_update id data w = (Raise e, w)))
    /\ (tag_shared w id (a_tag config) = false ->
        portals_using w (a_tag config) = [] ->
        groups_using w (a_tag config) <> [] ->
        auth_do_delete id w
        = (Raise (CallError (used_by_targets id (groups_using w (a_tag config)))), w)
        /\ (forall data t,
               au_tag data = Some t -> t <> a_tag config ->
               exists errors,
                 auth_do_update id data w = (Raise (ValidationErrors errors), w)
                 /\ In (verr "iscsi_auth_update.tag"
                          (used_by_targets id (groups_using w (a_tag config))))
                      errors))
    /\ (tag_shared w id (a_tag config) = true
        \/ tag_referenced w (a_tag config) = false ->
        next_write_ok w = true ->
        (fst (auth_do_delete id w) = Ok true
         /\ auths (snd (auth_do_delete id w))
            = filter (fun a => negb (a_id a =? id)) (auths w))
        /\ (forall data t,
               au_tag data = Some t ->
               auth_validate (auth_merge config data) "iscsi_auth_update" = [] ->
               fst (auth_do_update id data w) = Ok (auth_merge config data)
               /\ a_tag (auth_merge config data) = t
               /\ In (auth_merge config data) (auths (snd (auth_do_update id data w))))).
Proof.
  intros w id config Hget.
  pose proof (is_in_use_run w id config Hget) as Hu.
  pose proof (auth_delete_run w id config Hget) as Hd.
  split; [| split].
  - intros Hs Hr. split.
    + rewrite Hd, Hs, Hu. cbn [negb]. unfold tag_referenced in Hr.
      destruct (portals_using w (a_tag config)); [| eexists; reflexivity].
      destruct (groups_using w (a_tag config)); [discriminate |].
      eexists; reflexivity.
    + intros data t Ht Hne.
      rewrite (auth_update_run w id config data Hget), Hs, Hu.
      assert (Etag : (a_tag (auth_merge config data) =? a_tag config) = false).
      { unfold auth_merge. cbn [a_tag]. rewrite Ht. now apply Z.eqb_neq. }
      rewrite Etag. cbn [negb andb]. unfold tag_referenced in Hr.
      destruct (portals_using w (a_tag config)); [| eexists; reflexivity].
      destruct (groups_using w (a_tag config)); [discriminate |].
      cbn [in_use usages].
      destruct (auth_validate (auth_merge config data) "iscsi_auth_update");
        eexists; reflexivity.
  - intros Hs Hp Hg. split.
    + rewrite Hd, Hs, Hu, Hp. cbn [negb].
      destruct (groups_using w (a_tag config)); [congruence | reflexivity].
    + intros data t Ht Hne.
      rewrite (auth_update_run w id config data Hget), Hs, Hu, Hp.
      assert (Etag : (a_tag (auth_merge config data) =? a_tag config) = false).
      { unfold auth_merge. cbn [a_tag]. rewrite Ht. now apply Z.eqb_neq. }
      rewrite Etag. cbn [negb andb].
      destruct (groups_using w (a_tag config)) as [| g gs]; [congruence |].
      cbn [in_use usages].
      exists (auth_validate (auth_merge config data) "iscsi_auth_update"
              ++ [verr "iscsi_auth_update.tag" (used_by_targets id (g :: gs))]).
      split.
      * destruct (auth_validate (auth_merge config data) "iscsi_auth_update");
          reflexivity.
      * apply in_or_app. right. now left.
  - intros Hfree Hw. split.
    + rewrite Hd. destruct Hfree as [Hs | Hr].
      * rewrite Hs. cbn [negb]. now apply auth_delete_proceeds.
      * apply referenced_cases in Hr. destruct Hr as [Hp Hg].
        rewrite Hu, Hp, Hg. cbn [in_use].
        destruct (negb (tag_shared w id (a_tag config)));
          now apply auth_delete_proceeds.
    + intros data t Ht Hv.
      assert (Etag : a_tag (auth_merge config data) = t)
        by (unfold auth_merge; cbn [a_tag]; now rewrite Ht).
      pose proof (auth_update_proceeds w id config data Hget Hw) as Hp.
      cbv zeta in Hp.
      assert (E : auth_do_update id data w
                  = (check [] ;;;
                     datastore_update AuthT id (fun _ => auth_merge config data) ;;;
                     _service_change "iscsitarget" "reload" ;;;
                     auth_get_instance id) w).
      { rewrite (auth_update_run w id config data Hget). rewrite Hv.
        destruct (negb (a_tag (auth_merge config data) =? a_tag config)
                  && negb (tag_shared w id (a_tag config))) eqn:Hc;
          [| reflexivity].
        apply andb_prop in Hc. destruct Hc as [_ Hns].
        destruct Hfree as [Hs | Hr]; [rewrite Hs in Hns; discriminate |].
        apply referenced_cases in Hr. destruct Hr as [Hp' Hg].
        rewrite Hu, Hp', Hg. reflexivity. }
      rewrite E. destruct Hp as [Hp1 Hp2]. auto.
Qed.

(** C8 on a credential that is alone on its tag and referenced, one that
    shares its tag, and one that nothing refers to. *)
Lemma C8_guard_examples :
  (tag_shared world_auth_alone 1 1 = false
   /\ auth_do_delete 1 world_auth_alone
      = (Raise (CallError
                  "Authorized access of 1 is being used by following target(s): 1"),
         world_auth_alone))
  /\ (tag_shared world_auth_shared 1 1 = true
      /\ fst (auth_do_delete 1 world_auth_shared) = Ok true
      /\ auths (snd (auth_do_delete 1 world_auth_shared)) = [example_auth 2 1]).
Proof.
  split.
  - split; [reflexivity |].
    exact (proj1 (proj1 (proj2 (C8_credential_usage_guard world_auth_alone 1
                                  (example_auth 1 1) eq_refl))
                    eq_refl eq_refl ltac:(discriminate))).
  - split; [reflexivity |].
    exact (proj1 (proj2 (proj2 (C8_credential_usage_guard world_auth_shared 1
                                  (example_auth 1 1) eq_refl))
                    (or_introl eq_refl) eq_refl)).
Defined.

(** C8 as stated fails both ways: the only credential with tag 1, used
    by a target group, cannot be deleted although no other credential
    shares the tag; and with a second credential on tag 1 the delete
    goes through although the group still refers to the tag. *)
Lemma C8_guard_is_the_other_way_round :
  (tag_shared world_auth_alone 1 1 = false
   /\ tag_referenced world_auth_alone 1 = true
   /\ fst (auth_do_delete 1 world_auth_alone)
      = Raise (CallError
                 "Authorized access of 1 is being used by following target(s): 1")
   /\ auths (snd (auth_do_delete 1 world_auth_alone)) = [example_auth 1 1])
  /\ (tag_shared world_auth_shared 1 1 = true
      /\ tag_referenced world_auth_shared 1 = true
      /\ fst (auth_do_delete 1 world_auth_shared) = Ok true
      /\ auths (snd (auth_do_delete 1 world_auth_shared)) = [example_auth 2 1]
      /\ fst (auth_do_update 1 (only_tag 5) world_auth_shared)
         = Ok {| a_id := 1; a_tag := 5; a_user := "user";
                 a_secret := "secretsecret1"; a_peeruser := "";
                 a_peersecret := "" |}).
Proof. repeat split; vm_compute; reflexivity. Qed.

(** ** Frames: what an operation leaves alone *)

Lemma preserves_ret {A X} (f : World -> X) (a : A) : preserves f (ret a).
Proof. intros w. reflexivity. Qed.

Lemma preserves_raise {A X} (f : World -> X) e : preserves f (@raise A e).
Proof. intros w. reflexivity. Qed.

Lemma preserves_get_world {X} (f : World -> X) : preserves f get_world.
Proof. intros w. reflexivity. Qed.

Lemma preserves_bind {A B X} (f : World -> X) (c : M A) (k : A -> M B) :
  preserves f c -> (forall a, preserves f (k a)) -> preserves f (bind c k).
Proof.
  intros Hc Hk w. unfold bind. specialize (Hc w).
  destruct (c w) as [[a | e] w1]; simpl in *; [| exact Hc].
  now rewrite Hk.
Qed.

Lemma preserves_try_except {A X} (f : World -> X) (c : M A) h :
  preserves f c -> (forall e, preserves f (h e)) -> preserves f (try_except c h).
Proof.
  intros Hc Hh w. unfold try_except. specialize (Hc w).
  destruct (c w) as [[a | e] w1]; simpl in *; [exact Hc |].
  now rewrite Hh.
Qed.

Lemma preserves_try_finally {A X} (f : World -> X) (c : M A) g :
  preserves f c -> preserves f g -> preserves f (try_finally c g).
Proof.
  intros Hc Hg w. unfold try_finally. specialize (Hc w).
  destruct (c w) as [r w1]. specialize (Hg w1).
  destruct (g w1) as [[u | e] w2]; simpl in *; congruence.
Qed.

Lemma preserves_for_each {A X} (f : World -> X) (l : list A) body :
  (forall x, preserves f (body x)) -> preserves f (for_each l body).
Proof.
  intros H. induction l as [| x l IH]; simpl.
  - apply preserves_ret.
  - apply preserves_bind; [apply H | intros _; exact IH].
Qed.

Lemma preserves_for_fold {A S X} (f : World -> X) (l : list A) (s : S) body :
  (forall x s, preserves f (body x s)) -> preserves f (for_fold l s body).
Proof.
  intros H. revert s. induction l as [| x l IH]; intros s; simpl.
  - apply preserves_ret.
  - apply preserves_bind; [apply H | intros s'; apply IH].
Qed.

Lemma preserves_check {X} (f : World -> X) v : preserves f (check v).
Proof. destruct v; [apply preserves_ret | apply preserves_raise]. Qed.

Section FrameOfWrites.
Context {X : Type} (f : World -> X).
Hypothesis f_log : forall v w, f (set_log v w) = f w.
Hypothesis f_faults : forall v w, f (set_faults v w) = f w.

Lemma preserves_emit e : preserves f (emit e).
Proof. intros w. apply f_log. Qed.

Lemma preserves_write {A} t (op : M A) :
  preserves f op -> preserves f (datastore_write t op).
Proof.
  intros H w. unfold datastore_write, bind, take_fault.
  destruct (hd false (faults w)); simpl.
  - apply f_faults.
  - rewrite H. apply f_faults.
Qed.

Context {R : Type} (T : TableOps R).
Hypothesis f_rows : forall v w, f (set_rows T v w) = f w.

Lemma preserves_insert r : preserves f (datastore_insert T r).
Proof. apply preserves_write. intros w. simpl. now rewrite f_log, f_rows. Qed.

Lemma preserves_update id g : preserves f (datastore_update T id g).
Proof. apply preserves_write. intros w. simpl. now rewrite f_log, f_rows. Qed.

Lemma preserves_delete id : preserves f (datastore_delete T id).
Proof. apply preserves_write. intros w. simpl. now rewrite f_log, f_rows. Qed.

Lemma preserves_delete_where flt : preserves f (datastore_delete_where T flt).
Proof. apply preserves_write. intros w. simpl. now rewrite f_log, f_rows. Qed.
End FrameOfWrites.

(** A computation that only reads leaves the whole world alone. *)
Ltac preserves_reader :=
  let w := fresh "w" in
  intros w;
  repeat match goal with
         | |- context [match ?x with _ => _ end] => destruct x
         end; reflexivity.

Ltac preserves_step :=
  first
    [ apply preserves_ret
    | apply preserves_raise
    | apply preserves_get_world
    | apply preserves_check
    | solve [auto with preserves]
    | apply preserves_emit; intros; reflexivity
    | apply preserves_insert; intros; reflexivity
    | apply preserves_update; intros; reflexivity
    | apply preserves_delete; intros; reflexivity
    | apply preserves_delete_where; intros; reflexivity
    | apply preserves_for_each; intros
    | apply preserves_for_fold; intros
    | apply preserves_try_except; [| intros]
    | apply preserves_try_finally
    | match goal with
      | |- preserves _ (if ?b then _ else _) => destruct b
      | |- preserves _ (match ?x with _ => _ end) => destruct x
      end
    | apply preserves_bind; [| intros] ].

Ltac preserves_tac := repeat preserves_step.

Create HintDb preserves.

Lemma save_listen_keeps_portals pk new old :
  preserves portals (portal_save_listen pk new old).
Proof. unfold portal_save_listen. preserves_tac. Qed.

Lemma save_groups_keeps_targets pk new old :
  preserves targets (target_save_groups pk new old).
Proof. unfold target_save_groups. preserves_tac. Qed.

(** ** Roll-back of a failed create *)

Lemma insert_then_delete {R} (T : TableOps R) (l : list R) (r : R) :
  (forall k x, row_id T (with_id T k x) = k) ->
  filter (fun x => negb (row_id T x =? fresh_id (map (row_id T) l)))
    (l ++ [with_id T (fresh_id (map (row_id T) l)) r])
  = l.
Proof.
  intros Hid. rewrite filter_app, filter_not_fresh. simpl.
  rewrite Hid, Z.eqb_refl. simpl. apply app_nil_r.
Qed.

(** C6: when the primary row of a portal or of a target was inserted
    and the reconciliation of its children then raises, the create
    deletes that row and raises the same error: the primary table is
    what it was before the call and no reload is signalled.  The
    datastore is taken to carry out the compensating delete. *)
Theorem C6_create_rolls_back :
  (forall w data pk w1 e w2,
      portal_validate w (portal_of_create data) "iscsiportal_create" None = [] ->
      datastore_insert PortalT (portal_row_of_create (portal_count w + 1) data) w
      = (Ok pk, w1) ->
      portal_save_listen pk (pc_listen data) None w1 = (Raise e, w2) ->
      next_write_ok w2 = true ->
      fst (portal_do_create data w) = Raise e
      /\ portals (snd (portal_do_create data w)) = portals w
      /\ (forall r, In r (portals (snd (portal_do_create data w))) -> p_id r <> pk)
      /\ log (snd (portal_do_create data w))
         = log w2 ++ [EvDelete services_iscsitargetportal pk])
  /\ (forall w data pk w1 e w2,
         target_validate w data "iscsi_target_create" None = [] ->
         datastore_insert TargetT (target_row_of data) w = (Ok pk, w1) ->
         target_save_groups pk (map group_compress (target_groups data)) None w1
         = (Raise e, w2) ->
         next_write_ok w2 = true ->
         fst (target_do_create data w) = Raise e
         /\ targets (snd (target_do_create data w)) = targets w
         /\ (forall r, In r (targets (snd (target_do_create data w))) -> t_id r <> pk)
         /\ log (snd (target_do_create data w))
            = log w2 ++ [EvDelete services_iscsitarget pk]).
Proof.
  split.
  - intros w data pk w1 e w2 Hv Hins Hsave Hw.
    pose proof (save_listen_keeps_portals pk (pc_listen data) None w1) as Hkeep.
    rewrite Hsave in Hkeep. simpl in Hkeep.
    assert (Hrun : portal_do_create data w
                   = (Raise e,
                      set_log (log w2 ++ [EvDelete services_iscsitargetportal pk])
                        (set_portals
                           (filter (fun r => negb (p_id r =? pk)) (portals w2))
                           (set_faults (tl (faults w2)) w2)))).
    { unfold portal_do_create. unfold bind at 1. unfold get_world.
      rewrite Hv. unfold bind at 1. cbn [check]. unfold ret at 1.
      rewrite (bind_step _ _ _ _ _ Hins).
      unfold bind at 1. unfold try_except. rewrite Hsave.
      unfold bind at 1. unfold datastore_delete. rewrite write_run by assumption.
      reflexivity. }
    rewrite Hrun. cbn [fst snd portals log set_log set_portals].
    unfold datastore_insert in Hins. apply write_Ok in Hins.
    destruct Hins as [_ Hins]. inversion Hins; subst; clear Hins.
    assert (Hback : filter
                      (fun r => negb (p_id r
                                      =? fresh_id (map p_id (portals w))))
                      (portals w2)
                    = portals w).
    { rewrite Hkeep.
      exact (insert_then_delete PortalT (portals w)
               (portal_row_of_create (portal_count w + 1) data)
               (fun k x => eq_refl)). }
    change (fresh_id
              (map (row_id PortalT) (rows PortalT (set_faults (tl (faults w)) w))))
      with (fresh_id (map p_id (portals w))) in *.
    rewrite Hback.
    split; [reflexivity |]. split; [reflexivity |]. split; [| reflexivity].
    intros r Hr E. apply (in_map p_id) in Hr. apply fresh_id_gt in Hr. lia.
  - intros w data pk w1 e w2 Hv Hins Hsave Hw.
    pose proof (save_groups_keeps_targets pk
                  (map group_compress (target_groups data)) None w1) as Hkeep.
    rewrite Hsave in Hkeep. simpl in Hkeep.
    assert (Hrun : target_do_create data w
                   = (Raise e,
                      set_log (log w2 ++ [EvDelete services_iscsitarget pk])
                        (set_targets
                           (filter (fun r => negb (t_id r =? pk)) (targets w2))
                           (set_faults (tl (faults w2)) w2)))).
    { unfold target_do_create. unfold bind at 1. unfold get_world.
      rewrite Hv. unfold bind at 1. cbn [check]. unfold ret at 1.
      rewrite (bind_step _ _ _ _ _ Hins).
      unfold bind at 1. unfold try_except. rewrite Hsave.
      unfold bind at 1. unfold datastore_delete. rewrite write_run by assumption.
      reflexivity. }
    rewrite Hrun. cbn [fst snd targets log set_log set_targets].
    unfold datastore_insert in Hins. apply write_Ok in Hins.
    destruct Hins as [_ Hins]. inversion Hins; subst; clear Hins.
    assert (Hback : filter
                      (fun r => negb (t_id r
                                      =? fresh_id (map t_id (targets w))))
                      (targets w2)
                    = targets w).
    { rewrite Hkeep.
      exact (insert_then_delete TargetT (targets w) (target_row_of data)
               (fun k x => eq_refl)). }
    change (fresh_id
              (map (row_id TargetT) (rows TargetT (set_faults (tl (faults w)) w))))
      with (fresh_id (map t_id (targets w))) in *.
    rewrite Hback.
    split; [reflexivity |]. split; [reflexivity |]. split; [| reflexivity].
    intros r Hr E. apply (in_map t_id) in Hr. apply fresh_id_gt in Hr. lia.
Qed.

(** C6 on a portal create and a target create whose second datastore
    write fails. *)
Lemma C6_failed_creates_leave_no_row :
  (fst (portal_do_create (example_portal_create 3261) world_second_write_fails)
   = Raise (DatastoreError services_iscsitargetportalip)
   /\ portals (snd (portal_do_create (example_portal_create 3261)
                      world_second_write_fails))
      = portals world_second_write_fails)
  /\ (fst (target_do_create (example_target [example_group "NONE" None])
             world_second_write_fails)
      = Raise (DatastoreError services_iscsitargetgroups)
      /\ targets (snd (target_do_create (example_target [example_group "NONE" None])
                         world_second_write_fails))
         = targets world_second_write_fails).
Proof.
  split.
  - destruct (proj1 C6_create_rolls_back world_second_write_fails
                (example_portal_create 3261) 2
                (snd (datastore_insert PortalT
                        (portal_row_of_create 2 (example_portal_create 3261))
                        world_second_write_fails))
                (DatastoreError services_iscsitargetportalip)
                (snd (portal_save_listen 2 [example_listen 3261] None
                        (snd (datastore_insert PortalT
                                (portal_row_of_create 2 (example_portal_create 3261))
                                world_second_write_fails)))))
      as (H1 & H2 & _).
    + vm_compute; reflexivity.
    + vm_compute; reflexivity.
    + vm_compute; reflexivity.
    + vm_compute; reflexivity.
    + split; [exact H1 | exact H2].
  - destruct (proj2 C6_create_rolls_back world_second_write_fails
                (example_target [example_group "NONE" None]) 1
                (snd (datastore_insert TargetT
                        (target_row_of (example_target [example_group "NONE" None]))
                        world_second_write_fails))
                (DatastoreError services_iscsitargetgroups)
                (snd (target_save_groups 1
                        (map group_compress [example_group "NONE" None]) None
                        (snd (datastore_insert TargetT
                                (target_row_of
                                   (example_target [example_group "NONE" None]))
                                world_second_write_fails)))))
      as (H1 & H2 & _).
    + vm_compute; reflexivity.
    + vm_compute; reflexivity.
    + vm_compute; reflexivity.
    + vm_compute; reflexivity.
    + split; [exact H1 | exact H2].
Defined.

(** ** Operations that only delete *)

Lemma preserves_shrinks {A R} (f : World -> list R) (c : M A) :
  preserves f c -> shrinks f c.
Proof. intros H w r Hr. now rewrite H in Hr. Qed.

Lemma shrinks_bind {A B R} (f : World -> list R) (c : M A) (k : A -> M B) :
  shrinks f c -> (forall a, shrinks f (k a)) -> shrinks f (bind c k).
Proof.
  intros Hc Hk w r. unfold bind. specialize (Hc w r).
  destruct (c w) as [[a | e] w1]; simpl in *; [| exact Hc].
  intros Hr. apply Hc. eapply Hk. exact Hr.
Qed.

Lemma shrinks_for_each {A R} (f : World -> list R) (l : list A) body :
  (forall x, shrinks f (body x)) -> shrinks f (for_each l body).
Proof.
  intros H. induction l as [| x l IH]; simpl.
  - apply preserves_shrinks, preserves_ret.
  - apply shrinks_bind; [apply H | intros _; exact IH].
Qed.

Lemma shrinks_delete_targetextent id :
  shrinks targetextents (datastore_delete TargetExtentT id).
Proof.
  intros w r. unfold datastore_delete, datastore_write, bind, take_fault.
  destruct (hd false (faults w)); simpl; [tauto |].
  intros H. now apply filter_In in H.
Qed.

Lemma shrinks_delete_target id : shrinks targets (datastore_delete TargetT id).
Proof.
  intros w r. unfold datastore_delete, datastore_write, bind, take_fault.
  destruct (hd false (faults w)); simpl; [tauto |].
  intros H. now apply filter_In in H.
Qed.

Lemma shrinks_delete_extent id : shrinks extents (datastore_delete ExtentT id).
Proof.
  intros w r. unfold datastore_delete, datastore_write, bind, take_fault.
  destruct (hd false (faults w)); simpl; [tauto |].
  intros H. now apply filter_In in H.
Qed.

#[export] Hint Resolve shrinks_delete_targetextent shrinks_delete_target
  shrinks_delete_extent : preserves.

Ltac shrinks_step :=
  first
    [ solve [auto with preserves]
    | solve [apply preserves_shrinks; preserves_tac]
    | apply shrinks_for_each; intros
    | match goal with
      | |- shrinks _ (if ?b then _ else _) => destruct b
      | |- shrinks _ (match ?x with _ => _ end) => destruct x
      end
    | apply shrinks_bind; [| intros] ].

Ltac shrinks_tac := repeat shrinks_step.

Lemma preserves_targetextent_get_instance {X} (f : World -> X) id :
  preserves f (targetextent_get_instance id).
Proof. unfold targetextent_get_instance. preserves_reader. Qed.

Lemma preserves_target_get_instance {X} (f : World -> X) id :
  preserves f (target_get_instance id).
Proof. unfold target_get_instance. preserves_reader. Qed.

Lemma preserves_extent_get_instance {X} (f : World -> X) id :
  preserves f (extent_get_instance id).
Proof. unfold extent_get_instance. preserves_reader. Qed.

#[export] Hint Resolve preserves_targetextent_get_instance
  preserves_target_get_instance preserves_extent_get_instance : preserves.

Lemma targetextent_delete_keeps_targets id force :
  preserves targets (targetextent_do_delete id force).
Proof. unfold targetextent_do_delete. preserves_tac. Qed.

Lemma targetextent_delete_keeps_extents id force :
  preserves extents (targetextent_do_delete id force).
Proof. unfold targetextent_do_delete. preserves_tac. Qed.

Lemma targetextent_delete_shrinks id force :
  shrinks targetextents (targetextent_do_delete id force).
Proof. unfold targetextent_do_delete. shrinks_tac. Qed.

#[export] Hint Resolve targetextent_delete_keeps_targets
  targetextent_delete_keeps_extents targetextent_delete_shrinks : preserves.

Lemma target_delete_shrinks_targets id force :
  shrinks targets (target_do_delete id force).
Proof. unfold target_do_delete. shrinks_tac. Qed.

Lemma target_delete_shrinks_targetextents id force :
  shrinks targetextents (target_do_delete id force).
Proof. unfold target_do_delete. shrinks_tac. Qed.

Lemma target_delete_keeps_extents id force :
  preserves extents (target_do_delete id force).
Proof. unfold target_do_delete. preserves_tac. Qed.

Lemma remove_extent_file_keeps {X} (f : World -> X) data :
  (forall v w, f (set_log v w) = f w) ->
  (forall a b w, f (set_fs a b w) = f w) ->
  preserves f (extent_remove_extent_file data).
Proof.
  intros Hl Hf w. unfold extent_remove_extent_file.
  destruct (String.eqb (extent_type data) "FILE"); [| reflexivity].
  destruct (path data) as [p |]; [| reflexivity].
  destruct (path_isfile w p); [| reflexivity].
  simpl. now rewrite Hl, Hf.
Qed.

(** The extent delete operation never touches the target table. *)
Lemma extent_delete_keeps_targets id remove force :
  preserves targets (extent_do_delete id remove force).
Proof.
  unfold extent_do_delete.
  pose proof (remove_extent_file_keeps targets) as Hr.
  assert (Hr' : forall d, preserves targets (extent_remove_extent_file d))
    by (intros; apply Hr; intros; reflexivity).
  preserves_tac.
Qed.

(** ** Facts about a run that returned *)

Lemma emits_run {A} P (c : M A) w r w1 :
  emits P c -> c w = (r, w1) ->
  exists evs, log w1 = log w ++ evs /\ forallb P evs = true.
Proof. intros H E. specialize (H w). now rewrite E in H. Qed.

Lemma preserves_run {A X} (f : World -> X) (c : M A) w r w1 :
  preserves f c -> c w = (r, w1) -> f w1 = f w.
Proof. intros H E. specialize (H w). now rewrite E in H. Qed.

Lemma shrinks_run {A R} (f : World -> list R) (c : M A) w r w1 :
  shrinks f c -> c w = (r, w1) -> forall x, In x (f w1) -> In x (f w).
Proof. intros H E x. specialize (H w x). now rewrite E in H. Qed.

Lemma filter_all {A} (l : list A) : filter (fun _ => true) l = l.
Proof. induction l as [| x l IH]; simpl; [reflexivity | now rewrite IH]. Qed.

Lemma filter_filter {A} (p q : A -> bool) (l : list A) :
  filter p (filter q l) = filter (fun x => q x && p x) l.
Proof.
  induction l as [| x l IH]; simpl; [reflexivity |].
  destruct (q x); simpl; [destruct (p x) |]; now rewrite IH.
Qed.

Tactic Notation "inv_ok" hyp(H) "as" ident(a) ident(w1) ident(H1) :=
  apply bind_Ok in H; destruct H as (a & w1 & H1 & H).

Lemma targetextent_delete_ok id force w r w' :
  targetextent_do_delete id force w = (Ok r, w') ->
  targetextents w' = filter (fun x => negb (te_id x =? id)) (targetextents w).
Proof.
  intros H. unfold targetextent_do_delete in H.
  inv_ok H as at_ wa Ha.
  pose proof (preserves_run targetextents _ _ _ _
                (preserves_targetextent_get_instance _ id) Ha) as E0.
  inv_ok H as w0 wb Hb. unfold get_world in Hb. inversion Hb; subst; clear Hb.
  inv_ok H as u wc Hc.
  assert (E1 : targetextents wc = targetextents wb).
  { refine (preserves_run targetextents _ _ _ _ _ Hc).
    destruct (target_active_sessions_for_targets _ wb); [apply preserves_ret |].
    destruct force; [apply preserves_emit; reflexivity | apply preserves_raise]. }
  inv_ok H as res wd Hd. unfold datastore_delete in Hd. apply write_Ok in Hd.
  destruct Hd as [_ Hd]. inversion Hd; subst; clear Hd.
  inv_ok H as u2 we He. unfold _service_change, emit in He. inversion He; subst.
  unfold ret in H. inversion H; subst. simpl. now rewrite E1, E0.
Qed.

(** Deleting the associations found by a query, one by one. *)
Lemma delete_associations_ok force :
  forall rs w w',
    for_each (map targetextent_extend rs)
      (fun te =>
         match te_id_ te with
         | Some k => _ <- targetextent_do_delete k force ;; ret tt
         | None => ret tt
         end) w
    = (Ok tt, w') ->
    targetextents w'
    = filter (fun x => negb (mem_Z (te_id x) (map te_id rs))) (targetextents w).
Proof.
  induction rs as [| r rs IH]; intros w w' H.
  - simpl in H. unfold ret in H. inversion H; subst.
    simpl. now rewrite filter_all.
  - cbn [map for_each targetextent_extend te_id_] in H.
    inv_ok H as u wa Ha. inv_ok Ha as res wb Hb.
    apply targetextent_delete_ok in Hb.
    unfold ret in Ha. inversion Ha; subst; clear Ha.
    apply IH in H. rewrite H, Hb, filter_filter.
    apply filter_ext. intros x. simpl.
    rewrite Z.eqb_sym. destruct (te_id r =? te_id x); reflexivity.
Qed.

Lemma extent_delete_ok id remove force w r w' :
  extent_do_delete id remove force w = (Ok r, w') ->
  (forall x, In x (targetextents w') -> te_extent x <> id)
  /\ (forall x, In x (extents w') -> e_id x <> id)
  /\ targets w' = targets w.
Proof.
  intros H.
  pose proof (preserves_run targets _ _ _ _
                (extent_delete_keeps_targets id remove force) H) as Ht.
  unfold extent_do_delete in H.
  inv_ok H as data wa Ha.
  pose proof (preserves_run targetextents _ _ _ _
                (preserves_extent_get_instance _ id) Ha) as E0.
  inv_ok H as w0 wb Hb. unfold get_world in Hb. inversion Hb; subst; clear Hb.
  inv_ok H as u wc Hc.
  assert (E1 : targetextents wc = targetextents wb).
  { refine (preserves_run targetextents _ _ _ _ _ Hc).
    destruct (target_active_sessions_for_targets _ wb); [apply preserves_ret |].
    destruct force; [apply preserves_emit; reflexivity | apply preserves_raise]. }
  inv_ok H as u2 wd Hd.
  assert (E2 : targetextents wd = targetextents wc).
  { refine (preserves_run targetextents _ _ _ _ _ Hd).
    destruct remove; [| apply preserves_ret].
    apply preserves_bind.
    - apply remove_extent_file_keeps; intros; reflexivity.
    - intros b. destruct (negb b); [apply preserves_raise | apply preserves_ret]. }
  inv_ok H as u3 we He. unfold targetextent_query, datastore_query in He.
  destruct u3. apply delete_associations_ok in He.
  unfold try_finally in H.
  destruct (datastore_delete ExtentT id we) as [r5 w5] eqn:Ed.
  unfold _service_change, emit in H. inversion H; subst. clear H.
  unfold datastore_delete in Ed. apply write_Ok in Ed.
  destruct Ed as [_ Ed]. inversion Ed; subst; clear Ed.
  cbn [targetextents extents set_log set_rows ExtentT set_extents set_faults].
  split; [| split; [| exact Ht]].
  - intros x Hx Hext. rewrite He in Hx. apply filter_In in Hx.
    destruct Hx as [Hx Hid]. apply negb_true_iff in Hid.
    assert (Hm : mem_Z (te_id x)
                   (map te_id (filter (fun r => te_extent r =? id)
                                 (rows TargetExtentT wb))) = true).
    { apply mem_Z_In, in_map, filter_In. split.
      - cbn [rows TargetExtentT]. now rewrite <- E1, <- E2.
      - now apply Z.eqb_eq. }
    congruence.
  - intros x Hx. apply filter_In in Hx. destruct Hx as [_ Hx].
    apply negb_true_iff in Hx. now apply Z.eqb_neq.
Qed.

(** ** The delete of a target and the attachment delegate *)

Lemma log_grows {A} (c : M A) w r w1 :
  emits any_event c -> c w = (r, w1) -> exists evs, log w1 = log w ++ evs.
Proof.
  intros H E. destruct (emits_run _ _ _ _ _ H E) as [evs [El _]]. now exists evs.
Qed.

Lemma emits_target_do_delete id force : emits any_event (target_do_delete id force).
Proof. unfold target_do_delete. emits_tac. Qed.

(** From a step that ran, the events it added and the tables it kept. *)
Tactic Notation "grows" hyp(H) ident(l) ident(L) :=
  let H' := fresh in
  pose proof H as H';
  eapply log_grows in H'; [| solve [emits_tac]];
  destruct H' as [l L].

Tactic Notation "keeps" constr(f) hyp(H) ident(E) :=
  pose proof H as E;
  eapply (preserves_run f) in E; [| solve [preserves_tac]].

Lemma target_delete_ok id force w r w' :
  target_do_delete id force w = (Ok r, w') ->
  (forall x, In x (targets w') -> t_id x <> id)
  /\ exists l1 l2, log w' = log w ++ l1 ++ EvDelete services_iscsitarget id :: l2.
Proof.
  intros H. unfold target_do_delete in H.
  inv_ok H as tgt wa Ha. grows Ha la La.
  inv_ok H as w0 wb Hb. unfold get_world in Hb. inversion Hb; subst; clear Hb.
  inv_ok H as u wc Hc. grows Hc lc Lc.
  inv_ok H as w1 wd Hd. unfold get_world in Hd. inversion Hd; subst; clear Hd.
  inv_ok H as u2 we He. grows He le Le.
  inv_ok H as b wf Hf. grows Hf lf Lf.
  inv_ok H as rv wg Hg. unfold datastore_delete in Hg. apply write_Ok in Hg.
  destruct Hg as [_ Hg]. inversion Hg; subst; clear Hg.
  inv_ok H as w2 wh Hh. unfold get_world in Hh. inversion Hh; subst; clear Hh.
  inv_ok H as u3 wi Hi. grows Hi li Li. keeps targets Hi Ti.
  inv_ok H as u4 wj Hj. unfold _service_change, emit in Hj.
  inversion Hj; subst; clear Hj. unfold ret in H. inversion H; subst; clear H.
  split.
  - cbn [targets set_log]. rewrite Ti.
    cbn [targets set_log set_rows TargetT set_targets].
    intros x Hx. apply filter_In in Hx. destruct Hx as [_ Hx].
    apply negb_true_iff in Hx. now apply Z.eqb_neq.
  - cbn [log set_log]. rewrite Li.
    cbn [log set_log set_rows TargetT set_targets set_faults tbl].
    rewrite Lf, Le, Lc, La.
    exists (la ++ lc ++ le ++ lf), (li ++ [EvNotify "iscsitarget" "reload"]).
    rewrite <- !app_assoc. reflexivity.
Qed.

Lemma for_each_establishes {A} (body : A -> M unit) (P Q : World -> Prop) x :
  (forall y w w', body y w = (Ok tt, w') -> P w -> P w') ->
  (forall y w w', body y w = (Ok tt, w') -> Q w -> Q w') ->
  (forall w w', body x w = (Ok tt, w') -> P w -> Q w') ->
  forall l, In x l ->
  forall w w', for_each l body w = (Ok tt, w') -> P w -> Q w'.
Proof.
  intros HP HQ HPQ.
  assert (Hstable : forall l w w', for_each l body w = (Ok tt, w') -> Q w -> Q w').
  { induction l as [| y l IH]; intros w w' H Hq.
    - simpl in H. unfold ret in H. now inversion H; subst.
    - simpl in H. inv_ok H as u wa Ha. destruct u.
      eapply IH; [exact H |]. eapply HQ; eassumption. }
  induction l as [| y l IH]; intros Hin w w' H Hp; [contradiction |].
  simpl in H. inv_ok H as u wa Ha. destruct u.
  destruct Hin as [-> | Hin].
  - eapply Hstable; [exact H |]. eapply HPQ; eassumption.
  - eapply IH; [exact Hin | exact H |]. eapply HP; eassumption.
Qed.

Lemma set_add_In x y s : In x (set_add y s) <-> x = y \/ In x s.
Proof.
  unfold set_add. destruct (mem_Z y s) eqn:E.
  - apply mem_Z_In in E. split; [tauto | intros [-> | H]; assumption].
  - rewrite in_app_iff. simpl. intuition.
Qed.

(** The inner loop of the delegate: the associations of one extent are
    deleted and their targets collected. *)
Lemma delegate_inner_ok :
  forall rs s0 w s w',
    for_fold (map targetextent_extend rs) s0
      (fun te orphan_targets_ids =>
         match te_id_ te with
         | Some k =>
             _ <- datastore_delete TargetExtentT k ;;
             ret (set_add (target te) orphan_targets_ids)
         | None => ret (set_add (target te) orphan_targets_ids)
         end) w
    = (Ok s, w') ->
    targetextents w'
    = filter (fun x => negb (mem_Z (te_id x) (map te_id rs))) (targetextents w)
    /\ targets w' = targets w
    /\ extents w' = extents w
    /\ (forall t, In t s <-> In t s0 \/ In t (map te_target rs))
    /\ (forall r, In r rs ->
         exists l1 l2,
           log w' = log w ++ l1 ++ EvDelete services_iscsitargettoextent (te_id r) :: l2)
    /\ exists evs, log w' = log w ++ evs.
Proof.
  induction rs as [| r rs IH]; intros s0 w s w' H.
  - simpl in H. unfold ret in H. inversion H; subst.
    simpl. rewrite filter_all.
    split; [reflexivity |]. split; [reflexivity |]. split; [reflexivity |].
    split; [intros t; tauto |]. split; [intros r [] |].
    exists []. now rewrite app_nil_r.
  - cbn [map for_fold targetextent_extend te_id_ target] in H.
    inv_ok H as s1 wa Ha. inv_ok Ha as b wb Hb.
    unfold ret in Ha. inversion Ha; subst; clear Ha.
    unfold datastore_delete in Hb. apply write_Ok in Hb.
    destruct Hb as [_ Hb]. inversion Hb; subst; clear Hb.
    apply IH in H. destruct H as (Hte & Ht & He & Hs & Hl & [evs Hg]).
    cbn [targetextents targets extents log set_log set_rows TargetExtentT
         set_targetextents set_faults tbl] in *.
    split; [| split; [exact Ht | split; [exact He | split; [| split]]]].
    + rewrite Hte, filter_filter. apply filter_ext. intros x. simpl.
      rewrite Z.eqb_sym. destruct (te_id r =? te_id x); reflexivity.
    + intros t. rewrite Hs, set_add_In. simpl. intuition.
    + intros r' [<- | Hr'].
      * exists [], evs. rewrite Hg. rewrite <- app_assoc. reflexivity.
      * destruct (Hl r' Hr') as (l1 & l2 & E). rewrite E.
        exists (EvDelete services_iscsitargettoextent (te_id r) :: l1), l2.
        rewrite <- !app_assoc. reflexivity.
    + rewrite Hg. eexists. rewrite <- app_assoc. reflexivity.
Qed.

Lemma sole_backing_row w e t a :
  sole_backing_store w e t a ->
  In a (targetextents w) /\ te_target a = t /\ te_extent a = e
  /\ (forall x, In x (targetextents w) -> te_target x = t -> x = a).
Proof.
  intros (Hf & He & _ & _).
  assert (Ha : In a (filter (fun r => te_target r =? t) (targetextents w)))
    by (rewrite Hf; now left).
  apply filter_In in Ha. destruct Ha as [Ha Ht]. apply Z.eqb_eq in Ht.
  repeat split; try assumption.
  intros x Hx Hxt.
  assert (Hx' : In x (filter (fun r => te_target r =? t) (targetextents w))).
  { apply filter_In. split; [assumption | now apply Z.eqb_eq]. }
  rewrite Hf in Hx'. destruct Hx' as [-> | []]. reflexivity.
Qed.

Lemma happens_before_new {A} (c : M A) w e1 e2 l1 l2 l3 :
  log (snd (c w)) = log w ++ l1 ++ e1 :: l2 ++ e2 :: l3 ->
  happens_before e1 e2 (new_events c w).
Proof.
  intros E. rewrite (new_events_app _ _ _ E). now exists l1, l2, l3.
Qed.

(** C3 (as the code has it): when an extent is the only one bound to a
    target, deleting it through the attachment delegate deletes the
    association, the extent and then the target, now without
    associations; deleting it through the extent delete operation
    deletes the association and the extent and keeps the target. *)
Theorem C3_cascade_on_extent_removal :
  forall w e t a,
    sole_backing_store w e t a ->
    (forall att w',
        extent_id att = Some e ->
        attachment_delete [att] w = (Ok tt, w') ->
        (forall x, In x (targetextents w') -> te_extent x <> e)
        /\ (forall x, In x (extents w') -> e_id x <> e)
        /\ (forall x, In x (targets w') -> t_id x <> t)
        /\ happens_before (EvDelete services_iscsitargettoextent (te_id a))
             (EvDelete services_iscsitarget t)
             (new_events (attachment_delete [att]) w))
    /\ (forall remove force r w',
           extent_do_delete e remove force w = (Ok r, w') ->
           (forall x, In x (targetextents w') -> te_extent x <> e)
           /\ (forall x, In x (extents w') -> e_id x <> e)
           /\ targets w' = targets w
           /\ (exists x, In x (targets w') /\ t_id x = t)).
Proof.
  intros w e t a Hsole.
  destruct (sole_backing_row _ _ _ _ Hsole) as (Ha & Hat & Hae & Honly).
  split.
  - intros att w' Hatt H. pose proof H as Hrun.
    unfold attachment_delete, attachment_delete_loop in H.
    inv_ok H as orphan w1 H1.
    cbn [for_fold] in H1. inv_ok H1 as s1 wa Hbody.
    unfold ret in H1. inversion H1; subst; clear H1.
    rewrite Hatt in Hbody.
    inv_ok Hbody as w0 wb Hb. unfold get_world in Hb. inversion Hb; subst; clear Hb.
    inv_ok Hbody as s2 wc Hc.
    unfold targetextent_query, datastore_query in Hc.
    apply delegate_inner_ok in Hc.
    destruct Hc as (Hte & Ht & He & Hs & Hl & _).
    inv_ok Hbody as b wd Hd. unfold ret in Hbody. inversion Hbody; subst; clear Hbody.
    unfold datastore_delete in Hd. apply write_Ok in Hd.
    destruct Hd as [_ Hd]. inversion Hd; subst; clear Hd.
    inv_ok H as w2 we He'. unfold get_world in He'. inversion He'; subst; clear He'.
    inv_ok H as u wf Hloop. destruct u.
    unfold _service_change, emit in H. inversion H; subst; clear H.
    set (rows_e := filter (fun r => te_extent r =? te_extent a)
                     (rows TargetExtentT wb)) in *.
    assert (Hrow : In a rows_e).
    { apply filter_In. split; [exact Ha | apply Z.eqb_refl]. }
    set (w1 := set_log _ _) in Hloop.
    assert (Hte1 : targetextents w1
                   = filter (fun x => negb (mem_Z (te_id x) (map te_id rows_e)))
                       (targetextents wb)) by exact Hte.
    assert (Hno_e : forall x, In x (targetextents w1) -> te_extent x <> te_extent a).
    { intros x Hx Hext. rewrite Hte1 in Hx. apply filter_In in Hx.
      destruct Hx as [Hx Hid]. apply negb_true_iff in Hid.
      assert (Hm : mem_Z (te_id x) (map te_id rows_e) = true).
      { apply mem_Z_In, in_map, filter_In. split; [exact Hx | now apply Z.eqb_eq]. }
      congruence. }
    assert (Hno_t : forall x, In x (targetextents w1) -> te_target x <> te_target a).
    { intros x Hx Htx. rewrite Hte1 in Hx. apply filter_In in Hx.
      destruct Hx as [Hx Hid]. apply negb_true_iff in Hid.
      rewrite (Honly x Hx Htx) in Hid.
      assert (Hm : mem_Z (te_id a) (map te_id rows_e) = true)
        by (apply mem_Z_In, in_map; exact Hrow).
      congruence. }
    assert (Horphan : In (te_target a)
                        (set_diff Z.eqb orphan
                           (map target
                              (targetextent_query
                                 (fun r => mem_Z (te_target r) orphan) w1)))).
    { apply (set_diff_In Z.eqb Z.eqb_eq). split.
      - apply Hs. right. apply in_map. exact Hrow.
      - intros Hin. apply in_map_iff in Hin. destruct Hin as (v & Hv & Hin).
        unfold targetextent_query, datastore_query in Hin.
        apply in_map_iff in Hin. destruct Hin as (x & <- & Hx).
        apply filter_In in Hx. destruct Hx as [Hx _].
        exact (Hno_t x Hx Hv). }
    destruct (Hl a Hrow) as (l1 & l2 & Hlog).
    assert (Hlog1 : exists l1 l2,
               log w1 = log wb ++ l1
                        ++ EvDelete services_iscsitargettoextent (te_id a) :: l2).
    { unfold w1. cbn [log set_log]. rewrite Hlog.
      exists l1, (l2 ++ [EvDelete (tbl ExtentT) (te_extent a)]).
      rewrite <- ?app_assoc. cbn [app]. rewrite <- ?app_assoc. reflexivity. }
    pose (P := fun w : World =>
                 exists l1 l2,
                   log w = log wb ++ l1
                           ++ EvDelete services_iscsitargettoextent (te_id a) :: l2).
    pose (Q := fun w : World =>
                 (forall x, In x (targets w) -> t_id x <> te_target a)
                 /\ exists l1 l2 l3,
                     log w = log wb ++ l1
                             ++ EvDelete services_iscsitargettoextent (te_id a)
                                :: l2 ++ EvDelete services_iscsitarget (te_target a)
                                :: l3).
    assert (HQ : Q wf).
    { refine (for_each_establishes _ P Q (te_target a) _ _ _ _ Horphan _ _ Hloop Hlog1).
      - intros y wx wy Hy (m1 & m2 & Em). inv_ok Hy as b wz Hz.
        unfold ret in Hy. inversion Hy; subst; clear Hy.
        destruct (log_grows _ _ _ _ (emits_target_do_delete y true) Hz) as [evs Eg].
        exists m1, (m2 ++ evs). rewrite Eg, Em. rewrite <- ?app_assoc. cbn [app]. rewrite <- ?app_assoc. reflexivity.
      - intros y wx wy Hy (Hq & m1 & m2 & m3 & Em). inv_ok Hy as b wz Hz.
        unfold ret in Hy. inversion Hy; subst; clear Hy. split.
        + intros x Hx. apply Hq.
          exact (shrinks_run targets _ _ _ _
                   (target_delete_shrinks_targets y true) Hz x Hx).
        + destruct (log_grows _ _ _ _ (emits_target_do_delete y true) Hz) as [evs Eg].
          exists m1, m2, (m3 ++ evs). rewrite Eg, Em.
          rewrite <- ?app_assoc. cbn [app]. rewrite <- ?app_assoc. reflexivity.
      - intros wx wy Hy (m1 & m2 & Em). inv_ok Hy as b wz Hz.
        unfold ret in Hy. inversion Hy; subst; clear Hy.
        apply target_delete_ok in Hz. destruct Hz as (Hz1 & k1 & k2 & Hz2).
        split; [exact Hz1 |].
        exists m1, (m2 ++ k1), k2. rewrite Hz2, Em.
        rewrite <- ?app_assoc. cbn [app]. rewrite <- ?app_assoc. reflexivity. }
    assert (Hshr_te : forall x, In x (targetextents wf) -> In x (targetextents w1)).
    { refine (shrinks_run targetextents _ _ _ _ _ Hloop).
      apply shrinks_for_each. intros y. apply shrinks_bind.
      - apply target_delete_shrinks_targetextents.
      - intros b. apply preserves_shrinks, preserves_ret. }
    assert (Hext : extents wf = extents w1).
    { refine (preserves_run extents _ _ _ _ _ Hloop).
      apply preserves_for_each. intros y. apply preserves_bind.
      - apply target_delete_keeps_extents.
      - intros b. apply preserves_ret. }
    destruct HQ as (Hq & m1 & m2 & m3 & Em).
    cbn [targetextents extents targets set_log].
    split; [| split; [| split]].
    + intros x Hx. apply Hno_e. now apply Hshr_te.
    + intros x Hx. rewrite Hext in Hx. unfold w1 in Hx.
      cbn [extents set_log set_rows ExtentT set_extents] in Hx.
      apply filter_In in Hx. destruct Hx as [_ Hx].
      apply negb_true_iff in Hx. now apply Z.eqb_neq.
    + exact Hq.
    + apply happens_before_new
        with (l1 := m1) (l2 := m2)
             (l3 := m3 ++ [EvNotify "iscsitarget" "reload"]).
      rewrite Hrun. cbn [snd log set_log]. rewrite Em.
      rewrite <- ?app_assoc. cbn [app]. rewrite <- ?app_assoc. reflexivity.
  - intros remove force r w' H.
    destruct (extent_delete_ok _ _ _ _ _ _ H) as (H1 & H2 & H3).
    split; [exact H1 |]. split; [exact H2 |]. split; [exact H3 |].
    destruct Hsole as (_ & _ & (x & Hx & Hxt) & _).
    exists x. rewrite H3. auto.
Qed.

(** C3 on the only extent of target 1: the delegate's delete removes the
    association and then the target. *)
Lemma C3_delegate_removes_orphan_target :
  sole_backing_store world_sole_extent 1 1
    {| te_id := 1; te_extent := 1; te_target := 1; te_lunid := 0 |}
  /\ fst (attachment_delete
            [extent_extend (example_extent_row 1 "vol1" "10000000000face")]
            world_sole_extent)
     = Ok tt
  /\ forall x,
       In x (targets
               (snd (attachment_delete
                       [extent_extend (example_extent_row 1 "vol1" "10000000000face")]
                       world_sole_extent))) ->
       t_id x <> 1.
Proof.
  assert (Hs : sole_backing_store world_sole_extent 1 1
                 {| te_id := 1; te_extent := 1; te_target := 1; te_lunid := 0 |}).
  { split; [reflexivity |]. split; [reflexivity |]. split.
    - eexists. split; [left; reflexivity | reflexivity].
    - eexists. split; [left; reflexivity | reflexivity]. }
  split; [exact Hs |]. split; [vm_compute; reflexivity |].
  refine (proj1 (proj2 (proj2
            (proj1 (C3_cascade_on_extent_removal world_sole_extent 1 1 _ Hs)
               (extent_extend (example_extent_row 1 "vol1" "10000000000face"))
               _ eq_refl _)))).
  vm_compute; reflexivity.
Defined.

(** C3 as stated fails: the extent delete operation on the only extent
    of target 1 deletes the association and the extent, and target 1
    is still there. *)
Lemma C3_extent_delete_keeps_target :
  sole_backing_store world_sole_extent 1 1
    {| te_id := 1; te_extent := 1; te_target := 1; te_lunid := 0 |}
  /\ fst (extent_do_delete 1 false false world_sole_extent) = Ok true
  /\ targetextents (snd (extent_do_delete 1 false false world_sole_extent)) = []
  /\ extents (snd (extent_do_delete 1 false false world_sole_extent)) = []
  /\ targets (snd (extent_do_delete 1 false false world_sole_extent))
     = [ {| t_id := 1; t_name := "t1"; t_alias := None; t_mode := "iscsi" |} ].
Proof.
  split.
  - split; [reflexivity |]. split; [reflexivity |]. split.
    + eexists. split; [left; reflexivity | reflexivity].
    + eexists. split; [left; reflexivity | reflexivity].
  - repeat split; vm_compute; reflexivity.
Qed.

(** ** Runs without datastore faults *)

Lemma maintains_ret {A} I (a : A) : maintains I (ret a).
Proof. intros w H. exact H. Qed.

Lemma maintains_raise {A} I e : maintains I (@raise A e).
Proof. intros w H. exact H. Qed.

Lemma maintains_get_world I : maintains I get_world.
Proof. intros w H. exact H. Qed.

Lemma maintains_check I v : maintains I (check v).
Proof. destruct v; [apply maintains_ret | apply maintains_raise]. Qed.

Lemma maintains_bind {A B} I (c : M A) (k : A -> M B) :
  maintains I c -> (forall a, maintains I (k a)) -> maintains I (bind c k).
Proof.
  intros Hc Hk w H. unfold bind. specialize (Hc w H).
  destruct (c w) as [[a | e] w1]; simpl in *; [| exact Hc].
  now apply Hk.
Qed.

Lemma maintains_try_except {A} I (c : M A) h :
  maintains I c -> (forall e, maintains I (h e)) -> maintains I (try_except c h).
Proof.
  intros Hc Hh w H. unfold try_except. specialize (Hc w H).
  destruct (c w) as [[a | e] w1]; simpl in *; [exact Hc |].
  now apply Hh.
Qed.

Lemma maintains_for_each {A} I (l : list A) body :
  (forall x, maintains I (body x)) -> maintains I (for_each l body).
Proof.
  intros H. induction l as [| x l IH]; simpl.
  - apply maintains_ret.
  - apply maintains_bind; [apply H | intros _; exact IH].
Qed.

Lemma no_faults_emit e : maintains no_faults (emit e).
Proof. intros w H. exact H. Qed.

Lemma no_faults_write {A} t (op : M A) :
  maintains no_faults op -> maintains no_faults (datastore_write t op).
Proof.
  intros Hop w H. unfold datastore_write, bind, take_fault.
  unfold no_faults in H. rewrite H. simpl. apply Hop. reflexivity.
Qed.

Section NoFaultsOfWrites.
Context {R : Type} (T : TableOps R).
Hypothesis faults_rows : forall v w, faults (set_rows T v w) = faults w.

Lemma no_faults_insert r : maintains no_faults (datastore_insert T r).
Proof.
  apply no_faults_write. intros w H. unfold no_faults in *. simpl.
  now rewrite faults_rows.
Qed.

Lemma no_faults_update id g : maintains no_faults (datastore_update T id g).
Proof.
  apply no_faults_write. intros w H. unfold no_faults in *. simpl.
  now rewrite faults_rows.
Qed.

Lemma no_faults_delete id : maintains no_faults (datastore_delete T id).
Proof.
  apply no_faults_write. intros w H. unfold no_faults in *. simpl.
  now rewrite faults_rows.
Qed.

Lemma no_faults_delete_where flt :
  maintains no_faults (datastore_delete_where T flt).
Proof.
  apply no_faults_write. intros w H. unfold no_faults in *. simpl.
  now rewrite faults_rows.
Qed.
End NoFaultsOfWrites.

Ltac no_faults_step :=
  first
    [ apply maintains_ret
    | apply maintains_raise
    | apply maintains_get_world
    | apply maintains_check
    | apply no_faults_emit
    | apply no_faults_insert; intros; reflexivity
    | apply no_faults_update; intros; reflexivity
    | apply no_faults_delete; intros; reflexivity
    | apply no_faults_delete_where; intros; reflexivity
    | apply maintains_for_each; intros
    | apply maintains_try_except; [| intros]
    | match goal with
      | |- maintains _ (if ?b then _ else _) => destruct b
      | |- maintains _ (match ?x with _ => _ end) => destruct x
      end
    | apply maintains_bind; [| intros] ].

Ltac no_faults_tac := repeat no_faults_step.

Lemma save_listen_no_faults pk new old :
  maintains no_faults (portal_save_listen pk new old).
Proof. unfold portal_save_listen. no_faults_tac. Qed.

Lemma no_faults_next w : no_faults w -> next_write_ok w = true.
Proof. unfold no_faults, next_write_ok. now intros ->. Qed.

(** ** Tags of portals *)

Lemma dense_sorted n : StronglySorted Z.lt (dense n).
Proof.
  unfold dense. generalize 1%nat. induction n as [| n IH]; intros a; simpl.
  - constructor.
  - constructor; [apply IH |].
    apply Forall_forall. intros x Hx. apply in_map_iff in Hx.
    destruct Hx as (k & <- & Hk). apply in_seq in Hk. lia.
Qed.

Lemma sorted_map_filter {A} (R : Z -> Z -> Prop) (g : A -> Z) (f : A -> bool) l :
  StronglySorted R (map g l) -> StronglySorted R (map g (filter f l)).
Proof.
  induction l as [| x l IH]; simpl; intros H; [constructor |].
  inversion H as [| ? ? Hs Hall]; subst.
  destruct (f x); simpl; [| now apply IH].
  constructor; [now apply IH |].
  rewrite Forall_forall in *. intros y Hy. apply Hall.
  apply in_map_iff in Hy. destruct Hy as (z & <- & Hz).
  apply filter_In in Hz. apply in_map. tauto.
Qed.

Lemma sorted_lt_le l : StronglySorted Z.lt l -> StronglySorted Z.le l.
Proof.
  induction 1 as [| x l Hs IH Hall]; constructor; [assumption |].
  rewrite Forall_forall in *. intros y Hy. specialize (Hall y Hy). lia.
Qed.

Lemma sorted_of_map_key {A} (key : A -> Z) (l : list A) :
  StronglySorted Z.le (map key l) -> StronglySorted (key_le key) l.
Proof.
  induction l as [| x l IH]; simpl; intros H; [constructor |].
  inversion H as [| ? ? Hs Hall]; subst. constructor; [now apply IH |].
  rewrite Forall_forall in *. intros y Hy. apply Hall. now apply in_map.
Qed.

Lemma renumbered_ids i l : map p_id (renumbered i l) = map p_id l.
Proof.
  revert i. induction l as [| r l IH]; intros i; simpl; [reflexivity |].
  now rewrite IH.
Qed.

Lemma renumbered_length i l : List.length (renumbered i l) = List.length l.
Proof.
  revert i. induction l as [| r l IH]; intros i; simpl; [reflexivity |].
  now rewrite IH.
Qed.

Lemma renumbered_tags i l :
  map p_tag (renumbered i l)
  = map (fun k => i + Z.of_nat k) (seq 1 (List.length l)).
Proof.
  revert i. induction l as [| r l IH]; intros i; simpl; [reflexivity |].
  f_equal; try lia. rewrite IH, <- (seq_shift (List.length l) 1), map_map.
  apply map_ext. intros k. lia.
Qed.

Lemma renumbered_dense l :
  map p_tag (renumbered 0 l) = dense (List.length (renumbered 0 l)).
Proof.
  rewrite renumbered_tags, renumbered_length. unfold dense.
  apply map_ext. intros k. lia.
Qed.

(** ** The renumbering loop of a portal delete *)

Lemma update_unique (f : PortalRow -> PortalRow) pre r rs :
  NoDup (map p_id (pre ++ r :: rs)) ->
  map (fun x => if p_id x =? p_id r then f x else x) (pre ++ r :: rs)
  = pre ++ f r :: rs.
Proof.
  intros Hnd.
  assert (Hother : forall x, In x pre \/ In x rs -> p_id x <> p_id r).
  { rewrite map_app in Hnd. simpl in Hnd. apply NoDup_remove_2 in Hnd.
    intros x Hx E. apply Hnd. rewrite <- E. apply in_or_app.
    destruct Hx as [Hx | Hx]; [left | right]; now apply in_map. }
  rewrite map_app. simpl. rewrite Z.eqb_refl. f_equal; [| f_equal].
  - rewrite <- (map_id pre) at 2. apply map_ext_in. intros x Hx.
    destruct (Z.eqb_spec (p_id x) (p_id r)) as [E | _]; [| reflexivity].
    exfalso. exact (Hother x (or_introl Hx) E).
  - rewrite <- (map_id rs) at 2. apply map_ext_in. intros x Hx.
    destruct (Z.eqb_spec (p_id x) (p_id r)) as [E | _]; [| reflexivity].
    exfalso. exact (Hother x (or_intror Hx) E).
Qed.

(** Without faults the loop over [enumerate] goes through and leaves
    the rows it visited with consecutive tags. *)
Lemma renumber_loop w0 :
  forall rs pre i w,
    no_faults w ->
    portals w = pre ++ rs ->
    NoDup (map p_id (pre ++ rs)) ->
    exists w',
      for_each (enumerate_from i (map (portal_config_extend w0) rs))
        (fun ip =>
           match portal_id (snd ip) with
           | Some pid =>
               datastore_update PortalT pid
                 (fun r =>
                    {| p_id := p_id r; p_tag := fst ip + 1;
                       p_comment := p_comment r;
                       p_discoveryauthmethod := p_discoveryauthmethod r;
                       p_discoveryauthgroup := p_discoveryauthgroup r |})
           | None => ret tt
           end) w
      = (Ok tt, w')
      /\ portals w' = pre ++ renumbered i rs
      /\ no_faults w'
      /\ exists evs, log w' = log w ++ evs.
Proof.
  induction rs as [| r rs IH]; intros pre i w Hf Hp Hnd.
  - exists w. simpl. split; [reflexivity |]. split; [exact Hp |].
    split; [exact Hf |]. exists []. now rewrite app_nil_r.
  - cbn [map enumerate_from for_each snd fst portal_config_extend portal_id].
    unfold datastore_update at 1.
    set (retag := fun r0 : PortalRow =>
                    {| p_id := p_id r0; p_tag := i + 1; p_comment := p_comment r0;
                       p_discoveryauthmethod := p_discoveryauthmethod r0;
                       p_discoveryauthgroup := p_discoveryauthgroup r0 |}).
    set (w1 := set_log (log (set_faults (tl (faults w)) w)
                        ++ [EvUpdate (tbl PortalT) (p_id r)])
                 (set_rows PortalT
                    (map (fun x => if row_id PortalT x =? p_id r then retag x else x)
                       (rows PortalT (set_faults (tl (faults w)) w)))
                    (set_faults (tl (faults w)) w))).
    assert (Hstep : datastore_write (tbl PortalT)
                      (fun w2 : World =>
                         (Ok tt,
                          set_log (log w2 ++ [EvUpdate (tbl PortalT) (p_id r)])
                            (set_rows PortalT
                               (map (fun x => if row_id PortalT x =? p_id r
                                              then retag x else x)
                                  (rows PortalT w2)) w2))) w
                    = (Ok tt, w1)).
    { rewrite write_run by now apply no_faults_next. reflexivity. }
    rewrite (bind_step _ _ _ _ _ Hstep).
    assert (Hp1 : portals w1 = (pre ++ [retag r]) ++ rs).
    { unfold w1. cbn [portals set_log set_rows PortalT set_portals rows row_id
                      set_faults].
      rewrite Hp, (update_unique retag pre r rs Hnd), <- app_assoc. reflexivity. }
    assert (Hf1 : no_faults w1).
    { unfold w1, no_faults in *. cbn [faults set_log set_rows PortalT set_portals
                                      set_faults]. now rewrite Hf. }
    assert (Hnd1 : NoDup (map p_id ((pre ++ [retag r]) ++ rs))).
    { rewrite <- app_assoc. simpl.
      rewrite map_app in *. simpl in *. exact Hnd. }
    destruct (IH (pre ++ [retag r]) (i + 1) w1 Hf1 Hp1 Hnd1)
      as (w' & Hrun & Hp' & Hf' & evs & Hl').
    exists w'. split; [exact Hrun |]. split.
    + rewrite Hp', <- app_assoc. reflexivity.
    + split; [exact Hf' |]. eexists. rewrite Hl'. unfold w1.
      cbn [log set_log set_faults]. rewrite <- app_assoc. reflexivity.
Qed.

Lemma get_instance_portal w id p :
  fst (portal_get_instance id w) = Ok p -> portal_get_instance id w = (Ok p, w).
Proof.
  unfold portal_get_instance.
  destruct (portal_query _ w); simpl; intros H; congruence.
Qed.


Lemma tags_ascending w :
  portal_table_ok w -> StronglySorted Z.lt (map p_tag (portals w)).
Proof. intros (_ & _ & Ht). rewrite Ht. apply dense_sorted. Qed.

Lemma order_by_tag_of_ascending w :
  StronglySorted Z.lt (map p_tag (portals w)) ->
  portal_query_order_by_tag w = map (portal_config_extend w) (portals w).
Proof.
  intros H. unfold portal_query_order_by_tag, portal_query.
  rewrite filter_all. apply sorted_by_ascending, sorted_of_map_key.
  rewrite map_map. simpl. now apply sorted_lt_le.
Qed.

Lemma no_faults_after_write {R} (T : TableOps R) w v evs :
  (forall v w, faults (set_rows T v w) = faults w) ->
  no_faults w ->
  no_faults (set_log evs (set_rows T v (set_faults (tl (faults w)) w))).
Proof.
  intros HT H. unfold no_faults in *. cbn [faults set_log]. rewrite HT.
  cbn [faults set_faults]. now rewrite H.
Qed.

(** A delete of an existing portal, run without faults. *)
Lemma portal_delete_run w id p :
  portal_table_ok w ->
  fst (portal_get_instance id w) = Ok p ->
  exists w',
    portal_do_delete id w = (Ok true, w')
    /\ portals w'
       = renumbered 0 (filter (fun r => negb (p_id r =? id)) (portals w))
    /\ no_faults w'.
Proof.
  intros Hok Hget. pose proof (tags_ascending w Hok) as Hasc.
  destruct Hok as (Hf & Hnd & _).
  apply get_instance_portal in Hget.
  unfold portal_do_delete. rewrite (bind_step _ _ _ _ _ Hget).
  unfold datastore_delete_where at 1.
  unfold bind at 1. rewrite write_run by now apply no_faults_next.
  set (wa := set_log _ _).
  assert (Hfa : no_faults wa).
  { unfold wa. apply no_faults_after_write; [intros; reflexivity | exact Hf]. }
  unfold datastore_delete_where at 1.
  unfold bind at 1. rewrite write_run by now apply no_faults_next.
  set (wb := set_log _ _).
  assert (Hfb : no_faults wb).
  { unfold wb. apply no_faults_after_write; [intros; reflexivity | exact Hfa]. }
  unfold datastore_delete at 1.
  unfold bind at 1. rewrite write_run by now apply no_faults_next.
  set (wc := set_log _ _).
  assert (Hfc : no_faults wc).
  { unfold wc. apply no_faults_after_write; [intros; reflexivity | exact Hfb]. }
  assert (Hpc : portals wc = filter (fun r => negb (p_id r =? id)) (portals w))
    by reflexivity.
  unfold bind at 1. unfold get_world.
  assert (Hasc_c : StronglySorted Z.lt (map p_tag (portals wc))).
  { rewrite Hpc. now apply sorted_map_filter. }
  rewrite (order_by_tag_of_ascending wc Hasc_c). unfold enumerate.
  assert (Hnd_c : NoDup (map p_id ([] ++ portals wc))).
  { cbn [app]. rewrite Hpc. clear -Hnd. induction (portals w) as [| r l IH]; simpl.
    - constructor.
    - inversion Hnd as [| ? ? Hn Hl]; subst. destruct (negb (p_id r =? id)); simpl.
      + constructor; [| now apply IH]. intros Hin. apply Hn.
        apply in_map_iff in Hin. destruct Hin as (x & E & Hx).
        apply filter_In in Hx. rewrite <- E. apply in_map. tauto.
      + now apply IH. }
  destruct (renumber_loop wc (portals wc) [] 0 wc Hfc eq_refl Hnd_c)
    as (wd & Hrun & Hpd & Hfd & _).
  rewrite (bind_step _ _ _ _ _ Hrun).
  eexists. split; [reflexivity |]. split; [| exact Hfd].
  cbn [portals set_log]. rewrite Hpd, Hpc. reflexivity.
Qed.

(** ** Portal creates *)

Lemma maintains_portal_get_instance I id : maintains I (portal_get_instance id).
Proof.
  intros w H. unfold portal_get_instance. destruct (portal_query _ w); exact H.
Qed.

Lemma portal_create_no_faults data : maintains no_faults (portal_do_create data).
Proof.
  unfold portal_do_create.
  pose proof save_listen_no_faults. pose proof (maintains_portal_get_instance no_faults).
  repeat first [ solve [auto] | no_faults_step ].
Qed.

Lemma portal_delete_no_faults id : maintains no_faults (portal_do_delete id).
Proof.
  unfold portal_do_delete.
  pose proof (maintains_portal_get_instance no_faults).
  repeat first [ solve [auto] | no_faults_step ].
Qed.

Lemma views_without_key w0 k (l : list PortalRow) :
  (forall r, In r l -> p_id r <> k) ->
  filter (fun p => opt_Z_eqb (portal_id p) (Some k))
    (map (portal_config_extend w0) l) = [].
Proof.
  induction l as [| r l IH]; intros H; simpl; [reflexivity |].
  destruct (Z.eqb_spec (p_id r) k) as [E | _].
  - now elim (H r (or_introl eq_refl)).
  - apply IH. intros x Hx. apply H. now right.
Qed.

Lemma fresh_id_new ids : ~ In (fresh_id ids) ids.
Proof. intros H. apply fresh_id_gt in H. lia. Qed.

(** A create that returned has appended one row, with tag count + 1. *)
Lemma portal_create_ok w data v w' :
  portal_do_create data w = (Ok v, w') ->
  exists pk,
    portal_id v = Some pk
    /\ portal_tag v = Some (portal_count w + 1)
    /\ ~ In pk (map p_id (portals w))
    /\ portals w'
       = portals w
         ++ [with_id PortalT pk (portal_row_of_create (portal_count w + 1) data)].
Proof.
  intros H. unfold portal_do_create in H.
  inv_ok H as w0 wa Ha. unfold get_world in Ha. inversion Ha; subst; clear Ha.
  inv_ok H as u wb Hb. apply check_Ok in Hb. destruct Hb as [_ ->].
  inv_ok H as pk wc Hc. unfold datastore_insert in Hc. apply write_Ok in Hc.
  destruct Hc as [_ Hc]. inversion Hc; subst; clear Hc.
  set (wc := set_log _ _) in *.
  assert (Hpc : portals wc
                = portals wa
                  ++ [with_id PortalT (fresh_id (map p_id (portals wa)))
                        (portal_row_of_create (portal_count wa + 1) data)])
    by reflexivity.
  change (fresh_id (map (row_id PortalT)
                      (rows PortalT (set_faults (tl (faults wa)) wa))))
    with (fresh_id (map p_id (portals wa))) in *.
  set (pk := fresh_id (map p_id (portals wa))) in *.
  inv_ok H as u2 wd Hd.
  assert (Hpd : portals wd = portals wc).
  { unfold try_except in Hd.
    destruct (portal_save_listen pk (pc_listen data) None wc) as [[x | e] wx] eqn:Es.
    - inversion Hd; subst.
      exact (preserves_run portals _ _ _ _ (save_listen_keeps_portals _ _ _) Es).
    - apply bind_Ok in Hd. destruct Hd as (b & wy & _ & Hd). discriminate. }
  inv_ok H as u3 we He. unfold _service_change, emit in He.
  inversion He; subst; clear He.
  unfold portal_get_instance, portal_query in H.
  cbn [portals set_log] in H. rewrite Hpd, Hpc, map_app, filter_app in H.
  rewrite views_without_key in H.
  2:{ intros r Hr E. apply (fresh_id_new (map p_id (portals wa))).
      fold pk. rewrite <- E. now apply in_map. }
  cbn [map filter app portal_config_extend portal_id with_id PortalT p_id
       opt_Z_eqb] in H.
  rewrite Z.eqb_refl in H. inversion H; subst; clear H.
  exists pk. cbn [portal_id portal_tag portals set_log].
  split; [reflexivity |]. split; [reflexivity |].
  split; [apply fresh_id_new |]. rewrite Hpd, Hpc. reflexivity.
Qed.

Lemma maintains_run {A} I (c : M A) w r w1 :
  maintains I c -> I w -> c w = (r, w1) -> I w1.
Proof. intros H Hw E. specialize (H w Hw). now rewrite E in H. Qed.

Lemma bind_get_world {B} (k : World -> M B) w : bind get_world k w = k w w.
Proof. reflexivity. Qed.

Lemma bind_ret {A B} (a : A) (k : A -> M B) w : bind (ret a) k w = k a w.
Proof. reflexivity. Qed.

Lemma bind_emit {B} e (k : unit -> M B) w :
  bind (emit e) k w = k tt (set_log (log w ++ [e]) w).
Proof. reflexivity. Qed.

(** Without faults a create either leaves the portal table as it was
    or appends the new row. *)
Lemma portal_create_portals w data :
  no_faults w ->
  portals (snd (portal_do_create data w)) = portals w
  \/ portals (snd (portal_do_create data w))
     = portals w
       ++ [with_id PortalT (fresh_id (map p_id (portals w)))
             (portal_row_of_create (portal_count w + 1) data)].
Proof.
  intros Hf. unfold portal_do_create.
  rewrite bind_get_world.
  destruct (portal_validate w (portal_of_create data) "iscsiportal_create" None)
    as [| v vs].
  2:{ left. reflexivity. }
  cbn [check]. rewrite bind_ret.
  set (pk := fresh_id (map p_id (portals w))).
  set (row := portal_row_of_create (portal_count w + 1) data).
  set (wc := set_log (log w ++ [EvInsert services_iscsitargetportal pk])
               (set_portals (portals w ++ [with_id PortalT pk row])
                  (set_faults (tl (faults w)) w))).
  assert (Hins : datastore_insert PortalT row w = (Ok pk, wc)).
  { unfold datastore_insert. rewrite write_run by now apply no_faults_next.
    reflexivity. }
  rewrite (bind_step _ _ _ _ _ Hins).
  assert (Hfc : no_faults wc).
  { unfold wc. exact (no_faults_after_write PortalT w _ _ (fun _ _ => eq_refl) Hf). }
  destruct (portal_save_listen pk (pc_listen data) None wc) as [[u | e] wx] eqn:Es.
  - right.
    assert (Et : try_except (portal_save_listen pk (pc_listen data) None)
                   (fun e => _ <- datastore_delete PortalT pk ;; raise e) wc
                 = (Ok u, wx)) by (unfold try_except; now rewrite Es).
    rewrite (bind_step _ _ _ _ _ Et).
    unfold _service_change. rewrite bind_emit.
    unfold portal_get_instance. destruct (portal_query _ _); cbn [snd portals set_log];
      exact (preserves_run portals _ _ _ _ (save_listen_keeps_portals _ _ _) Es).
  - left.
    assert (Hfx : no_faults wx)
      by exact (maintains_run _ _ _ _ _ (save_listen_no_faults _ _ _) Hfc Es).
    assert (Et : try_except (portal_save_listen pk (pc_listen data) None)
                   (fun e => _ <- datastore_delete PortalT pk ;; raise e) wc
                 = (Raise e,
                    set_log (log wx ++ [EvDelete services_iscsitargetportal pk])
                      (set_portals
                         (filter (fun r => negb (p_id r =? pk)) (portals wx))
                         (set_faults (tl (faults wx)) wx)))).
    { unfold try_except. rewrite Es. unfold bind, datastore_delete.
      rewrite write_run by now apply no_faults_next. reflexivity. }
    rewrite (bind_fail _ _ _ _ _ Et). cbn [snd portals set_log set_portals].
    rewrite (preserves_run portals _ _ _ _ (save_listen_keeps_portals _ _ _) Es).
    exact (insert_then_delete PortalT (portals w) row (fun _ _ => eq_refl)).
Qed.

(** ** The portal table along a run *)

Lemma dense_S n : dense (S n) = dense n ++ [Z.of_nat n + 1].
Proof.
  unfold dense. rewrite seq_S, map_app. simpl. f_equal. f_equal. lia.
Qed.

Lemma portal_count_length w : portal_count w = Z.of_nat (List.length (portals w)).
Proof. unfold portal_count, datastore_query. now rewrite filter_all. Qed.

Lemma snd_void {A} (c : M A) w : snd (void c w) = snd (c w).
Proof. unfold void, bind. destruct (c w) as [[a | e] w1]; reflexivity. Qed.

Lemma table_ok_sorted w :
  portal_table_ok w -> sorted_by p_tag (portals w) = portals w.
Proof.
  intros H. apply sorted_by_ascending, sorted_of_map_key, sorted_lt_le.
  now apply tags_ascending.
Qed.

Lemma portal_create_keeps_ok w data :
  portal_table_ok w -> portal_table_ok (snd (portal_do_create data w)).
Proof.
  intros (Hf & Hnd & Ht). split; [now apply portal_create_no_faults |].
  destruct (portal_create_portals w data Hf) as [E | E]; rewrite E.
  - split; assumption.
  - split.
    + rewrite map_app. cbn [map with_id PortalT p_id].
      apply NoDup_app; [assumption | repeat constructor; intros [] |].
      intros x Hx [<- | []]. exact (fresh_id_new _ Hx).
    + rewrite map_app, length_app, Ht. cbn [map List.length with_id PortalT p_tag
                                            portal_row_of_create].
      rewrite Nat.add_1_r, dense_S, portal_count_length. reflexivity.
Qed.

Lemma portal_delete_keeps_ok w id :
  portal_table_ok w -> portal_table_ok (snd (portal_do_delete id w)).
Proof.
  intros Hok. destruct (fst (portal_get_instance id w)) as [p | e] eqn:Eg.
  - destruct (portal_delete_run w id p Hok Eg) as (w' & Hrun & Hp & Hf).
    rewrite Hrun. cbn [snd]. split; [exact Hf |]. rewrite Hp. split.
    + rewrite renumbered_ids. destruct Hok as (_ & Hnd & _).
      clear -Hnd. induction (portals w) as [| r l IH]; simpl; [constructor |].
      inversion Hnd as [| ? ? Hn Hl]; subst. destruct (negb (p_id r =? id)); simpl.
      * constructor; [| now apply IH]. intros Hin. apply Hn.
        apply in_map_iff in Hin. destruct Hin as (x & E & Hx).
        apply filter_In in Hx. rewrite <- E. apply in_map. tauto.
      * now apply IH.
    + apply renumbered_dense.
  - assert (E : portal_do_delete id w = (Raise e, w)).
    { unfold portal_do_delete. apply bind_fail.
      unfold portal_get_instance in *.
      destruct (portal_query _ w); simpl in *; congruence. }
    now rewrite E.
Qed.

Lemma run_ops_keeps_ok ops :
  forall w, portal_table_ok w -> portal_table_ok (run_ops ops w).
Proof.
  unfold run_ops. induction ops as [| op ops IH]; intros w H; simpl; [exact H |].
  apply IH. destruct op; simpl; rewrite snd_void.
  - now apply portal_create_keeps_ok.
  - now apply portal_delete_keeps_ok.
Qed.

(** C5: along any sequence of portal creates and deletes that starts
    from an empty portal table and meets no datastore error, the tags
    are 1..N; after a delete the remaining portals, in the order of
    their tags before the delete, carry the tags 1..N; a create gives
    the new portal the tag (number of portal rows) + 1. *)
Theorem C5_tag_density :
  forall w0 ops,
    portals w0 = [] ->
    faults w0 = [] ->
    let w := run_ops ops w0 in
    map p_tag (sorted_by p_tag (portals w)) = dense (List.length (portals w))
    /\ (forall id r w',
           portal_do_delete id w = (Ok r, w') ->
           map p_tag (sorted_by p_tag (portals w'))
           = dense (List.length (portals w'))
           /\ map p_id (sorted_by p_tag (portals w'))
              = map p_id
                  (sorted_by p_tag
                     (filter (fun x => negb (p_id x =? id)) (portals w))))
    /\ (forall data v w',
           portal_do_create data w = (Ok v, w') ->
           portal_tag v = Some (Z.of_nat (List.length (portals w)) + 1)
           /\ exists pk,
               portal_id v = Some pk
               /\ portals w'
                  = portals w
                    ++ [with_id PortalT pk
                          (portal_row_of_create
                             (Z.of_nat (List.length (portals w)) + 1) data)]).
Proof.
  intros w0 ops Hp Hf w.
  assert (Hok0 : portal_table_ok w0).
  { split; [exact Hf |]. rewrite Hp. split; [constructor | reflexivity]. }
  assert (Hok : portal_table_ok w) by (apply run_ops_keeps_ok; exact Hok0).
  split; [| split].
  - rewrite (table_ok_sorted w Hok). now destruct Hok as (_ & _ & Ht).
  - intros id r w' H.
    assert (Hok' : portal_table_ok w').
    { pose proof (portal_delete_keeps_ok w id Hok) as H'. now rewrite H in H'. }
    split.
    + rewrite (table_ok_sorted w' Hok'). now destruct Hok' as (_ & _ & Ht).
    + rewrite (table_ok_sorted w' Hok').
      pose proof H as Hrun. unfold portal_do_delete in H. inv_ok H as p wa Ha.
      assert (Eg : fst (portal_get_instance id w) = Ok p) by now rewrite Ha.
      destruct (portal_delete_run w id p Hok Eg) as (w2 & Hrun2 & Hp2 & _).
      rewrite Hrun2 in Hrun. inversion Hrun; subst.
      rewrite Hp2, renumbered_ids. f_equal. symmetry.
      apply sorted_by_ascending, sorted_of_map_key, sorted_lt_le, sorted_map_filter.
      now apply tags_ascending.
  - intros data v w' H. apply portal_create_ok in H.
    destruct H as (pk & Hid & Htag & _ & Hrows).
    rewrite portal_count_length in *.
    split; [exact Htag |]. exists pk. split; [exact Hid | exact Hrows].
Qed.

(** C5 on three portal creates followed by the delete of the first
    portal, from the empty configuration. *)
Lemma C5_three_creates_then_delete :
  let w := run_ops [OpCreate (example_portal_create 3260);
                    OpCreate (example_portal_create 3261);
                    OpCreate (example_portal_create 3262)] empty_world in
  map p_tag (portals w) = [1; 2; 3]
  /\ fst (portal_do_delete 1 w) = Ok true
  /\ map p_id (portals (snd (portal_do_delete 1 w))) = [2; 3]
  /\ map p_tag (sorted_by p_tag (portals (snd (portal_do_delete 1 w))))
     = dense (List.length (portals (snd (portal_do_delete 1 w)))).
Proof.
  intros w.
  split; [vm_compute; reflexivity |]. split; [vm_compute; reflexivity |].
  split; [vm_compute; reflexivity |].
  refine (proj1 (proj1 (proj2 (C5_tag_density empty_world
                   [OpCreate (example_portal_create 3260);
                    OpCreate (example_portal_create 3261);
                    OpCreate (example_portal_create 3262)] eq_refl eq_refl))
                   1 true (snd (portal_do_delete 1 w)) _)).
  vm_compute; reflexivity.
Defined.

(** ** Stored LUNs stay within the LUN map *)

Lemma validate_accepts_in_range w data schema old l verrors :
  targetextent_validate w data schema old = (l, verrors) ->
  verrors = [] -> 0 <= l <= lun_map_size - 1.
Proof.
  unfold targetextent_validate. intros H; inversion H; subst; clear H.
  match goal with
  | |- context [if ?b then _ else _] => destruct b eqn:B
  end; [discriminate |].
  intros _. apply Bool.orb_false_iff in B. destruct B as [B1 B2].
  apply Z.ltb_ge in B1. rewrite Z.gtb_ltb in B2. apply Z.ltb_ge in B2.
  unfold lun_map_size in *. lia.
Qed.

Lemma create_keeps_luns_in_range data w v w' :
  targetextent_do_create data w = (Ok v, w') ->
  luns_in_range w -> luns_in_range w'.
Proof.
  intros H Hw. unfold targetextent_do_create in H.
  inv_ok H as x1 w1_ H1. unfold get_world in H1. inversion H1; subst; clear H1.
  match type of H with
  | context [targetextent_validate ?w ?d ?s ?o] =>
      destruct (targetextent_validate w d s o) as [lun verrors] eqn:V
  end.
  inv_ok H as x2 w2_ H1. apply check_Ok in H1. destruct H1 as [-> ->].
  pose proof (validate_accepts_in_range _ _ _ _ _ _ V eq_refl) as Hl.
  inv_ok H as x3 w3_ H1. unfold datastore_insert in H1. apply write_Ok in H1.
  destruct H1 as [_ H1]. inversion H1; subst; clear H1.
  inv_ok H as x4 w4_ H1. unfold _service_change, emit in H1.
  inversion H1; subst; clear H1.
  unfold targetextent_get_instance in H.
  match type of H with
  | (match ?q with _ => _ end) = _ => destruct q; inversion H; subst; clear H
  end.
  unfold luns_in_range in *. cbn. apply Forall_app. split; [exact Hw |].
  constructor; [exact Hl | constructor].
Qed.

Lemma update_keeps_luns_in_range id data w v w' :
  targetextent_do_update id data w = (Ok v, w') ->
  luns_in_range w -> luns_in_range w'.
Proof.
  intros H Hw. unfold targetextent_do_update in H.
  inv_ok H as x5 w5_ H1. unfold targetextent_get_instance in H1.
  match type of H1 with
  | (match ?q with _ => _ end) = _ => destruct q; inversion H1; subst; clear H1
  end.
  inv_ok H as x6 w6_ H1. unfold get_world in H1. inversion H1; subst; clear H1.
  match type of H with
  | context [targetextent_validate ?w ?d ?s ?o] =>
      destruct (targetextent_validate w d s o) as [lun verrors] eqn:V
  end.
  inv_ok H as x7 w7_ H1. apply check_Ok in H1. destruct H1 as [-> ->].
  pose proof (validate_accepts_in_range _ _ _ _ _ _ V eq_refl) as Hl.
  inv_ok H as x8 w8_ H1. unfold datastore_update in H1. apply write_Ok in H1.
  destruct H1 as [_ H1]. inversion H1; subst; clear H1.
  inv_ok H as x9 w9_ H1. unfold _service_change, emit in H1.
  inversion H1; subst; clear H1.
  unfold targetextent_get_instance in H.
  match type of H with
  | (match ?q with _ => _ end) = _ => destruct q; inversion H; subst; clear H
  end.
  unfold luns_in_range in *. cbn. rewrite Forall_forall in *.
  intros r Hr. apply in_map_iff in Hr. destruct Hr as (r0 & <- & Hr0).
  destruct (te_id r0 =? id); [exact Hl | now apply Hw].
Qed.

Lemma delete_keeps_luns_in_range id force w v w' :
  targetextent_do_delete id force w = (v, w') ->
  luns_in_range w -> luns_in_range w'.
Proof.
  intros H Hw.
  assert (Hsub : incl (targetextents w') (targetextents w)).
  { assert (S : shrinks targetextents (targetextent_do_delete id force))
      by (unfold targetextent_do_delete; shrinks_tac).
    intros r Hr. apply (S w r). now rewrite H. }
  unfold luns_in_range in *. rewrite Forall_forall in *. auto.
Qed.

(** In range implies the non-negativity the allocation relies on. *)
Lemma luns_in_range_used target w :
  luns_in_range w -> Forall (fun l => 0 <= l) (used_lunids target w).
Proof.
  unfold luns_in_range, used_lunids. rewrite !Forall_forall.
  intros H l Hl. apply in_map_iff in Hl. destruct Hl as (r & <- & Hr).
  unfold datastore_query in Hr. apply filter_In in Hr. destruct Hr as [Hr _].
  specialize (H r Hr). lia.
Qed.

(** ** The usage check on a credential a portal refers to *)

(** The portal branch of the usage check joins integer ids, so the delete
    of the only credential of a tag that a portal's discovery uses stops
    with a type error and the credential stays. *)
Lemma auth_delete_portal_reference_raises :
  fst (auth_do_delete 1 world_auth_portal)
  = Raise (TypeError "sequence item 0: expected str instance, int found")
  /\ auths (snd (auth_do_delete 1 world_auth_portal)) = auths world_auth_portal.
Proof. split; vm_compute; reflexivity. Qed.

(** ** Frames of whole operations *)

Lemma preserves_void {A X} (f : World -> X) (c : M A) :
  preserves f c -> preserves f (void c).
Proof.
  intros H. unfold void. apply preserves_bind; [exact H | intros; apply preserves_ret].
Qed.

Lemma preserves_portal_get_instance {X} (f : World -> X) id :
  preserves f (portal_get_instance id).
Proof. unfold portal_get_instance. preserves_reader. Qed.

Lemma preserves_auth_get_instance {X} (f : World -> X) id :
  preserves f (auth_get_instance id).
Proof. unfold auth_get_instance. preserves_reader. Qed.

Lemma preserves_initiator_get_instance {X} (f : World -> X) id :
  preserves f (initiator_get_instance id).
Proof. unfold initiator_get_instance. preserves_reader. Qed.

#[export] Hint Resolve preserves_portal_get_instance preserves_auth_get_instance
  preserves_initiator_get_instance : preserves.

Section FrameOfExtents.
Context {X : Type} (f : World -> X).
Hypothesis f_entropy : forall v w, f (set_entropy_pos v w) = f w.

Lemma preserves_token_bytes n : preserves f (token_bytes n).
Proof. intros w. apply f_entropy. Qed.

Lemma preserves_token_hex : preserves f token_hex.
Proof.
  unfold token_hex. apply preserves_bind; [apply preserves_token_bytes |].
  intros; apply preserves_ret.
Qed.

Lemma preserves_extent_serial_for used s l :
  preserves f (extent_serial_for used s l).
Proof.
  revert s. induction l as [| i l IH]; intros s; simpl.
  - apply preserves_ret.
  - apply preserves_bind; [apply preserves_token_hex |]. intros t.
    cbv zeta. destruct (negb _); [apply preserves_ret |].
    match goal with
    | |- preserves _ (if ?b then _ else _) => destruct b
    end; [apply IH | apply preserves_raise].
Qed.

Lemma preserves_extent_validate data : preserves f (extent_validate data).
Proof.
  unfold extent_validate, extent_serial, extent_naa.
  apply preserves_bind.
  - destruct (serial data); [apply preserves_ret |].
    apply preserves_bind; [apply preserves_get_world |].
    intros; apply preserves_extent_serial_for.
  - intros s. apply preserves_bind; [| intros; apply preserves_ret].
    destruct (naa data); [apply preserves_ret |].
    apply preserves_bind; [apply preserves_token_bytes |].
    intros. apply preserves_bind; [apply preserves_get_world |].
    intros; apply preserves_ret.
Qed.
End FrameOfExtents.

Lemma preserves_extent_clean {X} (f : World -> X) data schema v old :
  preserves f (extent_clean data schema v old).
Proof.
  unfold extent_clean, extent_clean_name, extent_clean_type_and_path,
    extent_clean_size.
  preserves_tac.
Qed.

#[export] Hint Resolve preserves_extent_clean : preserves.

Lemma preserves_extent_save {X} (f : World -> X) data :
  (forall v w, f (set_log v w) = f w) ->
  (forall a b w, f (set_fs a b w) = f w) ->
  preserves f (extent_save data).
Proof.
  intros Hl Hf. unfold extent_save.
  destruct (String.eqb _ _); [| apply preserves_ret].
  destruct (path data); [| apply preserves_raise].
  cbv zeta. apply preserves_bind; [apply preserves_get_world |]. intros w0.
  apply preserves_bind.
  - destruct (path_isfile _ _); [apply preserves_raise |].
    intros w. cbn [snd]. now rewrite Hl, Hf.
  - intros _. apply preserves_bind; [apply preserves_get_world |]. intros w1.
    apply preserves_bind; [| intros; apply preserves_ret].
    destruct (negb _); [| apply preserves_ret].
    intros w. cbn [snd]. now rewrite Hl, Hf.
Qed.

Lemma preserves_remove_extent_file {X} (f : World -> X) data :
  (forall v w, f (set_log v w) = f w) ->
  (forall a b w, f (set_fs a b w) = f w) ->
  preserves f (extent_remove_extent_file data).
Proof.
  intros Hl Hf. unfold extent_remove_extent_file.
  destruct (String.eqb _ _); [| apply preserves_ret].
  intros w. destruct (path data); [| reflexivity].
  destruct (path_isfile _ _); [| reflexivity].
  cbn [snd]. now rewrite Hl, Hf.
Qed.

Ltac unfold_ops :=
  unfold run_mutation, void, portal_do_create, portal_do_update, portal_do_delete,
    auth_do_create, auth_do_update, auth_do_delete,
    initiator_do_create, initiator_do_update, initiator_do_delete,
    target_do_create, target_do_update, target_do_delete,
    extent_do_create, extent_do_update, extent_do_delete,
    targetextent_do_create, targetextent_do_update, targetextent_do_delete,
    portal_save_listen, target_save_groups, auth_is_in_use_by_portals_targets,
    attachment_delete, attachment_delete_loop, _service_change.

(** Frames of operations on a table observation: the side conditions
    are equations between record projections. *)
Ltac frame_step :=
  first
    [ apply preserves_extent_validate; intros; reflexivity
    | apply preserves_extent_save; intros; reflexivity
    | apply preserves_remove_extent_file; intros; reflexivity
    | preserves_step ].

Ltac frame_tac := unfold_ops; repeat frame_step.

Lemma frame_targetextents m :
  match m with
  | targetextent_create _ | targetextent_update _ _ | targetextent_delete _ _
  | target_delete _ _ | extent_delete _ _ _ => True
  | _ => preserves targetextents (run_mutation m)
  end.
Proof. destruct m; try exact I; frame_tac. Qed.

(** ** Operations that only take rows out *)

Lemma preserves_thins {A R} (f : World -> list R) (c : M A) :
  preserves f c -> thins f c.
Proof. intros H w. exists (fun _ => true). rewrite H. symmetry. apply filter_all. Qed.

Lemma thins_bind {A B R} (f : World -> list R) (c : M A) (k : A -> M B) :
  thins f c -> (forall a, thins f (k a)) -> thins f (bind c k).
Proof.
  intros Hc Hk w. unfold bind. destruct (Hc w) as [p Hp].
  destruct (c w) as [[a | e] w1]; cbn [snd] in *.
  - destruct (Hk a w1) as [q Hq]. exists (fun x => p x && q x).
    rewrite Hq, Hp. rewrite filter_filter. apply filter_ext.
    intros x. reflexivity.
  - now exists p.
Qed.

Lemma thins_for_each {A R} (f : World -> list R) (l : list A) body :
  (forall x, thins f (body x)) -> thins f (for_each l body).
Proof.
  intros H. induction l as [| x l IH]; simpl.
  - apply preserves_thins, preserves_ret.
  - apply thins_bind; [apply H | intros _; exact IH].
Qed.

Lemma thins_for_fold {A S R} (f : World -> list R) (l : list A) (s : S) body :
  (forall x s, thins f (body x s)) -> thins f (for_fold l s body).
Proof.
  intros H. revert s. induction l as [| x l IH]; intros s; simpl.
  - apply preserves_thins, preserves_ret.
  - apply thins_bind; [apply H | intros s'; apply IH].
Qed.

Lemma thins_try_finally {A R} (f : World -> list R) (c : M A) g :
  thins f c -> preserves f g -> thins f (try_finally c g).
Proof.
  intros Hc Hg w. unfold try_finally. destruct (Hc w) as [p Hp].
  destruct (c w) as [r w1]. specialize (Hg w1).
  destruct (g w1) as [[u | e] w2]; cbn [snd] in *; exists p; congruence.
Qed.

Lemma thins_try_except {A R} (f : World -> list R) (c : M A) h :
  thins f c -> (forall e, thins f (h e)) -> thins f (try_except c h).
Proof.
  intros Hc Hh w. unfold try_except. destruct (Hc w) as [p Hp].
  destruct (c w) as [[a | e] w1]; cbn [snd] in *.
  - now exists p.
  - destruct (Hh e w1) as [q Hq]. exists (fun x => p x && q x).
    rewrite Hq, Hp. rewrite filter_filter. apply filter_ext.
    intros x. reflexivity.
Qed.

Section ThinningWrites.
Context {R : Type} (T : TableOps R).
Hypothesis rows_log : forall v w, rows T (set_log v w) = rows T w.
Hypothesis rows_faults : forall v w, rows T (set_faults v w) = rows T w.
Hypothesis rows_set : forall v w, rows T (set_rows T v w) = v.

Lemma thins_write {A} t (op : M A) :
  thins (rows T) op -> thins (rows T) (datastore_write t op).
Proof.
  intros H w. unfold datastore_write, bind, take_fault.
  destruct (hd false (faults w)); cbn [snd].
  - exists (fun _ => true). unfold raise. cbn [snd]. rewrite rows_faults.
    symmetry. apply filter_all.
  - destruct (H (set_faults (tl (faults w)) w)) as [p Hp]. exists p.
    now rewrite Hp, rows_faults.
Qed.

Lemma thins_delete id : thins (rows T) (datastore_delete T id).
Proof.
  apply thins_write. intros w. eexists. cbn [snd].
  rewrite rows_log, rows_set. reflexivity.
Qed.

Lemma thins_delete_where flt : thins (rows T) (datastore_delete_where T flt).
Proof.
  apply thins_write. intros w. eexists. cbn [snd].
  rewrite rows_log, rows_set. reflexivity.
Qed.
End ThinningWrites.

Lemma thins_incl {A R} (f : World -> list R) (c : M A) w :
  thins f c -> incl (f (snd (c w))) (f w).
Proof.
  intros H. destruct (H w) as [p Hp]. rewrite Hp. intros x Hx.
  apply filter_In in Hx. tauto.
Qed.

Ltac thins_step :=
  first
    [ solve [apply preserves_thins; frame_step]
    | apply (thins_delete TargetExtentT); intros; reflexivity
    | apply (thins_delete TargetT); intros; reflexivity
    | apply (thins_delete ExtentT); intros; reflexivity
    | apply (thins_delete GroupT); intros; reflexivity
    | apply (thins_delete PortalT); intros; reflexivity
    | apply (thins_delete PortalIpT); intros; reflexivity
    | apply (thins_delete AuthT); intros; reflexivity
    | apply (thins_delete InitiatorT); intros; reflexivity
    | apply (thins_delete_where GroupT); intros; reflexivity
    | apply (thins_delete_where PortalIpT); intros; reflexivity
    | apply thins_for_each; intros
    | apply thins_for_fold; intros
    | apply thins_try_except; [| intros]
    | apply thins_try_finally; [| solve [repeat frame_step]]
    | match goal with
      | |- thins _ (if ?b then _ else _) => destruct b
      | |- thins _ (match ?x with _ => _ end) => destruct x
      end
    | apply thins_bind; [| intros] ].

Ltac thins_tac := unfold_ops; repeat thins_step.

Lemma thins_targetextents_delete id force :
  thins targetextents (targetextent_do_delete id force).
Proof. thins_tac. Qed.

Lemma thins_targetextents_target_delete id force :
  thins targetextents (target_do_delete id force).
Proof. thins_tac. Qed.

Lemma thins_targetextents_extent_delete id remove force :
  thins targetextents (extent_do_delete id remove force).
Proof. thins_tac. Qed.

Lemma thins_targetextents_detach attachments :
  thins targetextents (attachment_delete attachments).
Proof. thins_tac. Qed.

(** ** The outcomes of one write *)

Lemma insert_cases {R} (T : TableOps R) (r : R) w :
  let w0 := set_faults (tl (faults w)) w in
  let pk := fresh_id (map (row_id T) (rows T w0)) in
  datastore_insert T r w = (Raise (DatastoreError (tbl T)), w0)
  \/ datastore_insert T r w
     = (Ok pk,
        set_log (log w0 ++ [EvInsert (tbl T) pk])
          (set_rows T (rows T w0 ++ [with_id T pk r]) w0)).
Proof.
  unfold datastore_insert, datastore_write, bind, take_fault.
  destruct (hd false (faults w)); [left | right]; reflexivity.
Qed.

Lemma update_cases {R} (T : TableOps R) id (g : R -> R) w :
  let w0 := set_faults (tl (faults w)) w in
  datastore_update T id g w = (Raise (DatastoreError (tbl T)), w0)
  \/ datastore_update T id g w
     = (Ok tt,
        set_log (log w0 ++ [EvUpdate (tbl T) id])
          (set_rows T
             (map (fun r => if row_id T r =? id then g r else r) (rows T w0)) w0)).
Proof.
  unfold datastore_update, datastore_write, bind, take_fault.
  destruct (hd false (faults w)); [left | right]; reflexivity.
Qed.

Lemma snd_targetextent_get_instance id w :
  snd (targetextent_get_instance id w) = w.
Proof. unfold targetextent_get_instance. now destruct (targetextent_query _ w). Qed.

Lemma targetextent_get_instance_cases id w :
  targetextent_get_instance id w
  = (Raise (InstanceNotFound services_iscsitargettoextent id), w)
  \/ exists r, targetextent_get_instance id w = (Ok (targetextent_extend r), w)
               /\ In r (targetextents w) /\ te_id r = id.
Proof.
  unfold targetextent_get_instance, targetextent_query, datastore_query.
  destruct (filter _ _) as [| r l] eqn:E; [now left | right].
  exists r. split; [reflexivity |].
  assert (H : In r (filter (fun r => te_id r =? id) (rows TargetExtentT w)))
    by (rewrite E; now left).
  apply filter_In in H. destruct H as [H1 H2]. split; [exact H1 | lia].
Qed.

(** ** Stored LUNs stay within the LUN map, whatever runs *)

Lemma luns_in_range_filter p l :
  Forall (fun r => 0 <= te_lunid r <= lun_map_size - 1) l ->
  Forall (fun r => 0 <= te_lunid r <= lun_map_size - 1) (filter p l).
Proof.
  rewrite !Forall_forall. intros H x Hx. apply filter_In in Hx. now apply H.
Qed.

Lemma luns_in_range_thins {A} (c : M A) :
  thins targetextents c -> maintains luns_in_range c.
Proof.
  intros H w Hw. destruct (H w) as [p Hp]. unfold luns_in_range.
  rewrite Hp. now apply luns_in_range_filter.
Qed.

Lemma create_maintains_luns_in_range data :
  maintains luns_in_range (targetextent_do_create data).
Proof.
  intros w Hw. unfold targetextent_do_create. rewrite bind_get_world.
  destruct (targetextent_validate w data "iscsi_targetextent_create" None)
    as [lun verrors] eqn:V.
  destruct verrors as [| e verrors]; [| exact Hw].
  pose proof (validate_accepts_in_range _ _ _ _ _ _ V eq_refl) as Hl.
  cbn [check]. rewrite bind_ret.
  destruct (insert_cases TargetExtentT
              {| te_id := 0; te_extent := extent data; te_target := target data;
                 te_lunid := lun |} w) as [E | E].
  - rewrite (bind_fail _ _ _ _ _ E). exact Hw.
  - rewrite (bind_step _ _ _ _ _ E). unfold _service_change.
    rewrite bind_emit, snd_targetextent_get_instance.
    unfold luns_in_range in *. cbn. apply Forall_app. split; [exact Hw |].
    constructor; [exact Hl | constructor].
Qed.

Lemma update_maintains_luns_in_range id data :
  maintains luns_in_range (targetextent_do_update id data).
Proof.
  intros w Hw. unfold targetextent_do_update.
  destruct (targetextent_get_instance_cases id w) as [E | (r & E & _)].
  - rewrite (bind_fail _ _ _ _ _ E). exact Hw.
  - rewrite (bind_step _ _ _ _ _ E). rewrite bind_get_world.
    match goal with
    | |- context [targetextent_validate ?w ?d ?s ?o] =>
        destruct (targetextent_validate w d s o) as [lun verrors] eqn:V
    end.
    destruct verrors as [| e verrors]; [| exact Hw].
    pose proof (validate_accepts_in_range _ _ _ _ _ _ V eq_refl) as Hl.
    cbn [check]. rewrite bind_ret.
    match goal with
    | |- context [datastore_update TargetExtentT id ?g] =>
        destruct (update_cases TargetExtentT id g w) as [U | U]
    end.
    + rewrite (bind_fail _ _ _ _ _ U). exact Hw.
    + rewrite (bind_step _ _ _ _ _ U). unfold _service_change.
      rewrite bind_emit, snd_targetextent_get_instance.
      unfold luns_in_range in *. cbn. rewrite Forall_forall in *.
      intros x Hx. apply in_map_iff in Hx. destruct Hx as (r0 & <- & Hr0).
      destruct (te_id r0 =? id); [exact Hl | now apply Hw].
Qed.

Lemma maintains_void {A} I (c : M A) : maintains I c -> maintains I (void c).
Proof.
  intros H. unfold void. apply maintains_bind; [exact H |].
  intros; apply maintains_ret.
Qed.

Lemma thins_void {A R} (f : World -> list R) (c : M A) :
  thins f c -> thins f (void c).
Proof.
  intros H. unfold void. apply thins_bind; [exact H |].
  intros; apply preserves_thins, preserves_ret.
Qed.

(** X1: once every stored LUN lies within 0..16382, it stays so
    whatever operation runs next and however it ends: a create, update
    or delete of any of the six entities, or the delete of the
    attachment delegate. *)
Theorem X1_luns_stay_in_range :
  forall (o : Operation) (w : World),
    luns_in_range w -> luns_in_range (snd (run_operation o w)).
Proof.
  intros [m | attachments] w Hw; cbn [run_operation].
  - pose proof (frame_targetextents m) as F.
    destruct m; cbn [run_mutation];
      try (apply (luns_in_range_thins _ (preserves_thins _ _ F)); exact Hw).
    + apply maintains_void; [| exact Hw].
      apply luns_in_range_thins, thins_targetextents_target_delete.
    + apply maintains_void; [| exact Hw].
      apply luns_in_range_thins, thins_targetextents_extent_delete.
    + apply maintains_void; [| exact Hw]. apply create_maintains_luns_in_range.
    + apply maintains_void; [| exact Hw]. apply update_maintains_luns_in_range.
    + apply maintains_void; [| exact Hw].
      apply luns_in_range_thins, thins_targetextents_delete.
  - apply (luns_in_range_thins _ (thins_targetextents_detach attachments)). exact Hw.
Qed.

Lemma X1_create_on_luns_013 :
  luns_in_range world_luns_013
  /\ luns_in_range
       (snd (run_operation
               (OpMutation
                  (targetextent_create
                     {| te_id_ := None; target := 1; lunid := None; extent := 4 |}))
               world_luns_013)).
Proof.
  assert (H : luns_in_range world_luns_013).
  { unfold luns_in_range, lun_map_size. cbn.
    repeat constructor; cbn; lia. }
  split; [exact H |]. apply X1_luns_stay_in_range. exact H.
Defined.

(** ** Queries that find nothing *)

Lemma filter_none {A} (p : A -> bool) (l : list A) :
  (forall x, In x l -> p x = false) -> filter p l = [].
Proof.
  induction l as [| x l IH]; intros H; simpl; [reflexivity |].
  rewrite (H x (or_introl eq_refl)). apply IH. intros y Hy. apply H. now right.
Qed.

(** ** A rejected request changes nothing *)

Lemma reads_only_of_preserves {A} (c : M A) :
  preserves portals c -> preserves portalips c -> preserves auths c ->
  preserves initiators c -> preserves targets c -> preserves groups c ->
  preserves extents c -> preserves targetextents c ->
  preserves fs_files c -> preserves fs_others c -> preserves log c ->
  reads_only c.
Proof.
  intros H1 H2 H3 H4 H5 H6 H7 H8 H9 H10 H11 w. unfold same_state.
  rewrite H1, H2, H3, H4, H5, H6, H7, H8, H9, H10, H11. repeat split.
Qed.

Ltac reads_tac :=
  apply reads_only_of_preserves;
  unfold extent_clean_name, extent_clean_type_and_path, extent_clean_size,
    auth_is_in_use_by_portals_targets;
  repeat frame_step.

Lemma rejects_cleanly_reads {A} (c : M A) : reads_only c -> rejects_cleanly c.
Proof. intros H w v w' E. specialize (H w). now rewrite E in H. Qed.

Lemma rejects_cleanly_never {A} (c : M A) : never_rejects c -> rejects_cleanly c.
Proof. intros H w v w' E. apply H in E. discriminate E. Qed.

Lemma rejects_cleanly_bind {A B} (c : M A) (k : A -> M B) :
  reads_only c -> (forall a, rejects_cleanly (k a)) -> rejects_cleanly (bind c k).
Proof.
  intros Hc Hk w v w' E. unfold bind in E. specialize (Hc w).
  destruct (c w) as [[a | e] w1]; cbn [snd] in Hc.
  - apply same_state_trans with w1; [exact Hc |]. now apply (Hk a w1 v).
  - inversion E; subst. exact Hc.
Qed.

Lemma never_rejects_ret {A} (a : A) : never_rejects (ret a).
Proof. intros w e w' E. discriminate E. Qed.

Lemma never_rejects_raise {A} e : is_verrors e = false -> never_rejects (@raise A e).
Proof. intros H w e' w' E. inversion E; subst. exact H. Qed.

Lemma never_rejects_get_world : never_rejects get_world.
Proof. intros w e w' E. discriminate E. Qed.

Lemma never_rejects_emit e : never_rejects (emit e).
Proof. intros w e' w' E. discriminate E. Qed.

Lemma never_rejects_bind {A B} (c : M A) (k : A -> M B) :
  never_rejects c -> (forall a, never_rejects (k a)) -> never_rejects (bind c k).
Proof.
  intros Hc Hk w e w' E. apply bind_Raise in E.
  destruct E as [E | (a & w1 & _ & E)]; [now apply Hc in E | now apply Hk in E].
Qed.

Lemma never_rejects_for_each {A} (l : list A) body :
  (forall x, never_rejects (body x)) -> never_rejects (for_each l body).
Proof.
  intros H. induction l as [| x l IH]; simpl.
  - apply never_rejects_ret.
  - apply never_rejects_bind; [apply H | intros _; exact IH].
Qed.

Lemma never_rejects_for_fold {A S} (l : list A) (s : S) body :
  (forall x s, never_rejects (body x s)) -> never_rejects (for_fold l s body).
Proof.
  intros H. revert s. induction l as [| x l IH]; intros s; simpl.
  - apply never_rejects_ret.
  - apply never_rejects_bind; [apply H | intros s'; apply IH].
Qed.

(** The handler sees only what the body raised. *)
Lemma never_rejects_try_except {A} (c : M A) h :
  never_rejects c ->
  (forall e, is_verrors e = false -> never_rejects (h e)) ->
  never_rejects (try_except c h).
Proof.
  intros Hc Hh w e w' E. unfold try_except in E.
  destruct (c w) as [[a | e0] w1] eqn:C; [discriminate E |].
  apply Hc in C. exact (Hh e0 C w1 e w' E).
Qed.

Lemma never_rejects_try_finally {A} (c : M A) f :
  never_rejects c -> never_rejects f -> never_rejects (try_finally c f).
Proof.
  intros Hc Hf w e w' E. unfold try_finally in E.
  destruct (c w) as [r w1] eqn:C. destruct (f w1) as [[u | e1] w2] eqn:F.
  - inversion E; subst. now apply Hc in C.
  - inversion E; subst. now apply Hf in F.
Qed.

Lemma never_rejects_write {A} t (op : M A) :
  never_rejects op -> never_rejects (datastore_write t op).
Proof.
  intros H w e w' E. unfold datastore_write, bind, take_fault in E.
  destruct (hd false (faults w)).
  - inversion E; subst. reflexivity.
  - now apply H in E.
Qed.

Lemma never_rejects_insert {R} (T : TableOps R) r :
  never_rejects (datastore_insert T r).
Proof. apply never_rejects_write. intros w e w' E. discriminate E. Qed.

Lemma never_rejects_update {R} (T : TableOps R) id g :
  never_rejects (datastore_update T id g).
Proof. apply never_rejects_write. intros w e w' E. discriminate E. Qed.

Lemma never_rejects_delete {R} (T : TableOps R) id :
  never_rejects (datastore_delete T id).
Proof. apply never_rejects_write. intros w e w' E. discriminate E. Qed.

Lemma never_rejects_delete_where {R} (T : TableOps R) flt :
  never_rejects (datastore_delete_where T flt).
Proof. apply never_rejects_write. intros w e w' E. discriminate E. Qed.

(** A reader that raises nothing but the error spelled out in it. *)
Ltac never_rejects_reader :=
  let w := fresh "w" in
  let e := fresh "e" in
  let w' := fresh "w'" in
  let E := fresh "E" in
  intros w e w' E;
  repeat match type of E with
         | context [match ?x with _ => _ end] => destruct x
         end;
  inversion E; subst; reflexivity.

Lemma never_rejects_portal_get_instance id : never_rejects (portal_get_instance id).
Proof. unfold portal_get_instance. never_rejects_reader. Qed.

Lemma never_rejects_auth_get_instance id : never_rejects (auth_get_instance id).
Proof. unfold auth_get_instance. never_rejects_reader. Qed.

Lemma never_rejects_initiator_get_instance id :
  never_rejects (initiator_get_instance id).
Proof. unfold initiator_get_instance. never_rejects_reader. Qed.

Lemma never_rejects_target_get_instance id : never_rejects (target_get_instance id).
Proof. unfold target_get_instance. never_rejects_reader. Qed.

Lemma never_rejects_extent_get_instance id : never_rejects (extent_get_instance id).
Proof. unfold extent_get_instance. never_rejects_reader. Qed.

Lemma never_rejects_targetextent_get_instance id :
  never_rejects (targetextent_get_instance id).
Proof. unfold targetextent_get_instance. never_rejects_reader. Qed.

Lemma never_rejects_remove_extent_file data :
  never_rejects (extent_remove_extent_file data).
Proof. unfold extent_remove_extent_file, ret. never_rejects_reader. Qed.

Lemma never_rejects_extent_save data : never_rejects (extent_save data).
Proof.
  unfold extent_save.
  destruct (String.eqb _ _); [| apply never_rejects_ret].
  destruct (path data); [| now apply never_rejects_raise].
  cbv zeta. apply never_rejects_bind; [apply never_rejects_get_world |]. intros w0.
  apply never_rejects_bind.
  - destruct (path_isfile _ _); [now apply never_rejects_raise |].
    intros w e w' E. discriminate E.
  - intros _. apply never_rejects_bind; [apply never_rejects_get_world |].
    intros w1. apply never_rejects_bind; [| intros; apply never_rejects_ret].
    destruct (negb _); [| apply never_rejects_ret].
    intros w e w' E. discriminate E.
Qed.

Create HintDb never_rejects.
#[export] Hint Resolve never_rejects_ret never_rejects_get_world never_rejects_emit
  never_rejects_insert never_rejects_update never_rejects_delete
  never_rejects_delete_where never_rejects_portal_get_instance
  never_rejects_auth_get_instance never_rejects_initiator_get_instance
  never_rejects_target_get_instance never_rejects_extent_get_instance
  never_rejects_targetextent_get_instance never_rejects_remove_extent_file
  never_rejects_extent_save : never_rejects.

Ltac never_rejects_step :=
  first
    [ solve [auto with never_rejects]
    | apply never_rejects_raise; solve [reflexivity | assumption]
    | apply never_rejects_for_each; intros
    | apply never_rejects_for_fold; intros
    | apply never_rejects_try_except; [| intros]
    | apply never_rejects_try_finally
    | match goal with
      | |- never_rejects (if ?b then _ else _) => destruct b
      | |- never_rejects (match ?x with _ => _ end) => destruct x
      end
    | apply never_rejects_bind; [| intros] ].

Ltac never_rejects_tac :=
  unfold_ops; repeat never_rejects_step.

Ltac rejects_cleanly_step :=
  first
    [ solve [apply rejects_cleanly_never; never_rejects_tac]
    | match goal with
      | |- rejects_cleanly (let (_, _) := ?x in _) => destruct x
      end
    | apply rejects_cleanly_bind; [solve [reads_tac] | intros] ].

Ltac rejects_cleanly_tac := unfold_ops; repeat rejects_cleanly_step.

Lemma rejects_cleanly_void {A} (c : M A) :
  rejects_cleanly c -> rejects_cleanly (void c).
Proof.
  intros H w v w' E. unfold void in E. apply bind_Raise in E.
  destruct E as [E | (a & w1 & _ & E)]; [now apply (H w v) | discriminate E].
Qed.

(** X3: when a create, an update or a delete of any entity, or the
    delete of the attachment delegate, raises validation errors, every
    table, the file system and the log are what they were before the
    call. *)
Theorem X3_rejection_changes_nothing :
  forall (o : Operation) (w : World) (errors : list VError) (w' : World),
    run_operation o w = (Raise (ValidationErrors errors), w') ->
    same_state w w'.
Proof.
  intros o.
  assert (H : rejects_cleanly (run_operation o)).
  { destruct o as [m | attachments]; cbn [run_operation].
    - destruct m; cbn [run_mutation]; apply rejects_cleanly_void;
        rejects_cleanly_tac.
    - rejects_cleanly_tac. }
  exact H.
Qed.

Lemma X3_rejected_target_create :
  run_operation
    (OpMutation (target_create (example_target [example_group "CHAP" None])))
    world_one_portal
  = (Raise (ValidationErrors
              [verr "iscsi_target_create.groups.0.auth"
                 "Authentication group is required for CHAP and CHAP Mutual"]),
     world_one_portal)
  /\ same_state world_one_portal world_one_portal.
Proof.
  assert (E : run_operation
                (OpMutation
                   (target_create (example_target [example_group "CHAP" None])))
                world_one_portal
              = (Raise (ValidationErrors
                          [verr "iscsi_target_create.groups.0.auth"
                             "Authentication group is required for CHAP and CHAP Mutual"]),
                 world_one_portal))
    by (vm_compute; reflexivity).
  split; [exact E |].
  exact (X3_rejection_changes_nothing _ _ _ _ E).
Defined.

(** ** Stored credentials are the ones validation lets through *)

Lemma nonempty_str_false s : nonempty_str s = false <-> s = EmptyString.
Proof. destruct s; simpl; split; congruence. Qed.

Lemma nonempty_str_true s : nonempty_str s = true <-> s <> EmptyString.
Proof. destruct s; simpl; split; congruence. Qed.

Lemma in_range_12_16 n : (n <? 12) || (n >? 16) = false -> 12 <= n <= 16.
Proof.
  intros H. apply orb_false_iff in H. destruct H as [H1 H2].
  apply Z.ltb_ge in H1. rewrite Z.gtb_ltb in H2. apply Z.ltb_ge in H2. lia.
Qed.

Lemma auth_validate_accepts data schema :
  auth_validate data schema = [] -> credential_ok data.
Proof.
  unfold auth_validate, credential_ok. cbv zeta. intros H.
  apply app_eq_nil in H. destruct H as [H1 H].
  apply app_eq_nil in H. destruct H as [H2 H3].
  destruct (nonempty_str (a_peeruser data)) eqn:U; cbn [negb andb] in *.
  - apply nonempty_str_true in U.
    destruct (nonempty_str (a_peersecret data)) eqn:S; cbn [negb] in H3;
      [| discriminate H3].
    apply nonempty_str_true in S.
    destruct (String.eqb_spec (a_peersecret data) (a_secret data)) as [E | NE];
      [discriminate H3 |].
    destruct ((len (a_peersecret data) <? 12) || (len (a_peersecret data) >? 16))
      eqn:L; [discriminate H3 |].
    destruct ((len (a_secret data) <? 12) || (len (a_secret data) >? 16))
      eqn:L2; [discriminate H2 |].
    split; [now apply in_range_12_16 |]. split; [congruence |].
    intros _. split; [exact S |]. split; [exact NE | now apply in_range_12_16].
  - apply nonempty_str_false in U.
    destruct (nonempty_str (a_peersecret data)) eqn:S; [discriminate H1 |].
    apply nonempty_str_false in S.
    destruct ((len (a_secret data) <? 12) || (len (a_secret data) >? 16))
      eqn:L2; [discriminate H2 |].
    split; [now apply in_range_12_16 |]. split; [intros _; exact S | congruence].
Qed.

Lemma snd_auth_get_instance id w : snd (auth_get_instance id w) = w.
Proof. unfold auth_get_instance. now destruct (auth_query _ w). Qed.

Lemma auth_get_instance_cases id w :
  auth_get_instance id w
  = (Raise (InstanceNotFound services_iscsitargetauthcredential id), w)
  \/ exists r, auth_get_instance id w = (Ok r, w)
               /\ In r (auths w) /\ a_id r = id.
Proof.
  unfold auth_get_instance, auth_query, datastore_query.
  destruct (filter _ _) as [| r l] eqn:E; [now left | right].
  exists r. split; [reflexivity |].
  assert (H : In r (filter (fun a => a_id a =? id) (rows AuthT w)))
    by (rewrite E; now left).
  apply filter_In in H. destruct H as [H1 H2]. split; [exact H1 | lia].
Qed.

Lemma reads_is_in_use id : preserves (fun w => w) (auth_is_in_use_by_portals_targets id).
Proof. unfold auth_is_in_use_by_portals_targets. preserves_tac. Qed.

(** The step of [do_update] that consults the usage check. *)
Lemma usage_check_reads id old data w :
  snd ((if negb (a_tag (auth_merge old data) =? a_tag old)
           && negb (nonempty
                      (auth_query
                         (fun a => (a_tag a =? a_tag old) && negb (a_id a =? id)) w))
        then
          u <- auth_is_in_use_by_portals_targets id ;;
          if in_use u
          then ret (auth_validate (auth_merge old data) "iscsi_auth_update"
                    ++ [verr "iscsi_auth_update.tag" (usages u)])
          else ret (auth_validate (auth_merge old data) "iscsi_auth_update")
        else ret (auth_validate (auth_merge old data) "iscsi_auth_update")) w)
  = w.
Proof.
  destruct (_ && _); [| reflexivity].
  unfold bind. pose proof (reads_is_in_use id w) as H.
  destruct (auth_is_in_use_by_portals_targets id w) as [[u | e] w1];
    cbn [snd] in *; [| exact H].
  now destruct (in_use u).
Qed.

Lemma usage_check_extends id old data w v :
  fst ((if negb (a_tag (auth_merge old data) =? a_tag old)
           && negb (nonempty
                      (auth_query
                         (fun a => (a_tag a =? a_tag old) && negb (a_id a =? id)) w))
        then
          u <- auth_is_in_use_by_portals_targets id ;;
          if in_use u
          then ret (auth_validate (auth_merge old data) "iscsi_auth_update"
                    ++ [verr "iscsi_auth_update.tag" (usages u)])
          else ret (auth_validate (auth_merge old data) "iscsi_auth_update")
        else ret (auth_validate (auth_merge old data) "iscsi_auth_update")) w)
  = Ok v ->
  v = [] -> auth_validate (auth_merge old data) "iscsi_auth_update" = [].
Proof.
  destruct (_ && _).
  - unfold bind.
    destruct (auth_is_in_use_by_portals_targets id w) as [[u | e] w1];
      [| discriminate].
    destruct (in_use u); cbn; intros H; inversion H; subst; intros E.
    + apply app_eq_nil in E. tauto.
    + exact E.
  - cbn. intros H; inversion H; subst. auto.
Qed.

Lemma create_maintains_credentials data :
  maintains credentials_ok (auth_do_create data).
Proof.
  intros w Hw. unfold auth_do_create.
  destruct (auth_validate (auth_row_of 0 data) "iscsi_auth_create") eqn:V;
    [| exact Hw].
  apply auth_validate_accepts in V.
  cbn [check]. rewrite bind_ret.
  destruct (insert_cases AuthT (auth_row_of 0 data) w) as [E | E].
  - rewrite (bind_fail _ _ _ _ _ E). exact Hw.
  - rewrite (bind_step _ _ _ _ _ E). unfold _service_change.
    rewrite bind_emit, snd_auth_get_instance.
    unfold credentials_ok in *. cbn. apply Forall_app. split; [exact Hw |].
    constructor; [exact V | constructor].
Qed.

Lemma update_maintains_credentials id data :
  maintains credentials_ok (auth_do_update id data).
Proof.
  intros w Hw. unfold auth_do_update.
  destruct (auth_get_instance_cases id w) as [E | (old & E & _)].
  - rewrite (bind_fail _ _ _ _ _ E). exact Hw.
  - rewrite (bind_step _ _ _ _ _ E). cbv zeta. rewrite bind_get_world.
    match goal with
    | |- credentials_ok (snd (bind ?c ?k w)) =>
        pose proof (usage_check_reads id old data w) as Hs;
        destruct (c w) as [[v | e] w1] eqn:Hc
    end; cbn [snd] in Hs; subst w1.
    2: { rewrite (bind_fail _ _ _ _ _ Hc). exact Hw. }
    pose proof (usage_check_extends id old data w v) as Hv.
    rewrite Hc in Hv. specialize (Hv eq_refl).
    rewrite (bind_step _ _ _ _ _ Hc).
    destruct v as [| e v]; [| exact Hw].
    specialize (Hv eq_refl). apply auth_validate_accepts in Hv.
    cbn [check]. rewrite bind_ret.
    match goal with
    | |- context [datastore_update AuthT id ?g] =>
        destruct (update_cases AuthT id g w) as [U | U]
    end.
    + rewrite (bind_fail _ _ _ _ _ U). exact Hw.
    + rewrite (bind_step _ _ _ _ _ U). unfold _service_change.
      rewrite bind_emit, snd_auth_get_instance.
      unfold credentials_ok in *. cbn. rewrite Forall_forall in *.
      intros x Hx. apply in_map_iff in Hx. destruct Hx as (r0 & <- & Hr0).
      destruct (a_id r0 =? id); [exact Hv | now apply Hw].
Qed.

Lemma credentials_thins {A} (c : M A) :
  thins auths c -> maintains credentials_ok c.
Proof.
  intros H w Hw. destruct (H w) as [p Hp]. unfold credentials_ok in *.
  rewrite Hp. rewrite Forall_forall in *. intros x Hx.
  apply filter_In in Hx. now apply Hw.
Qed.

Lemma frame_auths m :
  match m with
  | auth_create _ | auth_update _ _ | auth_delete _ => True
  | _ => preserves auths (run_mutation m)
  end.
Proof. destruct m; try exact I; frame_tac. Qed.

Lemma thins_auths_delete id : thins auths (auth_do_delete id).
Proof. thins_tac. Qed.

Lemma preserves_auths_detach attachments :
  preserves auths (attachment_delete attachments).
Proof. frame_tac. Qed.

(** X4: once every stored credential is one that [validate] lets
    through (secret of 12 to 16 characters; a peer secret only with a
    peer user, then 12 to 16 characters long and different from the
    secret), this stays so whatever operation runs next and however it
    ends. *)
Theorem X4_credentials_stay_valid :
  forall (o : Operation) (w : World),
    credentials_ok w -> credentials_ok (snd (run_operation o w)).
Proof.
  intros [m | attachments] w Hw; cbn [run_operation].
  - pose proof (frame_auths m) as F.
    destruct m; cbn [run_mutation];
      try (apply (credentials_thins _ (preserves_thins _ _ F)); exact Hw).
    + apply maintains_void; [| exact Hw]. apply create_maintains_credentials.
    + apply maintains_void; [| exact Hw]. apply update_maintains_credentials.
    + apply maintains_void; [| exact Hw].
      apply credentials_thins, thins_auths_delete.
  - apply (credentials_thins _
             (preserves_thins _ _ (preserves_auths_detach attachments))).
    exact Hw.
Qed.

Lemma X4_update_of_a_valid_credential :
  credentials_ok world_auth_shared
  /\ credentials_ok
       (snd (run_operation
               (OpMutation
                  (auth_update 1
                     {| au_tag := None; au_user := None;
                        au_secret := Some "a-new-secret-1";
                        au_peeruser := Some "peer";
                        au_peersecret := Some "peer-secret-12" |}))
               world_auth_shared)).
Proof.
  assert (H : credentials_ok world_auth_shared).
  { assert (K : forall i t, credential_ok (example_auth i t)).
    { intros i t. unfold credential_ok, example_auth, len. cbn.
      split; [lia |]. split; [reflexivity | congruence]. }
    unfold credentials_ok. cbn.
    constructor; [apply K |]. constructor; [apply K | constructor]. }
  split; [exact H |]. apply X4_credentials_stay_valid. exact H.
Defined.

(** ** Tables with a unique column *)

Lemma NoDup_map_filter {R K} (name : R -> K) (p : R -> bool) l :
  NoDup (map name l) -> NoDup (map name (filter p l)).
Proof.
  induction l as [| x l IH]; simpl; intros H; [constructor |].
  inversion H as [| ? ? Hx Hl]; subst. destruct (p x); simpl; [| now apply IH].
  constructor; [| now apply IH].
  intros Hin. apply Hx. apply in_map_iff in Hin. destruct Hin as (y & E & Hy).
  apply filter_In in Hy. apply in_map_iff. exists y. tauto.
Qed.

Lemma NoDup_map_snoc {R K} (name : R -> K) x l :
  NoDup (map name l) -> ~ In (name x) (map name l) -> NoDup (map name (l ++ [x])).
Proof.
  intros H Hx. rewrite map_app. apply NoDup_app; [exact H | |].
  - simpl. constructor; [intros [] | constructor].
  - intros a Ha [<- | []]. contradiction.
Qed.

Section KeyedRows.
Context {R K : Type} (key : R -> Z) (name : R -> K).

Lemma update_without_key (g : R -> R) id l :
  ~ In id (map key l) ->
  map (fun r => if key r =? id then g r else r) l = l.
Proof.
  induction l as [| x l IH]; simpl; intros H; [reflexivity |].
  destruct (Z.eqb_spec (key x) id) as [E | _]; [exfalso; apply H; now left |].
  f_equal. apply IH. intros Hin. apply H. now right.
Qed.

Lemma map_key_update (g : R -> R) id l :
  (forall r, In r l -> key r = id -> key (g r) = id) ->
  map key (map (fun r => if key r =? id then g r else r) l) = map key l.
Proof.
  induction l as [| x l IH]; simpl; intros H; [reflexivity |].
  rewrite IH by (intros r Hr; apply H; now right). f_equal.
  destruct (Z.eqb_spec (key x) id) as [E | _]; [| reflexivity].
  rewrite E. apply H; [now left | exact E].
Qed.

(** Replacing the row of key [id] keeps the column [name] free of
    duplicates when the new name is the old one or a fresh one. *)
Lemma NoDup_map_update (g : R -> R) id l :
  NoDup (map key l) -> NoDup (map name l) ->
  (forall r, In r l -> key r = id ->
             name (g r) = name r \/ ~ In (name (g r)) (map name l)) ->
  NoDup (map name (map (fun r => if key r =? id then g r else r) l)).
Proof.
  induction l as [| x l IH]; simpl; intros Hk Hn Hg; [constructor |].
  inversion Hk as [| ? ? Hkx Hkl]; subst. inversion Hn as [| ? ? Hnx Hnl]; subst.
  destruct (Z.eqb_spec (key x) id) as [E | NE].
  - rewrite update_without_key by (rewrite <- E; exact Hkx).
    constructor; [| exact Hnl].
    destruct (Hg x (or_introl eq_refl) E) as [-> | H]; [exact Hnx |].
    intros Hin. apply H. now right.
  - constructor.
    + intros Hin. apply in_map_iff in Hin. destruct Hin as (y & Ey & Hy).
      apply in_map_iff in Hy. destruct Hy as (r & <- & Hr).
      destruct (Z.eqb_spec (key r) id) as [Er | _].
      * destruct (Hg r (or_intror Hr) Er) as [Eg | H].
        -- apply Hnx. rewrite <- Ey, Eg. now apply in_map.
        -- apply H. left. symmetry. exact Ey.
      * apply Hnx. rewrite <- Ey. now apply in_map.
    + apply IH; [exact Hkl | exact Hnl |].
      intros r Hr Er. destruct (Hg r (or_intror Hr) Er) as [Eg | H];
        [now left | right]. intros Hin. apply H. now right.
Qed.

Lemma key_determines_row l r r' :
  NoDup (map key l) -> In r l -> In r' l -> key r = key r' -> r = r'.
Proof.
  induction l as [| x l IH]; simpl; intros Hk Hr Hr' E; [contradiction |].
  inversion Hk as [| ? ? Hkx Hkl]; subst.
  destruct Hr as [-> | Hr], Hr' as [-> | Hr'].
  - reflexivity.
  - exfalso. apply Hkx. rewrite E. now apply in_map.
  - exfalso. apply Hkx. rewrite <- E. now apply in_map.
  - now apply IH.
Qed.
End KeyedRows.

Lemma fresh_id_not_in ids : ~ In (fresh_id ids) ids.
Proof. intros H. apply fresh_id_gt in H. lia. Qed.

Lemma filter_nil_not_in {A B} (f : A -> B) (eqb : B -> B -> bool) (l : list A) b :
  (forall x y, eqb x y = true <-> x = y) ->
  filter (fun r => eqb (f r) b) l = [] -> ~ In b (map f l).
Proof.
  intros Heq H Hin. apply in_map_iff in Hin. destruct Hin as (x & E & Hx).
  assert (Hf : In x (filter (fun r => eqb (f r) b) l)).
  { apply filter_In. split; [exact Hx |]. apply Heq. exact E. }
  rewrite H in Hf. exact Hf.
Qed.

Lemma string_eqb_iff x y : String.eqb x y = true <-> x = y.
Proof. apply String.eqb_eq. Qed.

Lemma nonempty_false {A} (l : list A) : nonempty l = false -> l = [].
Proof. destruct l; simpl; congruence. Qed.

(** ** Extent names stay distinct and free of quotes *)

Lemma extent_validate_shape d w d' w1 :
  extent_validate d w = (Ok d', w1) ->
  extent_name d' = extent_name d /\ extent_id d' = extent_id d
  /\ extent_type d' = extent_type d /\ path d' = path d /\ disk d' = disk d
  /\ filesize d' = filesize d /\ blocksize d' = blocksize d.
Proof.
  unfold extent_validate. intros H.
  inv_ok H as s w2 H1. inv_ok H as n w3 H2. inversion H; subst.
  repeat split.
Qed.

Lemma clean_name_result d schema v old w r w' :
  extent_clean_name d schema v old w = (Ok r, w') ->
  w' = w
  /\ exists s x, serial d = Some s /\ r = v ++ x
     /\ (x = [] ->
         str_contains dquote (extent_name d) = false
         /\ str_contains dquote s = false
         /\ len s <= max_serial_len
         /\ (Some (extent_name d) = option_map extent_name old
             \/ ~ In (extent_name d) (map e_name (extents w)))).
Proof.
  unfold extent_clean_name. destruct (serial d) as [s |]; [| discriminate].
  rewrite bind_get_world. intros H. inversion H; subst. split; [reflexivity |].
  exists s. eexists. split; [reflexivity |]. split; [reflexivity |].
  intros E.
  apply app_eq_nil in E. destruct E as [E1 E].
  apply app_eq_nil in E. destruct E as [E2 E].
  apply app_eq_nil in E. destruct E as [E3 E4].
  destruct (str_contains dquote (extent_name d)); [discriminate E1 |].
  destruct (str_contains dquote s); [discriminate E2 |].
  destruct (len s >? max_serial_len) eqn:L; [discriminate E3 |].
  rewrite Z.gtb_ltb in L. apply Z.ltb_ge in L.
  repeat split; try assumption.
  destruct old as [o |]; cbn [option_map opt_str_eqb negb] in *.
  - destruct (String.eqb_spec (extent_name d) (extent_name o)) as [En | _];
      cbn [negb] in E4; [left; now rewrite En | right].
    destruct (nonempty _) eqn:N; [discriminate E4 |].
    apply nonempty_false in N.
    exact (filter_nil_not_in e_name String.eqb _ _ string_eqb_iff N).
  - right. destruct (nonempty _) eqn:N; [discriminate E4 |].
    apply nonempty_false in N.
    exact (filter_nil_not_in e_name String.eqb _ _ string_eqb_iff N).
Qed.

Lemma clean_type_and_path_result d schema v w r w' :
  extent_clean_type_and_path d schema v w = (Ok r, w') ->
  w' = w /\ exists x, r = v ++ x.
Proof.
  unfold extent_clean_type_and_path. rewrite bind_get_world.
  repeat match goal with
         | |- context [if ?b then _ else _] => destruct b
         | |- context [match ?x with _ => _ end] => destruct x
         end;
    intros H; inversion H; subst;
    (split; [reflexivity |]); try (eexists; reflexivity).
  all: exists []; now rewrite app_nil_r.
Qed.

Lemma clean_size_result d schema v w r w' :
  extent_clean_size d schema v w = (Ok r, w') ->
  w' = w /\ exists x, r = v ++ x.
Proof.
  unfold extent_clean_size. rewrite bind_get_world.
  repeat match goal with
         | |- context [if ?b then _ else _] => destruct b
         | |- context [match ?x with _ => _ end] => destruct x
         end;
    intros H; inversion H; subst;
    (split; [reflexivity |]); try (eexists; reflexivity).
  all: exists []; now rewrite app_nil_r.
Qed.

Lemma extent_clean_accepts d schema old w w' :
  extent_clean d schema [] old w = (Ok [], w') ->
  w' = w
  /\ str_contains dquote (extent_name d) = false
  /\ (exists s, serial d = Some s /\ str_contains dquote s = false
                /\ len s <= max_serial_len)
  /\ (Some (extent_name d) = option_map extent_name old
      \/ ~ In (extent_name d) (map e_name (extents w))).
Proof.
  unfold extent_clean. intros H.
  inv_ok H as v1 w1 H1. inv_ok H as v2 w2 H2.
  apply clean_name_result in H1. destruct H1 as (-> & s & x & Hs & -> & Hx).
  apply clean_type_and_path_result in H2. destruct H2 as (-> & y & ->).
  apply clean_size_result in H. destruct H as (-> & z & Hz).
  symmetry in Hz. apply app_eq_nil in Hz. destruct Hz as [Hz _].
  apply app_eq_nil in Hz. destruct Hz as [Hz _]. cbn in Hz. subst x.
  destruct (Hx eq_refl) as (Q1 & Q2 & Q3 & Q4).
  split; [reflexivity |]. split; [exact Q1 |]. split; [| exact Q4].
  exists s. auto.
Qed.

Lemma extents_ok_filter p l :
  NoDup (map e_id l) /\ NoDup (map e_name l) /\ Forall extent_row_ok l ->
  NoDup (map e_id (filter p l)) /\ NoDup (map e_name (filter p l))
  /\ Forall extent_row_ok (filter p l).
Proof.
  intros (H1 & H2 & H3). split; [apply NoDup_map_filter; exact H1 |].
  split; [apply NoDup_map_filter; exact H2 |].
  rewrite Forall_forall in *. intros x Hx. apply filter_In in Hx. now apply H3.
Qed.

Lemma extents_ok_thins {A} (c : M A) :
  thins extents c -> maintains extents_ok c.
Proof.
  intros H w Hw. destruct (H w) as [p Hp]. unfold extents_ok in *.
  rewrite Hp. now apply extents_ok_filter.
Qed.

Lemma extents_ok_same w w' : extents w' = extents w -> extents_ok w -> extents_ok w'.
Proof. unfold extents_ok. now intros ->. Qed.

Lemma snd_extent_get_instance id w : snd (extent_get_instance id w) = w.
Proof. unfold extent_get_instance. now destruct (extent_query _ w). Qed.

Lemma extent_get_instance_cases id w :
  extent_get_instance id w
  = (Raise (InstanceNotFound services_iscsitargetextent id), w)
  \/ exists r, extent_get_instance id w = (Ok (extent_extend r), w)
               /\ In r (extents w) /\ e_id r = id.
Proof.
  unfold extent_get_instance, extent_query.
  destruct (filter _ _) as [| x l] eqn:E; [now left | right].
  assert (H : In x (filter (fun e => opt_Z_eqb (extent_id e) (Some id))
                      (map extent_extend (extents w))))
    by (rewrite E; now left).
  apply filter_In in H. destruct H as [H1 H2].
  apply in_map_iff in H1. destruct H1 as (r & <- & Hr).
  exists r. split; [reflexivity |]. split; [exact Hr |].
  unfold extent_extend, opt_Z_eqb in H2. cbn [extent_id] in H2.
  now apply Z.eqb_eq.
Qed.

(** Run the next step, which leaves the extent table alone; [Hw] is the
    invariant at the current world. *)
Ltac extent_step H Hw :=
  match goal with
  | |- context [bind ?c ?k ?w] =>
      let F := fresh "F" in
      let E := fresh "E" in
      assert (F : extents (snd (c w)) = extents w) by (apply H);
      destruct (c w) as [[? | ?] ?] eqn:E; cbn [snd] in F;
      apply (extents_ok_same _ _ F) in Hw;
      [ rewrite (bind_step _ _ _ _ _ E)
      | rewrite (bind_fail _ _ _ _ _ E); exact Hw ]
  end.

Lemma extent_create_maintains data : maintains extents_ok (extent_do_create data).
Proof.
  intros w Hw. unfold extent_do_create.
  extent_step (preserves_extent_validate extents (fun _ _ => eq_refl)) Hw.
  rename a into d, w0 into w1, E into V, F into F1.
  extent_step (preserves_extent_clean extents) Hw.
  rename a into v, w0 into w2, E into C, F into F2.
  destruct v as [| e v]; [| exact Hw].
  cbn [check]. rewrite bind_ret.
  apply extent_clean_accepts in C. destruct C as (-> & Q1 & (s & Hs & Q2 & Q3) & Q4).
  clear F2.
  extent_step (fun x => preserves_extent_save extents x (fun _ _ => eq_refl)
                             (fun _ _ _ => eq_refl)) Hw.
  rename a into p, w0 into w3, E into S, F into F3.
  match goal with
  | |- context [datastore_insert ExtentT ?r] =>
      destruct (insert_cases ExtentT r w3) as [I | I]
  end.
  - rewrite (bind_fail _ _ _ _ _ I). exact Hw.
  - rewrite (bind_step _ _ _ _ _ I). rewrite snd_extent_get_instance.
    destruct Hw as (H1 & H2 & H3). unfold extents_ok. cbn.
    split; [| split].
    + apply NoDup_map_snoc; [exact H1 |]. cbn. apply fresh_id_not_in.
    + apply NoDup_map_snoc; [exact H2 |]. cbn.
      destruct Q4 as [Q4 | Q4]; [discriminate Q4 |].
      rewrite F3. exact Q4.
    + apply Forall_app. split; [exact H3 |]. constructor; [| constructor].
      split; [exact Q1 |]. exists s. cbn. auto.
Qed.

Lemma extent_update_maintains id data : maintains extents_ok (extent_do_update id data).
Proof.
  intros w Hw. unfold extent_do_update.
  destruct (extent_get_instance_cases id w) as [E | (r0 & E & Hr0 & Hid)].
  { rewrite (bind_fail _ _ _ _ _ E). exact Hw. }
  rewrite (bind_step _ _ _ _ _ E). cbv zeta.
  extent_step (preserves_extent_validate extents (fun _ _ => eq_refl)) Hw.
  rename a into d, w0 into w1, E0 into V, F into F1.
  apply extent_validate_shape in V. destruct V as (Vn & Vi & _).
  extent_step (preserves_extent_clean extents) Hw.
  rename a into v, w0 into w2, E0 into C, F into F2.
  destruct v as [| e v]; [| exact Hw].
  cbn [check]. rewrite bind_ret.
  apply extent_clean_accepts in C. destruct C as (-> & Q1 & (s & Hs & Q2 & Q3) & Q4).
  clear F2.
  extent_step (fun x => preserves_extent_save extents x (fun _ _ => eq_refl)
                             (fun _ _ _ => eq_refl)) Hw.
  rename a into p, w0 into w3, E0 into S, F into F3.
  match goal with
  | |- context [datastore_update ExtentT id ?g] =>
      destruct (update_cases ExtentT id g w3) as [U | U]
  end.
  - rewrite (bind_fail _ _ _ _ _ U). exact Hw.
  - rewrite (bind_step _ _ _ _ _ U). unfold _service_change.
    rewrite bind_emit, snd_extent_get_instance.
    destruct Hw as (H1 & H2 & H3). unfold extents_ok. cbn.
    assert (Hkey : e_id (extent_row_of d p) = id).
    { unfold extent_row_of. cbn. rewrite Vi. cbn. exact Hid. }
    assert (Hr0' : In r0 (extents w3)) by (rewrite F3, F1; exact Hr0).
    split; [| split].
    + rewrite (map_key_update e_id); [exact H1 |]. intros; exact Hkey.
    + apply (NoDup_map_update e_id e_name); [exact H1 | exact H2 |].
      intros r Hr Er. cbn.
      destruct Q4 as [Q4 | Q4].
      * left. cbn in Q4. inversion Q4 as [Q5]. rewrite Vn in Q5. cbn in Q5.
        rewrite Vn. cbn.
        assert (r = r0) by (apply (key_determines_row e_id (extents w3));
                            [exact H1 | exact Hr | exact Hr0' | congruence]).
        subst r. destruct (eu_name data); cbn in *; congruence.
      * right. rewrite F3. exact Q4.
    + rewrite Forall_forall in *. intros x Hx.
      apply in_map_iff in Hx. destruct Hx as (r & <- & Hr).
      destruct (e_id r =? id); [| now apply H3].
      split; [exact Q1 |]. exists s. cbn. auto.
Qed.

Lemma frame_extents m :
  match m with
  | extent_create _ | extent_update _ _ | extent_delete _ _ _ => True
  | _ => preserves extents (run_mutation m)
  end.
Proof. destruct m; try exact I; frame_tac. Qed.

Lemma thins_extents_delete id remove force :
  thins extents (extent_do_delete id remove force).
Proof. thins_tac. Qed.

Lemma thins_extents_detach attachments :
  thins extents (attachment_delete attachments).
Proof. thins_tac. Qed.

(** X5: once the extents have distinct primary keys and distinct names,
    and every stored name and serial is free of double quotes with the
    serial at most twenty characters long, this stays so whatever
    operation runs next and however it ends. *)
Theorem X5_extent_names_stay_unique :
  forall (o : Operation) (w : World),
    extents_ok w -> extents_ok (snd (run_operation o w)).
Proof.
  intros [m | attachments] w Hw; cbn [run_operation].
  - pose proof (frame_extents m) as F.
    destruct m; cbn [run_mutation];
      try (apply (extents_ok_thins _ (preserves_thins _ _ F)); exact Hw).
    + apply maintains_void; [| exact Hw]. apply extent_create_maintains.
    + apply maintains_void; [| exact Hw]. apply extent_update_maintains.
    + apply maintains_void; [| exact Hw].
      apply extents_ok_thins, thins_extents_delete.
  - apply (extents_ok_thins _ (thins_extents_detach attachments)). exact Hw.
Qed.

Lemma X5_rename_of_the_sole_extent :
  extents_ok world_sole_extent
  /\ extents_ok
       (snd (run_operation
               (OpMutation
                  (extent_update 1
                     {| eu_name := Some "vol2"; eu_type := None; eu_disk := None;
                        eu_serial := None; eu_path := None; eu_filesize := None;
                        eu_blocksize := None; eu_misc := None |}))
               world_sole_extent)).
Proof.
  assert (H : extents_ok world_sole_extent).
  { unfold extents_ok. cbn.
    split; [constructor; [intros [] | constructor] |].
    split; [constructor; [intros [] | constructor] |].
    constructor; [| constructor].
    split; [reflexivity |]. exists "10000000000face".
    split; [reflexivity |]. split; [reflexivity |].
    unfold len, max_serial_len. cbn. lia. }
  split; [exact H |]. apply X5_extent_names_stay_unique. exact H.
Defined.

(** ** Nullable columns with distinct values *)

Lemma somes_In {R K} (f : R -> option K) l a :
  In a (somes f l) <-> exists r, In r l /\ f r = Some a.
Proof.
  unfold somes. rewrite in_flat_map. split.
  - intros (r & Hr & Ha). exists r. split; [exact Hr |].
    destruct (f r); [destruct Ha as [-> | []]; reflexivity | destruct Ha].
  - intros (r & Hr & E). exists r. split; [exact Hr |]. rewrite E. now left.
Qed.

Lemma somes_app {R K} (f : R -> option K) l1 l2 :
  somes f (l1 ++ l2) = somes f l1 ++ somes f l2.
Proof. unfold somes. apply flat_map_app. Qed.

Lemma somes_cons {R K} (f : R -> option K) x l :
  somes f (x :: l) = match f x with Some a => [a] | None => [] end ++ somes f l.
Proof. reflexivity. Qed.

Lemma NoDup_somes_filter {R K} (f : R -> option K) (p : R -> bool) l :
  NoDup (somes f l) -> NoDup (somes f (filter p l)).
Proof.
  induction l as [| x l IH]; intros H; [constructor |].
  cbn [filter]. rewrite somes_cons in H.
  assert (Hl : NoDup (somes f l)).
  { destruct (f x); simpl in H; [now inversion H | exact H]. }
  destruct (p x); [| now apply IH].
  rewrite somes_cons.
  destruct (f x) as [a |]; simpl in *; [| now apply IH].
  inversion H as [| ? ? Ha _]; subst. constructor; [| now apply IH].
  intros Hin. apply Ha. apply somes_In in Hin. destruct Hin as (r & Hr & E).
  apply filter_In in Hr. apply somes_In. exists r. tauto.
Qed.

Lemma NoDup_somes_snoc {R K} (f : R -> option K) x l :
  NoDup (somes f l) ->
  (forall a, f x = Some a -> ~ In a (somes f l)) ->
  NoDup (somes f (l ++ [x])).
Proof.
  intros H Hx. rewrite somes_app. unfold somes at 2. simpl. rewrite app_nil_r.
  destruct (f x) as [a |]; [| now rewrite app_nil_r].
  apply NoDup_app; [exact H | constructor; [intros [] | constructor] |].
  intros b Hb [E | []]. subst b. exact (Hx a eq_refl Hb).
Qed.

Section NullableColumn.
Context {R K : Type} (key : R -> Z) (f : R -> option K).

Lemma NoDup_somes_update (g : R -> R) id l :
  NoDup (map key l) -> NoDup (somes f l) ->
  (forall r a, In r l -> key r = id -> f (g r) = Some a ->
               f r = Some a \/ ~ In a (somes f l)) ->
  NoDup (somes f (map (fun r => if key r =? id then g r else r) l)).
Proof.
  induction l as [| x l IH]; intros Hk Hn Hg; [constructor |].
  cbn [map] in *. rewrite somes_cons in Hn |- *.
  inversion Hk as [| ? ? Hkx Hkl]; subst.
  assert (Hnl : NoDup (somes f l)).
  { destruct (f x); simpl in Hn; [now inversion Hn | exact Hn]. }
  assert (Hnx : forall a, f x = Some a -> ~ In a (somes f l)).
  { intros a E. rewrite E in Hn. simpl in Hn. now inversion Hn. }
  assert (Hsub : forall a, In a (somes f l) -> In a (somes f (x :: l))).
  { intros a Ha. rewrite somes_cons. apply in_or_app. now right. }
  destruct (Z.eqb_spec (key x) id) as [E | NE].
  - rewrite (update_without_key key) by (rewrite <- E; exact Hkx).
    destruct (f (g x)) as [a |] eqn:Fg; simpl; [| exact Hnl].
    constructor; [| exact Hnl].
    destruct (Hg x a (or_introl eq_refl) E Fg) as [Fx | H].
    + now apply Hnx.
    + intros Hin. apply H. now apply Hsub.
  - assert (Htail : NoDup (somes f (map (fun r => if key r =? id then g r else r) l))).
    { apply IH; [exact Hkl | exact Hnl |].
      intros r a Hr Er Fg. destruct (Hg r a (or_intror Hr) Er Fg) as [Fr | H];
        [now left | right]. intros Hin. apply H. now apply Hsub. }
    destruct (f x) as [a |] eqn:Fx; simpl; [| exact Htail].
    constructor; [| exact Htail].
    intros Hin. apply somes_In in Hin. destruct Hin as (y & Hy & Fy).
    apply in_map_iff in Hy. destruct Hy as (r & <- & Hr).
    destruct (Z.eqb_spec (key r) id) as [Er | _].
    + destruct (Hg r a (or_intror Hr) Er Fy) as [Fr | H].
      * apply (Hnx a eq_refl). apply somes_In. now exists r.
      * apply H. rewrite somes_cons, Fx. now left.
    + apply (Hnx a eq_refl). apply somes_In. now exists r.
Qed.
End NullableColumn.

(** ** Target names and aliases stay distinct and well formed *)

Lemma filter_nil_forall {A} (p : A -> bool) (l : list A) :
  filter p l = [] -> forall x, In x l -> p x = false.
Proof.
  intros H x Hx. destruct (p x) eqn:P; [| reflexivity].
  assert (Hf : In x (filter p l)) by (apply filter_In; auto).
  rewrite H in Hf. destruct Hf.
Qed.

Lemma target_query_sql_empty flt w :
  nonempty (target_query_sql flt w) = false ->
  forall r, In r (targets w) -> flt r = false.
Proof.
  unfold target_query_sql, datastore_query. intros H.
  apply nonempty_false in H. apply map_eq_nil in H.
  now apply filter_nil_forall.
Qed.

Lemma target_validate_accepts w data schema old :
  target_validate w data schema old = [] ->
  RE_TARGET_NAME_search (target_name data) = true
  /\ (forall r, In r (targets w) -> t_name r = target_name data -> updated_row old r)
  /\ match target_alias data with
     | Some a =>
         str_contains dquote a = false /\ a <> "target"
         /\ (forall r, In r (targets w) -> t_alias r = Some a -> updated_row old r)
     | None => True
     end.
Proof.
  unfold target_validate. cbv zeta. intros H.
  apply app_eq_nil in H. destruct H as [H1 H].
  apply app_eq_nil in H. destruct H as [H2 _].
  assert (Hold : forall r,
             match old with
             | Some o => negb (opt_Z_eqb (Some (t_id r)) (target_id o))
             | None => true
             end = false -> updated_row old r).
  { intros r. unfold updated_row. destruct old as [o |]; [| discriminate].
    destruct (target_id o) as [k |]; cbn; [| discriminate].
    destruct (Z.eqb_spec (t_id r) k); cbn; [congruence | discriminate]. }
  split; [| split].
  - destruct (RE_TARGET_NAME_search (target_name data)); [reflexivity |].
    discriminate H1.
  - destruct (RE_TARGET_NAME_search (target_name data)); [| discriminate H1].
    cbn [negb] in H1.
    destruct (nonempty _) eqn:N in H1; [discriminate H1 |].
    intros r Hr En. apply Hold.
    pose proof (target_query_sql_empty _ _ N r Hr) as Q. cbn beta in Q.
    rewrite En, String.eqb_refl in Q. exact Q.
  - destruct (target_alias data) as [a |]; [| exact I].
    destruct (str_contains dquote a); [discriminate H2 |].
    destruct (String.eqb_spec a "target") as [| NE]; [discriminate H2 |].
    destruct (nonempty _) eqn:N in H2; [discriminate H2 |].
    split; [reflexivity |]. split; [exact NE |].
    intros r Hr En. apply Hold.
    pose proof (target_query_sql_empty _ _ N r Hr) as Q. cbn beta in Q.
    rewrite En in Q. cbn in Q. rewrite String.eqb_refl in Q. exact Q.
Qed.

Lemma targets_ok_filter p l :
  NoDup (map t_id l) /\ NoDup (map t_name l) /\ NoDup (somes t_alias l)
  /\ Forall target_row_ok l ->
  NoDup (map t_id (filter p l)) /\ NoDup (map t_name (filter p l))
  /\ NoDup (somes t_alias (filter p l)) /\ Forall target_row_ok (filter p l).
Proof.
  intros (H1 & H2 & H3 & H4). split; [now apply NoDup_map_filter |].
  split; [now apply NoDup_map_filter |].
  split; [now apply NoDup_somes_filter |].
  rewrite Forall_forall in *. intros x Hx. apply filter_In in Hx. now apply H4.
Qed.

Lemma targets_ok_thins {A} (c : M A) :
  thins targets c -> maintains targets_ok c.
Proof.
  intros H w Hw. destruct (H w) as [p Hp]. unfold targets_ok in *.
  rewrite Hp. now apply targets_ok_filter.
Qed.

Lemma snd_target_get_instance id w : snd (target_get_instance id w) = w.
Proof. unfold target_get_instance. now destruct (target_query_sql _ w). Qed.

Lemma target_get_instance_cases id w :
  target_get_instance id w = (Raise (InstanceNotFound services_iscsitarget id), w)
  \/ exists r, target_get_instance id w = (Ok (target_extend w r), w)
               /\ In r (targets w) /\ t_id r = id.
Proof.
  unfold target_get_instance, target_query_sql, datastore_query.
  destruct (filter _ _) as [| x l] eqn:E; [now left | right].
  assert (H : In x (filter (fun t => t_id t =? id) (rows TargetT w)))
    by (rewrite E; now left).
  apply filter_In in H. destruct H as [H1 H2].
  exists x. split; [reflexivity |]. split; [exact H1 | lia].
Qed.

Lemma thins_targets_create_tail pk groups :
  thins targets
    (try_except (target_save_groups pk groups None)
       (fun e => _ <- datastore_delete TargetT pk ;; raise e) ;;;
     _service_change "iscsitarget" "reload" ;;;
     target_get_instance pk).
Proof. thins_tac. Qed.

Lemma target_create_maintains data : maintains targets_ok (target_do_create data).
Proof.
  intros w Hw. unfold target_do_create. rewrite bind_get_world.
  destruct (target_validate w data "iscsi_target_create" None) eqn:V; [| exact Hw].
  apply target_validate_accepts in V. destruct V as (V1 & V2 & V3).
  cbn [check]. rewrite bind_ret. cbv zeta.
  destruct (insert_cases TargetT (target_row_of data) w) as [I | I].
  - rewrite (bind_fail _ _ _ _ _ I). exact Hw.
  - rewrite (bind_step _ _ _ _ _ I).
    apply (targets_ok_thins _ (thins_targets_create_tail _ _)).
    destruct Hw as (H1 & H2 & H3 & H4). unfold targets_ok. cbn.
    split; [| split; [| split]].
    + apply NoDup_map_snoc; [exact H1 |]. cbn. apply fresh_id_not_in.
    + apply NoDup_map_snoc; [exact H2 |]. cbn.
      intros Hin. apply in_map_iff in Hin. destruct Hin as (r & E & Hr).
      exact (V2 r Hr E).
    + apply NoDup_somes_snoc; [exact H3 |]. cbn. intros a Ea Hin.
      rewrite Ea in V3. destruct V3 as (_ & _ & V3).
      apply somes_In in Hin. destruct Hin as (r & Hr & E).
      exact (V3 r Hr E).
    + apply Forall_app. split; [exact H4 |]. constructor; [| constructor].
      split; [exact V1 |]. cbn. destruct (target_alias data); tauto.
Qed.

Lemma preserves_targets_update_tail id groups oldgroups :
  preserves targets
    (target_save_groups id groups (Some oldgroups) ;;;
     _service_change "iscsitarget" "reload" ;;;
     target_get_instance id).
Proof. frame_tac. Qed.

Lemma target_update_maintains id data : maintains targets_ok (target_do_update id data).
Proof.
  intros w Hw. unfold target_do_update.
  destruct (target_get_instance_cases id w) as [E | (r0 & E & Hr0 & Hid)].
  { rewrite (bind_fail _ _ _ _ _ E). exact Hw. }
  rewrite (bind_step _ _ _ _ _ E). cbv zeta. rewrite bind_get_world.
  destruct (target_validate w _ "iscsi_target_create" _) eqn:V; [| exact Hw].
  apply target_validate_accepts in V. destruct V as (V1 & V2 & V3).
  cbn [check]. rewrite bind_ret.
  match goal with
  | |- context [datastore_update TargetT id ?g] =>
      destruct (update_cases TargetT id g w) as [U | U]
  end.
  - rewrite (bind_fail _ _ _ _ _ U). exact Hw.
  - rewrite (bind_step _ _ _ _ _ U).
    apply (targets_ok_thins _
             (preserves_thins _ _ (preserves_targets_update_tail _ _ _))).
    destruct Hw as (H1 & H2 & H3 & H4). unfold targets_ok. cbn.
    assert (Hsame : forall r, In r (targets w) ->
                              updated_row (Some (target_extend w r0)) r -> r = r0).
    { intros r Hr Hu. cbn in Hu. inversion Hu as [Hk].
      apply (key_determines_row t_id (targets w)); auto. }
    split; [| split; [| split]].
    + rewrite (map_key_update t_id); [exact H1 |]. intros r _ Er. exact Er.
    + apply (NoDup_map_update t_id t_name); [exact H1 | exact H2 |].
      intros r Hr Er. cbn.
      destruct (in_dec string_dec
                  (target_name (target_merge (target_extend w r0) data))
                  (map t_name (targets w))) as [Hin | Hout]; [left | now right].
      apply in_map_iff in Hin. destruct Hin as (r' & En & Hr').
      pose proof (Hsame r' Hr' (V2 r' Hr' En)) as ->.
      assert (r = r0) by (apply (key_determines_row t_id (targets w));
                          [exact H1 | exact Hr | exact Hr0 | congruence]).
      subst r. symmetry. exact En.
    + apply (NoDup_somes_update t_id t_alias); [exact H1 | exact H3 |].
      intros r a Hr Er Ea.
      change (target_alias (target_merge (target_extend w r0) data) = Some a) in Ea.
      destruct (in_dec string_dec a (somes t_alias (targets w))) as [Hin | Hout];
        [left | now right].
      apply somes_In in Hin. destruct Hin as (r' & Hr' & Ea').
      rewrite Ea in V3. destruct V3 as (_ & _ & V3).
      pose proof (Hsame r' Hr' (V3 r' Hr' Ea')) as ->.
      assert (r = r0) by (apply (key_determines_row t_id (targets w));
                          [exact H1 | exact Hr | exact Hr0 | congruence]).
      subst r. exact Ea'.
    + rewrite Forall_forall in *. intros x Hx.
      apply in_map_iff in Hx. destruct Hx as (r & <- & Hr).
      destruct (t_id r =? id); [| now apply H4].
      split; [exact V1 |].
      change (match target_alias (target_merge (target_extend w r0) data) with
              | Some a => str_contains dquote a = false /\ a <> "target"
              | None => True
              end).
      destruct (target_alias _); tauto.
Qed.

Lemma frame_targets m :
  match m with
  | target_create _ | target_update _ _ | target_delete _ _ => True
  | _ => preserves targets (run_mutation m)
  end.
Proof. destruct m; try exact I; frame_tac. Qed.

Lemma thins_targets_delete id force : thins targets (target_do_delete id force).
Proof. thins_tac. Qed.

Lemma thins_targets_detach attachments :
  thins targets (attachment_delete attachments).
Proof. thins_tac. Qed.

(** X6: once the targets have distinct primary keys, distinct names and
    distinct aliases, every name is one [RE_TARGET_NAME] matches and no
    alias holds a double quote or is the reserved word, this stays so
    whatever operation runs next and however it ends. *)
Theorem X6_target_names_stay_unique :
  forall (o : Operation) (w : World),
    targets_ok w -> targets_ok (snd (run_operation o w)).
Proof.
  intros [m | attachments] w Hw; cbn [run_operation].
  - pose proof (frame_targets m) as F.
    destruct m; cbn [run_mutation];
      try (apply (targets_ok_thins _ (preserves_thins _ _ F)); exact Hw).
    + apply maintains_void; [| exact Hw]. apply target_create_maintains.
    + apply maintains_void; [| exact Hw]. apply target_update_maintains.
    + apply maintains_void; [| exact Hw].
      apply targets_ok_thins, thins_targets_delete.
  - apply (targets_ok_thins _ (thins_targets_detach attachments)). exact Hw.
Qed.

Lemma X6_second_target_with_an_alias :
  targets_ok world_one_target
  /\ targets_ok
       (snd (run_operation
               (OpMutation
                  (target_create
                     {| target_id := None; target_name := "t2";
                        target_alias := Some "second"; target_mode := "ISCSI";
                        target_groups := [] |}))
               world_one_target)).
Proof.
  assert (H : targets_ok world_one_target).
  { unfold targets_ok. cbn.
    split; [constructor; [intros [] | constructor] |].
    split; [constructor; [intros [] | constructor] |].
    split; [constructor |].
    constructor; [| constructor]. split; [reflexivity | exact I]. }
  split; [exact H |]. apply X6_target_names_stay_unique. exact H.
Defined.

(** ** LUNs and extents of a target stay distinct *)

Lemma targetextent_query_empty flt w :
  nonempty (targetextent_query flt w) = false ->
  forall r, In r (targetextents w) -> flt r = false.
Proof.
  unfold targetextent_query, datastore_query. intros H.
  apply nonempty_false in H. apply map_eq_nil in H.
  now apply filter_nil_forall.
Qed.

Lemma opt_Z_eqb_eq a b : opt_Z_eqb a b = true <-> a = b.
Proof.
  destruct a as [x |], b as [y |]; cbn; try (split; congruence).
  rewrite Z.eqb_eq. split; congruence.
Qed.

(** What the two uniqueness checks of [validate] establish. *)
Lemma targetextent_validate_accepts w data schema old l :
  targetextent_validate w data schema old = (l, []) ->
  ((exists o, old = Some o /\ lunid o = Some l)
   \/ forall r, In r (targetextents w) -> target_lun r <> (target data, l))
  /\ ((exists o, old = Some o /\ target o = target data)
      \/ forall r, In r (targetextents w) ->
                   target_extent r <> (target data, extent data)).
Proof.
  unfold targetextent_validate. cbv zeta. intros H. inversion H as [[Hl Hv]].
  apply app_eq_nil in Hv. destruct Hv as [_ Hv].
  apply app_eq_nil in Hv. destruct Hv as [H2 H3]. rewrite Hl in *. split.
  - destruct (opt_Z_eqb _ (Some l)) eqn:O in H2; cbn [negb andb] in H2.
    + left. apply opt_Z_eqb_eq in O. destruct old as [o |]; [| discriminate O].
      now exists o.
    + right. destruct (nonempty _) eqn:N in H2; [discriminate H2 |].
      intros r Hr E. pose proof (targetextent_query_empty _ _ N r Hr) as Q.
      cbn beta in Q. unfold target_lun in E. inversion E as [[E1 E2]].
      rewrite E1, E2, !Z.eqb_refl in Q. discriminate Q.
  - destruct (opt_Z_eqb _ (Some (target data))) eqn:O in H3; cbn [negb andb] in H3.
    + left. apply opt_Z_eqb_eq in O. destruct old as [o |]; [| discriminate O].
      exists o. split; [reflexivity |]. congruence.
    + right. destruct (nonempty _) eqn:N in H3; [discriminate H3 |].
      intros r Hr E. pose proof (targetextent_query_empty _ _ N r Hr) as Q.
      cbn beta in Q. unfold target_extent in E. inversion E as [[E1 E2]].
      rewrite E1, E2, !Z.eqb_refl in Q. discriminate Q.
Qed.

Lemma associations_ok_thins {A} (c : M A) :
  thins targetextents c -> maintains associations_ok c.
Proof.
  intros H w (H1 & H2 & H3). destruct (H w) as [p Hp]. unfold associations_ok.
  rewrite Hp. split; [| split]; now apply NoDup_map_filter.
Qed.

Lemma not_in_map_of {A B} (f : A -> B) (l : list A) b :
  (forall r, In r l -> f r <> b) -> ~ In b (map f l).
Proof.
  intros H Hin. apply in_map_iff in Hin. destruct Hin as (r & E & Hr).
  exact (H r Hr E).
Qed.

Lemma association_create_maintains data :
  maintains associations_ok (targetextent_do_create data).
Proof.
  intros w Hw. unfold targetextent_do_create. rewrite bind_get_world.
  destruct (targetextent_validate w data "iscsi_targetextent_create" None)
    as [l verrors] eqn:V.
  destruct verrors as [| e verrors]; [| exact Hw].
  apply targetextent_validate_accepts in V. destruct V as [V1 V2].
  destruct V1 as [(o & Eo & _) | V1]; [discriminate Eo |].
  destruct V2 as [(o & Eo & _) | V2]; [discriminate Eo |].
  cbn [check]. rewrite bind_ret.
  match goal with
  | |- context [datastore_insert TargetExtentT ?r] =>
      destruct (insert_cases TargetExtentT r w) as [E | E]
  end.
  - rewrite (bind_fail _ _ _ _ _ E). exact Hw.
  - rewrite (bind_step _ _ _ _ _ E). unfold _service_change.
    rewrite bind_emit, snd_targetextent_get_instance.
    destruct Hw as (H1 & H2 & H3). unfold associations_ok. cbn.
    split; [| split]; apply NoDup_map_snoc; try assumption; cbn.
    + apply fresh_id_not_in.
    + now apply not_in_map_of.
    + now apply not_in_map_of.
Qed.

Lemma association_update_maintains id data :
  teu_target data = None -> teu_extent data = None ->
  maintains associations_ok (targetextent_do_update id data).
Proof.
  intros Ht Hx w Hw. unfold targetextent_do_update.
  destruct (targetextent_get_instance_cases id w) as [E | (r0 & E & Hr0 & Hid)].
  { rewrite (bind_fail _ _ _ _ _ E). exact Hw. }
  rewrite (bind_step _ _ _ _ _ E). cbv zeta. rewrite bind_get_world.
  match goal with
  | |- context [targetextent_validate ?w ?d ?s ?o] =>
      destruct (targetextent_validate w d s o) as [l verrors] eqn:V
  end.
  destruct verrors as [| e verrors]; [| exact Hw].
  apply targetextent_validate_accepts in V. destruct V as [V1 _].
  cbn [check]. rewrite bind_ret.
  match goal with
  | |- context [datastore_update TargetExtentT id ?g] =>
      destruct (update_cases TargetExtentT id g w) as [U | U]
  end.
  - rewrite (bind_fail _ _ _ _ _ U). exact Hw.
  - rewrite (bind_step _ _ _ _ _ U). unfold _service_change.
    rewrite bind_emit, snd_targetextent_get_instance.
    destruct Hw as (H1 & H2 & H3). unfold associations_ok. cbn.
    unfold targetextent_merge in *. rewrite Ht, Hx in *. cbn in *.
    assert (Hsame : forall r, In r (targetextents w) -> te_id r = id -> r = r0).
    { intros r Hr Er. apply (key_determines_row te_id (targetextents w)); auto.
      congruence. }
    split; [| split].
    + rewrite (map_key_update te_id); [exact H1 |]. intros r _ Er. exact Er.
    + apply (NoDup_map_update te_id target_lun); [exact H1 | exact H2 |].
      intros r Hr Er. rewrite (Hsame r Hr Er). unfold target_lun. cbn.
      destruct V1 as [(o & Eo & El) | V1].
      * left. inversion Eo; subst o. cbn in El.
        destruct (teu_lunid data); inversion El; reflexivity.
      * right. now apply not_in_map_of.
    + apply (NoDup_map_update te_id target_extent); [exact H1 | exact H3 |].
      intros r Hr Er. rewrite (Hsame r Hr Er). now left.
Qed.

(** X7: once no target uses a LUN twice and no extent is bound twice to
    a target (and primary keys are distinct), this stays so whatever
    operation runs next and however it ends, as long as an association
    update sends neither [target] nor [extent]. *)
Theorem X7_luns_of_a_target_stay_distinct :
  forall (o : Operation) (w : World),
    keeps_binding o = true ->
    associations_ok w -> associations_ok (snd (run_operation o w)).
Proof.
  intros [m | attachments] w K Hw; cbn [run_operation].
  - pose proof (frame_targetextents m) as F.
    destruct m; cbn [run_mutation];
      try (apply (associations_ok_thins _ (preserves_thins _ _ F)); exact Hw).
    + apply maintains_void; [| exact Hw].
      apply associations_ok_thins, thins_targetextents_target_delete.
    + apply maintains_void; [| exact Hw].
      apply associations_ok_thins, thins_targetextents_extent_delete.
    + apply maintains_void; [| exact Hw]. apply association_create_maintains.
    + apply maintains_void; [| exact Hw]. cbn in K.
      destruct (teu_target data) eqn:Et; [discriminate K |].
      destruct (teu_extent data) eqn:Ex; [discriminate K |].
      now apply association_update_maintains.
    + apply maintains_void; [| exact Hw].
      apply associations_ok_thins, thins_targetextents_delete.
  - apply (associations_ok_thins _ (thins_targetextents_detach attachments)).
    exact Hw.
Qed.

Lemma X7_change_of_a_lun :
  keeps_binding
    (OpMutation
       (targetextent_update 3
          {| teu_target := None; teu_lunid := Some 2; teu_extent := None |}))
  = true
  /\ associations_ok world_luns_013
  /\ associations_ok
       (snd (run_operation
               (OpMutation
                  (targetextent_update 3
                     {| teu_target := None; teu_lunid := Some 2;
                        teu_extent := None |}))
               world_luns_013)).
Proof.
  assert (H : associations_ok world_luns_013).
  { unfold associations_ok, target_lun, target_extent. cbn.
    repeat split;
      repeat (constructor; [cbn; intros H;
                            repeat (destruct H as [H | H]; [discriminate H |]);
                            exact H |]);
      constructor. }
  split; [reflexivity |]. split; [exact H |].
  apply X7_luns_of_a_target_stay_distinct; [reflexivity | exact H].
Defined.

(** ** Writes the datastore carries out *)

Lemma insert_run {R} (T : TableOps R) (r : R) w :
  next_write_ok w = true ->
  let w0 := set_faults (tl (faults w)) w in
  let pk := fresh_id (map (row_id T) (rows T w0)) in
  datastore_insert T r w
  = (Ok pk,
     set_log (log w0 ++ [EvInsert (tbl T) pk])
       (set_rows T (rows T w0 ++ [with_id T pk r]) w0)).
Proof. intros H. unfold datastore_insert. now rewrite write_run. Qed.

Lemma update_run {R} (T : TableOps R) id (g : R -> R) w :
  next_write_ok w = true ->
  let w0 := set_faults (tl (faults w)) w in
  datastore_update T id g w
  = (Ok tt,
     set_log (log w0 ++ [EvUpdate (tbl T) id])
       (set_rows T
          (map (fun r => if row_id T r =? id then g r else r) (rows T w0)) w0)).
Proof. intros H. unfold datastore_update. now rewrite write_run. Qed.

(** ** Moving an association to another target *)

Lemma targetextent_query_none flt w :
  (forall r, In r (targetextents w) -> flt r = false) ->
  targetextent_query flt w = [].
Proof.
  intros H. unfold targetextent_query, datastore_query.
  now rewrite filter_none.
Qed.

Lemma targetextent_get_instance_unique w id r0 :
  NoDup (map te_id (targetextents w)) ->
  In r0 (targetextents w) -> te_id r0 = id ->
  targetextent_get_instance id w = (Ok (targetextent_extend r0), w).
Proof.
  intros Hk Hr0 Hid.
  destruct (targetextent_get_instance_cases id w) as [E | (r & E & Hr & Er)].
  - exfalso. unfold targetextent_get_instance in E.
    destruct (targetextent_query _ w) eqn:Q; [| discriminate E].
    unfold targetextent_query, datastore_query in Q. apply map_eq_nil in Q.
    pose proof (filter_nil_forall _ _ Q r0 Hr0) as F. cbn beta in F.
    rewrite Hid, Z.eqb_refl in F. discriminate F.
  - rewrite E.
    assert (r = r0) by (apply (key_determines_row te_id (targetextents w));
                        auto; congruence).
    now subst r.
Qed.

(** The first row of key [id] once the rows of that key were replaced. *)
Lemma get_instance_after_update (g : TargetExtentRow -> TargetExtentRow) w w' id r0 :
  NoDup (map te_id (targetextents w)) ->
  In r0 (targetextents w) -> te_id r0 = id ->
  (forall r, te_id (g r) = te_id r) ->
  targetextents w'
  = map (fun r => if te_id r =? id then g r else r) (targetextents w) ->
  targetextent_get_instance id w' = (Ok (targetextent_extend (g r0)), w').
Proof.
  intros Hk Hr0 Hid Hg Hw'.
  apply targetextent_get_instance_unique.
  - rewrite Hw'. rewrite (map_key_update te_id); [exact Hk |].
    intros r _ Er. now rewrite Hg.
  - rewrite Hw'. apply in_map_iff. exists r0. split; [| exact Hr0].
    now rewrite Hid, Z.eqb_refl.
  - now rewrite Hg.
Qed.

(** The LUN [validate] leaves in the data, without the allocation. *)
Lemma targetextent_validate_passes w data schema old l :
  match lunid data with Some k => k | None => allocate_lunid (target_lunids (target data) w) end
  = l ->
  0 <= l <= lun_map_size - 1 ->
  (opt_Z_eqb (match old with Some o => lunid o | None => None end) (Some l) = true
   \/ forall r, In r (targetextents w) -> target_lun r <> (target data, l)) ->
  (opt_Z_eqb (match old with Some o => Some (target o) | None => None end)
     (Some (target data)) = true
   \/ forall r, In r (targetextents w) ->
                target_extent r <> (target data, extent data)) ->
  targetextent_validate w data schema old = (l, []).
Proof.
  intros Hl Hrange H1 H2. unfold targetextent_validate. cbv zeta.
  rewrite Hl. f_equal.
  replace ((l <? 0) || (l >? lun_map_size - 1)) with false.
  2: { symmetry. apply orb_false_iff. rewrite Z.gtb_ltb.
       split; apply Z.ltb_ge; lia. }
  cbn [app].
  match goal with
  | |- (if ?b then _ else _) ++ _ = [] => replace b with false
  end.
  2: { symmetry. destruct H1 as [-> | H1]; [reflexivity |].
       rewrite targetextent_query_none; [apply andb_false_r |].
       intros r Hr. specialize (H1 r Hr). unfold target_lun in H1.
       destruct (Z.eqb_spec (te_lunid r) l) as [E1 | _]; [| reflexivity].
       destruct (Z.eqb_spec (te_target r) (target data)) as [E2 | _];
         [| reflexivity].
       exfalso. apply H1. congruence. }
  cbn [app].
  match goal with
  | |- (if ?b then _ else _) = [] => replace b with false; [reflexivity |]
  end.
  symmetry. destruct H2 as [-> | H2]; [reflexivity |].
  rewrite targetextent_query_none; [apply andb_false_r |].
  intros r Hr. specialize (H2 r Hr). unfold target_extent in H2.
  destruct (Z.eqb_spec (te_target r) (target data)) as [E1 | _]; [| reflexivity].
  destruct (Z.eqb_spec (te_extent r) (extent data)) as [E2 | _]; [| reflexivity].
  exfalso. apply H2. congruence.
Qed.

(** X8: an update that moves an association to another target keeps
    the LUN it had and does not check it against the LUNs of the new
    target: when that LUN is in range and the extent is not yet bound
    to the new target, the update returns, and the new target then
    holds two associations with the same LUN. *)
Theorem X8_move_keeps_lun_unchecked :
  forall (w : World) (id t : Z) (r0 r1 : TargetExtentRow),
    NoDup (map te_id (targetextents w)) ->
    In r0 (targetextents w) -> te_id r0 = id ->
    In r1 (targetextents w) -> te_target r1 = t -> te_lunid r1 = te_lunid r0 ->
    te_target r0 <> t ->
    0 <= te_lunid r0 <= lun_map_size - 1 ->
    (forall r, In r (targetextents w) -> target_extent r <> (t, te_extent r0)) ->
    next_write_ok w = true ->
    let moved :=
      {| te_id := id; te_extent := te_extent r0; te_target := t;
         te_lunid := te_lunid r0 |} in
    fst (targetextent_do_update id (move_to t) w)
    = Ok (targetextent_extend moved)
    /\ In r1 (targetextents (snd (targetextent_do_update id (move_to t) w)))
    /\ In moved (targetextents (snd (targetextent_do_update id (move_to t) w)))
    /\ r1 <> moved
    /\ target_lun r1 = target_lun moved.
Proof.
  intros w id t r0 r1 Hk Hr0 Hid Hr1 Ht1 Hl1 Hne Hrange Hfree Hwrite moved.
  unfold targetextent_do_update.
  rewrite (bind_step _ _ _ _ _ (targetextent_get_instance_unique w id r0 Hk Hr0 Hid)).
  cbv zeta. rewrite bind_get_world.
  assert (V : targetextent_validate w
                (targetextent_merge (targetextent_extend r0) (move_to t))
                "iscsi_targetextent_update" (Some (targetextent_extend r0))
              = (te_lunid r0, [])).
  { apply targetextent_validate_passes.
    - reflexivity.
    - exact Hrange.
    - left. cbn. apply Z.eqb_refl.
    - right. exact Hfree. }
  rewrite V. cbn [check]. rewrite bind_ret.
  rewrite (bind_step _ _ _ _ _ (update_run TargetExtentT id _ w Hwrite)).
  unfold _service_change. rewrite bind_emit.
  set (g := fun r : TargetExtentRow =>
              {| te_id := te_id r;
                 te_extent := extent (targetextent_merge (targetextent_extend r0)
                                        (move_to t));
                 te_target := target (targetextent_merge (targetextent_extend r0)
                                        (move_to t));
                 te_lunid := te_lunid r0 |}).
  match goal with
  | |- context [targetextent_get_instance id ?w1] =>
      assert (G : targetextent_get_instance id w1
                  = (Ok (targetextent_extend (g r0)), w1))
  end.
  { apply (get_instance_after_update g w); auto. }
  rewrite G. cbn [fst snd].
  assert (Hmoved : g r0 = moved).
  { unfold g, moved. cbn. now rewrite Hid. }
  rewrite Hmoved. split; [reflexivity |].
  assert (Hid1 : te_id r1 <> id).
  { intros E. apply Hne. rewrite <- Ht1. f_equal.
    apply (key_determines_row te_id (targetextents w)); auto. congruence. }
  split; [| split; [| split]].
  - cbn. apply in_map_iff. exists r1. split; [| exact Hr1].
    destruct (Z.eqb_spec (te_id r1) id); [contradiction | reflexivity].
  - cbn. apply in_map_iff. exists r0. split; [| exact Hr0].
    rewrite Hid, Z.eqb_refl. reflexivity.
  - intros E. apply Hid1. rewrite E. reflexivity.
  - unfold target_lun, moved. cbn. congruence.
Qed.

Lemma X8_two_associations_on_lun_0 :
  let moved := {| te_id := 1; te_extent := 1; te_target := 2; te_lunid := 0 |} in
  let r1 := {| te_id := 2; te_extent := 2; te_target := 2; te_lunid := 0 |} in
  fst (targetextent_do_update 1 (move_to 2) world_two_targets_lun_0)
  = Ok (targetextent_extend moved)
  /\ In r1 (targetextents
              (snd (targetextent_do_update 1 (move_to 2) world_two_targets_lun_0)))
  /\ In moved (targetextents
                 (snd (targetextent_do_update 1 (move_to 2) world_two_targets_lun_0)))
  /\ r1 <> moved
  /\ target_lun r1 = target_lun moved.
Proof.
  apply (X8_move_keeps_lun_unchecked world_two_targets_lun_0 1 2
           {| te_id := 1; te_extent := 1; te_target := 1; te_lunid := 0 |}
           {| te_id := 2; te_extent := 2; te_target := 2; te_lunid := 0 |}).
  - cbn. constructor; [intros [H | []]; discriminate H |].
    constructor; [intros [] | constructor].
  - cbn. now left.
  - reflexivity.
  - cbn. right. now left.
  - reflexivity.
  - reflexivity.
  - cbn. discriminate.
  - unfold lun_map_size. cbn. lia.
  - intros r [<- | [<- | []]]; unfold target_extent; cbn; discriminate.
  - reflexivity.
Defined.

(** ** A create without LUN finds a free LUN while the map has room *)

Lemma py_range_NoDup a b : NoDup (py_range a b).
Proof.
  unfold py_range. apply NoDup_map_NoDup_ForallPairs; [| apply seq_NoDup].
  intros x y _ _ E. lia.
Qed.

Lemma py_range_length a b : List.length (py_range a b) = Z.to_nat (b - a).
Proof. unfold py_range. now rewrite length_map, length_seq. Qed.

(** The smallest unused number is at most the number of used ones. *)
Lemma least_unused_bound used l :
  least_unused used l -> l <= Z.of_nat (List.length used).
Proof.
  intros (H0 & _ & Hall).
  assert (Hincl : incl (py_range 0 l) used).
  { intros k Hk. apply py_range_In in Hk. now apply Hall. }
  pose proof (NoDup_incl_length (py_range_NoDup 0 l) Hincl) as H.
  rewrite py_range_length in H. lia.
Qed.

Lemma allocated_is_least t w :
  luns_in_range w ->
  least_unused (used_lunids t w) (allocate_lunid (target_lunids t w)).
Proof.
  intros Hw. apply least_unused_ext with (l1 := target_lunids t w).
  - apply target_lunids_In.
  - apply allocate_lunid_least; [apply target_lunids_sorted |].
    pose proof (luns_in_range_used t w Hw) as Hpos.
    rewrite Forall_forall in *. intros x Hx. apply Hpos.
    now apply target_lunids_In.
Qed.

Lemma get_instance_of_inserted w0 (r : TargetExtentRow) :
  let pk := fresh_id (map te_id (targetextents w0)) in
  forall w1,
    targetextents w1 = targetextents w0 ++ [with_id TargetExtentT pk r] ->
    targetextent_get_instance pk w1
    = (Ok (targetextent_extend (with_id TargetExtentT pk r)), w1).
Proof.
  intros pk w1 E. subst pk.
  unfold targetextent_get_instance, targetextent_query, datastore_query.
  change (rows TargetExtentT w1) with (targetextents w1). rewrite E.
  rewrite filter_app.
  pose proof (filter_fresh TargetExtentT (targetextents w0)) as F.
  cbn [row_id TargetExtentT] in F. rewrite F. cbn.
  now rewrite Z.eqb_refl.
Qed.

(** X9: a create that carries no LUN returns, with the smallest LUN the
    target does not use, whenever the stored LUNs are in range, the
    target has fewer than 16383 associations, the extent is not yet
    bound to the target and the datastore carries out the write: the
    allocated LUN never collides and never leaves the LUN map. *)
Theorem X9_create_finds_a_free_lun :
  forall (w : World) (data : TargetExtent),
    lunid data = None ->
    luns_in_range w ->
    Z.of_nat (List.length (used_lunids (target data) w)) < lun_map_size ->
    (forall r, In r (targetextents w) ->
               target_extent r <> (target data, extent data)) ->
    next_write_ok w = true ->
    exists id l,
      fst (targetextent_do_create data w)
      = Ok {| te_id_ := Some id; target := target data; lunid := Some l;
              extent := extent data |}
      /\ least_unused (used_lunids (target data) w) l
      /\ 0 <= l <= lun_map_size - 1.
Proof.
  intros w data Hnone Hw Hroom Hfree Hwrite.
  pose proof (allocated_is_least (target data) w Hw) as Hleast.
  set (l := allocate_lunid (target_lunids (target data) w)) in *.
  assert (Hrange : 0 <= l <= lun_map_size - 1).
  { pose proof (least_unused_bound _ _ Hleast). destruct Hleast as (H0 & _). lia. }
  assert (V : targetextent_validate w data "iscsi_targetextent_create" None
              = (l, [])).
  { apply targetextent_validate_passes.
    - now rewrite Hnone.
    - exact Hrange.
    - right. intros r Hr E. destruct Hleast as (_ & Hout & _). apply Hout.
      unfold used_lunids. apply in_map_iff. exists r. unfold target_lun in E.
      inversion E as [[E1 E2]]. split; [reflexivity |].
      apply filter_In. split; [exact Hr |]. rewrite E1. apply Z.eqb_refl.
    - right. exact Hfree. }
  unfold targetextent_do_create. rewrite bind_get_world, V.
  cbn [check]. rewrite bind_ret.
  rewrite (bind_step _ _ _ _ _ (insert_run TargetExtentT _ w Hwrite)).
  unfold _service_change. rewrite bind_emit.
  erewrite get_instance_of_inserted by reflexivity.
  cbn [fst]. eexists. exists l. split; [reflexivity |]. split; assumption.
Qed.

Lemma X9_create_on_luns_013 :
  exists id l,
    fst (targetextent_do_create
           {| te_id_ := None; target := 1; lunid := None; extent := 4 |}
           world_luns_013)
    = Ok {| te_id_ := Some id; target := 1; lunid := Some l; extent := 4 |}
    /\ least_unused (used_lunids 1 world_luns_013) l
    /\ 0 <= l <= lun_map_size - 1.
Proof.
  apply (X9_create_finds_a_free_lun world_luns_013
           {| te_id_ := None; target := 1; lunid := None; extent := 4 |}).
  - reflexivity.
  - unfold luns_in_range, lun_map_size. cbn. repeat constructor; cbn; lia.
  - unfold lun_map_size. cbn. lia.
  - intros r [<- | [<- | [<- | []]]]; unfold target_extent; cbn; discriminate.
  - reflexivity.
Defined.

(** ** The credential group of a portal's discovery exists *)





Lemma snd_portal_get_instance id w : snd (portal_get_instance id w) = w.
Proof. unfold portal_get_instance. now destruct (portal_query _ w). Qed.

Lemma portal_get_instance_cases id w :
  portal_get_instance id w
  = (Raise (InstanceNotFound services_iscsitargetportal id), w)
  \/ exists r, portal_get_instance id w = (Ok (portal_config_extend w r), w)
               /\ In r (portals w) /\ p_id r = id.
Proof.
  unfold portal_get_instance, portal_query.
  destruct (filter _ _) as [| x l] eqn:E; [now left | right].
  assert (H : In x (filter (fun p => opt_Z_eqb (portal_id p) (Some id))
                      (map (portal_config_extend w) (portals w))))
    by (rewrite E; now left).
  apply filter_In in H. destruct H as [H1 H2].
  apply in_map_iff in H1. destruct H1 as (r & <- & Hr).
  exists r. split; [reflexivity |]. split; [exact Hr |].
  apply opt_Z_eqb_eq in H2. cbn in H2. congruence.
Qed.




Lemma preserves_portals_update_tail :
  preserves portals
    (_service_change "iscsitarget" "reload" ;;; ret tt).
Proof. frame_tac. Qed.



Lemma delete_cases {R} (T : TableOps R) id w :
  let w0 := set_faults (tl (faults w)) w in
  datastore_delete T id w = (Raise (DatastoreError (tbl T)), w0)
  \/ datastore_delete T id w
     = (Ok true,
        set_log (log w0 ++ [EvDelete (tbl T) id])
          (set_rows T (filter (fun r => negb (row_id T r =? id)) (rows T w0)) w0)).
Proof.
  unfold datastore_delete, datastore_write, bind, take_fault.
  destruct (hd false (faults w)); [left | right]; reflexivity.
Qed.


















(** ** A portal update leaves keys and tags alone *)

Lemma portal_update_maintains_no_faults pk data :
  maintains no_faults (portal_do_update pk data).
Proof.
  unfold portal_do_update, _service_change.
  apply maintains_bind; [apply maintains_portal_get_instance |]. intros old.
  apply maintains_bind; [apply maintains_get_world |]. intros w0.
  apply maintains_bind; [apply maintains_check |]. intros _.
  apply maintains_bind; [apply save_listen_no_faults |]. intros _.
  apply maintains_bind; [apply no_faults_update; intros; reflexivity |]. intros _.
  apply maintains_bind; [apply no_faults_emit |]. intros _.
  apply maintains_portal_get_instance.
Qed.

(** X12: a portal update, however it ends, leaves the primary key and
    the tag of every portal as they were (primary keys being distinct);
    so the portal table that creates and deletes keep, with the tags
    1..N in row order, is kept by updates as well. *)
Theorem X12_portal_update_keeps_tags :
  forall (pk : Z) (data : PortalUpdate) (w : World),
    NoDup (map p_id (portals w)) ->
    let w' := snd (portal_do_update pk data w) in
    map p_id (portals w') = map p_id (portals w)
    /\ map p_tag (portals w') = map p_tag (portals w)
    /\ (portal_table_ok w -> portal_table_ok w').
Proof.
  intros pk data w Hk w'.
  assert (H : map p_id (portals w') = map p_id (portals w)
              /\ map p_tag (portals w') = map p_tag (portals w)).
  { unfold w', portal_do_update.
    destruct (portal_get_instance_cases pk w) as [E | (r0 & E & Hr0 & Hid)].
    { rewrite (bind_fail _ _ _ _ _ E). now split. }
    rewrite (bind_step _ _ _ _ _ E). cbv zeta. rewrite bind_get_world.
    destruct (portal_validate w _ "iscsiportal_update" _) eqn:V; [| now split].
    cbn [check]. rewrite bind_ret.
    match goal with
    | |- context [bind ?c ?k w] =>
        assert (Fp : portals (snd (c w)) = portals w)
          by (apply save_listen_keeps_portals);
        destruct (c w) as [[u | e] w1] eqn:S; cbn [snd] in Fp
    end.
    2: { rewrite (bind_fail _ _ _ _ _ S). cbn [snd]. rewrite Fp. now split. }
    rewrite (bind_step _ _ _ _ _ S).
    match goal with
    | |- context [datastore_update PortalT pk ?g] =>
        destruct (update_cases PortalT pk g w1) as [U | U]
    end.
    - rewrite (bind_fail _ _ _ _ _ U). cbn. rewrite Fp. now split.
    - rewrite (bind_step _ _ _ _ _ U). unfold _service_change.
      rewrite bind_emit, snd_portal_get_instance. cbn. rewrite Fp. split.
      + rewrite (map_key_update p_id); [reflexivity |]. intros r _ Er. exact Er.
      + rewrite map_map. apply map_ext_in. intros r Hr.
        destruct (Z.eqb_spec (p_id r) pk) as [Er | _]; [| reflexivity].
        assert (r = r0) by (apply (key_determines_row p_id (portals w)); auto;
                            congruence).
        subst r. reflexivity. }
  destruct H as [H1 H2]. split; [exact H1 |]. split; [exact H2 |].
  intros (Hf & Hd & Ht). split; [| split].
  - now apply portal_update_maintains_no_faults.
  - now rewrite H1.
  - rewrite H2, Ht. f_equal.
    rewrite <- (length_map p_id (portals w')), H1. symmetry. apply length_map.
Qed.

Lemma X12_update_of_a_comment :
  let data := {| pu_comment := Some "lab"; pu_discovery_authmethod := None;
                 pu_discovery_authgroup := None; pu_listen := None |} in
  NoDup (map p_id (portals world_three_listens))
  /\ fst (portal_do_update 2 data world_three_listens)
     = Ok {| portal_id := Some 2; portal_tag := Some 2; portal_comment := "lab";
             listen := [ {| ip := "10.0.0.1"; port := 3261 |} ];
             discovery_authmethod := Some "NONE"; discovery_authgroup := None |}
  /\ map p_tag (portals (snd (portal_do_update 2 data world_three_listens)))
     = [1; 2].
Proof.
  intros data.
  assert (Hk : NoDup (map p_id (portals world_three_listens))).
  { cbn. constructor; [intros [H | []]; discriminate H |].
    constructor; [intros [] | constructor]. }
  split; [exact Hk |]. split; [vm_compute; reflexivity |].
  destruct (X12_portal_update_keeps_tags 2 data world_three_listens Hk)
    as (_ & H & _).
  rewrite H. reflexivity.
Defined.

(** ** Which operations remove a file *)

Lemma keeps_files_of_preserves {A} (c : M A) : preserves fs_files c -> keeps_files c.
Proof. intros H w. rewrite H. apply incl_refl. Qed.

Lemma keeps_files_bind {A B} (c : M A) (k : A -> M B) :
  keeps_files c -> (forall a, keeps_files (k a)) -> keeps_files (bind c k).
Proof.
  intros Hc Hk w. unfold bind. specialize (Hc w).
  destruct (c w) as [[a | e] w1]; cbn [snd] in *; [| exact Hc].
  eapply incl_tran; [exact Hc | apply Hk].
Qed.

Lemma keeps_files_extent_save data : keeps_files (extent_save data).
Proof.
  unfold extent_save.
  destruct (String.eqb _ _); [| apply keeps_files_of_preserves, preserves_ret].
  destruct (path data) as [p |];
    [| apply keeps_files_of_preserves, preserves_raise].
  cbv zeta. apply keeps_files_bind;
    [apply keeps_files_of_preserves, preserves_get_world |]. intros w0.
  apply keeps_files_bind.
  - destruct (path_isfile _ _);
      [apply keeps_files_of_preserves, preserves_raise |].
    intros w. cbn. apply incl_refl.
  - intros _. apply keeps_files_bind;
      [apply keeps_files_of_preserves, preserves_get_world |]. intros w1.
    apply keeps_files_bind;
      [| intros; apply keeps_files_of_preserves, preserves_ret].
    destruct (negb _); [| apply keeps_files_of_preserves, preserves_ret].
    intros w. cbn. apply incl_appl, incl_refl.
Qed.

Ltac keeps_files_step :=
  first
    [ apply keeps_files_extent_save
    | solve [apply keeps_files_of_preserves; frame_step]
    | apply keeps_files_bind; [| intros] ].

Lemma keeps_files_void {A} (c : M A) : keeps_files c -> keeps_files (void c).
Proof.
  intros H. unfold void. apply keeps_files_bind; [exact H |].
  intros; apply keeps_files_of_preserves, preserves_ret.
Qed.

Lemma frame_files m :
  match m with
  | extent_create _ | extent_update _ _ | extent_delete _ _ _ => True
  | _ => preserves fs_files (run_mutation m)
  end.
Proof. destruct m; try exact I; frame_tac. Qed.

Lemma preserves_files_extent_delete id force :
  preserves fs_files (extent_do_delete id false force).
Proof. frame_tac. Qed.

Lemma preserves_files_delete_tail id force l :
  preserves fs_files
    (for_each l
       (fun target_to_extent : TargetExtent =>
          match te_id_ target_to_extent with
          | Some k => _ <- targetextent_do_delete k force ;; ret tt
          | None => ret tt
          end) ;;;
     try_finally (datastore_delete ExtentT id)
       (_service_change "iscsitarget" "reload")).
Proof. frame_tac. Qed.

(** The step of [do_delete] that removes the file. *)
Lemma remove_step_cases data w :
  let step :=
    delete <- extent_remove_extent_file data ;;
    if negb delete then raise (CallError "Failed to remove extent file")
    else ret tt in
  step w = (Raise (CallError "Failed to remove extent file"), w)
  \/ step w = (Ok tt, w)
  \/ exists p,
       extent_type data = "FILE" /\ path data = Some p
       /\ step w
          = (Ok tt,
             set_log (log w ++ [EvUnlink p])
               (set_fs (filter (fun q => negb (String.eqb q p)) (fs_files w))
                  (fs_others w) w)).
Proof.
  cbv zeta. unfold extent_remove_extent_file, bind.
  destruct (String.eqb_spec (extent_type data) "FILE") as [Et | _].
  - destruct (path data) as [p |]; [| now left].
    destruct (path_isfile w p); [| now left].
    right. right. exists p. auto.
  - right. left. reflexivity.
Qed.

(** What an extent delete with [remove] set may do to the files. *)
Lemma extent_delete_files id force w :
  fs_files (snd (extent_do_delete id true force w)) = fs_files w
  \/ exists r p,
       In r (extents w) /\ e_id r = id /\ e_type r = "FILE" /\ e_path r = Some p
       /\ fs_files (snd (extent_do_delete id true force w))
          = filter (fun q => negb (String.eqb q p)) (fs_files w).
Proof.
  unfold extent_do_delete.
  destruct (extent_get_instance_cases id w) as [E | (r & E & Hr & Hid)].
  { rewrite (bind_fail _ _ _ _ _ E). now left. }
  rewrite (bind_step _ _ _ _ _ E). rewrite bind_get_world. cbv zeta.
  match goal with
  | |- context [bind ?c ?k w] =>
      assert (F : fs_files (snd (c w)) = fs_files w)
        by (destruct (target_active_sessions_for_targets _ w);
            [reflexivity | destruct force; reflexivity]);
      destruct (c w) as [[u | e] w1] eqn:S; cbn [snd] in F
  end.
  2: { rewrite (bind_fail _ _ _ _ _ S). now left. }
  rewrite (bind_step _ _ _ _ _ S).
  destruct (remove_step_cases (extent_extend r) w1)
    as [R | [R | (p & Ht & Hp & R)]].
  - rewrite (bind_fail _ _ _ _ _ R). now left.
  - rewrite (bind_step _ _ _ _ _ R). left.
    rewrite preserves_files_delete_tail. exact F.
  - rewrite (bind_step _ _ _ _ _ R). right. exists r, p.
    repeat split; auto.
    rewrite preserves_files_delete_tail. cbn. now rewrite F.
Qed.

(** X13: no operation removes a regular file unless it is an extent
    delete with [remove] set; neither an extent update, nor the delete
    of a target or of an association, nor the attachment delegate's
    delete unlinks anything.  And a file that an extent delete with
    [remove] set takes away is the path of that FILE extent. *)
Theorem X13_only_extent_delete_removes_files :
  (forall (o : Operation) (w : World),
      unlinks o = false ->
      incl (fs_files w) (fs_files (snd (run_operation o w))))
  /\ (forall (id : Z) (force : bool) (w : World) (q : string),
         In q (fs_files w) ->
         ~ In q (fs_files (snd (extent_do_delete id true force w))) ->
         exists r, In r (extents w) /\ e_id r = id /\ e_type r = "FILE"
                   /\ e_path r = Some q).
Proof.
  split.
  - intros [m | attachments] w U; cbn [run_operation].
    + pose proof (frame_files m) as F.
      destruct m; try (exact (keeps_files_of_preserves _ F w));
        cbn [run_mutation].
      * apply keeps_files_void. unfold extent_do_create, extent_validate.
        repeat keeps_files_step.
      * apply keeps_files_void. unfold extent_do_update, extent_validate.
        repeat keeps_files_step.
      * cbn in U. subst remove. rewrite snd_void.
        rewrite preserves_files_extent_delete. apply incl_refl.
    + assert (F : preserves fs_files (attachment_delete attachments))
        by frame_tac.
      rewrite F. apply incl_refl.
  - intros id force w q Hq Hgone.
    destruct (extent_delete_files id force w) as [E | (r & p & Hr & Hid & Ht & Hp & E)].
    + rewrite E in Hgone. contradiction.
    + exists r. repeat split; auto. rewrite Hp. f_equal.
      destruct (String.eqb_spec q p) as [-> | NE]; [reflexivity |].
      exfalso. apply Hgone. rewrite E. apply filter_In. split; [exact Hq |].
      apply negb_true_iff. now apply String.eqb_neq.
Qed.

Lemma X13_update_keeps_and_delete_removes_its_file :
  incl (fs_files world_file_extent)
    (fs_files
       (snd (run_operation
               (OpMutation
                  (extent_update 1
                     {| eu_name := Some "disk1"; eu_type := None; eu_disk := None;
                        eu_serial := None; eu_path := None; eu_filesize := None;
                        eu_blocksize := None; eu_misc := None |}))
               world_file_extent)))
  /\ fs_files (snd (extent_do_delete 1 true false world_file_extent))
     = ["/mnt/tank/notes"]
  /\ exists r, In r (extents world_file_extent) /\ e_id r = 1
               /\ e_type r = "FILE"
               /\ e_path r = Some "/mnt/tank/iscsi/disk0".
Proof.
  split; [| split].
  - apply (proj1 X13_only_extent_delete_removes_files). reflexivity.
  - vm_compute. reflexivity.
  - apply (proj2 X13_only_extent_delete_removes_files 1 false world_file_extent).
    + cbn. now left.
    + assert (E : fs_files (snd (extent_do_delete 1 true false world_file_extent))
                  = ["/mnt/tank/notes"]) by (vm_compute; reflexivity).
      rewrite E. intros [H | []]. discriminate H.
Defined.

(** ** Deletes are refused while a session is open *)

Lemma active_sessions_found w ids r :
  In r (targets w) -> In (t_id r) ids -> in_use_by_session w r ->
  In (qualified_name (env w) (t_name r))
    (target_active_sessions_for_targets ids w).
Proof.
  intros Hr Hid Hs. unfold target_active_sessions_for_targets. cbv zeta.
  apply filter_In. split; [exact Hs |]. apply mem_str_In.
  apply in_map_iff. exists (target_extend w r). split; [reflexivity |].
  unfold target_query_sql, datastore_query. apply in_map. apply filter_In.
  split; [exact Hr |]. now apply mem_Z_In.
Qed.

Lemma target_get_instance_unique w r :
  NoDup (map t_id (targets w)) -> In r (targets w) ->
  target_get_instance (t_id r) w = (Ok (target_extend w r), w).
Proof.
  intros Hk Hr.
  destruct (target_get_instance_cases (t_id r) w) as [E | (r' & E & Hr' & Er)].
  - exfalso. unfold target_get_instance in E.
    destruct (target_query_sql _ w) eqn:Q; [| discriminate E].
    unfold target_query_sql, datastore_query in Q. apply map_eq_nil in Q.
    pose proof (filter_nil_forall _ _ Q r Hr) as F. cbn beta in F.
    rewrite Z.eqb_refl in F. discriminate F.
  - rewrite E.
    assert (r' = r) by (apply (key_determines_row t_id (targets w)); auto).
    now subst r'.
Qed.

Lemma extent_get_instance_found w x :
  In x (extents w) ->
  exists x', extent_get_instance (e_id x) w = (Ok (extent_extend x'), w)
             /\ In x' (extents w) /\ e_id x' = e_id x.
Proof.
  intros Hx.
  destruct (extent_get_instance_cases (e_id x) w) as [E | (x' & E & Hx' & Ex)].
  - exfalso. unfold extent_get_instance in E.
    destruct (extent_query _ w) eqn:Q; [| discriminate E].
    unfold extent_query in Q.
    assert (Hin : In (extent_extend x)
                    (filter (fun e => opt_Z_eqb (extent_id e) (Some (e_id x)))
                       (map extent_extend (extents w)))).
    { apply filter_In. split; [now apply in_map |]. cbn. apply Z.eqb_refl. }
    rewrite Q in Hin. exact Hin.
  - exists x'. auto.
Qed.

(** X14: while a session is open on a target, a delete without [force]
    of that target, of one of its associations, or of an extent bound
    to it raises a [CallError] and leaves the world exactly as it
    was. *)
Theorem X14_deletes_refused_while_in_use :
  forall (w : World) (r : TargetRow),
    NoDup (map t_id (targets w)) ->
    NoDup (map te_id (targetextents w)) ->
    In r (targets w) ->
    in_use_by_session w r ->
    target_do_delete (t_id r) false w
    = (Raise (CallError ("Target " ^^ t_name r ^^ " is in use.")), w)
    /\ (forall a, In a (targetextents w) -> te_target a = t_id r ->
                  exists msg,
                    targetextent_do_delete (te_id a) false w
                    = (Raise (CallError msg), w))
    /\ (forall x a remove,
           In x (extents w) -> In a (targetextents w) ->
           te_extent a = e_id x -> te_target a = t_id r ->
           exists msg,
             extent_do_delete (e_id x) remove false w
             = (Raise (CallError msg), w)).
Proof.
  intros w r Hkt Hka Hr Hs. split; [| split].
  - unfold target_do_delete.
    rewrite (bind_step _ _ _ _ _ (target_get_instance_unique w r Hkt Hr)).
    rewrite bind_get_world. cbn [target_id target_extend].
    pose proof (active_sessions_found w [t_id r] r Hr (or_introl eq_refl) Hs) as H.
    destruct (target_active_sessions_for_targets [t_id r] w) as [| s l];
      [destruct H |].
    cbn [nonempty]. reflexivity.
  - intros a Ha Et. unfold targetextent_do_delete.
    rewrite (bind_step _ _ _ _ _
               (targetextent_get_instance_unique w (te_id a) a Hka Ha eq_refl)).
    rewrite bind_get_world. cbv zeta. cbn [target targetextent_extend].
    assert (H : In (qualified_name (env w) (t_name r))
                  (target_active_sessions_for_targets [te_target a] w)).
    { apply active_sessions_found; auto. rewrite Et. now left. }
    destruct (target_active_sessions_for_targets [te_target a] w) as [| s l];
      [destruct H |].
    eexists. reflexivity.
  - intros x a remove Hx Ha Ee Et. unfold extent_do_delete.
    destruct (extent_get_instance_found w x Hx) as (x' & E & _ & _).
    rewrite (bind_step _ _ _ _ _ E). rewrite bind_get_world. cbv zeta.
    match goal with
    | |- context [target_active_sessions_for_targets ?ids w] =>
        assert (H : In (qualified_name (env w) (t_name r))
                      (target_active_sessions_for_targets ids w))
    end.
    { apply active_sessions_found; auto. apply in_map_iff.
      exists (targetextent_extend a). split; [exact Et |].
      unfold targetextent_query, datastore_query. apply in_map.
      apply filter_In. split; [exact Ha |]. rewrite Ee. apply Z.eqb_refl. }
    match goal with
    | |- context [target_active_sessions_for_targets ?ids w] =>
        destruct (target_active_sessions_for_targets ids w) as [| s l];
          [destruct H |]
    end.
    eexists. reflexivity.
Qed.

Lemma X14_the_target_with_a_session :
  target_do_delete 1 false world_session_open
  = (Raise (CallError "Target t1 is in use."), world_session_open)
  /\ (exists msg,
         targetextent_do_delete 1 false world_session_open
         = (Raise (CallError msg), world_session_open))
  /\ (exists msg,
         extent_do_delete 1 true false world_session_open
         = (Raise (CallError msg), world_session_open)).
Proof.
  assert (Hkt : NoDup (map t_id (targets world_session_open)))
    by (cbn; constructor; [intros [] | constructor]).
  assert (Hka : NoDup (map te_id (targetextents world_session_open)))
    by (cbn; constructor; [intros [] | constructor]).
  assert (Hr : In {| t_id := 1; t_name := "t1"; t_alias := None; t_mode := "iscsi" |}
                 (targets world_session_open)) by (cbn; now left).
  assert (Hs : in_use_by_session world_session_open
                 {| t_id := 1; t_name := "t1"; t_alias := None; t_mode := "iscsi" |})
    by (cbn; now left).
  destruct (X14_deletes_refused_while_in_use world_session_open _ Hkt Hka Hr Hs)
    as (H1 & H2 & H3).
  split; [exact H1 |]. split.
  - apply (H2 {| te_id := 1; te_extent := 1; te_target := 1; te_lunid := 0 |});
      [cbn; now left | reflexivity].
  - apply (H3 (example_extent_row 1 "vol1" "10000000000face")
             {| te_id := 1; te_extent := 1; te_target := 1; te_lunid := 0 |} true);
      [cbn; now left | cbn; now left | reflexivity | reflexivity].
Defined.

(** ** Sets built from lists *)

Section SetsAreDuplicateFree.
Context {A : Type} (eqb : A -> A -> bool).
Hypothesis eqb_spec : forall x y, eqb x y = true <-> x = y.

Lemma py_set_NoDup l : NoDup (py_set eqb l).
Proof.
  induction l as [| x l IH]; simpl; [constructor |].
  constructor; [| now apply NoDup_filter].
  intros H. apply filter_In in H. destruct H as [_ H].
  apply negb_true_iff in H.
  assert (E : eqb x x = true) by now apply eqb_spec.
  congruence.
Qed.

Lemma set_diff_NoDup a b : NoDup a -> NoDup (set_diff eqb a b).
Proof. intros H. unfold set_diff. now apply NoDup_filter. Qed.
End SetsAreDuplicateFree.

Lemma listen_eqb_eq a b : listen_eqb a b = true <-> a = b.
Proof.
  unfold listen_eqb. rewrite andb_true_iff, String.eqb_eq, Z.eqb_eq.
  destruct a, b; cbn. split; [intros [-> ->]; reflexivity |].
  intros H; inversion H; auto.
Qed.

Lemma pair_of_injective a b : pair_of a = pair_of b -> a = b.
Proof. destruct a, b; unfold pair_of; cbn. intros H; inversion H; reflexivity. Qed.

Lemma NoDup_map_injective {A B} (f : A -> B) l :
  (forall a b, f a = f b -> a = b) -> NoDup l -> NoDup (map f l).
Proof.
  intros Hf H. apply NoDup_map_NoDup_ForallPairs; [| exact H].
  intros a b _ _. apply Hf.
Qed.

(** ** Address and port of a listen row stay unique *)

Lemma listens_ok_thins {A} (c : M A) :
  thins portalips c -> maintains listens_ok c.
Proof.
  intros H w (H1 & H2). destruct (H w) as [p Hp]. unfold listens_ok.
  rewrite Hp. split; now apply NoDup_map_filter.
Qed.

(** The insert loop of [__save_listen], however it ends. *)
Lemma insert_listens pk : forall l w,
  NoDup (map pip_id (portalips w)) ->
  NoDup (map listen_pair (portalips w) ++ map pair_of l) ->
  listens_ok
    (snd (for_each l
            (fun i => _ <- datastore_insert PortalIpT (listen_row pk i) ;; ret tt)
            w)).
Proof.
  induction l as [| x l IH]; intros w Hk Hp.
  - cbn. split; [exact Hk |]. cbn in Hp. now rewrite app_nil_r in Hp.
  - cbn [for_each].
    destruct (insert_cases PortalIpT (listen_row pk x) w) as [E | E].
    + unfold bind at 1. unfold bind at 1. rewrite E. cbn [snd].
      split; [exact Hk |]. now apply NoDup_app_remove_r in Hp.
    + unfold bind at 1. unfold bind at 1. rewrite E. cbn iota beta.
      unfold ret at 1. cbn iota beta. apply IH.
      * cbn. apply NoDup_map_snoc; [exact Hk |]. cbn. apply fresh_id_not_in.
      * cbn. rewrite map_app. cbn [map]. rewrite <- app_assoc. exact Hp.
Qed.

Lemma thins_listen_deletes pk l :
  thins portalips
    (for_each l
       (fun i : Listen =>
          w <- get_world ;;
          match datastore_query PortalIpT
                  (fun r => (pip_portal r =? pk) && String.eqb (pip_ip r) (ip i)
                            && (pip_port r =? port i)) w with
          | portalip :: _ =>
              _ <- datastore_delete PortalIpT (pip_id portalip) ;; ret tt
          | [] => ret tt
          end)).
Proof. thins_tac. Qed.

(** [__save_listen], however it ends, when the pairs to insert are new
    to the table. *)
Lemma save_listen_listens pk new old w :
  listens_ok w ->
  (forall i r, In i new -> In r (portalips w) -> listen_pair r = pair_of i ->
               In i (match old with Some o => o | None => [] end)) ->
  listens_ok (snd (portal_save_listen pk new old w)).
Proof.
  intros (Hk & Hp) Hnew. unfold portal_save_listen. cbv zeta.
  set (old_set := match old with
                  | Some (x :: o) => py_set listen_eqb (x :: o)
                  | _ => []
                  end).
  assert (Hold : forall i, In i old_set
                           <-> In i (match old with Some o => o | None => [] end)).
  { intros i. unfold old_set. destruct old as [[| x o] |]; try tauto.
    apply (py_set_In listen_eqb listen_eqb_eq). }
  set (ins := set_diff listen_eqb (py_set listen_eqb new) old_set).
  assert (Hins : listens_ok
                   (snd (for_each ins
                           (fun i => _ <- datastore_insert PortalIpT
                                           {| pip_id := 0; pip_portal := pk;
                                              pip_ip := ip i; pip_port := port i |} ;;
                                     ret tt) w))).
  { apply (insert_listens pk); [exact Hk |].
    apply NoDup_app; [exact Hp | |].
    - apply NoDup_map_injective; [apply pair_of_injective |].
      apply set_diff_NoDup, (py_set_NoDup listen_eqb listen_eqb_eq).
    - intros a Ha Hb. apply in_map_iff in Ha. destruct Ha as (r & Er & Hr).
      apply in_map_iff in Hb. destruct Hb as (i & Ei & Hi).
      apply (set_diff_In listen_eqb listen_eqb_eq) in Hi. destruct Hi as [Hi1 Hi2].
      apply (proj1 (py_set_In listen_eqb listen_eqb_eq _ _)) in Hi1.
      apply Hi2. apply Hold. apply (Hnew i r); auto. congruence. }
  unfold bind at 1.
  match type of Hins with
  | listens_ok (snd (?c w)) => destruct (c w) as [[u | e] w1]
  end; cbn [snd] in *; [| exact Hins].
  now apply (listens_ok_thins _ (thins_listen_deletes pk _)).
Qed.

Lemma listens_ok_frame {A} (c : M A) :
  preserves portalips c -> maintains listens_ok c.
Proof. intros H. apply listens_ok_thins, preserves_thins, H. Qed.

Lemma frame_portalips m :
  match m with
  | portal_create _ | portal_update _ _ | portal_delete _ => True
  | _ => preserves portalips (run_mutation m)
  end.
Proof. destruct m; try exact I; frame_tac. Qed.

Lemma preserves_portalips_detach attachments :
  preserves portalips (attachment_delete attachments).
Proof. frame_tac. Qed.

Lemma thins_portalips_delete id : thins portalips (portal_do_delete id).
Proof. thins_tac. Qed.

(** A dict the validation accepts names no address and port the table
    has, rows of the portal itself apart on an update. *)
Lemma portal_validate_accepts w data schema old i :
  portal_validate w data schema old = [] ->
  In i (listen data) ->
  datastore_query PortalIpT
    (fun r =>
       String.eqb (pip_ip r) (ip i) && (pip_port r =? port i)
       && (if String.eqb schema "iscsiportal_update"
           then negb (opt_Z_eqb (Some (pip_portal r)) (portal_id data))
           else true)) w = [].
Proof.
  unfold portal_validate. intros H Hi. apply app_eq_nil in H. destruct H as [H _].
  destruct (listen data) as [| x l] eqn:E; [destruct Hi |].
  cbv zeta in H.
  assert (F : forall j, In j (x :: l) ->
                portal_validate_listen w schema data (listen_ip_choices w)
                  match old with
                  | Some o =>
                      set_diff String.eqb (py_set String.eqb (map ip (x :: l)))
                        (py_set String.eqb (map ip (listen o)))
                  | None => []
                  end j = []).
  { intros j Hj. destruct (portal_validate_listen _ _ _ _ _ j) eqn:V; [reflexivity |].
    assert (In v (flat_map
                    (portal_validate_listen w schema data (listen_ip_choices w)
                       match old with
                       | Some o =>
                           set_diff String.eqb (py_set String.eqb (map ip (x :: l)))
                             (py_set String.eqb (map ip (listen o)))
                       | None => []
                       end) (x :: l))) as Hv.
    { apply in_flat_map. exists j. split; [exact Hj |]. rewrite V. now left. }
    rewrite H in Hv. destruct Hv. }
  specialize (F i Hi). unfold portal_validate_listen in F.
  apply app_eq_nil in F. destruct F as [F _].
  destruct (datastore_query PortalIpT _ w); [reflexivity | discriminate].
Qed.

Lemma after_bind {A B} (P : World -> Prop) (c : M A) (k : A -> M B) w :
  P (snd (c w)) ->
  (forall a w1, c w = (Ok a, w1) -> P (snd (k a w1))) ->
  P (snd (bind c k w)).
Proof.
  intros Hc Hk. unfold bind. destruct (c w) as [[a | e] w1] eqn:E.
  - now apply Hk.
  - exact Hc.
Qed.

Lemma portal_create_maintains_listens data :
  maintains listens_ok (portal_do_create data).
Proof.
  intros w Hw. unfold portal_do_create.
  unfold bind at 1. unfold get_world at 1. cbn iota beta.
  destruct (portal_validate w (portal_of_create data) "iscsiportal_create" None)
    eqn:V.
  2:{ unfold bind at 1. cbn. exact Hw. }
  unfold bind at 1. cbn [check]. unfold ret at 1. cbn iota beta.
  apply after_bind.
  { apply listens_ok_frame; [frame_tac | exact Hw]. }
  intros pk w1 E1.
  assert (F1 : portalips w1 = portalips w).
  { assert (P : preserves portalips
                  (datastore_insert PortalT
                     (portal_row_of_create (portal_count w + 1) data)))
      by frame_tac.
    specialize (P w). now rewrite E1 in P. }
  assert (H1 : listens_ok w1) by (unfold listens_ok; now rewrite F1).
  assert (H2 : listens_ok (snd (portal_save_listen pk (pc_listen data) None w1))).
  { apply save_listen_listens; [exact H1 |].
    intros i r Hi Hr Hp. exfalso.
    pose proof (portal_validate_accepts w _ _ _ i V Hi) as Q.
    cbn in Q. rewrite F1 in Hr.
    assert (In r (filter
                    (fun r0 => String.eqb (pip_ip r0) (ip i)
                               && (pip_port r0 =? port i) && true)
                    (portalips w))) as Hin.
    { apply filter_In. split; [exact Hr |].
      unfold listen_pair, pair_of in Hp. inversion Hp.
      now rewrite String.eqb_refl, Z.eqb_refl. }
    unfold datastore_query in Q. cbn in Q. rewrite Q in Hin. destruct Hin. }
  apply after_bind.
  { unfold try_except.
    destruct (portal_save_listen pk (pc_listen data) None w1) as [[u | e] w2];
      cbn [snd] in *; [exact H2 |].
    apply listens_ok_frame; [frame_tac | exact H2]. }
  intros u w2 E2.
  assert (H3 : listens_ok w2).
  { unfold try_except in E2.
    destruct (portal_save_listen pk (pc_listen data) None w1) as [[u' | e] w2'];
      cbn [snd] in *.
    - inversion E2; subst. exact H2.
    - assert (P : preserves portalips
                    (_ <- datastore_delete PortalT pk ;; raise (A:=unit) e))
        by frame_tac.
      specialize (P w2'). rewrite E2 in P. cbn [snd] in P.
      unfold listens_ok. rewrite P. exact H2. }
  apply listens_ok_frame; [frame_tac | exact H3].
Qed.

Lemma portal_update_maintains_listens pk data :
  maintains listens_ok (portal_do_update pk data).
Proof.
  intros w Hw. unfold portal_do_update.
  destruct (portal_get_instance_cases pk w) as [E | (r & E & Hr & Hid)];
    unfold bind at 1; rewrite E; cbn iota beta; [exact Hw |].
  set (old := portal_config_extend w r).
  unfold bind at 1. unfold get_world at 1. cbn iota beta.
  destruct (portal_validate w (portal_merge old data) "iscsiportal_update"
              (Some old)) eqn:V.
  2:{ unfold bind at 1. cbn. exact Hw. }
  unfold bind at 1. cbn [check]. unfold ret at 1. cbn iota beta.
  assert (H2 : listens_ok
                 (snd (portal_save_listen pk (listen (portal_merge old data))
                         (Some (listen old)) w))).
  { apply save_listen_listens; [exact Hw |].
    intros i x Hi Hx Hp.
    pose proof (portal_validate_accepts w _ _ _ i V Hi) as Q.
    change (String.eqb "iscsiportal_update" "iscsiportal_update") with true in Q.
    cbn iota in Q.
    assert (P : pip_portal x = p_id r).
    { destruct (pip_portal x =? p_id r) eqn:B; [now apply Z.eqb_eq |].
      exfalso.
      assert (In x (datastore_query PortalIpT
                      (fun r0 => String.eqb (pip_ip r0) (ip i)
                                 && (pip_port r0 =? port i)
                                 && negb (opt_Z_eqb (Some (pip_portal r0))
                                            (portal_id (portal_merge old data))))
                      w)) as Hin.
      { apply filter_In. split; [exact Hx |].
        unfold listen_pair, pair_of in Hp. inversion Hp.
        rewrite String.eqb_refl, Z.eqb_refl. cbn. now rewrite B. }
      rewrite Q in Hin. destruct Hin. }
    unfold old. cbn [listen portal_config_extend].
    apply in_map_iff. exists x. split.
    - apply pair_of_injective. unfold pair_of at 1. cbn [ip port]. exact Hp.
    - apply filter_In. split; [exact Hx |]. now apply Z.eqb_eq. }
  apply after_bind; [exact H2 |].
  intros u w2 E2. rewrite E2 in H2. cbn [snd] in H2.
  apply listens_ok_frame; [frame_tac | exact H2].
Qed.

(** X15: once the listen rows have distinct primary keys and no address
    and port is listed twice, this stays so whatever operation runs
    next and however it ends: a portal create or update that names an
    address and port of another portal is refused, and a repeated
    element of [listen] is inserted once. *)
Theorem X15_listen_pairs_stay_unique :
  forall (o : Operation) (w : World),
    listens_ok w -> listens_ok (snd (run_operation o w)).
Proof.
  intros [m | attachments] w Hw; cbn [run_operation].
  - pose proof (frame_portalips m) as F.
    destruct m; cbn [run_mutation];
      try (apply (listens_ok_frame _ F); exact Hw).
    + apply maintains_void; [| exact Hw]. apply portal_create_maintains_listens.
    + apply maintains_void; [| exact Hw]. apply portal_update_maintains_listens.
    + apply maintains_void; [| exact Hw].
      apply listens_ok_thins, thins_portalips_delete.
  - apply (listens_ok_frame _ (preserves_portalips_detach attachments)). exact Hw.
Qed.

Lemma X15_create_with_a_repeated_listen :
  listens_ok world_three_listens
  /\ listens_ok
       (snd (run_operation
               (OpMutation
                  (portal_create
                     {| pc_comment := ""; pc_discovery_authmethod := "NONE";
                        pc_discovery_authgroup := None;
                        pc_listen := [ {| ip := "10.0.0.2"; port := 3261 |};
                                       {| ip := "10.0.0.2"; port := 3261 |} ] |}))
               world_three_listens)).
Proof.
  assert (H : listens_ok world_three_listens).
  { unfold listens_ok. cbn. split.
    - repeat (constructor; [cbn; intuition discriminate |]). constructor.
    - repeat (constructor; [cbn; intuition discriminate |]). constructor. }
  split; [exact H |]. apply X15_listen_pairs_stay_unique. exact H.
Defined.

(** ** The listen reconciliation stores what was asked for *)

Lemma listen_of_extend w r :
  listen (portal_config_extend w r) = map to_listen (listen_rows (p_id r) w).
Proof. reflexivity. Qed.

Lemma NoDup_map_filter_more {R K} (f : R -> K) (a b : R -> bool) l :
  NoDup (map f (filter a l)) -> NoDup (map f (filter a (filter b l))).
Proof.
  induction l as [| x l IH]; simpl; intros H; [constructor |].
  destruct (b x); simpl.
  - destruct (a x); simpl in *; [| now apply IH].
    inversion H as [| ? ? Hx Hl]; subst. constructor; [| now apply IH].
    intros Hin. apply Hx. apply in_map_iff in Hin.
    destruct Hin as (y & E & Hy). apply filter_In in Hy. destruct Hy as [Hy Ha].
    apply filter_In in Hy. destruct Hy as [Hy _].
    apply in_map_iff. exists y. split; [exact E |]. apply filter_In. now split.
  - destruct (a x); simpl in *; [| now apply IH].
    inversion H; subst. now apply IH.
Qed.

(** The insert loop, when it returns: the new rows follow the old ones,
    one for each element, all of the portal [pk]. *)
Lemma insert_listens_rows pk : forall l w w',
  NoDup (map pip_id (portalips w)) ->
  for_each l
    (fun i => _ <- datastore_insert PortalIpT (listen_row pk i) ;; ret tt) w
  = (Ok tt, w') ->
  exists rows,
    portalips w' = portalips w ++ rows
    /\ map to_listen rows = l
    /\ Forall (fun r => pip_portal r = pk) rows
    /\ NoDup (map pip_id (portalips w')).
Proof.
  induction l as [| x l IH]; intros w w' Hk E.
  - cbn in E. inversion E; subst. exists []. rewrite app_nil_r.
    repeat split; [constructor | exact Hk].
  - cbn [for_each] in E.
    destruct (insert_cases PortalIpT (listen_row pk x) w) as [F | F];
      unfold bind at 1 in E; unfold bind at 1 in E; rewrite F in E;
      cbn iota beta in E; [discriminate |].
    unfold ret at 1 in E. cbn iota beta in E.
    apply IH in E.
    + destruct E as (rows & E1 & E2 & E3 & E4). cbn in E1.
      eexists (_ :: rows). split; [rewrite E1, <- app_assoc; reflexivity |].
      split; [cbn; now rewrite E2; destruct x |].
      split; [constructor; [reflexivity | exact E3] | exact E4].
    + cbn. apply NoDup_map_snoc; [exact Hk |]. cbn. apply fresh_id_not_in.
Qed.

(** The delete loop, when it returns: the rows of the portal [pk] whose
    address and port are in [dels] are gone, every other row stays. *)
Lemma delete_listens_rows pk : forall dels w w',
  NoDup (map pip_id (portalips w)) ->
  NoDup (map to_listen (listen_rows pk w)) ->
  for_each dels
    (fun i : Listen =>
       w <- get_world ;;
       match datastore_query PortalIpT
               (fun r => (pip_portal r =? pk) && String.eqb (pip_ip r) (ip i)
                         && (pip_port r =? port i)) w with
       | portalip :: _ =>
           _ <- datastore_delete PortalIpT (pip_id portalip) ;; ret tt
       | [] => ret tt
       end) w
  = (Ok tt, w') ->
  (forall r, In r (portalips w')
             <-> In r (portalips w)
                 /\ ~ (pip_portal r = pk /\ In (to_listen r) dels))
  /\ NoDup (map to_listen (listen_rows pk w')).
Proof.
  induction dels as [| x dels IH]; intros w w' Hk Hu E.
  - cbn in E. inversion E; subst. split; [| exact Hu].
    intros r. cbn. tauto.
  - cbn [for_each] in E. unfold bind at 1 in E. unfold bind at 1 in E.
    unfold get_world at 1 in E. cbn iota beta in E.
    destruct (datastore_query PortalIpT
                (fun r => (pip_portal r =? pk) && String.eqb (pip_ip r) (ip x)
                          && (pip_port r =? port x)) w) as [| row rest] eqn:Q.
    + unfold ret at 1 in E. cbn iota beta in E.
      destruct (IH _ _ Hk Hu E) as [H1 H2]. split; [| exact H2].
      intros r. rewrite H1. split; intros [Hr Hn]; (split; [exact Hr |]).
      * intros [Hp [Hx | Hd]]; [| apply Hn; now split].
        assert (In r (datastore_query PortalIpT
                        (fun r => (pip_portal r =? pk)
                                  && String.eqb (pip_ip r) (ip x)
                                  && (pip_port r =? port x)) w)) as Hin.
        { apply filter_In. split; [exact Hr |]. subst x. cbn.
          now rewrite Hp, Z.eqb_refl, String.eqb_refl, Z.eqb_refl. }
        rewrite Q in Hin. destruct Hin.
      * intros [Hp Hd]. apply Hn. split; [exact Hp | now right].
    + assert (Hrow : In row (portalips w) /\ pip_portal row = pk
                     /\ to_listen row = x).
      { assert (In row (datastore_query PortalIpT
                          (fun r => (pip_portal r =? pk)
                                    && String.eqb (pip_ip r) (ip x)
                                    && (pip_port r =? port x)) w)) as Hin
          by (rewrite Q; now left).
        apply filter_In in Hin. destruct Hin as [Hin B].
        apply andb_true_iff in B. destruct B as [B B3].
        apply andb_true_iff in B. destruct B as [B1 B2].
        apply Z.eqb_eq in B1, B3. apply String.eqb_eq in B2.
        split; [exact Hin |]. split; [exact B1 |].
        unfold to_listen. rewrite B2, B3. now destruct x. }
      destruct Hrow as (Hin & Hp & Hx).
      destruct (delete_cases PortalIpT (pip_id row) w) as [F | F];
        unfold bind at 1 in E; rewrite F in E; cbn iota beta in E;
        [discriminate |].
      unfold ret at 1 in E. cbn iota beta in E.
      apply IH in E.
      * destruct E as [H1 H2]. split; [| exact H2].
        intros r. rewrite H1. cbn. rewrite filter_In, negb_true_iff, Z.eqb_neq.
        split.
        -- intros [[Hr Hid] Hn]. split; [exact Hr |].
           intros [Hp' [Hx' | Hd]]; [| apply Hn; now split].
           apply Hid. f_equal.
           assert (In r (listen_rows pk w)) as A1
             by (apply filter_In; split; [exact Hr | now apply Z.eqb_eq]).
           assert (In row (listen_rows pk w)) as A2
             by (apply filter_In; split; [exact Hin | now apply Z.eqb_eq]).
           clear - Hu A1 A2 Hx Hx'. subst x.
           induction (listen_rows pk w) as [| y l IHl]; [destruct A1 |].
           cbn in Hu. inversion Hu as [| ? ? Hy Hl]; subst.
           destruct A1 as [-> | A1], A2 as [-> | A2]; auto.
           ++ exfalso. apply Hy. rewrite <- Hx'. now apply in_map.
           ++ exfalso. apply Hy. rewrite Hx'. now apply in_map.
        -- intros [Hr Hn]. split; [split; [exact Hr |] |].
           ++ intros Hid. apply Hn.
              assert (r = row) as ->
                by (apply (key_determines_row pip_id (portalips w)); auto).
              split; [exact Hp | now left].
           ++ intros [Hp' Hd]. apply Hn. split; [exact Hp' | now right].
      * cbn. now apply NoDup_map_filter.
      * unfold listen_rows, datastore_query. cbn.
        now apply NoDup_map_filter_more.
Qed.

Lemma to_listen_pair r r' :
  to_listen r = to_listen r' <-> listen_pair r = listen_pair r'.
Proof.
  unfold to_listen, listen_pair.
  split; intros H; inversion H; reflexivity.
Qed.

Lemma NoDup_to_listen l :
  NoDup (map listen_pair l) -> NoDup (map to_listen l).
Proof.
  induction l as [| x l IH]; simpl; intros H; [constructor |].
  inversion H as [| ? ? Hx Hl]; subst. constructor; [| now apply IH].
  intros Hin. apply Hx. apply in_map_iff in Hin. destruct Hin as (y & E & Hy).
  apply in_map_iff. exists y. split; [| exact Hy]. now apply to_listen_pair.
Qed.

Lemma filter_keeps_all {A} (p : A -> bool) l :
  Forall (fun x => p x = true) l -> filter p l = l.
Proof.
  induction 1 as [| x l Hx _ IH]; simpl; [reflexivity |].
  now rewrite Hx, IH.
Qed.

Lemma listen_mem_dec (i : Listen) l : In i l \/ ~ In i l.
Proof.
  rewrite <- (existsb_eqb_In listen_eqb listen_eqb_eq).
  destruct (existsb (listen_eqb i) l); [now left | right; discriminate].
Qed.

(** [__save_listen], when it returns and [old] is what the portal [pk]
    listens on: afterwards the portal listens on exactly the elements of
    [new], on each once, and the rows of the other portals are as
    before. *)
Lemma save_listen_reconciles pk new old w w' :
  listens_ok w ->
  (forall i, In i (match old with Some o => o | None => [] end)
             <-> In i (map to_listen (listen_rows pk w))) ->
  portal_save_listen pk new old w = (Ok tt, w') ->
  (forall i, In i (map to_listen (listen_rows pk w')) <-> In i new)
  /\ NoDup (map to_listen (listen_rows pk w'))
  /\ (forall r, pip_portal r <> pk ->
                (In r (portalips w') <-> In r (portalips w))).
Proof.
  intros (Hk & Hp) Hold E. unfold portal_save_listen in E. cbv zeta in E.
  set (old_set := match old with
                  | Some (x :: o) => py_set listen_eqb (x :: o)
                  | _ => []
                  end) in E.
  assert (Ho : forall i, In i old_set
                         <-> In i (map to_listen (listen_rows pk w))).
  { intros i. rewrite <- Hold. unfold old_set.
    destruct old as [[| x o] |]; try tauto.
    apply (py_set_In listen_eqb listen_eqb_eq). }
  set (new_set := py_set listen_eqb new) in E.
  assert (Hn : forall i, In i new_set <-> In i new)
    by (intros i; apply (py_set_In listen_eqb listen_eqb_eq)).
  apply bind_Ok in E. destruct E as ([] & w1 & E1 & E2).
  apply (insert_listens_rows pk) in E1; [| exact Hk].
  destruct E1 as (rows & R1 & R2 & R3 & R4).
  assert (L1 : listen_rows pk w1 = listen_rows pk w ++ rows).
  { unfold listen_rows, datastore_query. cbn. rewrite R1, filter_app. f_equal.
    apply filter_keeps_all. eapply Forall_impl; [| exact R3].
    intros r Hr. now apply Z.eqb_eq. }
  assert (U1 : NoDup (map to_listen (listen_rows pk w1))).
  { rewrite L1, map_app, R2. apply NoDup_app.
    - apply NoDup_to_listen. unfold listen_rows, datastore_query. cbn.
      now apply NoDup_map_filter.
    - apply set_diff_NoDup, (py_set_NoDup listen_eqb listen_eqb_eq).
    - intros i Hi Hd.
      apply (set_diff_In listen_eqb listen_eqb_eq) in Hd. destruct Hd as [_ Hd].
      apply Hd. now apply Ho. }
  apply (delete_listens_rows pk) in E2; [| exact R4 | exact U1].
  destruct E2 as [D1 D2].
  assert (Hrows : forall r, In r rows ->
                    pip_portal r = pk
                    /\ In (to_listen r) new /\ ~ In (to_listen r) old_set).
  { intros r Hr. split; [rewrite Forall_forall in R3; now apply R3 |].
    assert (In (to_listen r)
              (set_diff listen_eqb new_set old_set)) as Hin
      by (rewrite <- R2; now apply in_map).
    apply (set_diff_In listen_eqb listen_eqb_eq) in Hin.
    destruct Hin as [Hin Hout]. split; [now apply Hn | exact Hout]. }
  split; [| split; [exact D2 |]].
  - intros i. split.
    + intros Hi. apply in_map_iff in Hi. destruct Hi as (r & <- & Hr).
      apply filter_In in Hr. destruct Hr as [Hr Hpk].
      apply Z.eqb_eq in Hpk. apply D1 in Hr. destruct Hr as [Hr Hnd].
      cbn in Hr. rewrite R1 in Hr. apply in_app_or in Hr.
      destruct Hr as [Hr | Hr]; [| now apply Hrows].
      destruct (listen_mem_dec (to_listen r) new) as [Hin | Hout];
        [exact Hin |].
      exfalso. apply Hnd. split; [exact Hpk |].
      apply (set_diff_In listen_eqb listen_eqb_eq). split.
      * apply Ho. apply in_map. apply filter_In. split; [exact Hr |].
        now apply Z.eqb_eq.
      * rewrite Hn. exact Hout.
    + intros Hi.
      destruct (listen_mem_dec i old_set) as [Hin | Hout].
      * apply Ho in Hin. apply in_map_iff in Hin. destruct Hin as (r & <- & Hr).
        apply in_map. apply filter_In in Hr. destruct Hr as [Hr Hpk].
        apply filter_In. split; [| exact Hpk]. apply D1. split.
        -- cbn. rewrite R1. apply in_or_app. now left.
        -- intros [_ Hd]. apply (set_diff_In listen_eqb listen_eqb_eq) in Hd.
           destruct Hd as [_ Hd]. apply Hd. now apply Hn.
      * assert (In i (map to_listen rows)) as Hin.
        { rewrite R2. apply (set_diff_In listen_eqb listen_eqb_eq).
          split; [now apply Hn | exact Hout]. }
        apply in_map_iff in Hin. destruct Hin as (r & <- & Hr).
        apply in_map. apply filter_In. split.
        -- apply D1. split.
           ++ cbn. rewrite R1. apply in_or_app. now right.
           ++ intros [_ Hd]. apply (set_diff_In listen_eqb listen_eqb_eq) in Hd.
              destruct Hd as [Hd _]. contradiction.
        -- apply Z.eqb_eq. now apply Hrows.
  - intros r Hr. rewrite D1. cbn. rewrite R1. split.
    + intros [Hin _]. apply in_app_or in Hin. destruct Hin as [Hin | Hin];
        [exact Hin |].
      exfalso. apply Hr. now apply Hrows.
    + intros Hin. split; [apply in_or_app; now left |].
      intros [Hpk _]. contradiction.
Qed.

Lemma legacy_round_trip m :
  In m ["NONE"; "CHAP"; "CHAP_MUTUAL"] ->
  legacy_get (legacy_inv_get m "None") = Some m.
Proof. intros [<- | [<- | [<- | []]]]; reflexivity. Qed.

Lemma portal_get_instance_Ok id w p w' :
  portal_get_instance id w = (Ok p, w') ->
  w' = w /\ exists r, p = portal_config_extend w r /\ In r (portals w)
                      /\ p_id r = id.
Proof.
  intros E.
  destruct (portal_get_instance_cases id w) as [F | (r & F & Hr & Hid)];
    rewrite F in E; inversion E; subst.
  split; [reflexivity |]. now exists r.
Qed.

(** X16: a portal update that returns gives back the portal asked for:
    the key and the tag it had, the comment, the credential group and
    the discovery method of the merged dict, and as [listen] exactly the
    elements of the merged [listen], each once, whatever was stored
    before.  The listen rows of the other portals are untouched.  The
    listen table is taken without a repeated address and port. *)
Theorem X16_portal_update_round_trip :
  forall (pk : Z) (data : PortalUpdate) (w : World) (old p : Portal) (w' : World),
    listens_ok w ->
    portal_get_instance pk w = (Ok old, w) ->
    portal_do_update pk data w = (Ok p, w') ->
    let new := portal_merge old data in
    portal_id p = Some pk
    /\ portal_tag p = portal_tag old
    /\ portal_comment p = portal_comment new
    /\ discovery_authgroup p = discovery_authgroup new
    /\ (forall m, discovery_authmethod new = Some m ->
                  In m ["NONE"; "CHAP"; "CHAP_MUTUAL"] ->
                  discovery_authmethod p = Some m)
    /\ NoDup (listen p)
    /\ (forall i, In i (listen p) <-> In i (listen new))
    /\ (forall r, pip_portal r <> pk ->
                  (In r (portalips w') <-> In r (portalips w))).
Proof.
  intros pk data w old p w' Hw Hget E new.
  unfold portal_do_update in E. rewrite (bind_step _ _ _ _ _ Hget) in E.
  fold new in E.
  apply portal_get_instance_Ok in Hget.
  destruct Hget as (_ & r0 & Hold & Hr0 & Hid0).
  unfold bind at 1 in E. unfold get_world at 1 in E. cbn iota beta in E.
  apply bind_Ok in E. destruct E as ([] & w0 & V & E).
  apply check_Ok in V. destruct V as [_ ->].
  apply bind_Ok in E. destruct E as ([] & w1 & S & E).
  apply bind_Ok in E. destruct E as ([] & w2 & U & E).
  apply bind_Ok in E. destruct E as ([] & w3 & N & E).
  apply portal_get_instance_Ok in E. destruct E as (-> & r & -> & Hr & Hid).
  assert (P1 : portals w1 = portals w)
    by exact (preserves_run _ _ _ _ _ (save_listen_keeps_portals _ _ _) S).
  assert (I2 : portalips w2 = portalips w1).
  { refine (preserves_run portalips _ _ _ _ _ U). frame_tac. }
  assert (I3 : portalips w3 = portalips w2).
  { refine (preserves_run portalips _ _ _ _ _ N). frame_tac. }
  assert (P3 : portals w3 = portals w2).
  { refine (preserves_run portals _ _ _ _ _ N). frame_tac. }
  assert (L : listen_rows pk w3 = listen_rows pk w1).
  { unfold listen_rows, datastore_query. cbn. now rewrite I3, I2. }
  apply save_listen_reconciles in S; [| exact Hw |].
  2:{ intros i. cbn [listen]. rewrite Hold, listen_of_extend, Hid0. tauto. }
  destruct S as (S1 & S2 & S3).
  (* the row the final read finds is the one the update wrote *)
  destruct (update_cases PortalT pk
              (fun r =>
                 {| p_id := p_id r;
                    p_tag := match portal_tag new with
                             | Some t => t
                             | None => p_tag r
                             end;
                    p_comment := portal_comment new;
                    p_discoveryauthmethod :=
                      portal_method_inv (discovery_authmethod new);
                    p_discoveryauthgroup := discovery_authgroup new |}) w1)
    as [F | F]; rewrite F in U; inversion U as [W2]; clear U.
  rewrite P3, <- W2 in Hr. cbn in Hr. rewrite P1 in Hr.
  apply in_map_iff in Hr. destruct Hr as (x & Ex & Hx).
  destruct (Z.eqb_spec (p_id x) pk) as [Hxp | Hxp];
    [| exfalso; apply Hxp; now rewrite <- Hid, <- Ex].
  subst r old. unfold new.
  cbn [portal_config_extend portal_merge portal_id portal_tag portal_comment
         discovery_authgroup discovery_authmethod p_id p_tag p_comment
         p_discoveryauthmethod p_discoveryauthgroup listen].
  split; [now rewrite Hxp |].
  split; [reflexivity |].
  split; [reflexivity |].
  split; [reflexivity |].
  split.
  { intros m Hm Hin. rewrite Hm. now apply legacy_round_trip. }
  rewrite Hxp.
  change (datastore_query PortalIpT (fun x0 => pip_portal x0 =? pk) w3)
    with (listen_rows pk w3).
  rewrite L.
  split; [exact S2 |].
  split; [exact S1 |].
  intros r Hr. rewrite I3, I2. now apply S3.
Qed.

Lemma X16_update_of_the_listen_of_portal_1 :
  let data :=
    {| pu_comment := Some "lab"; pu_discovery_authmethod := None;
       pu_discovery_authgroup := None;
       pu_listen := Some [ {| ip := "10.0.0.2"; port := 3260 |};
                           {| ip := "0.0.0.0"; port := 3260 |} ] |} in
  let p :=
    {| portal_id := Some 1; portal_tag := Some 1; portal_comment := "lab";
       listen := [ {| ip := "10.0.0.2"; port := 3260 |};
                   {| ip := "0.0.0.0"; port := 3260 |} ];
       discovery_authmethod := Some "NONE"; discovery_authgroup := None |} in
  portal_do_update 1 data world_three_listens
  = (Ok p, snd (portal_do_update 1 data world_three_listens))
  /\ NoDup (listen p)
  /\ (forall r, pip_portal r <> 1 ->
                (In r (portalips
                         (snd (portal_do_update 1 data world_three_listens)))
                 <-> In r (portalips world_three_listens))).
Proof.
  intros data p.
  assert (E : portal_do_update 1 data world_three_listens
              = (Ok p, snd (portal_do_update 1 data world_three_listens)))
    by (vm_compute; reflexivity).
  split; [exact E |].
  assert (H : listens_ok world_three_listens).
  { unfold listens_ok. cbn. split.
    - repeat (constructor; [cbn; intuition discriminate |]). constructor.
    - repeat (constructor; [cbn; intuition discriminate |]). constructor. }
  pose proof (X16_portal_update_round_trip 1 data world_three_listens
                (portal_config_extend world_three_listens
                   {| p_id := 1; p_tag := 1; p_comment := "";
                      p_discoveryauthmethod := "None";
                      p_discoveryauthgroup := None |})
                p _ H eq_refl E) as R.
  cbv zeta in R. destruct R as (_ & _ & _ & _ & _ & R1 & _ & R2).
  split; [exact R1 | exact R2].
Defined.

(** ** A portal create returns what was asked for *)

Lemma try_except_reraise_Ok {A B} (c : M A) (undo : M B) w a w' :
  try_except c (fun e => _ <- undo ;; raise e) w = (Ok a, w') ->
  c w = (Ok a, w').
Proof.
  unfold try_except. destruct (c w) as [[x | e] w1]; [trivial |].
  unfold bind, raise. destruct (undo w1) as [[y | e'] w2]; discriminate.
Qed.

(** X17: a portal create that returns gives back the portal asked for:
    a key no portal had, the tag count + 1, the comment, the credential
    group and the discovery method of the call, and as [listen] exactly
    the elements of the given [listen], each once even when the call
    repeats one.  The listen rows of the other portals are untouched.
    The listen table is taken without a repeated address and port, and
    every listen row with a stored portal. *)
Theorem X17_portal_create_round_trip :
  forall (data : PortalCreate) (w : World) (p : Portal) (w' : World),
    listens_ok w ->
    listens_have_portals w ->
    portal_do_create data w = (Ok p, w') ->
    exists pk,
      portal_id p = Some pk
      /\ ~ In pk (map p_id (portals w))
      /\ portal_tag p = Some (portal_count w + 1)
      /\ portal_comment p = pc_comment data
      /\ discovery_authgroup p = pc_discovery_authgroup data
      /\ (In (pc_discovery_authmethod data) ["NONE"; "CHAP"; "CHAP_MUTUAL"] ->
          discovery_authmethod p = Some (pc_discovery_authmethod data))
      /\ NoDup (listen p)
      /\ (forall i, In i (listen p) <-> In i (pc_listen data))
      /\ (forall r, pip_portal r <> pk ->
                    (In r (portalips w') <-> In r (portalips w))).
Proof.
  intros data w p w' Hw Href E.
  unfold portal_do_create in E.
  unfold bind at 1 in E. unfold get_world at 1 in E. cbn iota beta in E.
  apply bind_Ok in E. destruct E as ([] & w0 & V & E).
  apply check_Ok in V. destruct V as [_ ->].
  apply bind_Ok in E. destruct E as (pk & w1 & I & E).
  apply bind_Ok in E. destruct E as ([] & w2 & S & E).
  apply bind_Ok in E. destruct E as ([] & w3 & N & E).
  apply portal_get_instance_Ok in E. destruct E as (-> & r & -> & Hr & Hid).
  apply try_except_reraise_Ok in S.
  destruct (insert_cases PortalT
              (portal_row_of_create (portal_count w + 1) data) w) as [F | F];
    rewrite F in I; inversion I as [[Hpk W1]]; clear I.
  assert (Hfresh : ~ In pk (map p_id (portals w)))
    by (rewrite <- Hpk; apply fresh_id_not_in).
  assert (I1 : portalips w1 = portalips w) by (now rewrite <- W1).
  assert (P1 : portals w1
               = portals w
                 ++ [with_id PortalT pk
                       (portal_row_of_create (portal_count w + 1) data)])
    by (rewrite <- W1, <- Hpk; reflexivity).
  assert (P2 : portals w2 = portals w1)
    by exact (preserves_run _ _ _ _ _ (save_listen_keeps_portals _ _ _) S).
  assert (I3 : portalips w3 = portalips w2).
  { refine (preserves_run portalips _ _ _ _ _ N). frame_tac. }
  assert (P3 : portals w3 = portals w2).
  { refine (preserves_run portals _ _ _ _ _ N). frame_tac. }
  assert (L : listen_rows pk w3 = listen_rows pk w2).
  { unfold listen_rows, datastore_query. cbn. now rewrite I3. }
  assert (L1 : listen_rows pk w1 = []).
  { unfold listen_rows, datastore_query. cbn. rewrite I1.
    apply filter_none. intros x Hx. apply Z.eqb_neq. intros Hp.
    apply Hfresh. rewrite <- Hp. now apply Href. }
  apply save_listen_reconciles in S.
  2:{ unfold listens_ok. rewrite I1. exact Hw. }
  2:{ intros i. rewrite L1. cbn. tauto. }
  destruct S as (S1 & S2 & S3).
  rewrite P3, P2, P1 in Hr. apply in_app_or in Hr.
  destruct Hr as [Hr | [Hr | []]];
    [exfalso; apply Hfresh; rewrite <- Hid; now apply in_map |].
  subst r. exists pk.
  cbn [portal_config_extend portal_id portal_tag portal_comment
         discovery_authgroup discovery_authmethod p_id p_tag p_comment
         p_discoveryauthmethod p_discoveryauthgroup listen with_id PortalT
         portal_row_of_create].
  split; [reflexivity |].
  split; [exact Hfresh |].
  split; [reflexivity |].
  split; [reflexivity |].
  split; [reflexivity |].
  split; [apply legacy_round_trip |].
  change (datastore_query PortalIpT (fun x0 => pip_portal x0 =? pk) w3)
    with (listen_rows pk w3).
  rewrite L.
  split; [exact S2 |].
  split; [exact S1 |].
  intros r Hr. rewrite I3, <- I1. now apply S3.
Qed.

Lemma X17_create_with_a_repeated_listen :
  let data :=
    {| pc_comment := "lab"; pc_discovery_authmethod := "NONE";
       pc_discovery_authgroup := None;
       pc_listen := [ {| ip := "10.0.0.2"; port := 3261 |};
                      {| ip := "10.0.0.2"; port := 3261 |} ] |} in
  let p :=
    {| portal_id := Some 3; portal_tag := Some 3; portal_comment := "lab";
       listen := [ {| ip := "10.0.0.2"; port := 3261 |} ];
       discovery_authmethod := Some "NONE"; discovery_authgroup := None |} in
  portal_do_create data world_three_listens
  = (Ok p, snd (portal_do_create data world_three_listens))
  /\ exists pk,
       portal_id p = Some pk
       /\ ~ In pk (map p_id (portals world_three_listens))
       /\ portal_tag p = Some (portal_count world_three_listens + 1)
       /\ portal_comment p = pc_comment data
       /\ discovery_authgroup p = pc_discovery_authgroup data
       /\ (In (pc_discovery_authmethod data) ["NONE"; "CHAP"; "CHAP_MUTUAL"] ->
           discovery_authmethod p = Some (pc_discovery_authmethod data))
       /\ NoDup (listen p)
       /\ (forall i, In i (listen p) <-> In i (pc_listen data))
       /\ (forall r, pip_portal r <> pk ->
                     (In r (portalips
                              (snd (portal_do_create data world_three_listens)))
                      <-> In r (portalips world_three_listens))).
Proof.
  intros data p.
  assert (E : portal_do_create data world_three_listens
              = (Ok p, snd (portal_do_create data world_three_listens)))
    by (vm_compute; reflexivity).
  split; [exact E |].
  apply (X17_portal_create_round_trip data world_three_listens p _).
  - unfold listens_ok. cbn. split.
    + repeat (constructor; [cbn; intuition discriminate |]). constructor.
    + repeat (constructor; [cbn; intuition discriminate |]). constructor.
  - intros r [<- | [<- | [<- | []]]]; cbn; auto.
  - exact E.
Defined.

(** ** The group reconciliation stores what was asked for *)

Lemma groupc_eqb_eq a b : groupc_eqb a b = true <-> a = b.
Proof.
  unfold groupc_eqb.
  rewrite !andb_true_iff, Z.eqb_eq, !opt_Z_eqb_eq, String.eqb_eq.
  destruct a, b; cbn. split.
  - intros [[[-> ->] ->] ->]. reflexivity.
  - intros H; inversion H; auto.
Qed.

Lemma groupc_mem_dec (i : GroupC) l : In i l \/ ~ In i l.
Proof.
  rewrite <- (existsb_eqb_In groupc_eqb groupc_eqb_eq).
  destruct (existsb (groupc_eqb i) l); [now left | right; discriminate].
Qed.

Lemma group_of_stored_row w r :
  target_groups (target_extend w r)
  = map group_extend (map groupc_of_row (group_rows (t_id r) w)).
Proof. unfold target_extend, group_rows. cbn. now rewrite map_map. Qed.

Lemma extend_compress g : api_spelling g -> group_extend (group_compress g) = g.
Proof.
  intros (m & Hm & Hin). destruct g as [p i a u]. cbn in *. subst a.
  unfold group_extend, group_compress. cbn. f_equal.
  destruct Hin as [<- | [<- | [<- | []]]]; reflexivity.
Qed.

Lemma compress_extend c :
  stored_spelling (gc_authmethod c) -> group_compress (group_extend c) = c.
Proof.
  destruct c as [p i a m]. unfold stored_spelling. cbn.
  intros [<- | [<- | [<- | []]]]; reflexivity.
Qed.

Lemma compress_spelling g :
  api_spelling g -> stored_spelling (gc_authmethod (group_compress g)).
Proof.
  intros (m & Hm & Hin). unfold group_compress, stored_spelling. cbn.
  rewrite Hm. destruct Hin as [<- | [<- | [<- | []]]]; cbn; auto.
Qed.

Lemma NoDup_map_inj_on {A B} (f : A -> B) l :
  (forall a b, In a l -> In b l -> f a = f b -> a = b) ->
  NoDup l -> NoDup (map f l).
Proof.
  intros Hf H. apply NoDup_map_NoDup_ForallPairs; [| exact H].
  intros a b Ha Hb. now apply Hf.
Qed.

(** The delete loop, when it returns: the rows of the target [pk] whose
    columns are in [dels] are gone, every other row stays. *)
Lemma delete_groups_rows pk : forall dels w w',
  NoDup (map g_id (groups w)) ->
  NoDup (map groupc_of_row (group_rows pk w)) ->
  for_each dels
    (fun i : GroupC =>
       w <- get_world ;;
       match datastore_query GroupT
               (fun g => (g_target g =? pk) && (g_portalgroup g =? gc_portal i)
                         && opt_Z_eqb (g_initiatorgroup g) (gc_initiator i)
                         && String.eqb (g_authtype g) (gc_authmethod i)
                         && opt_Z_eqb (g_authgroup g) (gc_auth i)) w with
       | targetgroup :: _ =>
           _ <- datastore_delete GroupT (g_id targetgroup) ;; ret tt
       | [] => ret tt
       end) w
  = (Ok tt, w') ->
  (forall r, In r (groups w')
             <-> In r (groups w)
                 /\ ~ (g_target r = pk /\ In (groupc_of_row r) dels))
  /\ NoDup (map groupc_of_row (group_rows pk w'))
  /\ NoDup (map g_id (groups w')).
Proof.
  assert (M : forall (g : GroupRow) (i : GroupC),
             (g_target g =? pk) && (g_portalgroup g =? gc_portal i)
             && opt_Z_eqb (g_initiatorgroup g) (gc_initiator i)
             && String.eqb (g_authtype g) (gc_authmethod i)
             && opt_Z_eqb (g_authgroup g) (gc_auth i) = true
             <-> g_target g = pk /\ groupc_of_row g = i).
  { intros g i.
    rewrite !andb_true_iff, !Z.eqb_eq, !opt_Z_eqb_eq, String.eqb_eq.
    unfold groupc_of_row. destruct i; cbn. split.
    - intros [[[[-> ->] ->] ->] ->]. split; reflexivity.
    - intros [-> H]. inversion H. auto. }
  induction dels as [| x dels IH]; intros w w' Hk Hu E.
  - cbn in E. inversion E; subst. split; [| split; [exact Hu | exact Hk]].
    intros r. cbn. tauto.
  - cbn [for_each] in E. unfold bind at 1 in E. unfold bind at 1 in E.
    unfold get_world at 1 in E. cbn iota beta in E.
    destruct (datastore_query GroupT
                (fun g => (g_target g =? pk) && (g_portalgroup g =? gc_portal x)
                          && opt_Z_eqb (g_initiatorgroup g) (gc_initiator x)
                          && String.eqb (g_authtype g) (gc_authmethod x)
                          && opt_Z_eqb (g_authgroup g) (gc_auth x)) w)
      as [| row rest] eqn:Q.
    + unfold ret at 1 in E. cbn iota beta in E.
      destruct (IH _ _ Hk Hu E) as (H1 & H2 & H3).
      split; [| split; [exact H2 | exact H3]].
      intros r. rewrite H1. split; intros [Hr Hn]; (split; [exact Hr |]).
      * intros [Hp [Hx | Hd]]; [| apply Hn; now split].
        assert (In r (datastore_query GroupT
                        (fun g => (g_target g =? pk)
                                  && (g_portalgroup g =? gc_portal x)
                                  && opt_Z_eqb (g_initiatorgroup g) (gc_initiator x)
                                  && String.eqb (g_authtype g) (gc_authmethod x)
                                  && opt_Z_eqb (g_authgroup g) (gc_auth x)) w))
          as Hin.
        { apply filter_In. split; [exact Hr |]. apply M. split; auto. }
        rewrite Q in Hin. destruct Hin.
      * intros [Hp Hd]. apply Hn. split; [exact Hp | now right].
    + assert (Hrow : In row (groups w) /\ g_target row = pk
                     /\ groupc_of_row row = x).
      { assert (In row (datastore_query GroupT
                          (fun g => (g_target g =? pk)
                                    && (g_portalgroup g =? gc_portal x)
                                    && opt_Z_eqb (g_initiatorgroup g)
                                         (gc_initiator x)
                                    && String.eqb (g_authtype g) (gc_authmethod x)
                                    && opt_Z_eqb (g_authgroup g) (gc_auth x)) w))
          as Hin by (rewrite Q; now left).
        apply filter_In in Hin. destruct Hin as [Hin B].
        apply M in B. tauto. }
      destruct Hrow as (Hin & Hp & Hx).
      destruct (delete_cases GroupT (g_id row) w) as [F | F];
        unfold bind at 1 in E; rewrite F in E; cbn iota beta in E;
        [discriminate |].
      unfold ret at 1 in E. cbn iota beta in E.
      apply IH in E.
      * destruct E as (H1 & H2 & H3). split; [| split; [exact H2 | exact H3]].
        intros r. rewrite H1. cbn. rewrite filter_In, negb_true_iff, Z.eqb_neq.
        split.
        -- intros [[Hr Hid] Hn]. split; [exact Hr |].
           intros [Hp' [Hx' | Hd]]; [| apply Hn; now split].
           apply Hid. f_equal.
           assert (In r (group_rows pk w)) as A1
             by (apply filter_In; split; [exact Hr | now apply Z.eqb_eq]).
           assert (In row (group_rows pk w)) as A2
             by (apply filter_In; split; [exact Hin | now apply Z.eqb_eq]).
           clear - Hu A1 A2 Hx Hx'. subst x.
           induction (group_rows pk w) as [| y l IHl]; [destruct A1 |].
           cbn in Hu. inversion Hu as [| ? ? Hy Hl]; subst.
           destruct A1 as [-> | A1], A2 as [-> | A2]; auto.
           ++ exfalso. apply Hy. rewrite <- Hx'. now apply in_map.
           ++ exfalso. apply Hy. rewrite Hx'. now apply in_map.
        -- intros [Hr Hn]. split; [split; [exact Hr |] |].
           ++ intros Hid. apply Hn.
              assert (r = row) as ->
                by (apply (key_determines_row g_id (groups w)); auto).
              split; [exact Hp | now left].
           ++ intros [Hp' Hd]. apply Hn. split; [exact Hp' | now right].
      * cbn. now apply NoDup_map_filter.
      * unfold group_rows, datastore_query. cbn.
        now apply NoDup_map_filter_more.
Qed.

(** The insert loop, when it returns: the new rows follow the old ones,
    one for each element, all of the target [pk]. *)
Lemma insert_groups_rows pk : forall l w w',
  NoDup (map g_id (groups w)) ->
  for_each l
    (fun i => _ <- datastore_insert GroupT (group_row pk i) ;; ret tt) w
  = (Ok tt, w') ->
  exists rows,
    groups w' = groups w ++ rows
    /\ map groupc_of_row rows = l
    /\ Forall (fun r => g_target r = pk) rows
    /\ NoDup (map g_id (groups w')).
Proof.
  induction l as [| x l IH]; intros w w' Hk E.
  - cbn in E. inversion E; subst. exists []. rewrite app_nil_r.
    repeat split; [constructor | exact Hk].
  - cbn [for_each] in E.
    destruct (insert_cases GroupT (group_row pk x) w) as [F | F];
      unfold bind at 1 in E; unfold bind at 1 in E; rewrite F in E;
      cbn iota beta in E; [discriminate |].
    unfold ret at 1 in E. cbn iota beta in E.
    apply IH in E.
    + destruct E as (rows & E1 & E2 & E3 & E4). cbn in E1.
      eexists (_ :: rows). split; [rewrite E1, <- app_assoc; reflexivity |].
      split; [cbn; now rewrite E2; destruct x |].
      split; [constructor; [reflexivity | exact E3] | exact E4].
    + cbn. apply NoDup_map_snoc; [exact Hk |]. cbn. apply fresh_id_not_in.
Qed.

(** [__save_groups], when it returns and [old] is what the target [pk]
    has: afterwards the target has exactly the elements of [new], each
    once, and the rows of the other targets are as before. *)
Lemma save_groups_reconciles pk new old w w' :
  NoDup (map g_id (groups w)) ->
  NoDup (map groupc_of_row (group_rows pk w)) ->
  (forall i, In i (match old with Some o => o | None => [] end)
             <-> In i (map groupc_of_row (group_rows pk w))) ->
  target_save_groups pk new old w = (Ok tt, w') ->
  (forall i, In i (map groupc_of_row (group_rows pk w')) <-> In i new)
  /\ NoDup (map groupc_of_row (group_rows pk w'))
  /\ NoDup (map g_id (groups w'))
  /\ (forall r, g_target r <> pk -> (In r (groups w') <-> In r (groups w))).
Proof.
  intros Hk Hu Hold E. unfold target_save_groups in E. cbv zeta in E.
  set (old_set := match old with
                  | Some (x :: o) => py_set groupc_eqb (x :: o)
                  | _ => []
                  end) in E.
  assert (Ho : forall i, In i old_set
                         <-> In i (map groupc_of_row (group_rows pk w))).
  { intros i. rewrite <- Hold. unfold old_set.
    destruct old as [[| x o] |]; try tauto.
    apply (py_set_In groupc_eqb groupc_eqb_eq). }
  set (new_set := py_set groupc_eqb new) in E.
  assert (Hn : forall i, In i new_set <-> In i new)
    by (intros i; apply (py_set_In groupc_eqb groupc_eqb_eq)).
  apply bind_Ok in E. destruct E as ([] & w1 & E1 & E2).
  apply (delete_groups_rows pk) in E1; [| exact Hk | exact Hu].
  destruct E1 as (D1 & D2 & D3).
  apply (insert_groups_rows pk) in E2; [| exact D3].
  destruct E2 as (rows & R1 & R2 & R3 & R4).
  assert (Hrows : forall r, In r rows ->
                    g_target r = pk
                    /\ In (groupc_of_row r) new
                    /\ ~ In (groupc_of_row r) old_set).
  { intros r Hr. split; [rewrite Forall_forall in R3; now apply R3 |].
    assert (In (groupc_of_row r) (set_diff groupc_eqb new_set old_set)) as Hin
      by (rewrite <- R2; now apply in_map).
    apply (set_diff_In groupc_eqb groupc_eqb_eq) in Hin.
    destruct Hin as [Hin Hout]. split; [now apply Hn | exact Hout]. }
  assert (L : group_rows pk w' = group_rows pk w1 ++ rows).
  { unfold group_rows, datastore_query. cbn. rewrite R1, filter_app. f_equal.
    apply filter_keeps_all. eapply Forall_impl; [| exact R3].
    intros r Hr. now apply Z.eqb_eq. }
  assert (Hw1 : forall r, In r (group_rows pk w1) ->
                  In (groupc_of_row r) old_set /\ In (groupc_of_row r) new).
  { intros r Hr. apply filter_In in Hr. destruct Hr as [Hr Hpk].
    apply Z.eqb_eq in Hpk. apply D1 in Hr. destruct Hr as [Hr Hnd].
    assert (In (groupc_of_row r) old_set) as Hin.
    { apply Ho. apply in_map. apply filter_In. split; [exact Hr |].
      now apply Z.eqb_eq. }
    split; [exact Hin |].
    destruct (groupc_mem_dec (groupc_of_row r) new) as [Hi | Hout];
      [exact Hi |].
    exfalso. apply Hnd. split; [exact Hpk |].
    apply (set_diff_In groupc_eqb groupc_eqb_eq). split; [exact Hin |].
    rewrite Hn. exact Hout. }
  split; [| split; [| split; [exact R4 |]]].
  - intros i. rewrite L, map_app, in_app_iff. split.
    + intros [Hi | Hi]; apply in_map_iff in Hi; destruct Hi as (r & <- & Hr).
      * now apply Hw1.
      * now apply Hrows.
    + intros Hi.
      destruct (groupc_mem_dec i old_set) as [Hin | Hout].
      * left. apply Ho in Hin. apply in_map_iff in Hin.
        destruct Hin as (r & <- & Hr).
        apply in_map. apply filter_In in Hr. destruct Hr as [Hr Hpk].
        apply filter_In. split; [| exact Hpk]. apply D1. split; [exact Hr |].
        intros [_ Hd]. apply (set_diff_In groupc_eqb groupc_eqb_eq) in Hd.
        destruct Hd as [_ Hd]. apply Hd. now apply Hn.
      * right. rewrite R2. apply (set_diff_In groupc_eqb groupc_eqb_eq).
        split; [now apply Hn | exact Hout].
  - rewrite L, map_app. apply NoDup_app; [exact D2 | |].
    + rewrite R2. apply set_diff_NoDup, (py_set_NoDup groupc_eqb groupc_eqb_eq).
    + intros i Hi Hd. apply in_map_iff in Hi. destruct Hi as (r & <- & Hr).
      apply in_map_iff in Hd. destruct Hd as (r' & Er & Hr').
      apply Hrows in Hr'. destruct Hr' as (_ & _ & Hout). apply Hout.
      rewrite Er. now apply Hw1.
  - intros r Hr. rewrite R1, in_app_iff, D1. split.
    + intros [[Hin _] | Hin]; [exact Hin |].
      exfalso. apply Hr. now apply Hrows.
    + intros Hin. left. split; [exact Hin |]. intros [Hpk _]. contradiction.
Qed.

Lemma NoDup_map_finer {A B C} (f : A -> B) (g : A -> C) l :
  (forall a b, In a l -> In b l -> g a = g b -> f a = f b) ->
  NoDup (map f l) -> NoDup (map g l).
Proof.
  induction l as [| x l IH]; simpl; intros Hfg H; [constructor |].
  inversion H as [| ? ? Hx Hl]; subst. constructor.
  - intros Hin. apply Hx. apply in_map_iff in Hin. destruct Hin as (y & E & Hy).
    apply in_map_iff. exists y. split; [| exact Hy].
    apply Hfg; auto.
  - apply IH; [| exact Hl]. intros a b Ha Hb. apply Hfg; auto.
Qed.

Lemma groups_ok_rows pk w :
  groups_ok w -> NoDup (map groupc_of_row (group_rows pk w)).
Proof.
  intros (_ & Hp & _). unfold group_rows, datastore_query. cbn.
  apply (NoDup_map_finer (fun g => (g_target g, g_portalgroup g))).
  - intros a b Ha Hb E. apply filter_In in Ha, Hb.
    destruct Ha as [_ Ha], Hb as [_ Hb]. apply Z.eqb_eq in Ha, Hb.
    unfold groupc_of_row in E. inversion E. congruence.
  - now apply NoDup_map_filter.
Qed.

Lemma target_get_instance_Ok id w t w' :
  target_get_instance id w = (Ok t, w') ->
  w' = w /\ exists r, t = target_extend w r /\ In r (targets w) /\ t_id r = id.
Proof.
  intros E.
  destruct (target_get_instance_cases id w) as [F | (r & F & Hr & Hid)];
    rewrite F in E; inversion E; subst.
  split; [reflexivity |]. now exists r.
Qed.

Lemma upper_lower_mode m :
  In m ["ISCSI"; "FC"; "BOTH"] -> upper (lower m) = m.
Proof. intros [<- | [<- | [<- | []]]]; reflexivity. Qed.

(** X18: a target update that returns gives back the target asked for:
    the key it had, the name, the alias and the mode of the merged dict,
    and as [groups] exactly the elements of the merged [groups], each
    once.  The groups of the other targets are untouched.  The merged
    dict is taken within the enums of the schema, and the group table
    with its unique index kept and every auth type in a stored
    spelling. *)
Theorem X18_target_update_round_trip :
  forall (id : Z) (data : TargetUpdate) (w : World) (old t : Target) (w' : World),
    groups_ok w ->
    target_get_instance id w = (Ok old, w) ->
    target_do_update id data w = (Ok t, w') ->
    let new := target_merge old data in
    (forall g, In g (target_groups new) -> api_spelling g) ->
    In (target_mode new) ["ISCSI"; "FC"; "BOTH"] ->
    target_id t = Some id
    /\ target_name t = target_name new
    /\ target_alias t = target_alias new
    /\ target_mode t = target_mode new
    /\ NoDup (target_groups t)
    /\ (forall g, In g (target_groups t) <-> In g (target_groups new))
    /\ (forall r, g_target r <> id -> (In r (groups w') <-> In r (groups w))).
Proof.
  intros id data w old t w' Hw Hget E new Hapi Hmode.
  unfold target_do_update in E. rewrite (bind_step _ _ _ _ _ Hget) in E.
  fold new in E.
  apply target_get_instance_Ok in Hget.
  destruct Hget as (_ & r0 & Hold & Hr0 & Hid0).
  unfold bind at 1 in E. unfold get_world at 1 in E. cbn iota beta in E.
  apply bind_Ok in E. destruct E as ([] & w0 & V & E).
  apply check_Ok in V. destruct V as [_ ->].
  apply bind_Ok in E. destruct E as ([] & w1 & U & E).
  apply bind_Ok in E. destruct E as ([] & w2 & S & E).
  apply bind_Ok in E. destruct E as ([] & w3 & N & E).
  apply target_get_instance_Ok in E. destruct E as (-> & r & -> & Hr & Hid).
  assert (G1 : groups w1 = groups w).
  { refine (preserves_run groups _ _ _ _ _ U). frame_tac. }
  assert (T2 : targets w2 = targets w1)
    by exact (preserves_run _ _ _ _ _ (save_groups_keeps_targets _ _ _) S).
  assert (G3 : groups w3 = groups w2).
  { refine (preserves_run groups _ _ _ _ _ N). frame_tac. }
  assert (T3 : targets w3 = targets w2).
  { refine (preserves_run targets _ _ _ _ _ N). frame_tac. }
  assert (L1 : group_rows id w1 = group_rows id w)
    by (unfold group_rows, datastore_query; cbn; now rewrite G1).
  assert (L3 : group_rows id w3 = group_rows id w2)
    by (unfold group_rows, datastore_query; cbn; now rewrite G3).
  assert (Hstored : forall x, In x (group_rows id w) ->
                      stored_spelling (g_authtype x)).
  { destruct Hw as (_ & _ & Hs). rewrite Forall_forall in Hs.
    intros x Hx. apply filter_In in Hx. now apply Hs. }
  assert (Holdc : map group_compress (target_groups old)
                  = map groupc_of_row (group_rows id w)).
  { rewrite Hold, group_of_stored_row, Hid0, map_map.
    rewrite map_map. apply map_ext_in. intros x Hx.
    apply compress_extend. now apply Hstored. }
  apply save_groups_reconciles in S.
  2:{ rewrite G1. apply Hw. }
  2:{ rewrite L1. now apply groups_ok_rows. }
  2:{ intros i. cbn iota. rewrite Holdc, L1. tauto. }
  destruct S as (S1 & S2 & _ & S3).
  destruct (update_cases TargetT id
              (fun r =>
                 {| t_id := t_id r; t_name := target_name new;
                    t_alias := target_alias new;
                    t_mode := lower (target_mode new) |}) w)
    as [F | F]; rewrite F in U; inversion U as [W1]; clear U.
  rewrite T3, T2, <- W1 in Hr. cbn in Hr.
  apply in_map_iff in Hr. destruct Hr as (x & Ex & Hx).
  destruct (Z.eqb_spec (t_id x) id) as [Hxp | Hxp];
    [| exfalso; apply Hxp; now rewrite <- Hid, <- Ex].
  assert (Hgroups : target_groups (target_extend w3 r)
                    = map group_extend (map groupc_of_row (group_rows id w2))).
  { rewrite group_of_stored_row, Hid, L3. reflexivity. }
  assert (Hnewc : forall c, In c (map groupc_of_row (group_rows id w2)) ->
                    exists g, In g (target_groups new) /\ group_compress g = c).
  { intros c Hc. apply S1 in Hc. apply in_map_iff in Hc.
    destruct Hc as (g & Eg & Hg). now exists g. }
  split; [subst r; cbn; now rewrite Hxp |].
  split; [now subst r |].
  split; [now subst r |].
  split; [subst r; cbn; now apply upper_lower_mode |].
  rewrite Hgroups. split; [| split].
  - apply NoDup_map_inj_on; [| exact S2].
    intros a b Ha Hb Eab.
    destruct (Hnewc a Ha) as (ga & Hga & <-).
    destruct (Hnewc b Hb) as (gb & Hgb & <-).
    rewrite !extend_compress in Eab by (now apply Hapi). now subst.
  - intros g. rewrite in_map_iff. split.
    + intros (c & <- & Hc). destruct (Hnewc c Hc) as (g' & Hg' & <-).
      now rewrite extend_compress by (now apply Hapi).
    + intros Hg. exists (group_compress g). split.
      * now apply extend_compress, Hapi.
      * apply S1. now apply in_map.
  - intros x0 Hx0. rewrite G3, <- G1. now apply S3.
Qed.

Lemma X18_update_of_the_group_of_target_1 :
  let data :=
    {| tu_name := None; tu_alias := None; tu_mode := None;
       tu_groups := Some [example_group "NONE" None] |} in
  let t :=
    {| target_id := Some 1; target_name := "t1"; target_alias := None;
       target_mode := "ISCSI"; target_groups := [example_group "NONE" None] |} in
  target_do_update 1 data world_auth_alone
  = (Ok t, snd (target_do_update 1 data world_auth_alone))
  /\ NoDup (target_groups t)
  /\ (forall r, g_target r <> 1 ->
                (In r (groups (snd (target_do_update 1 data world_auth_alone)))
                 <-> In r (groups world_auth_alone))).
Proof.
  intros data t.
  assert (E : target_do_update 1 data world_auth_alone
              = (Ok t, snd (target_do_update 1 data world_auth_alone)))
    by (vm_compute; reflexivity).
  split; [exact E |].
  assert (H : groups_ok world_auth_alone).
  { unfold groups_ok. cbn. split; [| split].
    - constructor; [intros [] | constructor].
    - constructor; [intros [] | constructor].
    - constructor; [| constructor]. unfold stored_spelling. cbn. auto. }
  pose proof (X18_target_update_round_trip 1 data world_auth_alone
                (target_extend world_auth_alone
                   {| t_id := 1; t_name := "t1"; t_alias := None;
                      t_mode := "iscsi" |})
                t _ H eq_refl E) as R.
  cbv zeta in R.
  assert (A : forall g,
             In g (target_groups
                     (target_merge
                        (target_extend world_auth_alone
                           {| t_id := 1; t_name := "t1"; t_alias := None;
                              t_mode := "iscsi" |}) data)) ->
             api_spelling g).
  { intros g [<- | []]. exists "NONE". split; [reflexivity | now left]. }
  specialize (R A (or_introl eq_refl)).
  destruct R as (_ & _ & _ & _ & R1 & _ & R2).
  split; [exact R1 | exact R2].
Defined.

(** ** A target create returns what was asked for *)

(** X19: a target create that returns gives back the target asked for:
    a key no target had, the name, the alias and the mode of the call,
    and as [groups] exactly the elements of the given [groups], each
    once.  The groups of the other targets are untouched.  The call is
    taken within the enums of the schema, the group rows with distinct
    primary keys and each with a stored target. *)
Theorem X19_target_create_round_trip :
  forall (data : Target) (w : World) (t : Target) (w' : World),
    NoDup (map g_id (groups w)) ->
    groups_have_targets w ->
    target_do_create data w = (Ok t, w') ->
    (forall g, In g (target_groups data) -> api_spelling g) ->
    In (target_mode data) ["ISCSI"; "FC"; "BOTH"] ->
    exists pk,
      target_id t = Some pk
      /\ ~ In pk (map t_id (targets w))
      /\ target_name t = target_name data
      /\ target_alias t = target_alias data
      /\ target_mode t = target_mode data
      /\ NoDup (target_groups t)
      /\ (forall g, In g (target_groups t) <-> In g (target_groups data))
      /\ (forall r, g_target r <> pk -> (In r (groups w') <-> In r (groups w))).
Proof.
  intros data w t w' Hk Href E Hapi Hmode.
  unfold target_do_create in E.
  unfold bind at 1 in E. unfold get_world at 1 in E. cbn iota beta in E.
  apply bind_Ok in E. destruct E as ([] & w0 & V & E).
  apply check_Ok in V. destruct V as [_ ->].
  apply bind_Ok in E. destruct E as (pk & w1 & I & E).
  apply bind_Ok in E. destruct E as ([] & w2 & S & E).
  apply bind_Ok in E. destruct E as ([] & w3 & N & E).
  apply target_get_instance_Ok in E. destruct E as (-> & r & -> & Hr & Hid).
  apply try_except_reraise_Ok in S.
  destruct (insert_cases TargetT (target_row_of data) w) as [F | F];
    rewrite F in I; inversion I as [[Hpk W1]]; clear I.
  assert (Hfresh : ~ In pk (map t_id (targets w)))
    by (rewrite <- Hpk; apply fresh_id_not_in).
  assert (G1 : groups w1 = groups w) by (now rewrite <- W1).
  assert (T1 : targets w1 = targets w ++ [with_id TargetT pk (target_row_of data)])
    by (rewrite <- W1, <- Hpk; reflexivity).
  assert (T2 : targets w2 = targets w1)
    by exact (preserves_run _ _ _ _ _ (save_groups_keeps_targets _ _ _) S).
  assert (G3 : groups w3 = groups w2).
  { refine (preserves_run groups _ _ _ _ _ N). frame_tac. }
  assert (T3 : targets w3 = targets w2).
  { refine (preserves_run targets _ _ _ _ _ N). frame_tac. }
  assert (L3 : group_rows pk w3 = group_rows pk w2)
    by (unfold group_rows, datastore_query; cbn; now rewrite G3).
  assert (L1 : group_rows pk w1 = []).
  { unfold group_rows, datastore_query. cbn. rewrite G1.
    apply filter_none. intros x Hx. apply Z.eqb_neq. intros Hp.
    apply Hfresh. rewrite <- Hp. now apply Href. }
  apply save_groups_reconciles in S.
  2:{ now rewrite G1. }
  2:{ rewrite L1. constructor. }
  2:{ intros i. rewrite L1. cbn. tauto. }
  destruct S as (S1 & S2 & _ & S3).
  rewrite T3, T2, T1 in Hr. apply in_app_or in Hr.
  destruct Hr as [Hr | [Hr | []]];
    [exfalso; apply Hfresh; rewrite <- Hid; now apply in_map |].
  assert (Hgroups : target_groups (target_extend w3 r)
                    = map group_extend (map groupc_of_row (group_rows pk w2))).
  { rewrite group_of_stored_row, Hid, L3. reflexivity. }
  assert (Hnewc : forall c, In c (map groupc_of_row (group_rows pk w2)) ->
                    exists g, In g (target_groups data) /\ group_compress g = c).
  { intros c Hc. apply S1 in Hc. apply in_map_iff in Hc.
    destruct Hc as (g & Eg & Hg). now exists g. }
  exists pk.
  split; [now subst r |].
  split; [exact Hfresh |].
  split; [now subst r |].
  split; [now subst r |].
  split; [subst r; cbn; now apply upper_lower_mode |].
  rewrite Hgroups. split; [| split].
  - apply NoDup_map_inj_on; [| exact S2].
    intros a b Ha Hb Eab.
    destruct (Hnewc a Ha) as (ga & Hga & <-).
    destruct (Hnewc b Hb) as (gb & Hgb & <-).
    rewrite !extend_compress in Eab by (now apply Hapi). now subst.
  - intros g. rewrite in_map_iff. split.
    + intros (c & <- & Hc). destruct (Hnewc c Hc) as (g' & Hg' & <-).
      now rewrite extend_compress by (now apply Hapi).
    + intros Hg. exists (group_compress g). split.
      * now apply extend_compress, Hapi.
      * apply S1. now apply in_map.
  - intros x0 Hx0. rewrite G3, <- G1. now apply S3.
Qed.

Lemma X19_create_of_a_second_target :
  let data :=
    {| target_id := None; target_name := "t2"; target_alias := Some "second";
       target_mode := "ISCSI";
       target_groups := [example_group "CHAP" (Some 1)] |} in
  let t :=
    {| target_id := Some 2; target_name := "t2"; target_alias := Some "second";
       target_mode := "ISCSI";
       target_groups := [example_group "CHAP" (Some 1)] |} in
  target_do_create data world_auth_alone
  = (Ok t, snd (target_do_create data world_auth_alone))
  /\ exists pk,
       target_id t = Some pk
       /\ ~ In pk (map t_id (targets world_auth_alone))
       /\ target_name t = target_name data
       /\ target_alias t = target_alias data
       /\ target_mode t = target_mode data
       /\ NoDup (target_groups t)
       /\ (forall g, In g (target_groups t) <-> In g (target_groups data))
       /\ (forall r, g_target r <> pk ->
                     (In r (groups (snd (target_do_create data world_auth_alone)))
                      <-> In r (groups world_auth_alone))).
Proof.
  intros data t.
  assert (E : target_do_create data world_auth_alone
              = (Ok t, snd (target_do_create data world_auth_alone)))
    by (vm_compute; reflexivity).
  split; [exact E |].
  apply (X19_target_create_round_trip data world_auth_alone t _).
  - cbn. constructor; [intros [] | constructor].
  - intros g [<- | []]. cbn. now left.
  - exact E.
  - intros g [<- | []]. exists "CHAP". split; [reflexivity |]. right. now left.
  - now left.
Defined.

(** ** Stored extents keep a backing that validation accepts *)

Lemma clean_type_and_path_accepts d schema v w r w' :
  extent_clean_type_and_path d schema v w = (Ok r, w') ->
  exists x, r = v ++ x
    /\ (x = [] ->
        (extent_type d = "DISK" ->
         exists k, disk d = Some k /\ startswith k "zvol/" = true
                   /\ dataset_exists (env w)
                        (zvol_path_to_name (env w) ("/dev/" ^^ k)) = true)
        /\ (extent_type d = "FILE" ->
            exists p, path d = Some p /\ p <> ""
                      /\ resides_within_volume (env w) p = true)).
Proof.
  unfold extent_clean_type_and_path. rewrite bind_get_world.
  destruct (String.eqb_spec (extent_type d) "DISK") as [Ed | Ed].
  - destruct (disk d) as [[| c k] |]; try discriminate.
    destruct (startswith (String c k) "zvol/") eqn:S; cbn [negb];
      [| discriminate].
    intros H. inversion H; subst. eexists. split; [reflexivity |].
    intros E. apply app_eq_nil in E. destruct E as [E _].
    split; [| intros F; rewrite Ed in F; discriminate F].
    intros _. exists (String c k). split; [reflexivity |]. split; [exact S |].
    destruct (dataset_exists _ _); [reflexivity | discriminate E].
  - destruct (String.eqb_spec (extent_type d) "FILE") as [Ef | Ef].
    + destruct (path d) as [[| c p] |]; try discriminate.
      intros H. inversion H; subst. eexists. split; [reflexivity |].
      intros E. apply app_eq_nil in E. destruct E as [_ E].
      split; [intros F; contradiction |].
      intros _. exists (String c p). split; [reflexivity |].
      split; [discriminate |].
      destruct (resides_within_volume _ _); [reflexivity | discriminate E].
    + intros H. inversion H; subst. exists []. split; [now rewrite app_nil_r |].
      intros _. split; intros F; contradiction.
Qed.

Lemma clean_size_accepts d schema v w r w' :
  extent_clean_size d schema v w = (Ok r, w') ->
  exists x, r = v ++ x
    /\ (x = [] -> extent_type d = "FILE" ->
        size_fits (filesize d) (blocksize d)).
Proof.
  unfold extent_clean_size. rewrite bind_get_world.
  destruct (String.eqb_spec (extent_type d) "FILE") as [Ef | Ef]; cbn [negb].
  2:{ intros H. inversion H; subst. exists []. split; [now rewrite app_nil_r |].
      intros _ F. contradiction. }
  cbv zeta. destruct (path d) as [[| c p] |].
  - intros H. inversion H; subst. eexists. split; [reflexivity |]. discriminate.
  - destruct (Z.eqb_spec (filesize d) 0) as [Z0 | Z0].
    + destruct (_ || _); intros H; inversion H; subst.
      * eexists. split; [reflexivity |]. discriminate.
      * exists []. split; [now rewrite app_nil_r |]. intros _ _. now left.
    + destruct (float_of_int (filesize d)) as [f |] eqn:Fl; [| discriminate].
      destruct (Z.eqb_spec (blocksize d) 0) as [B0 | B0]; [discriminate |].
      destruct (Z.eqb_spec (f mod blocksize d) 0) as [M0 | M0];
        cbn [negb]; intros H; inversion H; subst.
      * exists []. split; [now rewrite app_nil_r |]. intros _ _. right.
        split; [exact B0 |]. now exists f.
      * eexists. split; [reflexivity |]. discriminate.
  - intros H. inversion H; subst. eexists. split; [reflexivity |]. discriminate.
Qed.

(** Below 2^53 the double of a size is the size itself, and a size that
    fits is zero or a multiple of the block size. *)
Lemma size_fits_exact size blocksize :
  Z.abs size < 2 ^ 53 -> size_fits size blocksize ->
  size = 0 \/ size mod blocksize = 0.
Proof.
  intros Hs [H | (_ & f & Hf & Hm)]; [now left | right].
  unfold float_of_int in Hf. cbv zeta in Hf.
  apply Z.ltb_lt in Hs. rewrite Hs in Hf. now inversion Hf; subst.
Qed.

(** Past 2^53 a size can fit without being a multiple: the double of
    2^53 + 1 is 2^53. *)
Lemma size_fits_rounded :
  size_fits (2 ^ 53 + 1) 512 /\ (2 ^ 53 + 1) mod 512 = 1.
Proof.
  split; [| reflexivity]. right. split; [discriminate |].
  exists (2 ^ 53). split; reflexivity.
Qed.

Lemma extent_clean_backing d schema old w w' :
  extent_clean d schema [] old w = (Ok [], w') ->
  (extent_type d = "DISK" ->
   exists k, disk d = Some k /\ startswith k "zvol/" = true
             /\ dataset_exists (env w)
                  (zvol_path_to_name (env w) ("/dev/" ^^ k)) = true)
  /\ (extent_type d = "FILE" ->
      exists p, path d = Some p /\ p <> ""
                /\ resides_within_volume (env w) p = true
                /\ size_fits (filesize d) (blocksize d)).
Proof.
  unfold extent_clean. intros H.
  inv_ok H as v1 w1 H1. inv_ok H as v2 w2 H2.
  apply clean_name_result in H1. destruct H1 as (-> & s & x & Hs & -> & _).
  pose proof (clean_type_and_path_result _ _ _ _ _ _ H2) as [-> _].
  apply clean_type_and_path_accepts in H2. destruct H2 as (y & -> & Hy).
  apply clean_size_accepts in H. destruct H as (z & Hz & Hsize).
  symmetry in Hz. apply app_eq_nil in Hz. destruct Hz as [Hz ->].
  apply app_eq_nil in Hz. destruct Hz as [_ ->].
  destruct (Hy eq_refl) as [Hd Hf]. split; [exact Hd |].
  intros F. destruct (Hf F) as (p & Hp & Hne & Hres).
  exists p. repeat split; auto.
Qed.

Lemma extent_save_result d w p w' :
  extent_save d w = (Ok p, w') ->
  if String.eqb (extent_type d) "FILE" then p = path d else p = disk d.
Proof.
  unfold extent_save. destruct (String.eqb (extent_type d) "FILE").
  - destruct (path d) as [q |]; [| discriminate]. cbv zeta. intros H.
    inv_ok H as a1 w1 H1. inv_ok H as a2 w2 H2. inv_ok H as a3 w3 H3.
    inv_ok H as a4 w4 H4. inversion H; subst. reflexivity.
  - intros H. inversion H; subst. reflexivity.
Qed.

Lemma extents_backed_same w w' :
  extents w' = extents w -> env w' = env w ->
  extents_backed w -> extents_backed w'.
Proof. unfold extents_backed. now intros -> ->. Qed.

Lemma extents_backed_thins {A} (c : M A) :
  thins extents c -> preserves env c -> maintains extents_backed c.
Proof.
  intros H He w Hw. destruct (H w) as [p Hp]. unfold extents_backed in *.
  rewrite Hp, He. rewrite Forall_forall in *. intros x Hx.
  apply filter_In in Hx. now apply Hw.
Qed.

Lemma frame_env o : preserves env (run_operation o).
Proof.
  destruct o as [m | attachments]; [destruct m |]; frame_tac.
  cbv zeta. destruct force; repeat frame_step.
Qed.

(** Run the next step, which leaves the extent table and the
    environment alone; [Hw] is the invariant at the current world. *)
Ltac backed_step Hx He Hw :=
  match goal with
  | |- context [bind ?c ?k ?w] =>
      let F := fresh "F" in
      let G := fresh "G" in
      let E := fresh "E" in
      assert (F : extents (snd (c w)) = extents w) by (apply Hx);
      assert (G : env (snd (c w)) = env w) by (apply He);
      destruct (c w) as [[? | ?] ?] eqn:E; cbn [snd] in F, G;
      apply (extents_backed_same _ _ F G) in Hw;
      [ rewrite (bind_step _ _ _ _ _ E)
      | rewrite (bind_fail _ _ _ _ _ E); exact Hw ]
  end.

Lemma backing_of_row e d p :
  (extent_type d = "DISK" ->
   exists k, disk d = Some k /\ startswith k "zvol/" = true
             /\ dataset_exists e (zvol_path_to_name e ("/dev/" ^^ k)) = true) ->
  (extent_type d = "FILE" ->
   exists q, path d = Some q /\ q <> ""
             /\ resides_within_volume e q = true
             /\ size_fits (filesize d) (blocksize d)) ->
  (if String.eqb (extent_type d) "FILE" then p = path d else p = disk d) ->
  forall r, e_type r = extent_type d -> e_path r = p ->
            e_filesize r = filesize d -> e_blocksize r = blocksize d ->
            extent_backing_ok e r.
Proof.
  intros Hd Hf Hp r Et Ep Es Eb. split; intros T; rewrite Et in T.
  - destruct (Hd T) as (k & Hk & H1 & H2). exists k.
    rewrite T in Hp. cbn in Hp. rewrite Ep, Hp. auto.
  - destruct (Hf T) as (q & Hq & H1 & H2 & H3). exists q.
    rewrite T in Hp. cbn in Hp. rewrite Ep, Hp, Es, Eb. auto.
Qed.

Lemma extent_create_maintains_backing data :
  maintains extents_backed (extent_do_create data).
Proof.
  intros w Hw. unfold extent_do_create.
  backed_step (preserves_extent_validate extents (fun _ _ => eq_refl))
              (preserves_extent_validate env (fun _ _ => eq_refl)) Hw.
  rename a into d, w0 into w1, E into V, F into F1, G into G1.
  backed_step (preserves_extent_clean extents) (preserves_extent_clean env) Hw.
  rename a into v, w0 into w2, E into C, F into F2, G into G2.
  destruct v as [| e v]; [| exact Hw].
  cbn [check]. rewrite bind_ret.
  pose proof (extent_clean_backing _ _ _ _ _ C) as [Bd Bf].
  backed_step (fun x => preserves_extent_save extents x (fun _ _ => eq_refl)
                             (fun _ _ _ => eq_refl))
              (fun x => preserves_extent_save env x (fun _ _ => eq_refl)
                             (fun _ _ _ => eq_refl)) Hw.
  rename a into p, w0 into w3, E into S, F into F3, G into G3.
  apply extent_save_result in S.
  match goal with
  | |- context [datastore_insert ExtentT ?r] =>
      destruct (insert_cases ExtentT r w3) as [I | I]
  end.
  - rewrite (bind_fail _ _ _ _ _ I). exact Hw.
  - rewrite (bind_step _ _ _ _ _ I). rewrite snd_extent_get_instance.
    unfold extents_backed in *. cbn.
    apply Forall_app. split; [exact Hw |]. constructor; [| constructor].
    rewrite G3, G2.
    apply (backing_of_row _ d p); auto.
Qed.

Lemma extent_update_maintains_backing id data :
  maintains extents_backed (extent_do_update id data).
Proof.
  intros w Hw. unfold extent_do_update.
  destruct (extent_get_instance_cases id w) as [E | (r0 & E & Hr0 & Hid)].
  { rewrite (bind_fail _ _ _ _ _ E). exact Hw. }
  rewrite (bind_step _ _ _ _ _ E). cbv zeta.
  backed_step (preserves_extent_validate extents (fun _ _ => eq_refl))
              (preserves_extent_validate env (fun _ _ => eq_refl)) Hw.
  rename a into d, w0 into w1, E0 into V, F into F1, G into G1.
  backed_step (preserves_extent_clean extents) (preserves_extent_clean env) Hw.
  rename a into v, w0 into w2, E0 into C, F into F2, G into G2.
  destruct v as [| e v]; [| exact Hw].
  cbn [check]. rewrite bind_ret.
  pose proof (extent_clean_backing _ _ _ _ _ C) as [Bd Bf].
  backed_step (fun x => preserves_extent_save extents x (fun _ _ => eq_refl)
                             (fun _ _ _ => eq_refl))
              (fun x => preserves_extent_save env x (fun _ _ => eq_refl)
                             (fun _ _ _ => eq_refl)) Hw.
  rename a into p, w0 into w3, E0 into S, F into F3, G into G3.
  apply extent_save_result in S.
  match goal with
  | |- context [datastore_update ExtentT id ?g] =>
      destruct (update_cases ExtentT id g w3) as [U | U]
  end.
  - rewrite (bind_fail _ _ _ _ _ U). exact Hw.
  - rewrite (bind_step _ _ _ _ _ U). unfold _service_change.
    rewrite bind_emit, snd_extent_get_instance.
    unfold extents_backed in *. cbn.
    rewrite Forall_forall in *. intros x Hx.
    apply in_map_iff in Hx. destruct Hx as (r & <- & Hr).
    destruct (e_id r =? id); [| now apply Hw].
    rewrite G3, G2.
    apply (backing_of_row _ d p); auto.
Qed.

(** X20: once every stored DISK extent names a zvol of an existing
    volume, and every stored FILE extent a path within a volume with a
    size that is zero or, converted to a double as [clean_size] does,
    a multiple of its block size, this stays so whatever operation runs
    next and however it ends. *)
Theorem X20_extents_stay_backed :
  forall (o : Operation) (w : World),
    extents_backed w -> extents_backed (snd (run_operation o w)).
Proof.
  intros o w Hw. pose proof (frame_env o) as He.
  destruct o as [m | attachments]; cbn [run_operation] in *.
  - pose proof (frame_extents m) as F.
    destruct m; cbn [run_mutation] in *;
      try (apply (extents_backed_thins _ (preserves_thins _ _ F) He); exact Hw).
    + apply maintains_void; [| exact Hw]. apply extent_create_maintains_backing.
    + apply maintains_void; [| exact Hw]. apply extent_update_maintains_backing.
    + apply (extents_backed_thins _
               (thins_void _ _ (thins_extents_delete id remove force)) He).
      exact Hw.
  - apply (extents_backed_thins _ (thins_extents_detach attachments) He).
    exact Hw.
Qed.

Lemma X20_create_of_a_disk_extent :
  extents_backed world_file_extent
  /\ extents_backed
       (snd (run_operation (OpMutation (extent_create example_extent_create))
               world_file_extent)).
Proof.
  assert (H : extents_backed world_file_extent).
  { unfold extents_backed. cbn. constructor; [| constructor].
    split; cbn; intros T; [discriminate T |].
    exists "/mnt/tank/iscsi/disk0". split; [reflexivity |].
    split; [discriminate |]. split; [reflexivity | now left]. }
  split; [exact H |]. apply X20_extents_stay_backed. exact H.
Defined.

(** A FILE extent of 2^53 + 1 bytes with blocks of 512 is created: the
    double of that size is 2^53. *)
Lemma create_of_a_rounded_size_is_accepted :
  exists e,
    fst (extent_do_create
           {| ec_name := "big"; ec_type := "FILE"; ec_disk := None;
              ec_serial := Some "10000000000face";
              ec_path := Some "/mnt/tank/big"; ec_filesize := 2 ^ 53 + 1;
              ec_blocksize := 512; ec_misc := default_misc |}
           empty_world)
    = Ok e
    /\ filesize e = 2 ^ 53 + 1.
Proof. eexists. split; vm_compute; reflexivity. Qed.

(** ** References from listen rows and group rows stay good *)

(** Child rows may go and parent keys may come. *)
Lemma refs_ok_mono w w' :
  incl (portalips w') (portalips w) ->
  incl (groups w') (groups w) ->
  incl (map p_id (portals w)) (map p_id (portals w')) ->
  incl (map t_id (targets w)) (map t_id (targets w')) ->
  refs_ok w -> refs_ok w'.
Proof.
  intros H1 H2 H3 H4 (R1 & R2 & R3). split; [| split].
  - intros r Hr. apply H3, R1, H1, Hr.
  - intros g Hg. apply H4, R2, H2, Hg.
  - intros g Hg. apply H3, R3, H2, Hg.
Qed.

Lemma refs_ok_frame {A} (c : M A) :
  preserves portals c -> preserves portalips c ->
  preserves groups c -> preserves targets c ->
  maintains refs_ok c.
Proof.
  intros H1 H2 H3 H4 w. apply refs_ok_mono.
  - rewrite H2. apply incl_refl.
  - rewrite H3. apply incl_refl.
  - rewrite H1. apply incl_refl.
  - rewrite H4. apply incl_refl.
Qed.

Lemma for_each_keeps {A} (I : World -> Prop) (body : A -> M unit) :
  (forall x w w', I w -> body x w = (Ok tt, w') -> I w') ->
  forall l w w', I w -> for_each l body w = (Ok tt, w') -> I w'.
Proof.
  intros Hb. induction l as [| x l IH]; intros w w' Hw E.
  - cbn in E. inversion E; subst. exact Hw.
  - cbn [for_each] in E. apply bind_Ok in E. destruct E as ([] & w1 & E1 & E2).
    eapply IH; [| exact E2]. eapply Hb; eassumption.
Qed.

(** The groups a validation lets through name stored portals, none
    twice. *)
Lemma validate_groups_accepts w schema dbp dbi : forall l acc,
  target_validate_groups w schema dbp dbi acc l = [] ->
  (forall ig, In ig l ->
              In (portal (snd ig)) dbp /\ ~ In (portal (snd ig)) acc)
  /\ NoDup (map (fun ig => portal (snd ig)) l).
Proof.
  induction l as [| [i g] l IH]; intros acc H.
  - split; [intros ig [] | constructor].
  - cbn [target_validate_groups] in H.
    apply app_eq_nil in H. destruct H as [Hg Hl].
    unfold target_validate_group in Hg.
    apply app_eq_nil in Hg. destruct Hg as [Hp _].
    unfold target_validate_group_portal in Hp.
    destruct (mem_Z (portal g) acc) eqn:Ma; [discriminate Hp |].
    destruct (mem_Z (portal g) dbp) eqn:Md; cbn [negb] in Hp;
      [| discriminate Hp].
    unfold target_accept_portal in Hl. rewrite Ma, Md in Hl. cbn [negb] in Hl.
    apply IH in Hl. destruct Hl as [Hall Hnd].
    assert (Hacc : ~ In (portal g) acc).
    { intros Hin. apply mem_Z_In in Hin. congruence. }
    split.
    + intros ig [<- | Hin]; cbn [snd].
      * split; [now apply mem_Z_In | exact Hacc].
      * destruct (Hall ig Hin) as [Q1 Q2]. split; [exact Q1 |].
        intros Hx. apply Q2. apply in_or_app. now left.
    + cbn. constructor; [| exact Hnd].
      intros Hin. apply in_map_iff in Hin. destruct Hin as (ig & E & Hig).
      destruct (Hall ig Hig) as [_ Q2]. apply Q2. apply in_or_app. right.
      rewrite E. now left.
Qed.

Lemma map_snd_enumerate_from {A} (l : list A) :
  forall i, map snd (enumerate_from i l) = l.
Proof.
  induction l as [| x l IH]; intros i; cbn; [reflexivity |]. now rewrite IH.
Qed.

Lemma target_validate_portals w data schema old :
  target_validate w data schema old = [] ->
  (forall g, In g (target_groups data) ->
             In (portal g) (map p_id (portals w)))
  /\ NoDup (map portal (target_groups data)).
Proof.
  unfold target_validate. cbv zeta. intros H.
  apply app_eq_nil in H. destruct H as [_ H].
  apply app_eq_nil in H. destruct H as [_ H].
  apply app_eq_nil in H. destruct H as [_ H].
  apply validate_groups_accepts in H. destruct H as [Hall Hnd].
  split.
  - intros g Hg.
    assert (In g (map snd (enumerate (target_groups data)))) as Hin
      by (unfold enumerate; now rewrite map_snd_enumerate_from).
    apply in_map_iff in Hin. destruct Hin as (ig & <- & Hig).
    destruct (Hall ig Hig) as [Q _].
    apply in_map_iff in Q. destruct Q as (p & <- & Hp).
    apply filter_In in Hp. apply in_map. apply Hp.
  - rewrite <- (map_snd_enumerate_from (target_groups data) 0) at 1.
    rewrite map_map. exact Hnd.
Qed.

(** ** What the reconciliations add *)

Lemma adds_of_thins {A R} (f : World -> list R) P (c : M A) :
  thins f c -> adds f P c.
Proof. intros H w r Hr. left. now apply (thins_incl f c w H). Qed.

Lemma adds_bind {A B R} (f : World -> list R) P (c : M A) (k : A -> M B) :
  adds f P c -> (forall a, adds f P (k a)) -> adds f P (bind c k).
Proof.
  intros Hc Hk w r. unfold bind. specialize (Hc w r).
  destruct (c w) as [[a | e] w1]; cbn [snd] in *; [| exact Hc].
  intros Hr. destruct (Hk a w1 r Hr) as [H | H]; [now apply Hc | now right].
Qed.

Lemma adds_for_each {A R} (f : World -> list R) P (l : list A) body :
  (forall x, adds f P (body x)) -> adds f P (for_each l body).
Proof.
  intros Hb. induction l as [| x l IH]; cbn [for_each].
  - intros w r Hr. now left.
  - apply adds_bind; [apply Hb | intros _; exact IH].
Qed.

Lemma adds_insert_listen pk i :
  adds portalips (fun r => pip_portal r = pk)
    (_ <- datastore_insert PortalIpT (listen_row pk i) ;; ret tt).
Proof.
  intros w r.
  destruct (insert_cases PortalIpT (listen_row pk i) w) as [F | F];
    unfold bind; rewrite F; cbn.
  - now left.
  - intros Hr. apply in_app_or in Hr. destruct Hr as [Hr | [<- | []]];
      [now left | now right].
Qed.

Lemma save_listen_adds pk new old :
  adds portalips (fun r => pip_portal r = pk) (portal_save_listen pk new old).
Proof.
  unfold portal_save_listen. cbv zeta. apply adds_bind.
  - apply adds_for_each. intros i. apply (adds_insert_listen pk i).
  - intros _. apply adds_of_thins, thins_listen_deletes.
Qed.

Lemma adds_insert_group pk new i :
  In i new ->
  adds groups (fun g => g_target g = pk /\ In (groupc_of_row g) new)
    (_ <- datastore_insert GroupT (group_row pk i) ;; ret tt).
Proof.
  intros Hi w r.
  destruct (insert_cases GroupT (group_row pk i) w) as [F | F];
    unfold bind; rewrite F; cbn.
  - now left.
  - intros Hr. apply in_app_or in Hr. destruct Hr as [Hr | [<- | []]];
      [now left | right].
    split; [reflexivity |]. unfold groupc_of_row. cbn. now destruct i.
Qed.

Lemma adds_for_each_in {A R} (f : World -> list R) P (l : list A) body :
  (forall x, In x l -> adds f P (body x)) -> adds f P (for_each l body).
Proof.
  induction l as [| x l IH]; intros Hb; cbn [for_each].
  - intros w r Hr. now left.
  - apply adds_bind; [apply Hb; now left |].
    intros _. apply IH. intros y Hy. apply Hb. now right.
Qed.

Lemma thins_group_deletes pk l :
  thins groups
    (for_each l
       (fun i : GroupC =>
          w <- get_world ;;
          match datastore_query GroupT
                  (fun g => (g_target g =? pk) && (g_portalgroup g =? gc_portal i)
                            && opt_Z_eqb (g_initiatorgroup g) (gc_initiator i)
                            && String.eqb (g_authtype g) (gc_authmethod i)
                            && opt_Z_eqb (g_authgroup g) (gc_auth i)) w with
          | targetgroup :: _ =>
              _ <- datastore_delete GroupT (g_id targetgroup) ;; ret tt
          | [] => ret tt
          end)).
Proof. thins_tac. Qed.

Lemma save_groups_adds pk new old :
  adds groups (fun g => g_target g = pk /\ In (groupc_of_row g) new)
    (target_save_groups pk new old).
Proof.
  unfold target_save_groups. cbv zeta. apply adds_bind.
  - apply adds_of_thins, thins_group_deletes.
  - intros _. apply adds_for_each_in. intros i Hi.
    apply (adds_insert_group pk new i).
    apply (set_diff_In groupc_eqb groupc_eqb_eq) in Hi. destruct Hi as [Hi _].
    exact (proj1 (py_set_In groupc_eqb groupc_eqb_eq _ _) Hi).
Qed.

(** ** Each operation that returns keeps the references *)

Lemma portal_create_keeps_refs data w p w' :
  refs_ok w -> portal_do_create data w = (Ok p, w') -> refs_ok w'.
Proof.
  intros (R1 & R2 & R3) E.
  assert (G : groups w' = groups w).
  { refine (preserves_run groups _ _ _ _ _ E). frame_tac. }
  assert (T : targets w' = targets w).
  { refine (preserves_run targets _ _ _ _ _ E). frame_tac. }
  unfold portal_do_create in E.
  unfold bind at 1 in E. unfold get_world at 1 in E. cbn iota beta in E.
  apply bind_Ok in E. destruct E as ([] & w0 & V & E).
  apply check_Ok in V. destruct V as [_ ->].
  apply bind_Ok in E. destruct E as (pk & w1 & I & E).
  apply bind_Ok in E. destruct E as ([] & w2 & S & E).
  apply bind_Ok in E. destruct E as ([] & w3 & N & E).
  apply portal_get_instance_Ok in E. destruct E as (-> & _).
  apply try_except_reraise_Ok in S.
  destruct (insert_cases PortalT
              (portal_row_of_create (portal_count w + 1) data) w) as [F | F];
    rewrite F in I; inversion I as [[Hpk W1]]; clear I.
  assert (I1 : portalips w1 = portalips w) by (now rewrite <- W1).
  assert (P1 : map p_id (portals w1) = map p_id (portals w) ++ [pk]).
  { rewrite <- W1, <- Hpk. cbn. now rewrite map_app. }
  assert (P2 : portals w2 = portals w1)
    by exact (preserves_run _ _ _ _ _ (save_listen_keeps_portals _ _ _) S).
  assert (I3 : portalips w3 = portalips w2).
  { refine (preserves_run portalips _ _ _ _ _ N). frame_tac. }
  assert (P3 : portals w3 = portals w2).
  { refine (preserves_run portals _ _ _ _ _ N). frame_tac. }
  pose proof (save_listen_adds pk (pc_listen data) None w1) as A.
  rewrite S in A. cbn [snd] in A.
  assert (Hids : forall x, In x (map p_id (portals w)) ->
                           In x (map p_id (portals w3))).
  { intros x Hx. rewrite P3, P2, P1. apply in_or_app. now left. }
  split; [| split].
  - intros r Hr. rewrite I3 in Hr. destruct (A r Hr) as [H | H].
    + apply Hids, R1. now rewrite <- I1.
    + rewrite P3, P2, P1, H. apply in_or_app. right. now left.
  - intros g Hg. rewrite T. apply R2. now rewrite <- G.
  - intros g Hg. apply Hids, R3. now rewrite <- G.
Qed.

Lemma portal_ids_update pk (g : PortalRow -> PortalRow) w u w' :
  (forall r, p_id (g r) = p_id r) ->
  datastore_update PortalT pk g w = (u, w') ->
  map p_id (portals w') = map p_id (portals w).
Proof.
  intros Hg E. destruct (update_cases PortalT pk g w) as [F | F];
    rewrite F in E; inversion E; subst; cbn; [reflexivity |].
  apply (map_key_update p_id). intros r _ Hr. now rewrite Hg.
Qed.

Lemma target_ids_update pk (g : TargetRow -> TargetRow) w u w' :
  (forall r, t_id (g r) = t_id r) ->
  datastore_update TargetT pk g w = (u, w') ->
  map t_id (targets w') = map t_id (targets w).
Proof.
  intros Hg E. destruct (update_cases TargetT pk g w) as [F | F];
    rewrite F in E; inversion E; subst; cbn; [reflexivity |].
  apply (map_key_update t_id). intros r _ Hr. now rewrite Hg.
Qed.

Lemma portal_update_keeps_refs pk data w p w' :
  refs_ok w -> portal_do_update pk data w = (Ok p, w') -> refs_ok w'.
Proof.
  intros (R1 & R2 & R3) E.
  assert (G : groups w' = groups w).
  { refine (preserves_run groups _ _ _ _ _ E). frame_tac. }
  assert (T : targets w' = targets w).
  { refine (preserves_run targets _ _ _ _ _ E). frame_tac. }
  unfold portal_do_update in E.
  apply bind_Ok in E. destruct E as (old & wa & Hget & E).
  apply portal_get_instance_Ok in Hget.
  destruct Hget as (-> & r0 & Hold & Hr0 & Hid0).
  unfold bind at 1 in E. unfold get_world at 1 in E. cbn iota beta in E.
  apply bind_Ok in E. destruct E as ([] & w0 & V & E).
  apply check_Ok in V. destruct V as [_ ->].
  apply bind_Ok in E. destruct E as ([] & w1 & S & E).
  apply bind_Ok in E. destruct E as ([] & w2 & U & E).
  apply bind_Ok in E. destruct E as ([] & w3 & N & E).
  apply portal_get_instance_Ok in E. destruct E as (-> & _).
  assert (P1 : portals w1 = portals w)
    by exact (preserves_run _ _ _ _ _ (save_listen_keeps_portals _ _ _) S).
  assert (I2 : portalips w2 = portalips w1).
  { refine (preserves_run portalips _ _ _ _ _ U). frame_tac. }
  assert (I3 : portalips w3 = portalips w2).
  { refine (preserves_run portalips _ _ _ _ _ N). frame_tac. }
  assert (P3 : portals w3 = portals w2).
  { refine (preserves_run portals _ _ _ _ _ N). frame_tac. }
  apply portal_ids_update in U; [| reflexivity].
  assert (Hids : map p_id (portals w3) = map p_id (portals w))
    by (now rewrite P3, U, P1).
  pose proof (save_listen_adds pk (listen (portal_merge old data))
                (Some (listen old)) w) as A.
  rewrite S in A. cbn [snd] in A.
  split; [| split].
  - intros r Hr. rewrite Hids. rewrite I3, I2 in Hr.
    destruct (A r Hr) as [H | H]; [now apply R1 |].
    rewrite H, <- Hid0. now apply in_map.
  - intros g Hg. rewrite T. apply R2. now rewrite <- G.
  - intros g Hg. rewrite Hids. apply R3. now rewrite <- G.
Qed.

Lemma delete_where_Ok {R} (T : TableOps R) flt w b w' :
  datastore_delete_where T flt w = (Ok b, w') ->
  w' = set_log (log (set_faults (tl (faults w)) w) ++ [EvDeleteWhere (tbl T)])
         (set_rows T
            (filter (fun r => negb (flt r)) (rows T (set_faults (tl (faults w)) w)))
            (set_faults (tl (faults w)) w)).
Proof.
  unfold datastore_delete_where. intros H. apply write_Ok in H.
  destruct H as [_ H]. now inversion H.
Qed.

Lemma delete_Ok {R} (T : TableOps R) id w b w' :
  datastore_delete T id w = (Ok b, w') ->
  w' = set_log (log (set_faults (tl (faults w)) w) ++ [EvDelete (tbl T) id])
         (set_rows T
            (filter (fun r => negb (row_id T r =? id))
               (rows T (set_faults (tl (faults w)) w)))
            (set_faults (tl (faults w)) w)).
Proof.
  intros H. destruct (delete_cases T id w) as [F | F]; rewrite F in H;
    now inversion H.
Qed.

Lemma preserves_portal_ids_update pk (g : PortalRow -> PortalRow) :
  (forall r, p_id (g r) = p_id r) ->
  preserves (fun w => map p_id (portals w)) (datastore_update PortalT pk g).
Proof.
  intros Hg w. destruct (datastore_update PortalT pk g w) as [u w1] eqn:E.
  cbn [snd]. now apply (portal_ids_update pk g w u w1).
Qed.

Lemma in_filter_ids {R} (key : R -> Z) id x l :
  In x (map key l) -> x <> id ->
  In x (map key (filter (fun r => negb (key r =? id)) l)).
Proof.
  intros Hx Hn. apply in_map_iff in Hx. destruct Hx as (r & <- & Hr).
  apply in_map. apply filter_In. split; [exact Hr |].
  apply negb_true_iff. now apply Z.eqb_neq.
Qed.

Lemma portal_delete_keeps_refs id w b w' :
  refs_ok w -> portal_do_delete id w = (Ok b, w') -> refs_ok w'.
Proof.
  intros (R1 & R2 & R3) E.
  assert (T : targets w' = targets w).
  { refine (preserves_run targets _ _ _ _ _ E). frame_tac. }
  unfold portal_do_delete in E.
  apply bind_Ok in E. destruct E as (old & wa & Hget & E).
  apply portal_get_instance_Ok in Hget. destruct Hget as (-> & _).
  apply bind_Ok in E. destruct E as (b1 & w1 & D1 & E).
  apply bind_Ok in E. destruct E as (b2 & w2 & D2 & E).
  apply bind_Ok in E. destruct E as (b3 & w3 & D3 & E).
  unfold bind at 1 in E. unfold get_world at 1 in E. cbn iota beta in E.
  apply bind_Ok in E. destruct E as ([] & w4 & L & E).
  apply bind_Ok in E. destruct E as ([] & w5 & N & E).
  inversion E; subst b w'. clear E.
  apply delete_where_Ok in D1. apply delete_where_Ok in D2.
  apply delete_Ok in D3.
  assert (G4 : groups w4 = groups w3).
  { refine (preserves_run groups _ _ _ _ _ L). frame_tac. }
  assert (I4 : portalips w4 = portalips w3).
  { refine (preserves_run portalips _ _ _ _ _ L). frame_tac. }
  assert (P4 : map p_id (portals w4) = map p_id (portals w3)).
  { refine (preserves_run (fun w => map p_id (portals w)) _ _ _ _ _ L).
    apply preserves_for_each. intros [i q]. cbn [snd fst].
    destruct (portal_id q); [| apply preserves_ret].
    now apply preserves_portal_ids_update. }
  assert (G5 : groups w5 = groups w4).
  { refine (preserves_run groups _ _ _ _ _ N). frame_tac. }
  assert (I5 : portalips w5 = portalips w4).
  { refine (preserves_run portalips _ _ _ _ _ N). frame_tac. }
  assert (P5 : portals w5 = portals w4).
  { refine (preserves_run portals _ _ _ _ _ N). frame_tac. }
  assert (G : groups w5
              = filter (fun g => negb (g_portalgroup g =? id)) (groups w)).
  { rewrite G5, G4, D3, D2, D1. reflexivity. }
  assert (I : portalips w5
              = filter (fun r => negb (pip_portal r =? id)) (portalips w)).
  { rewrite I5, I4, D3, D2, D1. reflexivity. }
  assert (P : map p_id (portals w5)
              = map p_id (filter (fun r => negb (p_id r =? id)) (portals w))).
  { rewrite P5, P4, D3, D2, D1. reflexivity. }
  split; [| split].
  - intros r Hr. rewrite I in Hr. apply filter_In in Hr. destruct Hr as [Hr Hn].
    rewrite P. apply in_filter_ids; [now apply R1 |].
    apply negb_true_iff in Hn. now apply Z.eqb_neq.
  - intros g Hg. rewrite G in Hg. apply filter_In in Hg. rewrite T.
    now apply R2.
  - intros g Hg. rewrite G in Hg. apply filter_In in Hg. destruct Hg as [Hg Hn].
    rewrite P. apply in_filter_ids; [now apply R3 |].
    apply negb_true_iff in Hn. now apply Z.eqb_neq.
Qed.

Lemma group_portal_of_new g (new : list Group) :
  In (groupc_of_row g) (map group_compress new) ->
  In (g_portalgroup g) (map portal new).
Proof.
  intros H. apply in_map_iff in H. destruct H as (x & E & Hx).
  apply in_map_iff. exists x. split; [| exact Hx].
  unfold groupc_of_row, group_compress in E. now inversion E.
Qed.

Lemma target_create_keeps_refs data w t w' :
  refs_ok w -> target_do_create data w = (Ok t, w') -> refs_ok w'.
Proof.
  intros (R1 & R2 & R3) E.
  assert (P : portals w' = portals w).
  { refine (preserves_run portals _ _ _ _ _ E). frame_tac. }
  assert (I : portalips w' = portalips w).
  { refine (preserves_run portalips _ _ _ _ _ E). frame_tac. }
  unfold target_do_create in E.
  unfold bind at 1 in E. unfold get_world at 1 in E. cbn iota beta in E.
  apply bind_Ok in E. destruct E as ([] & w0 & V & E).
  apply check_Ok in V. destruct V as [V ->].
  apply target_validate_portals in V. destruct V as [Vp _].
  apply bind_Ok in E. destruct E as (pk & w1 & Ins & E).
  apply bind_Ok in E. destruct E as ([] & w2 & S & E).
  apply bind_Ok in E. destruct E as ([] & w3 & N & E).
  apply target_get_instance_Ok in E. destruct E as (-> & _).
  apply try_except_reraise_Ok in S.
  destruct (insert_cases TargetT (target_row_of data) w) as [F | F];
    rewrite F in Ins; inversion Ins as [[Hpk W1]]; clear Ins.
  assert (G1 : groups w1 = groups w) by (now rewrite <- W1).
  assert (T1 : map t_id (targets w1) = map t_id (targets w) ++ [pk]).
  { rewrite <- W1, <- Hpk. cbn. now rewrite map_app. }
  assert (T2 : targets w2 = targets w1)
    by exact (preserves_run _ _ _ _ _ (save_groups_keeps_targets _ _ _) S).
  assert (G3 : groups w3 = groups w2).
  { refine (preserves_run groups _ _ _ _ _ N). frame_tac. }
  assert (T3 : targets w3 = targets w2).
  { refine (preserves_run targets _ _ _ _ _ N). frame_tac. }
  pose proof (save_groups_adds pk (map group_compress (target_groups data))
                None w1) as A.
  rewrite S in A. cbn [snd] in A.
  split; [| split].
  - intros r Hr. rewrite P. apply R1. now rewrite <- I.
  - intros g Hg. rewrite T3, T2, T1. rewrite G3 in Hg.
    apply in_or_app. destruct (A g Hg) as [H | [H _]].
    + left. apply R2. now rewrite <- G1.
    + right. rewrite H. now left.
  - intros g Hg. rewrite P. rewrite G3 in Hg.
    destruct (A g Hg) as [H | [_ H]].
    + apply R3. now rewrite <- G1.
    + apply group_portal_of_new in H. apply in_map_iff in H.
      destruct H as (x & <- & Hx). now apply Vp.
Qed.

Lemma target_update_keeps_refs id data w t w' :
  refs_ok w -> target_do_update id data w = (Ok t, w') -> refs_ok w'.
Proof.
  intros (R1 & R2 & R3) E.
  assert (P : portals w' = portals w).
  { refine (preserves_run portals _ _ _ _ _ E). frame_tac. }
  assert (I : portalips w' = portalips w).
  { refine (preserves_run portalips _ _ _ _ _ E). frame_tac. }
  unfold target_do_update in E.
  apply bind_Ok in E. destruct E as (old & wa & Hget & E).
  apply target_get_instance_Ok in Hget.
  destruct Hget as (-> & r0 & Hold & Hr0 & Hid0).
  unfold bind at 1 in E. unfold get_world at 1 in E. cbn iota beta in E.
  apply bind_Ok in E. destruct E as ([] & w0 & V & E).
  apply check_Ok in V. destruct V as [V ->].
  apply target_validate_portals in V. destruct V as [Vp _].
  apply bind_Ok in E. destruct E as ([] & w1 & U & E).
  apply bind_Ok in E. destruct E as ([] & w2 & S & E).
  apply bind_Ok in E. destruct E as ([] & w3 & N & E).
  apply target_get_instance_Ok in E. destruct E as (-> & _).
  assert (G1 : groups w1 = groups w).
  { refine (preserves_run groups _ _ _ _ _ U). frame_tac. }
  apply target_ids_update in U; [| reflexivity].
  assert (T2 : targets w2 = targets w1)
    by exact (preserves_run _ _ _ _ _ (save_groups_keeps_targets _ _ _) S).
  assert (G3 : groups w3 = groups w2).
  { refine (preserves_run groups _ _ _ _ _ N). frame_tac. }
  assert (T3 : targets w3 = targets w2).
  { refine (preserves_run targets _ _ _ _ _ N). frame_tac. }
  pose proof (save_groups_adds id
                (map group_compress (target_groups (target_merge old data)))
                (Some (map group_compress (target_groups old))) w1) as A.
  rewrite S in A. cbn [snd] in A.
  split; [| split].
  - intros r Hr. rewrite P. apply R1. now rewrite <- I.
  - intros g Hg. rewrite T3, T2, U. rewrite G3 in Hg.
    destruct (A g Hg) as [H | [H _]].
    + apply R2. now rewrite <- G1.
    + rewrite H, <- Hid0. now apply in_map.
  - intros g Hg. rewrite P. rewrite G3 in Hg.
    destruct (A g Hg) as [H | [_ H]].
    + apply R3. now rewrite <- G1.
    + apply group_portal_of_new in H. apply in_map_iff in H.
      destruct H as (x & <- & Hx). now apply Vp.
Qed.

Lemma target_delete_keeps_refs id force w b w' :
  refs_ok w -> target_do_delete id force w = (Ok b, w') -> refs_ok w'.
Proof.
  intros (R1 & R2 & R3) E.
  assert (P : portals w' = portals w).
  { refine (preserves_run portals _ _ _ _ _ E). frame_tac. }
  assert (I : portalips w' = portalips w).
  { refine (preserves_run portalips _ _ _ _ _ E). frame_tac. }
  assert (G : incl (groups w') (groups w)).
  { pose proof (thins_incl groups (target_do_delete id force) w) as H.
    rewrite E in H. apply H. thins_tac. }
  unfold target_do_delete in E.
  apply bind_Ok in E. destruct E as (tgt & wa & Ha & E).
  apply target_get_instance_Ok in Ha. destruct Ha as (-> & _).
  unfold bind at 1 in E. unfold get_world at 1 in E. cbn iota beta in E.
  apply bind_Ok in E. destruct E as ([] & w1 & C & E).
  unfold bind at 1 in E. unfold get_world at 1 in E. cbn iota beta in E.
  apply bind_Ok in E. destruct E as ([] & w2 & L & E).
  apply bind_Ok in E. destruct E as (b1 & w3 & D1 & E).
  apply bind_Ok in E. destruct E as (rv & w4 & D2 & E).
  unfold bind at 1 in E. unfold get_world at 1 in E. cbn iota beta in E.
  apply bind_Ok in E. destruct E as ([] & w5 & X & E).
  apply bind_Ok in E. destruct E as ([] & w6 & N & E).
  inversion E; subst b w'. clear E.
  assert (T1 : targets w1 = targets w).
  { refine (preserves_run targets _ _ _ _ _ C). frame_tac. }
  assert (T2 : targets w2 = targets w1).
  { refine (preserves_run targets _ _ _ _ _ L). frame_tac. }
  apply delete_where_Ok in D1. apply delete_Ok in D2.
  assert (G5 : groups w5 = groups w4).
  { refine (preserves_run groups _ _ _ _ _ X). frame_tac. }
  assert (T5 : targets w5 = targets w4).
  { refine (preserves_run targets _ _ _ _ _ X). frame_tac. }
  assert (G6 : groups w6 = groups w5).
  { refine (preserves_run groups _ _ _ _ _ N). frame_tac. }
  assert (T6 : targets w6 = targets w5).
  { refine (preserves_run targets _ _ _ _ _ N). frame_tac. }
  assert (Gx : groups w6
               = filter (fun g => negb (g_target g =? id)) (groups w2)).
  { rewrite G6, G5, D2, D1. reflexivity. }
  assert (Tx : targets w6
               = filter (fun r => negb (t_id r =? id)) (targets w)).
  { rewrite T6, T5, D2, D1. cbn. now rewrite T2, T1. }
  split; [| split].
  - intros r Hr. rewrite P. apply R1. now rewrite <- I.
  - intros g Hg. rewrite Tx. apply in_filter_ids; [apply R2, G, Hg |].
    rewrite Gx in Hg. apply filter_In in Hg. destruct Hg as [_ Hn].
    apply negb_true_iff in Hn. now apply Z.eqb_neq.
  - intros g Hg. rewrite P. apply R3, G, Hg.
Qed.

Ltac frame_all :=
  frame_tac; try (cbv zeta; match goal with
                            | |- context [if ?b then _ else _] => destruct b
                            end; repeat frame_step).

Lemma frame_refs m :
  match m with
  | portal_create _ | portal_update _ _ | portal_delete _
  | target_create _ | target_update _ _ | target_delete _ _ => True
  | _ => maintains refs_ok (run_mutation m)
  end.
Proof.
  destruct m; try exact I; apply refs_ok_frame; frame_all.
Qed.

Lemma void_Ok {A} (c : M A) w w' :
  void c w = (Ok tt, w') -> exists a, c w = (Ok a, w').
Proof.
  unfold void. intros H. apply bind_Ok in H. destruct H as (a & w1 & H1 & H2).
  inversion H2; subst. now exists a.
Qed.

Lemma detach_keeps_refs attachments w w' :
  refs_ok w -> attachment_delete attachments w = (Ok tt, w') -> refs_ok w'.
Proof.
  intros Hw E. unfold attachment_delete in E.
  apply bind_Ok in E. destruct E as (orphans & w1 & L & E).
  assert (H1 : refs_ok w1).
  { assert (M : maintains refs_ok (attachment_delete_loop attachments))
      by (apply refs_ok_frame; frame_tac).
    specialize (M w Hw). now rewrite L in M. }
  unfold bind at 1 in E. unfold get_world at 1 in E. cbn iota beta in E.
  cbv zeta in E.
  apply bind_Ok in E. destruct E as ([] & w2 & D & E).
  assert (H2 : refs_ok w2).
  { refine (for_each_keeps refs_ok _ _ _ _ _ H1 D).
    intros x wa wb Ha Hb. apply bind_Ok in Hb.
    destruct Hb as (b & wc & Hb & Hr). inversion Hr; subst.
    exact (target_delete_keeps_refs _ _ _ _ _ Ha Hb). }
  assert (M : maintains refs_ok (_service_change "iscsitarget" "reload"))
    by (apply refs_ok_frame; frame_tac).
  specialize (M w2 H2). now rewrite E in M.
Qed.

(** X21: once every listen row belongs to a stored portal and every
    group row to a stored target and a stored portal, this is so again
    after every operation that returns: the delete of a portal takes
    its listen rows and the groups that name it along, the delete of a
    target its groups, and a target create or update only stores groups
    whose portal exists. *)
Theorem X21_references_stay_good :
  forall (o : Operation) (w w' : World),
    refs_ok w -> run_operation o w = (Ok tt, w') -> refs_ok w'.
Proof.
  intros [m | attachments] w w' Hw E; cbn [run_operation] in E.
  - pose proof (frame_refs m) as F.
    destruct m; cbn [run_mutation] in *;
      try (specialize (F w Hw); rewrite E in F; exact F);
      apply void_Ok in E; destruct E as (a & E).
    + exact (portal_create_keeps_refs _ _ _ _ Hw E).
    + exact (portal_update_keeps_refs _ _ _ _ _ Hw E).
    + exact (portal_delete_keeps_refs _ _ _ _ Hw E).
    + exact (target_create_keeps_refs _ _ _ _ Hw E).
    + exact (target_update_keeps_refs _ _ _ _ _ Hw E).
    + exact (target_delete_keeps_refs _ _ _ _ _ Hw E).
  - exact (detach_keeps_refs _ _ _ Hw E).
Qed.

Lemma X21_delete_of_the_portal_a_group_names :
  let o := OpMutation (portal_delete 1) in
  refs_ok world_auth_alone
  /\ run_operation o world_auth_alone
     = (Ok tt, snd (run_operation o world_auth_alone))
  /\ groups (snd (run_operation o world_auth_alone)) = []
  /\ refs_ok (snd (run_operation o world_auth_alone)).
Proof.
  intros o.
  assert (H : refs_ok world_auth_alone).
  { split; [| split].
    - intros r [<- | []]. cbn. now left.
    - intros g [<- | []]. cbn. now left.
    - intros g [<- | []]. cbn. now left. }
  assert (E : run_operation o world_auth_alone
              = (Ok tt, snd (run_operation o world_auth_alone)))
    by (vm_compute; reflexivity).
  split; [exact H |]. split; [exact E |].
  split; [vm_compute; reflexivity |].
  exact (X21_references_stay_good o world_auth_alone _ H E).
Defined.

(** ** The unique index of the group table is kept *)

Lemma groups_ok_thins {A} (c : M A) : thins groups c -> maintains groups_ok c.
Proof.
  intros H w (H1 & H2 & H3). destruct (H w) as [p Hp]. unfold groups_ok.
  rewrite Hp. split; [now apply NoDup_map_filter |].
  split; [now apply NoDup_map_filter |].
  rewrite Forall_forall in *. intros x Hx. apply filter_In in Hx. now apply H3.
Qed.

(** [__save_groups], when it returns, [old] is what the target [pk] has
    and [new] names no portal twice: the index is kept. *)
Lemma save_groups_keeps_index pk new old w w' :
  groups_ok w ->
  (forall i, In i (match old with Some o => o | None => [] end)
             <-> In i (map groupc_of_row (group_rows pk w))) ->
  (forall a b, In a new -> In b new -> gc_portal a = gc_portal b -> a = b) ->
  (forall c, In c new -> stored_spelling (gc_authmethod c)) ->
  target_save_groups pk new old w = (Ok tt, w') ->
  groups_ok w'.
Proof.
  intros Hw Hold Hinj Hsp E.
  pose proof (groups_ok_rows pk w Hw) as Hu.
  destruct Hw as (Hk & Hp & Hs).
  unfold target_save_groups in E. cbv zeta in E.
  set (old_set := match old with
                  | Some (x :: o) => py_set groupc_eqb (x :: o)
                  | _ => []
                  end) in E.
  assert (Ho : forall i, In i old_set
                         <-> In i (map groupc_of_row (group_rows pk w))).
  { intros i. rewrite <- Hold. unfold old_set.
    destruct old as [[| x o] |]; try tauto.
    apply (py_set_In groupc_eqb groupc_eqb_eq). }
  set (new_set := py_set groupc_eqb new) in E.
  assert (Hn : forall i, In i new_set <-> In i new)
    by (intros i; apply (py_set_In groupc_eqb groupc_eqb_eq)).
  apply bind_Ok in E. destruct E as ([] & w1 & E1 & E2).
  destruct (thins_group_deletes pk (set_diff groupc_eqb old_set new_set) w)
    as [p Hfil].
  rewrite E1 in Hfil. cbn [snd] in Hfil.
  apply (delete_groups_rows pk) in E1; [| exact Hk | exact Hu].
  destruct E1 as (D1 & D2 & D3).
  apply (insert_groups_rows pk) in E2; [| exact D3].
  destruct E2 as (rows & R1 & R2 & R3 & R4).
  rewrite Forall_forall in R3.
  assert (Hrows : forall r, In r rows ->
                    g_target r = pk /\ In (groupc_of_row r) new
                    /\ ~ In (groupc_of_row r) old_set).
  { intros r Hr. split; [now apply R3 |].
    assert (In (groupc_of_row r) (set_diff groupc_eqb new_set old_set)) as Hin
      by (rewrite <- R2; now apply in_map).
    apply (set_diff_In groupc_eqb groupc_eqb_eq) in Hin.
    destruct Hin as [Hin Hout]. split; [now apply Hn | exact Hout]. }
  assert (Hkept : forall r, In r (groups w1) -> g_target r = pk ->
                    In (groupc_of_row r) old_set /\ In (groupc_of_row r) new).
  { intros r Hr Hpk. apply D1 in Hr. destruct Hr as [Hr Hnd].
    assert (In (groupc_of_row r) old_set) as Hin.
    { apply Ho. apply in_map. apply filter_In. split; [exact Hr |].
      now apply Z.eqb_eq. }
    split; [exact Hin |].
    destruct (groupc_mem_dec (groupc_of_row r) new) as [Hi | Hout];
      [exact Hi |].
    exfalso. apply Hnd. split; [exact Hpk |].
    apply (set_diff_In groupc_eqb groupc_eqb_eq). split; [exact Hin |].
    rewrite Hn. exact Hout. }
  unfold groups_ok. split; [exact R4 |]. rewrite R1. split.
  - rewrite map_app. apply NoDup_app.
    + rewrite Hfil. now apply NoDup_map_filter.
    + apply (NoDup_map_finer groupc_of_row).
      * intros a b Ha Hb Eab. apply Hinj; try (now apply Hrows).
        unfold target_portal in Eab. now inversion Eab.
      * rewrite R2.
        apply set_diff_NoDup, (py_set_NoDup groupc_eqb groupc_eqb_eq).
    + intros x Hx Hy. apply in_map_iff in Hx. destruct Hx as (r1 & <- & Hr1).
      apply in_map_iff in Hy. destruct Hy as (r2 & Er & Hr2).
      unfold target_portal in Er. inversion Er as [[Et Ep]].
      destruct (Hrows r2 Hr2) as (Ht2 & Hn2 & Ho2).
      destruct (Hkept r1 Hr1 (eq_trans (eq_sym Et) Ht2)) as (Ho1 & Hn1).
      apply Ho2. rewrite (Hinj _ _ Hn2 Hn1 Ep). exact Ho1.
  - apply Forall_app. split.
    + rewrite Hfil. rewrite Forall_forall in *. intros x Hx.
      apply filter_In in Hx. now apply Hs.
    + rewrite Forall_forall. intros r Hr.
      destruct (Hrows r Hr) as (_ & Hin & _). exact (Hsp _ Hin).
Qed.

Lemma stored_to_api s :
  stored_spelling s ->
  exists m, legacy_get s = Some m /\ In m ["NONE"; "CHAP"; "CHAP_MUTUAL"].
Proof.
  intros [<- | [<- | [<- | []]]]; eexists; (split; [reflexivity |]); cbn; auto.
Qed.

Lemma compressed_groups_index (l : list Group) :
  NoDup (map portal l) ->
  forall a b, In a (map group_compress l) -> In b (map group_compress l) ->
              gc_portal a = gc_portal b -> a = b.
Proof.
  intros Hnd a b Ha Hb E.
  apply in_map_iff in Ha. destruct Ha as (ga & <- & Hga).
  apply in_map_iff in Hb. destruct Hb as (gb & <- & Hgb).
  f_equal. apply (key_determines_row portal l); auto.
Qed.

Lemma target_create_keeps_index data w t w' :
  (forall g, In g (target_groups data) -> api_spelling g) ->
  groups_ok w -> groups_have_targets w ->
  target_do_create data w = (Ok t, w') -> groups_ok w'.
Proof.
  intros Hapi Hw Href E.
  unfold target_do_create in E.
  unfold bind at 1 in E. unfold get_world at 1 in E. cbn iota beta in E.
  apply bind_Ok in E. destruct E as ([] & w0 & V & E).
  apply check_Ok in V. destruct V as [V ->].
  apply target_validate_portals in V. destruct V as [_ Vn].
  apply bind_Ok in E. destruct E as (pk & w1 & Ins & E).
  apply bind_Ok in E. destruct E as ([] & w2 & S & E).
  apply bind_Ok in E. destruct E as ([] & w3 & N & E).
  apply target_get_instance_Ok in E. destruct E as (-> & _).
  apply try_except_reraise_Ok in S.
  destruct (insert_cases TargetT (target_row_of data) w) as [F | F];
    rewrite F in Ins; inversion Ins as [[Hpk W1]]; clear Ins.
  assert (Hfresh : ~ In pk (map t_id (targets w)))
    by (rewrite <- Hpk; apply fresh_id_not_in).
  assert (G1 : groups w1 = groups w) by (now rewrite <- W1).
  assert (G3 : groups w3 = groups w2).
  { refine (preserves_run groups _ _ _ _ _ N). frame_tac. }
  assert (L1 : group_rows pk w1 = []).
  { unfold group_rows, datastore_query. cbn. rewrite G1.
    apply filter_none. intros x Hx. apply Z.eqb_neq. intros Hp.
    apply Hfresh. rewrite <- Hp. now apply Href. }
  apply save_groups_keeps_index in S.
  - unfold groups_ok in *. now rewrite G3.
  - unfold groups_ok in *. now rewrite G1.
  - intros i. rewrite L1. cbn. tauto.
  - now apply compressed_groups_index.
  - intros c Hc. apply in_map_iff in Hc. destruct Hc as (g & <- & Hg).
    now apply compress_spelling, Hapi.
Qed.

Lemma target_update_keeps_index id data w t w' :
  (forall l, tu_groups data = Some l -> forall g, In g l -> api_spelling g) ->
  groups_ok w ->
  target_do_update id data w = (Ok t, w') -> groups_ok w'.
Proof.
  intros Hapi Hw E.
  unfold target_do_update in E.
  apply bind_Ok in E. destruct E as (old & wa & Hget & E).
  apply target_get_instance_Ok in Hget.
  destruct Hget as (-> & r0 & Hold & Hr0 & Hid0).
  unfold bind at 1 in E. unfold get_world at 1 in E. cbn iota beta in E.
  apply bind_Ok in E. destruct E as ([] & w0 & V & E).
  apply check_Ok in V. destruct V as [V ->].
  apply target_validate_portals in V. destruct V as [_ Vn].
  apply bind_Ok in E. destruct E as ([] & w1 & U & E).
  apply bind_Ok in E. destruct E as ([] & w2 & S & E).
  apply bind_Ok in E. destruct E as ([] & w3 & N & E).
  apply target_get_instance_Ok in E. destruct E as (-> & _).
  assert (G1 : groups w1 = groups w).
  { refine (preserves_run groups _ _ _ _ _ U). frame_tac. }
  assert (G3 : groups w3 = groups w2).
  { refine (preserves_run groups _ _ _ _ _ N). frame_tac. }
  assert (L1 : group_rows id w1 = group_rows id w)
    by (unfold group_rows, datastore_query; cbn; now rewrite G1).
  assert (Hstored : forall x, In x (group_rows id w) ->
                      stored_spelling (g_authtype x)).
  { destruct Hw as (_ & _ & Hs). rewrite Forall_forall in Hs.
    intros x Hx. apply filter_In in Hx. now apply Hs. }
  assert (Holdc : map group_compress (target_groups old)
                  = map groupc_of_row (group_rows id w)).
  { rewrite Hold, group_of_stored_row, Hid0, map_map.
    rewrite map_map. apply map_ext_in. intros x Hx.
    apply compress_extend. now apply Hstored. }
  assert (Hnew : forall g, In g (target_groups (target_merge old data)) ->
                           api_spelling g).
  { unfold target_merge. cbn [target_groups].
    destruct (tu_groups data) as [l |] eqn:Eg; [now apply Hapi |].
    rewrite Hold, group_of_stored_row, Hid0. intros g Hg.
    apply in_map_iff in Hg. destruct Hg as (c & <- & Hc).
    apply in_map_iff in Hc. destruct Hc as (r & <- & Hr).
    unfold api_spelling, group_extend, groupc_of_row. cbn.
    now apply stored_to_api, Hstored. }
  apply save_groups_keeps_index in S.
  - unfold groups_ok in *. now rewrite G3.
  - unfold groups_ok in *. now rewrite G1.
  - intros i. cbn iota. rewrite Holdc, L1. tauto.
  - now apply compressed_groups_index.
  - intros c Hc. apply in_map_iff in Hc. destruct Hc as (g & <- & Hg).
    now apply compress_spelling, Hnew.
Qed.

Lemma frame_groups m :
  match m with
  | portal_delete _ | target_create _ | target_update _ _ | target_delete _ _ =>
      True
  | _ => preserves groups (run_mutation m)
  end.
Proof. destruct m; try exact I; frame_all. Qed.

(** X22: the unique index of the group table is never broken by an
    operation that returns: once no target has a portal twice among its
    groups, with distinct group keys and every auth type in a stored
    spelling, this is so again afterwards.  The groups sent are taken
    within the enum of the schema, and every group row with a stored
    target. *)
Theorem X22_group_index_stays_unique :
  forall (o : Operation) (w w' : World),
    within_enums o ->
    groups_ok w -> groups_have_targets w ->
    run_operation o w = (Ok tt, w') -> groups_ok w'.
Proof.
  intros [m | attachments] w w' He Hw Href E; cbn [run_operation] in E.
  - pose proof (frame_groups m) as F.
    destruct m; cbn [run_mutation within_enums] in *;
      try (apply (groups_ok_thins _ (preserves_thins _ _ F)) in Hw;
           rewrite E in Hw; exact Hw).
    + assert (T : thins groups (void (portal_do_delete id))) by thins_tac.
      apply (groups_ok_thins _ T) in Hw. now rewrite E in Hw.
    + apply void_Ok in E. destruct E as (a & E).
      exact (target_create_keeps_index _ _ _ _ He Hw Href E).
    + apply void_Ok in E. destruct E as (a & E).
      exact (target_update_keeps_index _ _ _ _ _ He Hw E).
    + assert (T : thins groups (void (target_do_delete id force))) by thins_tac.
      apply (groups_ok_thins _ T) in Hw. now rewrite E in Hw.
  - assert (T : thins groups (attachment_delete attachments)) by thins_tac.
    apply (groups_ok_thins _ T) in Hw. now rewrite E in Hw.
Qed.

Lemma X22_update_of_the_group_of_target_1 :
  let o :=
    OpMutation
      (target_update 1
         {| tu_name := None; tu_alias := None; tu_mode := None;
            tu_groups := Some [example_group "NONE" None] |}) in
  groups_ok world_auth_alone
  /\ run_operation o world_auth_alone
     = (Ok tt, snd (run_operation o world_auth_alone))
  /\ groups_ok (snd (run_operation o world_auth_alone)).
Proof.
  intros o.
  assert (H : groups_ok world_auth_alone).
  { unfold groups_ok. cbn. split; [| split].
    - constructor; [intros [] | constructor].
    - constructor; [intros [] | constructor].
    - constructor; [| constructor]. unfold stored_spelling. cbn. auto. }
  assert (E : run_operation o world_auth_alone
              = (Ok tt, snd (run_operation o world_auth_alone)))
    by (vm_compute; reflexivity).
  split; [exact H |]. split; [exact E |].
  apply (X22_group_index_stays_unique o world_auth_alone _).
  - intros l Hl g Hg. inversion Hl; subst l. destruct Hg as [<- | []].
    exists "NONE". split; [reflexivity | now left].
  - exact H.
  - intros g [<- | []]. cbn. now left.
  - exact E.
Defined.

(** ** Resetting the listen addresses and putting them back *)

Lemma with_ip_back r x : with_ip (pip_ip r) (with_ip x r) = r.
Proof. now destruct r. Qed.

Lemma rows_updated_app g pre post l :
  rows_updated g (pre ++ post) l = rows_updated g post (rows_updated g pre l).
Proof. unfold rows_updated. apply fold_left_app. Qed.

(** A loop of updates over [state], run without faults, when the index
    refuses none of them. *)
Lemma update_loop_run g state : forall w,
  no_faults w ->
  (forall pre row post,
      state = pre ++ row :: post ->
      index_refuses (pip_id row) (g row)
        (rows_updated g pre (portalips w)) = false) ->
  exists w',
    for_each state
      (fun row => portalip_update (pip_id row) (g row)) w
    = (Ok tt, w')
    /\ portalips w' = rows_updated g state (portalips w)
    /\ no_faults w'
    /\ exists evs, log w' = log w ++ evs.
Proof.
  induction state as [| row state IH]; intros w Hw Hfree.
  - exists w. cbn. repeat split; auto. exists []. now rewrite app_nil_r.
  - cbn [for_each]. unfold portalip_update at 1.
    unfold bind at 1. unfold bind at 1. unfold get_world at 1. cbn iota beta.
    pose proof (Hfree [] row state eq_refl) as H0.
    unfold rows_updated in H0. cbn [fold_left] in H0. rewrite H0.
    rewrite (update_run PortalIpT (pip_id row) (g row) w (no_faults_next w Hw)).
    cbn iota beta.
    match goal with
    | |- context [for_each state _ ?w1] =>
        destruct (IH w1) as (w' & E & Hp & Hf & evs & Hl)
    end.
    { apply (no_faults_after_write PortalIpT); [reflexivity | exact Hw]. }
    { intros pre r post E. specialize (Hfree (row :: pre) r post).
      rewrite E in Hfree. specialize (Hfree eq_refl). exact Hfree. }
    exists w'. split; [exact E |]. split; [rewrite Hp; reflexivity |].
    split; [exact Hf |]. eexists. rewrite Hl. cbn.
    rewrite <- app_assoc. reflexivity.
Qed.

(** With distinct keys in [state], each row is rewritten by the one
    element of [state] that carries its key. *)
Lemma rows_updated_pointwise g state : forall l,
  NoDup (map pip_id state) ->
  (forall row r, pip_id (g row r) = pip_id r) ->
  rows_updated g state l
  = map (fun r =>
           match find (fun row => pip_id row =? pip_id r) state with
           | Some row => g row r
           | None => r
           end) l.
Proof.
  induction state as [| row state IH]; intros l Hk Hg.
  - cbn. symmetry. apply map_id.
  - inversion Hk as [| ? ? Hrow Hst]; subst.
    unfold rows_updated in *. cbn [fold_left]. rewrite IH by assumption.
    rewrite map_map. apply map_ext. intros r. cbn [find].
    rewrite (Z.eqb_sym (pip_id row) (pip_id r)).
    destruct (Z.eqb_spec (pip_id r) (pip_id row)) as [E | NE]; [| reflexivity].
    rewrite Hg.
    destruct (find (fun row0 => pip_id row0 =? pip_id r) state) as [x |] eqn:F;
      [| reflexivity].
    exfalso. apply find_some in F. destruct F as [Hx Ex].
    apply Hrow. apply Z.eqb_eq in Ex. rewrite <- E, <- Ex. now apply in_map.
Qed.

(** In a sublist of a table with distinct keys, the row found by the
    key of a row of the table is that row. *)
Lemma find_in_sublist (l sub : list PortalIpRow) r :
  NoDup (map pip_id l) -> incl sub l -> In r l ->
  find (fun row => pip_id row =? pip_id r) sub
  = if existsb (fun row => pip_id row =? pip_id r) sub then Some r else None.
Proof.
  intros Hk Hs Hr.
  destruct (find (fun row => pip_id row =? pip_id r) sub) as [x |] eqn:F.
  - pose proof (find_some _ _ F) as [Hx Ex]. apply Z.eqb_eq in Ex.
    assert (x = r) as -> by (apply (key_determines_row pip_id l); auto).
    assert (existsb (fun row => pip_id row =? pip_id r) sub = true) as ->
      by (apply existsb_exists; exists r; split; [exact Hx | apply Z.eqb_refl]).
    reflexivity.
  - destruct (existsb _ sub) eqn:X; [| reflexivity].
    apply existsb_exists in X. destruct X as (x & Hx & Ex).
    pose proof (find_none _ _ F x Hx) as Q. cbn beta in Q. congruence.
Qed.

Lemma in_sublist_by_key (l sub : list PortalIpRow) r :
  NoDup (map pip_id l) -> incl sub l -> In r l ->
  existsb (fun row => pip_id row =? pip_id r) sub = true <-> In r sub.
Proof.
  intros Hk Hs Hr. rewrite existsb_exists. split.
  - intros (x & Hx & Ex). apply Z.eqb_eq in Ex.
    assert (x = r) as -> by (apply (key_determines_row pip_id l); auto).
    exact Hx.
  - intros H. exists r. split; [exact H | apply Z.eqb_refl].
Qed.

(** The index lets the update of the row [id] of [map c l] through when
    no other row has the address and port that row would get. *)
Lemma index_free_map (c f : PortalIpRow -> PortalIpRow) l id :
  (forall r, pip_id (c r) = pip_id r) ->
  (forall r x, In r l -> In x l -> pip_id r = id -> pip_id x <> id ->
               ~ (pip_ip (c x) = pip_ip (f (c r))
                  /\ pip_port (c x) = pip_port (f (c r)))) ->
  index_refuses id f (map c l) = false.
Proof.
  intros Hc H. unfold index_refuses, listen_taken.
  apply not_true_is_false. intros E. apply existsb_exists in E.
  destruct E as (r' & Hr' & E). apply andb_true_iff in E. destruct E as [E1 E2].
  apply in_map_iff in Hr'. destruct Hr' as (r & <- & Hr).
  apply existsb_exists in E2. destruct E2 as (x' & Hx' & E2).
  apply in_map_iff in Hx'. destruct Hx' as (x & <- & Hx).
  apply andb_true_iff in E2. destruct E2 as [E2 E3].
  apply andb_true_iff in E2. destruct E2 as [E4 E5].
  apply Z.eqb_eq in E1, E3. apply String.eqb_eq in E5.
  apply negb_true_iff in E4. apply Z.eqb_neq in E4.
  rewrite Hc in E1, E4. apply (H r x Hr Hx E1 E4). now split.
Qed.

Lemma find_in_state (l : list PortalIpRow) (p : PortalIpRow -> bool) r :
  NoDup (map pip_id l) -> In r l ->
  find (fun row => pip_id row =? pip_id r) (filter p l)
  = if p r then Some r else None.
Proof.
  intros Hk Hr. destruct (p r) eqn:P.
  - destruct (find _ (filter p l)) as [x |] eqn:F.
    + apply find_some in F. destruct F as [Hx Ex]. apply filter_In in Hx.
      f_equal. apply (key_determines_row pip_id l); try tauto.
      now apply Z.eqb_eq.
    + exfalso.
      assert (Hin : In r (filter p l)) by (apply filter_In; auto).
      pose proof (find_none _ _ F r Hin) as Q. cbn beta in Q.
      rewrite Z.eqb_refl in Q. discriminate Q.
  - destruct (find _ (filter p l)) as [x |] eqn:F; [| reflexivity].
    exfalso. apply find_some in F. destruct F as [Hx Ex]. apply filter_In in Hx.
    assert (x = r) by (apply (key_determines_row pip_id l); try tauto;
                       now apply Z.eqb_eq).
    subst x. destruct Hx as [_ Hx]. congruence.
Qed.

Lemma state_keys ips w :
  NoDup (map pip_id (portalips w)) ->
  NoDup (map pip_id (get_listen_state ips w)).
Proof. intros H. unfold get_listen_state, datastore_query. now apply NoDup_map_filter. Qed.

Lemma reset_rows ips l :
  NoDup (map pip_id l) ->
  rows_updated (fun _ => with_ip "0.0.0.0")
    (filter (fun r => mem_str (pip_ip r) ips) l) l
  = map (fun r => if mem_str (pip_ip r) ips then with_ip "0.0.0.0" r else r) l.
Proof.
  intros Hk. rewrite rows_updated_pointwise;
    [| now apply NoDup_map_filter | reflexivity].
  apply map_ext_in. intros r Hr. rewrite (find_in_state l _ r Hk Hr).
  now destruct (mem_str (pip_ip r) ips).
Qed.

Lemma restore_rows ips l :
  NoDup (map pip_id l) ->
  rows_updated (fun row => with_ip (pip_ip row))
    (filter (fun r => mem_str (pip_ip r) ips) l)
    (map (fun r => if mem_str (pip_ip r) ips then with_ip "0.0.0.0" r else r) l)
  = l.
Proof.
  intros Hk. rewrite rows_updated_pointwise;
    [| now apply NoDup_map_filter | reflexivity].
  rewrite map_map. rewrite <- (map_id l) at 2. apply map_ext_in. intros r Hr.
  assert (Hid : pip_id (if mem_str (pip_ip r) ips then with_ip "0.0.0.0" r else r)
                = pip_id r) by (now destruct (mem_str (pip_ip r) ips)).
  rewrite Hid. rewrite (find_in_state l _ r Hk Hr).
  destruct (mem_str (pip_ip r) ips); [apply with_ip_back | reflexivity].
Qed.

(** The table while a loop over [state] has dealt with [pre]: the rows
    of [pre] are rewritten, the others are as they were. *)
Lemma rows_updated_prefix g l pre row post :
  NoDup (map pip_id l) ->
  incl (pre ++ row :: post) l ->
  NoDup (map pip_id (pre ++ row :: post)) ->
  (forall a r, pip_id (g a r) = pip_id r) ->
  rows_updated g pre l
  = map (fun r => if existsb (fun a => pip_id a =? pip_id r) pre
                  then g r r else r) l.
Proof.
  intros Hk Hs Hn Hg.
  assert (Hpre : incl pre l).
  { intros x Hx. apply Hs. apply in_or_app. now left. }
  rewrite rows_updated_pointwise; [| | exact Hg].
  2:{ rewrite map_app in Hn. now apply NoDup_app_remove_r in Hn. }
  apply map_ext_in. intros r Hr.
  rewrite (find_in_sublist l pre r Hk Hpre Hr).
  now destruct (existsb _ pre).
Qed.

Lemma reset_goes_through ips w pre row post :
  NoDup (map pip_id (portalips w)) ->
  reset_is_free ips w ->
  get_listen_state ips w = pre ++ row :: post ->
  index_refuses (pip_id row) (with_ip "0.0.0.0")
    (rows_updated (fun _ => with_ip "0.0.0.0") pre (portalips w)) = false.
Proof.
  intros Hk Hfree E.
  assert (Hs : incl (pre ++ row :: post) (portalips w)).
  { rewrite <- E. intros x Hx. apply filter_In in Hx. tauto. }
  assert (Hn : NoDup (map pip_id (pre ++ row :: post)))
    by (rewrite <- E; now apply state_keys).
  assert (Hp : forall x, In x (pre ++ row :: post) ->
                         mem_str (pip_ip x) ips = true).
  { intros x Hx. rewrite <- E in Hx. apply filter_In in Hx. tauto. }
  assert (Hrow : In row (pre ++ row :: post))
    by (apply in_or_app; right; now left).
  rewrite (rows_updated_prefix _ _ pre row post Hk Hs Hn) by reflexivity.
  apply index_free_map.
  - intros r. now destruct (existsb _ pre).
  - intros r x Hr Hx Er Ex [Hip Hport].
    assert (r = row) as ->
      by (apply (key_determines_row pip_id (portalips w)); auto).
    assert (Hport' : pip_port x = pip_port row).
    { destruct (existsb _ pre) in Hport; destruct (existsb _ pre) in Hport;
        exact Hport. }
    assert (Hany : reset_to_any ips x = true).
    { unfold reset_to_any. apply orb_true_iff.
      destruct (existsb (fun a => pip_id a =? pip_id x) pre) eqn:X.
      - left. apply Hp. apply in_or_app. left.
        apply (in_sublist_by_key (portalips w) pre x Hk); auto.
        intros y Hy. apply Hs. apply in_or_app. now left.
      - right. apply String.eqb_eq. rewrite Hip.
        now destruct (existsb _ pre). }
    apply Ex. f_equal.
    apply (key_determines_row pip_port
             (filter (reset_to_any ips) (portalips w))); auto.
    + apply filter_In. now split.
    + apply filter_In. split; [exact Hr |]. unfold reset_to_any.
      now rewrite (Hp row Hrow).
Qed.

Lemma key_determines_one {R K} (key : R -> K) l r r' :
  NoDup (map key l) -> In r l -> In r' l -> key r = key r' -> r = r'.
Proof.
  induction l as [| x l IH]; simpl; intros Hk Hr Hr' E; [contradiction |].
  inversion Hk as [| ? ? Hkx Hkl]; subst.
  destruct Hr as [-> | Hr], Hr' as [-> | Hr'].
  - reflexivity.
  - exfalso. apply Hkx. rewrite E. now apply in_map.
  - exfalso. apply Hkx. rewrite <- E. now apply in_map.
  - now apply IH.
Qed.

Lemma restore_prefix ips l pre row post :
  NoDup (map pip_id l) ->
  incl (pre ++ row :: post) l ->
  NoDup (map pip_id (pre ++ row :: post)) ->
  rows_updated (fun a => with_ip (pip_ip a)) pre
    (map (fun r => if mem_str (pip_ip r) ips then with_ip "0.0.0.0" r else r) l)
  = map (fun r => if existsb (fun a => pip_id a =? pip_id r) pre then r
                  else if mem_str (pip_ip r) ips then with_ip "0.0.0.0" r
                  else r) l.
Proof.
  intros Hk Hs Hn.
  assert (Hpre : incl pre l).
  { intros x Hx. apply Hs. apply in_or_app. now left. }
  rewrite rows_updated_pointwise; [| | reflexivity].
  2:{ rewrite map_app in Hn. now apply NoDup_app_remove_r in Hn. }
  rewrite map_map. apply map_ext_in. intros r Hr.
  assert (Hid : pip_id (if mem_str (pip_ip r) ips then with_ip "0.0.0.0" r else r)
                = pip_id r) by (now destruct (mem_str (pip_ip r) ips)).
  rewrite Hid. rewrite (find_in_sublist l pre r Hk Hpre Hr).
  destruct (existsb _ pre); [| reflexivity].
  destruct (mem_str (pip_ip r) ips); [apply with_ip_back | now destruct r].
Qed.

Lemma restore_goes_through ips w pre row post :
  listens_ok w ->
  reset_is_free ips w ->
  get_listen_state ips w = pre ++ row :: post ->
  index_refuses (pip_id row) (with_ip (pip_ip row))
    (rows_updated (fun a => with_ip (pip_ip a)) pre
       (map (fun r => if mem_str (pip_ip r) ips then with_ip "0.0.0.0" r else r)
          (portalips w))) = false.
Proof.
  intros (Hk & Hpairs) Hfree E.
  assert (Hs : incl (pre ++ row :: post) (portalips w)).
  { rewrite <- E. intros x Hx. apply filter_In in Hx. tauto. }
  assert (Hn : NoDup (map pip_id (pre ++ row :: post)))
    by (rewrite <- E; now apply state_keys).
  assert (Hp : forall x, In x (pre ++ row :: post) ->
                         mem_str (pip_ip x) ips = true).
  { intros x Hx. rewrite <- E in Hx. apply filter_In in Hx. tauto. }
  assert (Hrow : In row (pre ++ row :: post))
    by (apply in_or_app; right; now left).
  rewrite (restore_prefix ips _ pre row post Hk Hs Hn).
  apply index_free_map.
  - intros r. destruct (existsb _ pre); [reflexivity |].
    now destruct (mem_str (pip_ip r) ips).
  - intros r x Hr Hx Er Ex [Hip Hport].
    assert (r = row) as ->
      by (apply (key_determines_row pip_id (portalips w)); auto).
    assert (Hport' : pip_port x = pip_port row).
    { destruct (existsb _ pre) in Hport; destruct (existsb _ pre) in Hport;
        destruct (mem_str (pip_ip x) ips) in Hport;
        destruct (mem_str (pip_ip row) ips) in Hport; exact Hport. }
    assert (Hip' : pip_ip (if existsb (fun a => pip_id a =? pip_id x) pre then x
                           else if mem_str (pip_ip x) ips
                                then with_ip "0.0.0.0" x else x)
                   = pip_ip row).
    { rewrite Hip. now destruct (existsb _ pre), (mem_str (pip_ip row) ips). }
    clear Hip Hport. apply Ex. f_equal.
    destruct (existsb (fun a => pip_id a =? pip_id x) pre) eqn:X;
      [| destruct (mem_str (pip_ip x) ips) eqn:Mx].
    + apply (key_determines_one listen_pair (portalips w)); auto.
      unfold listen_pair. congruence.
    + cbn in Hip'.
      apply (key_determines_row pip_port
               (filter (reset_to_any ips) (portalips w))); auto.
      * apply filter_In. split; [exact Hx |]. unfold reset_to_any.
        now rewrite Mx.
      * apply filter_In. split; [exact Hr |]. unfold reset_to_any.
        now rewrite (Hp row Hrow).
    + apply (key_determines_one listen_pair (portalips w)); auto.
      unfold listen_pair. congruence.
Qed.

(** X10: with a listen table that has distinct primary keys and no
    address and port twice, a datastore that carries out the writes,
    and no two rows on one port among those that listen on one of
    [ips] or on 0.0.0.0, [reset_listens] on the state that
    [get_listen_state] returned for [ips] rewrites exactly the rows that
    listened on one of [ips] to 0.0.0.0, after which no row listens on
    an address of [ips] other than 0.0.0.0; [set_listen_state] on the
    same state then puts the listen table back as it was.  The unique
    index on address and port refuses none of the updates, and both
    calls return and end with the reload signal. *)
Theorem X10_listen_state_round_trip :
  forall (w : World) (ips : list string),
    no_faults w ->
    listens_ok w ->
    reset_is_free ips w ->
    let state := get_listen_state ips w in
    let w1 := snd (reset_listens state w) in
    let w2 := snd (set_listen_state state w1) in
    fst (reset_listens state w) = Ok tt
    /\ portalips w1
       = map (fun r => if mem_str (pip_ip r) ips then with_ip "0.0.0.0" r else r)
           (portalips w)
    /\ (forall ip, In ip ips -> ip <> "0.0.0.0" -> listens_on (portalips w1) ip = false)
    /\ fst (set_listen_state state w1) = Ok tt
    /\ portalips w2 = portalips w
    /\ ends_with_reload w w1 /\ ends_with_reload w1 w2.
Proof.
  intros w ips Hw Hok Hfree state w1 w2.
  pose proof Hok as [Hk _].
  destruct (update_loop_run (fun _ => with_ip "0.0.0.0") state w Hw)
    as (wa & Ea & Pa & Fa & eva & La).
  { intros pre row post E. now apply (reset_goes_through ips w pre row post). }
  assert (R1 : reset_listens state w
               = (Ok tt, set_log (log wa ++ [reload]) wa)).
  { unfold reset_listens. rewrite (bind_step _ _ _ _ _ Ea). reflexivity. }
  assert (P1 : portalips w1
               = map (fun r => if mem_str (pip_ip r) ips
                               then with_ip "0.0.0.0" r else r) (portalips w)).
  { unfold w1. rewrite R1. cbn [snd]. cbn [portalips set_log]. rewrite Pa.
    now apply reset_rows. }
  assert (F1 : no_faults w1).
  { unfold w1. rewrite R1. exact Fa. }
  destruct (update_loop_run (fun row => with_ip (pip_ip row)) state w1 F1)
    as (wb & Eb & Pb & Fb & evb & Lb).
  { intros pre row post E. rewrite P1.
    now apply (restore_goes_through ips w pre row post). }
  assert (R2 : set_listen_state state w1
               = (Ok tt, set_log (log wb ++ [reload]) wb)).
  { unfold set_listen_state. rewrite (bind_step _ _ _ _ _ Eb). reflexivity. }
  split; [now rewrite R1 |]. split; [exact P1 |]. split; [| split; [| split; [| split]]].
  - intros ip Hin Hne. rewrite P1. unfold listens_on.
    apply not_true_is_false. intros H. apply existsb_exists in H.
    destruct H as (x & Hx & Ex). apply in_map_iff in Hx.
    destruct Hx as (r & <- & Hr). apply String.eqb_eq in Ex.
    destruct (mem_str (pip_ip r) ips) eqn:M.
    + cbn in Ex. congruence.
    + rewrite Ex in M. apply not_true_iff_false in M. apply M.
      now apply mem_str_In.
  - now rewrite R2.
  - unfold w2. rewrite R2. cbn [snd]. cbn [portalips set_log]. rewrite Pb, P1.
    now apply restore_rows.
  - unfold w1. rewrite R1. cbn [snd]. exists eva.
    cbn [log set_log]. rewrite La. now rewrite <- app_assoc.
  - unfold w2. rewrite R2. cbn [snd]. exists evb.
    cbn [log set_log]. rewrite Lb. now rewrite <- app_assoc.
Qed.

Lemma X10_reset_and_restore_of_10_0_0_1 :
  no_faults world_three_listens
  /\ listens_ok world_three_listens
  /\ reset_is_free ["10.0.0.1"] world_three_listens
  /\ map pip_ip
       (portalips
          (snd (reset_listens (get_listen_state ["10.0.0.1"] world_three_listens)
                  world_three_listens)))
     = ["0.0.0.0"; "10.0.0.2"; "0.0.0.0"]
  /\ portalips
       (snd (set_listen_state (get_listen_state ["10.0.0.1"] world_three_listens)
               (snd (reset_listens
                       (get_listen_state ["10.0.0.1"] world_three_listens)
                       world_three_listens))))
     = portalips world_three_listens.
Proof.
  assert (Hf : no_faults world_three_listens) by reflexivity.
  assert (Hk : listens_ok world_three_listens).
  { unfold listens_ok. cbn. split.
    - repeat (constructor; [cbn; intuition discriminate |]). constructor.
    - repeat (constructor; [cbn; intuition discriminate |]). constructor. }
  assert (Hr : reset_is_free ["10.0.0.1"] world_three_listens).
  { unfold reset_is_free. cbn.
    repeat (constructor; [cbn; intuition discriminate |]). constructor. }
  split; [exact Hf |]. split; [exact Hk |]. split; [exact Hr |].
  destruct (X10_listen_state_round_trip world_three_listens ["10.0.0.1"] Hf Hk Hr)
    as (_ & P1 & _ & _ & P2 & _).
  split; [rewrite P1; reflexivity | exact P2].
Defined.

(** Where two of the rows to reset share a port, the second update
    would give them one address and port: the index refuses it, the
    reset raises with the first row rewritten and sends no signal. *)
Lemma reset_of_two_rows_on_one_port_is_refused :
  let state := get_listen_state ["10.0.0.1"; "10.0.0.2"] world_three_listens in
  fst (reset_listens state world_three_listens)
  = Raise (DatastoreError services_iscsitargetportalip)
  /\ map pip_ip (portalips (snd (reset_listens state world_three_listens)))
     = ["0.0.0.0"; "10.0.0.2"; "10.0.0.1"]
  /\ forallb not_notify
       (log (snd (reset_listens state world_three_listens))) = true.
Proof. repeat split; vm_compute; reflexivity. Qed.

(** ** An update that sends no serial keeps the stored one *)

Lemma never_exhausts_ret {A} (a : A) : never_exhausts (ret a).
Proof. intros w e w' E. discriminate E. Qed.

Lemma never_exhausts_raise {A} e :
  e <> serial_exhausted -> never_exhausts (@raise A e).
Proof. intros H w e' w' E. inversion E; subst. exact H. Qed.

Lemma never_exhausts_get_world : never_exhausts get_world.
Proof. intros w e w' E. discriminate E. Qed.

Lemma never_exhausts_emit e : never_exhausts (emit e).
Proof. intros w e' w' E. discriminate E. Qed.

Lemma never_exhausts_bind {A B} (c : M A) (k : A -> M B) :
  never_exhausts c -> (forall a, never_exhausts (k a)) ->
  never_exhausts (bind c k).
Proof.
  intros Hc Hk w e w' E. apply bind_Raise in E.
  destruct E as [E | (a & w1 & _ & E)]; [now apply Hc in E | now apply Hk in E].
Qed.

Lemma never_exhausts_update {R} (T : TableOps R) id g :
  never_exhausts (datastore_update T id g).
Proof.
  intros w e w' E. destruct (update_cases T id g w) as [F | F];
    rewrite F in E; inversion E; subst. discriminate.
Qed.

Lemma never_exhausts_check v : never_exhausts (check v).
Proof.
  intros w e w' E. destruct v; cbn in E; inversion E; subst. discriminate.
Qed.

Lemma never_exhausts_extent_get_instance id :
  never_exhausts (extent_get_instance id).
Proof.
  intros w e w' E.
  destruct (extent_get_instance_cases id w) as [F | (r & F & _)];
    rewrite F in E; inversion E; subst. discriminate.
Qed.

Lemma create_is_not_generate s :
  CallError ("Failed to create " ^^ s) <> serial_exhausted.
Proof. unfold serial_exhausted. cbn. intros H. inversion H. Qed.

Lemma never_exhausts_extent_save data : never_exhausts (extent_save data).
Proof.
  unfold extent_save.
  destruct (String.eqb _ _); [| apply never_exhausts_ret].
  destruct (path data); [| apply never_exhausts_raise; discriminate].
  cbv zeta. apply never_exhausts_bind; [apply never_exhausts_get_world |].
  intros w0. apply never_exhausts_bind.
  - destruct (path_isfile _ _);
      [apply never_exhausts_raise, create_is_not_generate |].
    intros w e w' E. discriminate E.
  - intros _. apply never_exhausts_bind; [apply never_exhausts_get_world |].
    intros w1. apply never_exhausts_bind; [| intros; apply never_exhausts_ret].
    destruct (negb _); [| apply never_exhausts_ret].
    intros w e w' E. discriminate E.
Qed.

Ltac never_exhausts_step :=
  first
    [ apply never_exhausts_ret
    | apply never_exhausts_get_world
    | apply never_exhausts_emit
    | apply never_exhausts_update
    | apply never_exhausts_check
    | apply never_exhausts_extent_get_instance
    | apply never_exhausts_extent_save
    | apply never_exhausts_raise; discriminate
    | match goal with
      | |- never_exhausts (if ?b then _ else _) => destruct b
      | |- never_exhausts (match ?x with _ => _ end) => destruct x
      end
    | apply never_exhausts_bind; [| intros] ].

Lemma never_exhausts_extent_clean data schema v old :
  never_exhausts (extent_clean data schema v old).
Proof.
  unfold extent_clean, extent_clean_name, extent_clean_type_and_path,
    extent_clean_size.
  repeat never_exhausts_step.
Qed.

(** An update that sends no serial, of an extent with a stored one:
    [validate] hands the stored serial on and draws nothing. *)
Lemma update_keeps_serial id data w r0 s :
  In r0 (extents w) -> e_id r0 = id ->
  extent_get_instance id w = (Ok (extent_extend r0), w) ->
  eu_serial data = None ->
  e_serial r0 = Some s ->
  entropy_pos (snd (extent_do_update id data w)) = entropy_pos w
  /\ fst (extent_do_update id data w) <> Raise serial_exhausted
  /\ (forall e, fst (extent_do_update id data w) = Ok e -> serial e = Some s).
Proof.
  intros Hr0 Hid Hget Hdata Hser.
  set (new := extent_merge (extent_extend r0) data).
  assert (Hns : serial new = Some s).
  { unfold new, extent_merge. cbn [serial]. now rewrite Hdata. }
  assert (V : extent_validate new w
              = (Ok (with_serial_naa new (Some s) (e_naa r0)), w)).
  { unfold extent_validate, extent_serial, extent_naa. rewrite Hns. reflexivity. }
  unfold extent_do_update. rewrite (bind_step _ _ _ _ _ Hget). cbv zeta.
  fold new. rewrite (bind_step _ _ _ _ _ V).
  set (d := with_serial_naa new (Some s) (e_naa r0)).
  match goal with
  | |- context [snd (?c w)] => set (rest := c)
  end.
  split; [| split].
  - assert (P : preserves entropy_pos rest) by (unfold rest; frame_tac).
    apply P.
  - assert (N : never_exhausts rest).
    { unfold rest, _service_change.
      apply never_exhausts_bind; [apply never_exhausts_extent_clean |].
      intros v. repeat never_exhausts_step. }
    destruct (rest w) as [[e | e] w'] eqn:E; cbn [fst]; [discriminate |].
    intros H. inversion H; subst. now apply (N w _ w' E).
  - intros e He. unfold rest in He.
    destruct (extent_clean d "iscsi_extent_update" [] (Some (extent_extend r0)) w)
      as [[v | x] w1] eqn:C;
      [rewrite (bind_step _ _ _ _ _ C) in He
      | rewrite (bind_fail _ _ _ _ _ C) in He; discriminate He].
    destruct v as [| x v]; [| discriminate He].
    cbn [check] in He. rewrite bind_ret in He.
    destruct (extent_save d w1) as [[p | x] w2] eqn:S;
      [rewrite (bind_step _ _ _ _ _ S) in He
      | rewrite (bind_fail _ _ _ _ _ S) in He; discriminate He].
    match type of He with
    | context [datastore_update ExtentT id ?g] =>
        destruct (update_cases ExtentT id g w2) as [U | U]
    end;
      [rewrite (bind_fail _ _ _ _ _ U) in He; discriminate He |].
    rewrite (bind_step _ _ _ _ _ U) in He. unfold _service_change in He.
    rewrite bind_emit in He.
    match type of He with
    | fst (extent_get_instance id ?w3) = _ =>
        destruct (extent_get_instance_cases id w3) as [G | (r & G & Hr & Hrid)]
    end; rewrite G in He; [discriminate He |].
    cbn [fst] in He. inversion He; subst e. clear He G.
    cbn in Hr. apply in_map_iff in Hr. destruct Hr as (x & Ex & Hx).
    destruct (Z.eqb_spec (e_id x) id) as [Hxid | Hxid].
    + subst r. reflexivity.
    + exfalso. apply Hxid. now rewrite <- Hrid, <- Ex.
Qed.

(** C7 (as the code has it): where the dict [validate] receives has no
    serial, each attempt draws a string of fifteen hexadecimal digits;
    the first of the first five draws that no extent uses is returned;
    when all five are in use the allocation raises the exhaustion
    error, and so do a create without a serial and an update whose
    merged dict has none, with tables, files and log as they were; no
    more than five draws are made.  An update that sends no serial of
    an extent with a stored one keeps it: nothing is drawn, the update
    does not raise the exhaustion error, and the extent it returns has
    the stored serial. *)
Theorem C7_serial_allocation :
  forall w,
    (forall k,
        String.length (candidate_serial w k) = 15%nat
        /\ all_hex (candidate_serial w k) = true)
    /\ (forall j,
           (j < 5)%nat ->
           (forall k, (k < j)%nat -> serial_in_use w (candidate_serial w k) = true) ->
           serial_in_use w (candidate_serial w j) = false ->
           fst (extent_serial None w) = Ok (Some (candidate_serial w j))
           /\ same_state w (snd (extent_serial None w)))
    /\ ((forall k, (k < 5)%nat -> serial_in_use w (candidate_serial w k) = true) ->
        fst (extent_serial None w) = Raise serial_exhausted
        /\ (forall data,
               ec_serial data = None ->
               fst (extent_do_create data w) = Raise serial_exhausted
               /\ same_state w (snd (extent_do_create data w)))
        /\ (forall id data old,
               fst (extent_get_instance id w) = Ok old ->
               serial (extent_merge old data) = None ->
               fst (extent_do_update id data w) = Raise serial_exhausted
               /\ same_state w (snd (extent_do_update id data w))))
    /\ (entropy_pos (snd (extent_serial None w)) <= entropy_pos w + 5 * 32)%nat
    /\ (forall id data old s,
           fst (extent_get_instance id w) = Ok old ->
           eu_serial data = None ->
           serial old = Some s ->
           extent_serial (serial (extent_merge old data)) w = (Ok (Some s), w)
           /\ entropy_pos (snd (extent_do_update id data w)) = entropy_pos w
           /\ fst (extent_do_update id data w) <> Raise serial_exhausted
           /\ (forall e, fst (extent_do_update id data w) = Ok e ->
                         serial e = Some s)).
Proof.
  intros w. destruct (serial_allocation_draws w) as (H1 & H2 & H3 & H4).
  split; [exact H1 |]. split; [exact H2 |]. split; [exact H3 |].
  split; [exact H4 |].
  intros id data old s Hget Hdata Hser.
  destruct (extent_get_instance_cases id w) as [F | (r0 & F & Hr0 & Hid)];
    rewrite F in Hget; cbn [fst] in Hget; [discriminate Hget |].
  inversion Hget; subst old. cbn [serial extent_extend] in Hser.
  split.
  - unfold extent_merge. cbn [serial]. rewrite Hdata.
    cbn [serial extent_extend]. rewrite Hser. reflexivity.
  - now apply (update_keeps_serial id data w r0 s).
Qed.

(** C7 where the first four draws are taken and the fifth is free,
    where all five draws are taken, and on an update that sends no
    serial of the extent that has one. *)
Lemma C7_fifth_draw_accepted_and_all_taken :
  (fst (extent_serial None world_fifth_serial_free) = Ok (Some "010101010101010")
   /\ same_state world_fifth_serial_free
        (snd (extent_serial None world_fifth_serial_free)))
  /\ (fst (extent_do_create example_extent_create world_serial_taken)
      = Raise serial_exhausted
      /\ same_state world_serial_taken
           (snd (extent_do_create example_extent_create world_serial_taken)))
  /\ entropy_pos
       (snd (extent_do_update 1 example_extent_update_nothing world_serial_taken))
     = entropy_pos world_serial_taken.
Proof.
  split; [| split].
  - apply (proj1 (proj2 (C7_serial_allocation world_fifth_serial_free)) 4%nat).
    + lia.
    + intros k Hk.
      destruct k as [| [| [| [| k]]]]; [vm_compute; reflexivity .. | lia].
    + vm_compute; reflexivity.
  - apply (proj1 (proj2 (proj2 (C7_serial_allocation world_serial_taken)))).
    + intros k Hk.
      destruct k as [| [| [| [| [| k]]]]]; [vm_compute; reflexivity .. | lia].
    + reflexivity.
  - apply (proj2 (proj2 (proj2 (proj2 (C7_serial_allocation world_serial_taken))))
             1 example_extent_update_nothing
             (extent_extend (example_extent_row 1 "old" "000000000000000"))
             "000000000000000");
      reflexivity.
Defined.

(** C7 as stated fails on an update that supplies no serial: every one
    of the five serials the allocation would draw is in use, and yet
    the update returns, with the serial the extent had and without a
    single random byte drawn. *)
Lemma C7_update_without_serial_draws_nothing :
  (forall k, (k < 5)%nat ->
             serial_in_use world_serial_taken
               (candidate_serial world_serial_taken k) = true)
  /\ eu_serial example_extent_update_nothing = None
  /\ (exists e,
         fst (extent_do_update 1 example_extent_update_nothing world_serial_taken)
         = Ok e
         /\ serial e = Some "000000000000000")
  /\ fst (extent_do_update 1 example_extent_update_nothing world_serial_taken)
     <> Raise serial_exhausted
  /\ entropy_pos
       (snd (extent_do_update 1 example_extent_update_nothing world_serial_taken))
     = entropy_pos world_serial_taken.
Proof.
  split; [| split; [reflexivity | split; [| split]]].
  - intros k Hk.
    destruct k as [| [| [| [| [| k]]]]]; [vm_compute; reflexivity .. | lia].
  - eexists. split; vm_compute; reflexivity.
  - vm_compute. discriminate.
  - vm_compute. reflexivity.
Qed.

(** ** What a reconciliation deletes and what it inserts *)

Lemma without_nil {R} (T : TableOps R) l : without T [] l = l.
Proof. unfold without. cbn. apply filter_all. Qed.

Lemma without_cons {R} (T : TableOps R) x gone l :
  without T gone (filter (fun r => negb (row_id T r =? row_id T x)) l)
  = without T (x :: gone) l.
Proof.
  unfold without. rewrite filter_filter. apply filter_ext. intros r.
  cbn [map]. unfold mem_Z. cbn [existsb]. now rewrite negb_orb.
Qed.

Lemma without_app {R} (T : TableOps R) gone l added :
  (forall r, In r added -> ~ In (row_id T r) (map (row_id T) gone)) ->
  without T gone (l ++ added) = without T gone l ++ added.
Proof.
  intros H. unfold without. rewrite filter_app. f_equal.
  apply filter_keeps_all. apply Forall_forall. intros r Hr.
  apply negb_true_iff.
  destruct (mem_Z (row_id T r) (map (row_id T) gone)) eqn:E; [| reflexivity].
  exfalso. apply (H r Hr). unfold mem_Z in E. apply existsb_exists in E.
  destruct E as (k & Hk & E). apply Z.eqb_eq in E. now subst.
Qed.

Lemma old_set_of {A} (eqb : A -> A -> bool) (old : option (list A)) :
  match old with
  | Some (x :: o) => py_set eqb (x :: o)
  | _ => []
  end = py_set eqb (old_or_empty old).
Proof. destruct old as [[| x o] |]; reflexivity. Qed.

Lemma difference_of_sets {A} (eqb : A -> A -> bool) (a b : list A) :
  (forall x y, eqb x y = true <-> x = y) ->
  is_difference (set_diff eqb (py_set eqb a) (py_set eqb b)) a b.
Proof.
  intros S. split.
  - apply set_diff_NoDup. now apply py_set_NoDup.
  - intros x. rewrite (set_diff_In eqb S), !(py_set_In eqb S). tauto.
Qed.

(** The delete loop of the groups, when it returns: one row goes for
    each element that has a row, in their order. *)
Lemma delete_groups_trace pk : forall dels w w',
  NoDup (map g_id (groups w)) ->
  NoDup dels ->
  for_each dels
    (fun i : GroupC =>
       w <- get_world ;;
       match datastore_query GroupT
               (fun g => (g_target g =? pk) && (g_portalgroup g =? gc_portal i)
                         && opt_Z_eqb (g_initiatorgroup g) (gc_initiator i)
                         && String.eqb (g_authtype g) (gc_authmethod i)
                         && opt_Z_eqb (g_authgroup g) (gc_auth i)) w with
       | targetgroup :: _ =>
           _ <- datastore_delete GroupT (g_id targetgroup) ;; ret tt
       | [] => ret tt
       end) w
  = (Ok tt, w') ->
  exists gone,
    log w' = log w ++ delete_events GroupT gone
    /\ NoDup (map groupc_of_row gone)
    /\ (forall c, In c (map groupc_of_row gone)
                  <-> In c dels /\ group_stored pk w c)
    /\ Forall (fun r => In r (groups w) /\ g_target r = pk) gone
    /\ groups w' = without GroupT gone (groups w)
    /\ NoDup (map g_id (groups w')).
Proof.
  assert (M : forall (g : GroupRow) (i : GroupC),
             (g_target g =? pk) && (g_portalgroup g =? gc_portal i)
             && opt_Z_eqb (g_initiatorgroup g) (gc_initiator i)
             && String.eqb (g_authtype g) (gc_authmethod i)
             && opt_Z_eqb (g_authgroup g) (gc_auth i) = true
             <-> g_target g = pk /\ groupc_of_row g = i).
  { intros g i.
    rewrite !andb_true_iff, !Z.eqb_eq, !opt_Z_eqb_eq, String.eqb_eq.
    unfold groupc_of_row. destruct i; cbn. split.
    - intros [[[[-> ->] ->] ->] ->]. split; reflexivity.
    - intros [-> H]. inversion H. auto. }
  induction dels as [| x dels IH]; intros w w' Hk Hd E.
  - cbn in E. inversion E; subst. exists []. cbn. rewrite app_nil_r.
    split; [reflexivity |]. split; [constructor |].
    split; [tauto |]. split; [constructor |].
    split; [now rewrite (without_nil GroupT) | exact Hk].
  - cbn [for_each] in E. unfold bind at 1 in E. unfold bind at 1 in E.
    unfold get_world at 1 in E. cbn iota beta in E.
    inversion Hd as [| ? ? Hx Hd']; subst.
    destruct (datastore_query GroupT
                (fun g => (g_target g =? pk) && (g_portalgroup g =? gc_portal x)
                          && opt_Z_eqb (g_initiatorgroup g) (gc_initiator x)
                          && String.eqb (g_authtype g) (gc_authmethod x)
                          && opt_Z_eqb (g_authgroup g) (gc_auth x)) w)
      as [| row rest] eqn:Q.
    { unfold ret at 1 in E. cbn iota beta in E.
      apply IH in E; [| exact Hk | exact Hd'].
      destruct E as (gone & L & N & C & A & G & K). exists gone.
      repeat (split; [assumption |]). split; [| tauto].
      intros c. rewrite C. cbn [In]. split; [tauto |].
      intros [[<- | Hc] S]; [| tauto]. exfalso.
      destruct S as (r & Hr & Hp & Hc).
      assert (In r (datastore_query GroupT
                      (fun g => (g_target g =? pk)
                                && (g_portalgroup g =? gc_portal x)
                                && opt_Z_eqb (g_initiatorgroup g) (gc_initiator x)
                                && String.eqb (g_authtype g) (gc_authmethod x)
                                && opt_Z_eqb (g_authgroup g) (gc_auth x)) w))
        as Hin by (apply filter_In; split; [exact Hr | now apply M]).
      rewrite Q in Hin. destruct Hin. }
    assert (Hrow : In row (groups w) /\ g_target row = pk
                   /\ groupc_of_row row = x).
    { assert (In row (datastore_query GroupT
                        (fun g => (g_target g =? pk)
                                  && (g_portalgroup g =? gc_portal x)
                                  && opt_Z_eqb (g_initiatorgroup g)
                                       (gc_initiator x)
                                  && String.eqb (g_authtype g) (gc_authmethod x)
                                  && opt_Z_eqb (g_authgroup g) (gc_auth x)) w))
        as Hin by (rewrite Q; now left).
      apply filter_In in Hin. destruct Hin as [Hin B]. apply M in B. tauto. }
    destruct Hrow as (Hin & Hp & Hx').
    destruct (delete_cases GroupT (g_id row) w) as [F | F];
      unfold bind at 1 in E; rewrite F in E; cbn iota beta in E;
      [discriminate |].
    unfold ret at 1 in E. cbn iota beta in E.
    apply IH in E; [| cbn; now apply NoDup_map_filter | exact Hd'].
    destruct E as (gone & L & N & C & A & G & K). exists (row :: gone).
    split; [rewrite L; cbn; now rewrite <- app_assoc |].
    assert (Sub : forall c, group_stored pk
                    (set_log (log w ++ [EvDelete (tbl GroupT) (g_id row)])
                       (set_rows GroupT
                          (filter (fun r => negb (row_id GroupT r =? g_id row))
                             (rows GroupT w)) w)) c
                  -> group_stored pk w c).
    { intros c (r & Hr & Hrp & Hrc). exists r. split; [| now split].
      cbn in Hr. apply filter_In in Hr. tauto. }
    split.
    { cbn [map]. rewrite Hx'. constructor; [| exact N].
      intros Hg. apply C in Hg. tauto. }
    split.
    { intros c. cbn [map In]. rewrite Hx', C. split.
      - intros [<- | [Hc S]].
        + split; [now left |]. exists row. now repeat split.
        + split; [now right | now apply Sub].
      - intros [[Hc | Hc] S]; [now left |]. right. split; [exact Hc |].
        destruct S as (r & Hr & Hrp & Hrc). exists r.
        split; [| now split]. cbn. apply filter_In. split; [exact Hr |].
        apply negb_true_iff, Z.eqb_neq. intros Eid.
        assert (r = row)
          by (apply (key_determines_row g_id (groups w)); auto).
        subst r. apply Hx. now rewrite <- Hx', Hrc. }
    split; [| split; [| exact K]].
    + constructor; [now split |]. rewrite Forall_forall in *.
      intros r Hr. destruct (A r Hr) as [A1 A2]. split; [| exact A2].
      cbn in A1. apply filter_In in A1. tauto.
    + rewrite G. cbn [groups set_log set_rows GroupT set_groups rows].
      exact (without_cons GroupT row gone (groups w)).
Qed.

(** The insert loop of the groups, when it returns: one row comes for
    each element, in their order, after the rows there were. *)
Lemma insert_groups_trace pk : forall l w w',
  NoDup (map g_id (groups w)) ->
  for_each l
    (fun i => _ <- datastore_insert GroupT (group_row pk i) ;; ret tt) w
  = (Ok tt, w') ->
  exists added,
    log w' = log w ++ insert_events GroupT added
    /\ map groupc_of_row added = l
    /\ Forall (fun r => g_target r = pk) added
    /\ groups w' = groups w ++ added
    /\ NoDup (map g_id (groups w')).
Proof.
  induction l as [| x l IH]; intros w w' Hk E.
  - cbn in E. inversion E; subst. exists []. cbn. rewrite !app_nil_r.
    repeat split; [constructor | exact Hk].
  - cbn [for_each] in E.
    destruct (insert_cases GroupT (group_row pk x) w) as [F | F];
      unfold bind at 1 in E; unfold bind at 1 in E; rewrite F in E;
      cbn iota beta in E; [discriminate |].
    unfold ret at 1 in E. cbn iota beta in E.
    apply IH in E.
    + destruct E as (added & L & C & A & G & K). cbn -[fresh_id] in L, G.
      exists (with_id GroupT (fresh_id (map g_id (groups w))) (group_row pk x)
              :: added).
      split; [rewrite L, <- app_assoc; reflexivity |].
      split; [cbn; rewrite C; now destruct x |].
      split; [constructor; [reflexivity | exact A] |].
      split; [rewrite G, <- app_assoc; reflexivity | exact K].
    + cbn. apply NoDup_map_snoc; [exact Hk |]. cbn. apply fresh_id_not_in.
Qed.

(** The delete loop of the listen pairs, when it returns: one row goes
    for each element that has a row, in their order. *)
Lemma delete_listens_trace pk : forall dels w w',
  NoDup (map pip_id (portalips w)) ->
  NoDup dels ->
  for_each dels
    (fun i : Listen =>
       w <- get_world ;;
       match datastore_query PortalIpT
               (fun r => (pip_portal r =? pk) && String.eqb (pip_ip r) (ip i)
                         && (pip_port r =? port i)) w with
       | portalip :: _ =>
           _ <- datastore_delete PortalIpT (pip_id portalip) ;; ret tt
       | [] => ret tt
       end) w
  = (Ok tt, w') ->
  exists gone,
    log w' = log w ++ delete_events PortalIpT gone
    /\ NoDup (map to_listen gone)
    /\ (forall i, In i (map to_listen gone)
                  <-> In i dels /\ listen_stored pk w i)
    /\ Forall (fun r => In r (portalips w) /\ pip_portal r = pk) gone
    /\ portalips w' = without PortalIpT gone (portalips w).
Proof.
  assert (M : forall (r : PortalIpRow) (i : Listen),
             (pip_portal r =? pk) && String.eqb (pip_ip r) (ip i)
             && (pip_port r =? port i) = true
             <-> pip_portal r = pk /\ to_listen r = i).
  { intros r i. rewrite !andb_true_iff, !Z.eqb_eq, String.eqb_eq.
    unfold to_listen. destruct i; cbn. split.
    - intros [[-> ->] ->]. split; reflexivity.
    - intros [-> H]. inversion H. auto. }
  induction dels as [| x dels IH]; intros w w' Hk Hd E.
  - cbn in E. inversion E; subst. exists []. cbn. rewrite app_nil_r.
    split; [reflexivity |]. split; [constructor |].
    split; [tauto |]. split; [constructor |].
    now rewrite (without_nil PortalIpT).
  - cbn [for_each] in E. unfold bind at 1 in E. unfold bind at 1 in E.
    unfold get_world at 1 in E. cbn iota beta in E.
    inversion Hd as [| ? ? Hx Hd']; subst.
    destruct (datastore_query PortalIpT
                (fun r => (pip_portal r =? pk) && String.eqb (pip_ip r) (ip x)
                          && (pip_port r =? port x)) w) as [| row rest] eqn:Q.
    { unfold ret at 1 in E. cbn iota beta in E.
      apply IH in E; [| exact Hk | exact Hd'].
      destruct E as (gone & L & N & C & A & G). exists gone.
      repeat (split; [assumption |]). split; [| tauto].
      intros c. rewrite C. cbn [In]. split; [tauto |].
      intros [[<- | Hc] S]; [| tauto]. exfalso.
      destruct S as (r & Hr & Hp & Hc).
      assert (In r (datastore_query PortalIpT
                      (fun r => (pip_portal r =? pk)
                                && String.eqb (pip_ip r) (ip x)
                                && (pip_port r =? port x)) w))
        as Hin by (apply filter_In; split; [exact Hr | now apply M]).
      rewrite Q in Hin. destruct Hin. }
    assert (Hrow : In row (portalips w) /\ pip_portal row = pk
                   /\ to_listen row = x).
    { assert (In row (datastore_query PortalIpT
                        (fun r => (pip_portal r =? pk)
                                  && String.eqb (pip_ip r) (ip x)
                                  && (pip_port r =? port x)) w))
        as Hin by (rewrite Q; now left).
      apply filter_In in Hin. destruct Hin as [Hin B]. apply M in B. tauto. }
    destruct Hrow as (Hin & Hp & Hx').
    destruct (delete_cases PortalIpT (pip_id row) w) as [F | F];
      unfold bind at 1 in E; rewrite F in E; cbn iota beta in E;
      [discriminate |].
    unfold ret at 1 in E. cbn iota beta in E.
    apply IH in E; [| cbn; now apply NoDup_map_filter | exact Hd'].
    destruct E as (gone & L & N & C & A & G). exists (row :: gone).
    split; [rewrite L; cbn; now rewrite <- app_assoc |].
    assert (Sub : forall c, listen_stored pk
                    (set_log (log w ++ [EvDelete (tbl PortalIpT) (pip_id row)])
                       (set_rows PortalIpT
                          (filter (fun r => negb (row_id PortalIpT r =? pip_id row))
                             (rows PortalIpT w)) w)) c
                  -> listen_stored pk w c).
    { intros c (r & Hr & Hrp & Hrc). exists r. split; [| now split].
      cbn in Hr. apply filter_In in Hr. tauto. }
    split.
    { cbn [map]. rewrite Hx'. constructor; [| exact N].
      intros Hg. apply C in Hg. tauto. }
    split.
    { intros c. cbn [map In]. rewrite Hx', C. split.
      - intros [<- | [Hc S]].
        + split; [now left |]. exists row. now repeat split.
        + split; [now right | now apply Sub].
      - intros [[Hc | Hc] S]; [now left |]. right. split; [exact Hc |].
        destruct S as (r & Hr & Hrp & Hrc). exists r.
        split; [| now split]. cbn. apply filter_In. split; [exact Hr |].
        apply negb_true_iff, Z.eqb_neq. intros Eid.
        assert (r = row)
          by (apply (key_determines_row pip_id (portalips w)); auto).
        subst r. apply Hx. now rewrite <- Hx', Hrc. }
    split.
    + constructor; [now split |]. rewrite Forall_forall in *.
      intros r Hr. destruct (A r Hr) as [A1 A2]. split; [| exact A2].
      cbn in A1. apply filter_In in A1. tauto.
    + rewrite G.
      cbn [portalips set_log set_rows PortalIpT set_portalips rows].
      exact (without_cons PortalIpT row gone (portalips w)).
Qed.

(** The insert loop of the listen pairs, when it returns: one row comes
    for each element, in their order, after the rows there were. *)
Lemma insert_listens_trace pk : forall l w w',
  NoDup (map pip_id (portalips w)) ->
  for_each l
    (fun i => _ <- datastore_insert PortalIpT (listen_row pk i) ;; ret tt) w
  = (Ok tt, w') ->
  exists added,
    log w' = log w ++ insert_events PortalIpT added
    /\ map to_listen added = l
    /\ Forall (fun r => pip_portal r = pk) added
    /\ portalips w' = portalips w ++ added
    /\ NoDup (map pip_id (portalips w')).
Proof.
  induction l as [| x l IH]; intros w w' Hk E.
  - cbn in E. inversion E; subst. exists []. cbn. rewrite !app_nil_r.
    repeat split; [constructor | exact Hk].
  - cbn [for_each] in E.
    destruct (insert_cases PortalIpT (listen_row pk x) w) as [F | F];
      unfold bind at 1 in E; unfold bind at 1 in E; rewrite F in E;
      cbn iota beta in E; [discriminate |].
    unfold ret at 1 in E. cbn iota beta in E.
    apply IH in E.
    + destruct E as (added & L & C & A & G & K). cbn -[fresh_id] in L, G.
      exists (with_id PortalIpT (fresh_id (map pip_id (portalips w)))
                (listen_row pk x) :: added).
      split; [rewrite L, <- app_assoc; reflexivity |].
      split; [cbn; rewrite C; now destruct x |].
      split; [constructor; [reflexivity | exact A] |].
      split; [rewrite G, <- app_assoc; reflexivity | exact K].
    + cbn. apply NoDup_map_snoc; [exact Hk |]. cbn. apply fresh_id_not_in.
Qed.

(** C2 (as the code has it): the reconciliation of the groups of a
    target applies its deletes before its inserts, that of the listen
    pairs of a portal its inserts before its deletes, whatever the
    tables hold and however the run ends.  When the run returns, on a
    table with distinct primary keys, the two work on the same two
    differences: the rows deleted are rows of the parent, one for each
    element of old minus new that the parent has a row for; the rows
    inserted carry the parent's key, one for each element of new minus
    old; the log gains the events of exactly these rows, the deletes
    first for a target and the inserts first for a portal; and the
    table afterwards is the table before without the rows deleted,
    followed by the rows inserted. *)
Theorem C2_reconciliation_order :
  forall w pk,
    (forall new old,
        deletes_first (new_events (target_save_groups pk new old) w) = true)
    /\ (forall new old,
           inserts_first (new_events (portal_save_listen pk new old) w) = true)
    /\ (forall new old w',
           NoDup (map g_id (groups w)) ->
           target_save_groups pk new old w = (Ok tt, w') ->
           exists gone added,
             new_events (target_save_groups pk new old) w
             = delete_events GroupT gone ++ insert_events GroupT added
             /\ NoDup (map groupc_of_row gone)
             /\ (forall c, In c (map groupc_of_row gone)
                           <-> (In c (old_or_empty old) /\ ~ In c new)
                               /\ group_stored pk w c)
             /\ is_difference (map groupc_of_row added) new (old_or_empty old)
             /\ Forall (fun r => In r (groups w) /\ g_target r = pk) gone
             /\ Forall (fun r => g_target r = pk) added
             /\ groups w' = without GroupT gone (groups w) ++ added)
    /\ (forall new old w',
           NoDup (map pip_id (portalips w)) ->
           portal_save_listen pk new old w = (Ok tt, w') ->
           exists added gone,
             new_events (portal_save_listen pk new old) w
             = insert_events PortalIpT added ++ delete_events PortalIpT gone
             /\ is_difference (map to_listen added) new (old_or_empty old)
             /\ NoDup (map to_listen gone)
             /\ (forall i, In i (map to_listen gone)
                           <-> (In i (old_or_empty old) /\ ~ In i new)
                               /\ listen_stored pk w i)
             /\ Forall (fun r => pip_portal r = pk) added
             /\ Forall (fun r => In r (portalips w) /\ pip_portal r = pk) gone
             /\ portalips w' = without PortalIpT gone (portalips w) ++ added).
Proof.
  intros w pk.
  destruct (reconciliation_writes_in_order w pk) as [Og Ol].
  split; [exact Og |]. split; [exact Ol |]. split.
  - intros new old w' Hk E.
    pose proof (difference_of_sets groupc_eqb (old_or_empty old) new
                  groupc_eqb_eq) as [Dn Dm].
    pose proof (difference_of_sets groupc_eqb new (old_or_empty old)
                  groupc_eqb_eq) as An.
    assert (L : exists gone added,
               log w' = log w ++ delete_events GroupT gone
                              ++ insert_events GroupT added
               /\ NoDup (map groupc_of_row gone)
               /\ (forall c, In c (map groupc_of_row gone)
                             <-> (In c (old_or_empty old) /\ ~ In c new)
                                 /\ group_stored pk w c)
               /\ is_difference (map groupc_of_row added) new (old_or_empty old)
               /\ Forall (fun r => In r (groups w) /\ g_target r = pk) gone
               /\ Forall (fun r => g_target r = pk) added
               /\ groups w' = without GroupT gone (groups w) ++ added).
    { unfold target_save_groups in E. cbv zeta in E.
      rewrite (old_set_of groupc_eqb old) in E.
      apply bind_Ok in E. destruct E as ([] & w1 & E1 & E2).
      apply delete_groups_trace in E1; [| exact Hk | exact Dn].
      destruct E1 as (gone & L1 & N1 & Ca & A1 & G1 & K1).
      apply (insert_groups_trace pk) in E2; [| exact K1].
      destruct E2 as (added & L2 & Cg & A2 & G2 & K2).
      exists gone, added.
      split; [rewrite L2, L1, <- app_assoc; reflexivity |].
      split; [exact N1 |].
      split; [intros c; rewrite Ca, Dm; tauto |].
      split; [rewrite Cg; exact An |].
      split; [exact A1 |]. split; [exact A2 |].
      now rewrite G2, G1. }
    destruct L as (gone & added & L & R). exists gone, added.
    split; [| exact R]. apply new_events_app. now rewrite E.
  - intros new old w' Hk E.
    pose proof (difference_of_sets listen_eqb (old_or_empty old) new
                  listen_eqb_eq) as [Dn Dm].
    pose proof (difference_of_sets listen_eqb new (old_or_empty old)
                  listen_eqb_eq) as An.
    assert (L : exists added gone,
               log w' = log w ++ insert_events PortalIpT added
                              ++ delete_events PortalIpT gone
               /\ is_difference (map to_listen added) new (old_or_empty old)
               /\ NoDup (map to_listen gone)
               /\ (forall i, In i (map to_listen gone)
                             <-> (In i (old_or_empty old) /\ ~ In i new)
                                 /\ listen_stored pk w i)
               /\ Forall (fun r => pip_portal r = pk) added
               /\ Forall (fun r => In r (portalips w) /\ pip_portal r = pk) gone
               /\ portalips w' = without PortalIpT gone (portalips w) ++ added).
    { unfold portal_save_listen in E. cbv zeta in E.
      rewrite (old_set_of listen_eqb old) in E.
      apply bind_Ok in E. destruct E as ([] & w1 & E1 & E2).
      apply (insert_listens_trace pk) in E1; [| exact Hk].
      destruct E1 as (added & L1 & Ca & A1 & G1 & K1).
      apply delete_listens_trace in E2; [| exact K1 | exact Dn].
      destruct E2 as (gone & L2 & N2 & Cg & A2 & G2).
      assert (New : forall r, In r added -> ~ In (to_listen r) (old_or_empty old)).
      { intros r Hr. apply (in_map to_listen) in Hr. rewrite Ca in Hr.
        apply An in Hr. tauto. }
      assert (Old : forall r, In r gone ->
                              In r (portalips w) /\ pip_portal r = pk).
      { intros r Hr. rewrite Forall_forall in A2.
        destruct (A2 r Hr) as [Hin Hp]. split; [| exact Hp].
        rewrite G1 in Hin. apply in_app_or in Hin.
        destruct Hin as [Hin | Hin]; [exact Hin |]. exfalso.
        apply (New r Hin). apply (in_map to_listen) in Hr.
        apply Cg in Hr. destruct Hr as [Hr _]. apply Dm in Hr. tauto. }
      exists added, gone.
      split; [rewrite L2, L1, <- app_assoc; reflexivity |].
      split; [rewrite Ca; exact An |].
      split; [exact N2 |].
      split.
      { intros i. rewrite Cg, Dm. split.
        - intros [Hi (r & Hr & Hp & Hc)]. split; [exact Hi |].
          exists r. split; [| now split]. rewrite G1 in Hr.
          apply in_app_or in Hr. destruct Hr as [Hr | Hr]; [exact Hr |].
          exfalso. apply (New r Hr). rewrite Hc. tauto.
        - intros [Hi (r & Hr & Hp & Hc)]. split; [exact Hi |].
          exists r. split; [| now split]. rewrite G1. apply in_or_app.
          now left. }
      split; [exact A1 |].
      split; [apply Forall_forall; exact Old |].
      rewrite G2, G1. apply without_app. intros r Hr Hid.
      apply in_map_iff in Hid. destruct Hid as (g & Eg & Hg).
      destruct (Old g Hg) as [Hgw _].
      assert (r = g).
      { apply (key_determines_row pip_id (portalips w1)).
        - exact K1.
        - rewrite G1. apply in_or_app. now right.
        - rewrite G1. apply in_or_app. now left.
        - cbn in Eg. now rewrite Eg. }
      subst g. apply (New r Hr). apply (in_map to_listen) in Hg.
      apply Cg in Hg. destruct Hg as [Hg _]. apply Dm in Hg. tauto. }
    destruct L as (added & gone & L & R). exists added, gone.
    split; [| exact R]. apply new_events_app. now rewrite E.
Qed.

(** Target 1 has groups on portals 1 and 2 and is given groups on
    portals 2 and 3: the row of portal 1 is deleted, then a row for
    portal 3 is inserted.  Portal 1 listens on 10.0.0.1 and is given
    10.0.0.2: the new row is inserted, then the old one deleted. *)
Lemma C2_replacing_a_group_and_a_listen_pair :
  let new_g := [example_groupc 2; example_groupc 3] in
  let old_g := Some [example_groupc 1; example_groupc 2] in
  let new_l := [ {| ip := "10.0.0.2"; port := 3260 |} ] in
  let old_l := Some [ {| ip := "10.0.0.1"; port := 3260 |} ] in
  let wg := snd (target_save_groups 1 new_g old_g world_two_groups) in
  let wl := snd (portal_save_listen 1 new_l old_l world_one_portal) in
  (NoDup (map g_id (groups world_two_groups))
   /\ target_save_groups 1 new_g old_g world_two_groups = (Ok tt, wg)
   /\ new_events (target_save_groups 1 new_g old_g) world_two_groups
      = [EvDelete services_iscsitargetgroups 1;
         EvInsert services_iscsitargetgroups 3]
   /\ exists gone added,
        new_events (target_save_groups 1 new_g old_g) world_two_groups
        = delete_events GroupT gone ++ insert_events GroupT added
        /\ NoDup (map groupc_of_row gone)
        /\ (forall c, In c (map groupc_of_row gone)
                      <-> (In c (old_or_empty old_g) /\ ~ In c new_g)
                          /\ group_stored 1 world_two_groups c)
        /\ is_difference (map groupc_of_row added) new_g (old_or_empty old_g)
        /\ Forall (fun r => In r (groups world_two_groups) /\ g_target r = 1)
             gone
        /\ Forall (fun r => g_target r = 1) added
        /\ groups wg = without GroupT gone (groups world_two_groups) ++ added)
  /\ (NoDup (map pip_id (portalips world_one_portal))
      /\ portal_save_listen 1 new_l old_l world_one_portal = (Ok tt, wl)
      /\ exists added gone,
           new_events (portal_save_listen 1 new_l old_l) world_one_portal
           = insert_events PortalIpT added ++ delete_events PortalIpT gone
           /\ is_difference (map to_listen added) new_l (old_or_empty old_l)
           /\ NoDup (map to_listen gone)
           /\ (forall i, In i (map to_listen gone)
                         <-> (In i (old_or_empty old_l) /\ ~ In i new_l)
                             /\ listen_stored 1 world_one_portal i)
           /\ Forall (fun r => pip_portal r = 1) added
           /\ Forall (fun r => In r (portalips world_one_portal)
                               /\ pip_portal r = 1) gone
           /\ portalips wl
              = without PortalIpT gone (portalips world_one_portal) ++ added).
Proof.
  intros new_g old_g new_l old_l wg wl.
  assert (Kg : NoDup (map g_id (groups world_two_groups))).
  { cbn. constructor; [cbn; intros [H | []]; discriminate |].
    constructor; [intros [] | constructor]. }
  assert (Eg : target_save_groups 1 new_g old_g world_two_groups = (Ok tt, wg))
    by (vm_compute; reflexivity).
  assert (Kl : NoDup (map pip_id (portalips world_one_portal))).
  { cbn. constructor; [intros [] | constructor]. }
  assert (El : portal_save_listen 1 new_l old_l world_one_portal = (Ok tt, wl))
    by (vm_compute; reflexivity).
  split.
  - split; [exact Kg |]. split; [exact Eg |].
    split; [vm_compute; reflexivity |].
    exact (proj1 (proj2 (proj2 (C2_reconciliation_order world_two_groups 1)))
             new_g old_g wg Kg Eg).
  - split; [exact Kl |]. split; [exact El |].
    exact (proj2 (proj2 (proj2 (C2_reconciliation_order world_one_portal 1)))
             new_l old_l wl Kl El).
Defined.
